(* ===== verification/_CoqProject ===== *)
-Q . S2P
Prelude.v
Types.v
Base64.v
Acl.v
WsFrame.v
Http.v
Raw.v
Resp.v
Digest.v
Uri.v
Json.v
JsonLoad.v
JsonReply.v
Msgpack.v
World.v
Sds.v
SdsRefine.v
Dict.v
Conf.v
Hashtable.v
HashtableRefine.v
Value.v
ValueRefine.v
Slog.v
Pool.v
Formatted.v
Cmd.v
Format.v
Hiredis.v
Replies.v
Client.v
Parser.v
Pieces.v
Feed.v
Parse.v
WebSocket.v
WsExec.v
Worker.v
Events.v
WsStream.v
Hazards.v
Request.v
Serve.v
Server.v
