(* ===== verification/Prelude.v ===== *)
(** * Webdis: a verification library

    Webdis is an HTTP and WebSocket server in front of Redis. This library translates
    its C code (and the libraries shipped with it that the server runs) into executable
    definitions and proves what the server promises: which bytes become which commands,
    who may run them, that every reply reaches the client that asked, what the bytes on
    the wire are, and that the event loop never calls back into freed memory.

    ** The program and its model

    A server process (src/server.c) reads its configuration (src/conf.c), accepts
    connections and deals them to worker threads (src/worker.c). A worker owns an event
    loop, its HTTP clients (src/client.c), its WebSocket clients (src/websocket.c), a pool of
    connections to Redis (src/pool.c over hiredis/async.c) and the commands that wait
    for a reply (src/cmd.c). Bytes of a client go through the HTTP parser
    (http-parser/http_parser.c), whose callbacks fill the client; a complete request becomes
    a command ([cmd_run]), is checked against the access control lists (src/acl.c) and
    sent to Redis with a formatting function (src/formats) as its callback; the callback
    turns the reply into an HTTP response (src/http.c) or a WebSocket frame and frees the
    command.

    The workers share no state that the model needs, so [World.world] is the state of
    one worker: a finite map per type of heap object, the pool, the events registered
    with the loop, and a trace of what the outside sees (responses, raw writes, log
    lines, commands to Redis, closed descriptors). Functions are in the monad [World.M],
    which threads the world and stops at a fault: use after free, a null pointer, an
    access out of bounds, a failed assertion, no fuel. A call of the operating system is an
    input or a stream of answers in the world, so every outcome is covered. Components
    that keep no shared state (parsers, printers, digests, strings, tables) are pure
    functions on their structures.

    ** Files

    - [Prelude]: bytes, C strings, numbers in bases, machine-width integers, scopes,
      hint databases and tactics.
    - [Types]: the structures of the headers under src/.
    - [Base64], [Digest]: b64/cencode.c, sha1/sha1.c, md5/md5.c.
    - [Json], [JsonLoad]: the value, printer, UTF-8 and parser code of jansson.
    - [Resp], [Formatted]: the protocol reader of hiredis/read.c, the command formatters of
      hiredis/hiredis.c and the scan of a command's text in hiredis/async.c.
    - [Sds] and [SdsRefine]: the strings of hiredis/sds.c on raw buffers. [Dict]: the
      hash tables of hiredis/dict.c.
    - [Conf]: conf.c. [Slog]: slog.c. [Hashtable] and [HashtableRefine]: the hash tables of
      jansson/src/hashtable.c and lookup3.h.
    - [Acl]: acl.c. [Uri]: the URL arithmetic of cmd.c. [Http]: http.c.
      [WsFrame]: frames of websocket.c. [Raw], [JsonReply], [Msgpack]: the formatters.
    - [World]: the store, the monad and the defaults of conf.c.
    - [Pool]: pool.c and the sending half of hiredis/async.c. [Cmd]: cmd.c.
      [Format]: formats/common.c and the reply callbacks. [Hiredis]: the receiving and
      disconnecting half of hiredis/async.c. [Client]: client.c, the canned responses
      of http.c and [worker_process_client]. [WebSocket]: the rest of websocket.c.
      [Worker]: worker.c, and the event loop as the step relation [Worker.reachable].
      [Server]: server.c and the pipes to the workers.
    - [Parser]: http_parser.c, state by state. [Pieces], [Feed]: its input in pieces.
      [Parse]: requests.
    - [Replies], [Request], [Serve], [WsExec], [WsStream], [Events]: the properties that
      span components. [Hazards]: executions of the worker that go wrong.

    Interfaces are type classes: [AsyncDisconnect] (what [cmd_free] asks of hiredis,
    whose callbacks call [cmd_free] again; implemented in [Hiredis]), [HttpParser] (the
    callbacks the HTTP parser makes; implemented by [Parser.execute]), [Packer] (the
    encoding of the msgpack library), [Resp.Strtod] (which texts the C library reads as
    doubles), [Conf.Host] (files, environment, users). The last three stand for code
    outside the repository.

    ** What the theorems show

    - From bytes to Redis: [request_to_redis] runs the handler of the event loop on a
      request that arrives in any pieces, through the parser, its callbacks, the access
      control and the pool, up to the command handed to hiredis or the one response;
      [http_request_outcome], [cmd_run_outcome], [cmd_run_roundtrip] are its parts, from the
      complete message and from the URL on.
    - The parser: [requests_parsed] (it reads back what a client writes), [parser_pieces]
      (the cuts do not matter).
    - Access control: [acl_last_rule_decides] (the loop over the lists is the last
      verdict), [conf_acl_matches] (a rule of the file matches the clients it describes),
      [ws_execute_outcome] (no command of a client without permission is sent over a
      WebSocket either).
    - Replies: [replies_in_order], [connection_lost], [dedicated_connection_closed]:
      each command gets its own reply, or an error when the connection breaks, once.
    - The pool: [pool_invariant], [pool_connect_commands]. The server: [server_deals].
    - Memory: [no_dangling_events], for every reachable state of a worker.
    - WebSocket: [ws_handshake] (the accept key of RFC 6455), [ws_frame_roundtrip],
      [ws_peek_complete], [ws_frames_in_order].
    - hiredis: [reader_pieces], [reader_roundtrip], [command_roundtrip] for the protocol;
      [async_command_text] and [format_command_words] for the text of commands;
      [sds_refines] (strings are byte strings, under any allocator, across every change of
      header) and [dict_refines] (tables are finite maps, across every growth).
    - jansson: [json_roundtrip] and [json_reply_is_json] for its text, [hashtable_refines]
      for its tables (the linked lists and buckets are the list of the members).
    - Formats: round trips of HTTP responses and chunks, JSON, the raw and MessagePack
      formats; [http_write_loop_delivers]: what a socket accepts piece by piece is the whole
      response; [conf_read_settings]; [slog_line_fits]; [sha1_refines], [md5_refines]
      and [base64_encode_refines] against the definitions of the standards.

    ** Fuel

    Loops that are not structural carry fuel computed from their input: the digits of a
    number from its logarithm ([digits_unfold]), the JSON parser and the RESP reader from
    the bytes to read (a step consumes at least one), frames from the bytes in the buffer
    and the allocations left to fail, the queues of hiredis from their lengths, the growth of
    a buffer or a table by doubling from the width of its size. Running out is the fault
    [OutOfFuel]; the theorems that a function returns show that it does not happen.

    ** Not modelled

    - System calls and what only makes them: listening sockets, the daemon, signals, the pid
      file (server.c, webdis.c), sockets of hiredis (net.c), TLS (ssl.c and the [HAVE_SSL]
      blocks). Their results are inputs.
    - Libraries outside the repository: the encoding of msgpack, libevent (the event loop is
      the order of the steps), [strtod].
    - Code that the server does not call: synchronous contexts of hiredis, timeouts and push
      replies of async.c, pack_unpack.c and other entry points of jansson.
    - Memory of strings and responses: their allocations succeed, except where the code tests
      them (clients, commands, contexts, [Sds], [Dict], [Hashtable]); freeing is modelled for the objects of
      [World], whose addresses are kept after it.
    - The order in which a table of subscriptions is run through when its connection is
      freed follows the list of subscriptions and not the hashes of the channels. *)
From Stdlib Require Export ZArith Lia String Strings.Byte.
From stdpp Require Export base numbers strings gmap list.

Local Open Scope Z_scope.

(** ** Scope, hint databases, tactics *)

Declare Scope webdis_scope.
Delimit Scope webdis_scope with webdis.

Create HintDb webdis.
Create HintDb len.

(** Case analysis on every [if]/[match] scrutinee of the goal. *)
Ltac split_match :=
  repeat match goal with
         | |- context [ match ?x with _ => _ end ] =>
             lazymatch x with
             | context [ match _ with _ => _ end ] => fail
             | _ => destruct x eqn:?
             end
         end.

(** Turns boolean comparisons in the context into propositions. *)
Ltac bool_to_prop :=
  repeat match goal with
         | H : (_ && _)%bool = true |- _ => apply andb_true_iff in H as [? ?]
         | H : (_ || _)%bool = false |- _ => apply orb_false_iff in H as [? ?]
         | H : negb _ = true |- _ => apply negb_true_iff in H
         | H : negb _ = false |- _ => apply negb_false_iff in H
         | H : (_ <? _) = true |- _ => apply Z.ltb_lt in H
         | H : (_ <? _) = false |- _ => apply Z.ltb_ge in H
         | H : (_ <=? _) = true |- _ => apply Z.leb_le in H
         | H : (_ <=? _) = false |- _ => apply Z.leb_gt in H
         | H : (_ =? _) = true |- _ => apply Z.eqb_eq in H
         | H : (_ =? _) = false |- _ => apply Z.eqb_neq in H
         | H : (_ =? _)%nat = true |- _ => apply Nat.eqb_eq in H
         | H : (_ =? _)%nat = false |- _ => apply Nat.eqb_neq in H
         | H : (_ <? _)%nat = true |- _ => apply Nat.ltb_lt in H
         | H : (_ <? _)%nat = false |- _ => apply Nat.ltb_ge in H
         | H : (_ <=? _)%nat = true |- _ => apply Nat.leb_le in H
         | H : (_ <=? _)%nat = false |- _ => apply Nat.leb_gt in H
         end.

(** A closed decidable proposition holds by evaluation. *)
Ltac by_decide :=
  lazymatch goal with |- ?P => apply (bool_decide_unpack P); vm_compute; exact I end.

(** Normalises list lengths with the [len] database, then [lia]. *)
Ltac len := autorewrite with len in *; simpl in *; lia.

#[export] Hint Rewrite @length_app @length_take @length_drop @length_replicate
  @length_insert @length_fmap @length_reverse : len.

(** ** Bytes

    A [char] buffer of known size is a [list byte]; a [char] is read as the
    unsigned value of its byte, which is how every test of the sources that
    depends on the value (tables, ranges, masks) reads it. *)

#[global] Instance byte_eq_dec : EqDecision byte := Byte.byte_eq_dec.

Abbreviation bytes := (list byte).

Definition lit (s : string) : bytes := String.list_byte_of_string s.
Arguments lit s%_string.

Definition Z_of_byte (b : byte) : Z := Z.of_N (Byte.to_N b).

Definition byte_of_Z (z : Z) : byte :=
  match Byte.of_N (Z.to_N (z mod 256)) with
  | Some b => b
  | None => x00
  end.

Lemma Z_of_byte_range b : 0 <= Z_of_byte b < 256.
Proof. unfold Z_of_byte. pose proof (Byte.to_N_bounded b). lia. Qed.

Lemma byte_of_Z_of_byte b : byte_of_Z (Z_of_byte b) = b.
Proof. destruct b; reflexivity. Qed.

Lemma byte_of_Z_eq z b : z = Z_of_byte b -> byte_of_Z z = b.
Proof. intros ->. apply byte_of_Z_of_byte. Qed.

Lemma Z_of_byte_of_Z z : Z_of_byte (byte_of_Z z) = z mod 256.
Proof.
  unfold byte_of_Z, Z_of_byte.
  pose proof (Z.mod_pos_bound z 256 ltac:(lia)) as Hb.
  destruct (Byte.of_N (Z.to_N (z mod 256))) as [b|] eqn:E.
  - apply Byte.to_of_N in E. rewrite E. lia.
  - apply Byte.of_N_None_iff in E. lia.
Qed.

Lemma Z_of_byte_inj a b : Z_of_byte a = Z_of_byte b -> a = b.
Proof. intros H. rewrite <-(byte_of_Z_of_byte a), H. apply byte_of_Z_of_byte. Qed.

Lemma byte_eqb_eq a b : Byte.eqb a b = true <-> a = b.
Proof.
  split; [apply Byte.byte_dec_bl | apply Byte.byte_dec_lb].
Qed.

Lemma byte_eqb_neq a b : Byte.eqb a b = false <-> a <> b.
Proof. rewrite <-byte_eqb_eq. destruct (Byte.eqb a b); intuition congruence. Qed.

Lemma byte_eqb_refl a : Byte.eqb a a = true.
Proof. by apply byte_eqb_eq. Qed.

(** A boolean property of a byte holds for all bytes once it is checked on the
    256 values: the proof is one evaluation. *)
Definition all_bytes : list byte := map (fun n => byte_of_Z (Z.of_nat n)) (seq 0 256).

Lemma all_bytes_complete b : b ∈ all_bytes.
Proof.
  apply list_elem_of_In, in_map_iff. exists (Z.to_nat (Z_of_byte b)).
  pose proof (Z_of_byte_range b). split.
  - rewrite Z2Nat.id by lia. apply byte_of_Z_of_byte.
  - apply in_seq. lia.
Qed.

Lemma forall_byte (P : byte -> bool) : forallb P all_bytes = true -> forall b, P b = true.
Proof.
  intros H b. rewrite forallb_forall in H. apply H.
  apply list_elem_of_In, all_bytes_complete.
Qed.

(** The same for the integers below a bound. *)
Lemma forall_below (n : Z) (P : Z -> bool) :
  forallb P (seqZ 0 n) = true -> forall d, 0 <= d < n -> P d = true.
Proof.
  intros H d Hd. rewrite forallb_forall in H. apply H.
  apply list_elem_of_In, elem_of_seqZ. lia.
Qed.

(** ** Machine integers *)

Definition wrap_u (w z : Z) : Z := z mod 2 ^ w.
Definition wrap_s (w z : Z) : Z := (z + 2 ^ (w - 1)) mod 2 ^ w - 2 ^ (w - 1).

Abbreviation u16 := (wrap_u 16).
Abbreviation u32 := (wrap_u 32).
Abbreviation u64 := (wrap_u 64).
Abbreviation i32 := (wrap_s 32).
Abbreviation i64 := (wrap_s 64).

Lemma wrap_u_range w z : 0 <= w -> 0 <= wrap_u w z < 2 ^ w.
Proof. intros. apply Z.mod_pos_bound. lia. Qed.

Lemma wrap_u_small w z : 0 <= z < 2 ^ w -> wrap_u w z = z.
Proof. apply Z.mod_small. Qed.

Lemma wrap_s_range w z : 0 < w -> - 2 ^ (w - 1) <= wrap_s w z < 2 ^ (w - 1).
Proof.
  intros Hw. unfold wrap_s.
  assert (2 ^ w = 2 * 2 ^ (w - 1)) as E.
  { rewrite <-Z.pow_succ_r by lia. f_equal. lia. }
  pose proof (Z.mod_pos_bound (z + 2 ^ (w - 1)) (2 ^ w) ltac:(lia)). lia.
Qed.

Lemma wrap_s_small w z : 0 < w -> - 2 ^ (w - 1) <= z < 2 ^ (w - 1) -> wrap_s w z = z.
Proof.
  intros Hw Hz. unfold wrap_s.
  assert (2 ^ w = 2 * 2 ^ (w - 1)) as E.
  { rewrite <-Z.pow_succ_r by lia. f_equal. lia. }
  rewrite Z.mod_small by lia. lia.
Qed.

(** Disjoint bit fields: [or] is addition. *)
Lemma lor_shiftl_add a b n : 0 <= n -> 0 <= b < 2 ^ n -> Z.lor (Z.shiftl a n) b = a * 2 ^ n + b.
Proof.
  intros Hn Hb. rewrite <-Z.shiftl_mul_pow2 by lia.
  assert (Z.land (Z.shiftl a n) b = 0) as E; [|by rewrite Z.add_nocarry_lxor, Z.lxor_lor].
  apply Z.bits_inj'. intros i Hi. rewrite Z.land_spec, Z.bits_0.
  destruct (Z.lt_ge_cases i n); [by rewrite Z.shiftl_spec_low by lia|].
  destruct (Z.eq_dec b 0) as [->|Hne]; [by rewrite Z.bits_0, andb_false_r|].
  rewrite (Z.bits_above_log2 b i); [apply andb_false_r|lia|].
  apply Z.lt_le_trans with n; [apply Z.log2_lt_pow2; lia|done].
Qed.

(** ** Byte order

    The host is little-endian, as in the branch of the sources compiled for it:
    [htons], [ntohl] and the [webdis_ntohll] macro swap bytes. *)

Fixpoint le_bytes (n : nat) (z : Z) : bytes :=
  match n with
  | O => []
  | S n' => byte_of_Z z :: le_bytes n' (z / 256)
  end.

Fixpoint le_value (l : bytes) : Z :=
  match l with
  | [] => 0
  | b :: l' => Z_of_byte b + 256 * le_value l'
  end.

Definition be_bytes (n : nat) (z : Z) : bytes := reverse (le_bytes n z).
Definition be_value (l : bytes) : Z := le_value (reverse l).

(** Reading an [n]-byte integer as the host wrote it, then swapping it. *)
Definition bswap (n : nat) (z : Z) : Z := be_value (le_bytes n z).

Abbreviation ntohl := (bswap 4).
Abbreviation ntohs := (bswap 2).
Abbreviation htons := (bswap 2).

Lemma length_le_bytes n z : length (le_bytes n z) = n.
Proof. revert z. induction n; simpl; auto. Qed.

Lemma length_be_bytes n z : length (be_bytes n z) = n.
Proof. unfold be_bytes. by rewrite length_reverse, length_le_bytes. Qed.

#[export] Hint Rewrite length_le_bytes length_be_bytes : len.

Lemma le_value_range l : 0 <= le_value l < 256 ^ Z.of_nat (length l).
Proof.
  induction l as [|b l IH]; [simpl; lia|]. cbn [le_value length].
  rewrite Nat2Z.inj_succ, Z.pow_succ_r by lia. pose proof (Z_of_byte_range b). lia.
Qed.

Lemma le_value_bytes n z : le_value (le_bytes n z) = z mod 256 ^ Z.of_nat n.
Proof.
  revert z. induction n as [|n IH]; intros z; cbn [le_bytes le_value].
  - by rewrite Z.mod_1_r.
  - rewrite IH, Z_of_byte_of_Z, Nat2Z.inj_succ, Z.pow_succ_r by lia.
    rewrite Z.rem_mul_r by lia. done.
Qed.

Lemma le_bytes_value l : le_bytes (length l) (le_value l) = l.
Proof.
  induction l as [|b l IH]; [done|]. cbn [le_bytes le_value length].
  pose proof (Z_of_byte_range b). f_equal.
  - apply Z_of_byte_inj. rewrite Z_of_byte_of_Z, Z.mul_comm, Z_mod_plus_full.
    apply Z.mod_small. lia.
  - rewrite Z.mul_comm, Z.div_add, Z.div_small by lia. apply IH.
Qed.

Lemma be_value_bytes n z : be_value (be_bytes n z) = z mod 256 ^ Z.of_nat n.
Proof. unfold be_value, be_bytes. by rewrite reverse_involutive, le_value_bytes. Qed.

Lemma be_value_range l : 0 <= be_value l < 256 ^ Z.of_nat (length l).
Proof. unfold be_value. rewrite <-(length_reverse l). apply le_value_range. Qed.

(** The swapped value, stored in host order, is the big-endian encoding; and a
    big-endian encoding read in host order and swapped is the value. *)
Lemma le_bytes_bswap n z : le_bytes n (bswap n z) = be_bytes n z.
Proof.
  unfold bswap, be_value, be_bytes.
  rewrite <-(length_le_bytes n z) at 1. rewrite <-(length_reverse (le_bytes n z)).
  apply le_bytes_value.
Qed.

Lemma le_bytes_app n m z :
  le_bytes (n + m) z = le_bytes n z ++ le_bytes m (z / 256 ^ Z.of_nat n).
Proof.
  revert z. induction n as [|n IH]; intros z; cbn [le_bytes Nat.add app].
  - by rewrite Z.div_1_r.
  - rewrite IH, Nat2Z.inj_succ, Z.pow_succ_r, Z.div_div by lia. done.
Qed.

Lemma le_bytes_mod n z : le_bytes n (z mod 256 ^ Z.of_nat n) = le_bytes n z.
Proof.
  rewrite <-le_value_bytes. rewrite <-(length_le_bytes n z) at 1. apply le_bytes_value.
Qed.

Lemma le_value_app l1 l2 :
  le_value (l1 ++ l2) = le_value l1 + 256 ^ Z.of_nat (length l1) * le_value l2.
Proof.
  induction l1 as [|b l1 IH]; cbn [app le_value length]; [rewrite Z.pow_0_r; lia|].
  rewrite IH, Nat2Z.inj_succ, Z.pow_succ_r by lia. lia.
Qed.

Lemma be_value_app l1 l2 :
  be_value (l1 ++ l2) = be_value l1 * 256 ^ Z.of_nat (length l2) + be_value l2.
Proof. unfold be_value. rewrite reverse_app, le_value_app, length_reverse. lia. Qed.

Lemma bswap_range n z : 0 <= bswap n z < 256 ^ Z.of_nat n.
Proof. unfold bswap. rewrite <-(length_le_bytes n z) at 3. apply be_value_range. Qed.

Lemma bswap_le_value n l : length l = n -> bswap n (le_value l) = be_value l.
Proof. intros <-. unfold bswap. by rewrite le_bytes_value. Qed.

(** ** C strings

    A NUL-terminated [char *] is represented by the bytes of its buffer; the
    C string it denotes is the part before the first NUL, the end of the list
    standing for the terminator the allocation added. *)

Fixpoint cstr (l : bytes) : bytes :=
  match l with
  | [] => []
  | c :: l' => if Byte.eqb c x00 then [] else c :: cstr l'
  end.

Definition strlen (l : bytes) : nat := length (cstr l).

Definition no_nul (l : bytes) : Prop := x00 ∉ l.

(** [tolower]/[toupper]/[isxdigit] of the C locale. *)
Definition tolower (c : byte) : byte :=
  let z := Z_of_byte c in if (65 <=? z) && (z <=? 90) then byte_of_Z (z + 32) else c.

Definition toupper (c : byte) : byte :=
  let z := Z_of_byte c in if (97 <=? z) && (z <=? 122) then byte_of_Z (z - 32) else c.

Definition isxdigit (c : byte) : bool :=
  let z := Z_of_byte c in
  ((48 <=? z) && (z <=? 57)) || ((65 <=? z) && (z <=? 70)) || ((97 <=? z) && (z <=? 102)).

Definition isdigit (c : byte) : bool :=
  let z := Z_of_byte c in (48 <=? z) && (z <=? 57).

(** [str(n)(case)cmp(a, b, n) == 0]: compares at most [n] characters and stops
    after a NUL common to both. [norm] is the identity or [tolower]. *)
Fixpoint strn_eq (norm : byte -> byte) (n : nat) (a b : bytes) : bool :=
  match n with
  | O => true
  | S n' =>
      let x := default x00 (head a) in
      let y := default x00 (head b) in
      if Byte.eqb (norm x) (norm y)
      then if Byte.eqb x x00 then true else strn_eq norm n' (tail a) (tail b)
      else false
  end.

Definition strncmp_eq (n : nat) (a b : bytes) : bool := strn_eq id n a b.
Definition strncasecmp_eq (n : nat) (a b : bytes) : bool := strn_eq tolower n a b.

(** [strcmp(a, b) == 0] and [strcasecmp(a, b) == 0]. *)
Definition bytes_eqb (a b : bytes) : bool := bool_decide (a = b).
Definition strcmp_eq (a b : bytes) : bool := bytes_eqb (cstr a) (cstr b).
Definition strcasecmp_eq (a b : bytes) : bool :=
  bytes_eqb (map tolower (cstr a)) (map tolower (cstr b)).

(** [memchr(l, c, n)] as the offset of the first match among the first [n]
    bytes. *)
Fixpoint memchr (c : byte) (n : nat) (l : bytes) : option nat :=
  match n, l with
  | S n', x :: l' => if Byte.eqb x c then Some O else S <$> memchr c n' l'
  | _, _ => None
  end.

#[global] Instance no_nul_dec l : Decision (no_nul l).
Proof. unfold no_nul. apply _. Defined.


Lemma cstr_no_nul l : no_nul (cstr l).
Proof.
  unfold no_nul. induction l as [|c l IH]; simpl; [set_solver|].
  destruct (Byte.eqb c x00) eqn:E; [set_solver|].
  apply byte_eqb_neq in E. set_solver.
Qed.

Lemma cstr_id l : no_nul l -> cstr l = l.
Proof.
  unfold no_nul. induction l as [|c l IH]; simpl; intros H; [done|].
  destruct (Byte.eqb c x00) eqn:E.
  - apply byte_eqb_eq in E. set_solver.
  - f_equal. apply IH. set_solver.
Qed.

Lemma cstr_app a b : no_nul a -> cstr (a ++ b) = a ++ cstr b.
Proof.
  unfold no_nul. induction a as [|c a IH]; simpl; intros H; [done|]. rewrite not_elem_of_cons in H.
  rewrite (proj2 (byte_eqb_neq c x00)) by naive_solver. f_equal. apply IH. tauto.
Qed.

Lemma cstr_prefix l : cstr l `prefix_of` l.
Proof.
  induction l as [|c l IH]; simpl; [done|].
  destruct (Byte.eqb c x00); [apply prefix_nil | by apply prefix_cons].
Qed.

Lemma prefix_elem {A} (x : A) l1 l2 : l1 `prefix_of` l2 -> x ∈ l1 -> x ∈ l2.
Proof. intros [k ->]. set_solver. Qed.

Lemma tolower_nul c : tolower c = x00 <-> c = x00.
Proof.
  split; [|by intros ->]. intros H.
  assert (implb (Byte.eqb (tolower c) x00) (Byte.eqb c x00) = true) as E.
  { revert c H. intros c _. revert c. apply forall_byte. vm_compute. reflexivity. }
  rewrite H in E. simpl in E. by apply byte_eqb_eq.
Qed.

Lemma tolower_idem c : tolower (tolower c) = tolower c.
Proof.
  apply byte_eqb_eq. revert c. apply forall_byte. vm_compute. reflexivity.
Qed.

Lemma bytes_eqb_eq a b : bytes_eqb a b = true <-> a = b.
Proof. apply bool_decide_eq_true. Qed.

(** [memchr] finds the first occurrence, or there is none in the range. *)
Lemma memchr_Some c n l i :
  memchr c n l = Some i ->
  (i < n)%nat /\ l !! i = Some c /\ c ∉ take i l.
Proof.
  revert l i. induction n as [|n IH]; intros [|x l] i; simpl; try discriminate.
  destruct (Byte.eqb x c) eqn:E.
  - intros [= <-]. apply byte_eqb_eq in E as ->. simpl. split; [lia|]. set_solver.
  - destruct (memchr c n l) as [j|] eqn:Hj; simpl; [|discriminate].
    intros [= <-]. destruct (IH _ _ Hj) as (H1 & H2 & H3).
    apply byte_eqb_neq in E. simpl. repeat split; [lia|done|]. set_solver.
Qed.

Lemma memchr_None c n l : memchr c n l = None <-> c ∉ take n l.
Proof.
  revert l. induction n as [|n IH]; intros [|x l]; simpl; try set_solver.
  destruct (Byte.eqb x c) eqn:E.
  - apply byte_eqb_eq in E as ->. set_solver.
  - apply byte_eqb_neq in E. rewrite fmap_None, IH. set_solver.
Qed.

Lemma memchr_app_here c n a b :
  c ∉ a -> (length a < n)%nat -> memchr c n (a ++ c :: b) = Some (length a).
Proof.
  revert n. induction a as [|x a IH]; intros [|n] Hc Hn; simpl in *; try lia.
  - by rewrite byte_eqb_refl.
  - destruct (Byte.eqb x c) eqn:E.
    + apply byte_eqb_eq in E. set_solver.
    + rewrite IH; [done|set_solver|lia].
Qed.

(** Two strings without NUL agree on their first [n] characters up to [norm]
    exactly when their truncations (terminator included) do. *)
Lemma strn_eq_spec norm n a b :
  (forall c, norm c = norm x00 <-> c = x00) -> no_nul a -> no_nul b ->
  strn_eq norm n a b = true <->
  map norm (take n (a ++ [x00])) = map norm (take n (b ++ [x00])).
Proof.
  intros Hnorm. unfold no_nul. revert a b.
  induction n as [|n IH]; intros a b Ha Hb; simpl; [done|].
  destruct a as [|x a], b as [|y b]; simpl.
  - rewrite !byte_eqb_refl, !take_nil. done.
  - destruct (Byte.eqb (norm x00) (norm y)) eqn:E.
    + apply byte_eqb_eq in E. symmetry in E. apply Hnorm in E. set_solver.
    + apply byte_eqb_neq in E. split; [done|]. intros [=]. done.
  - destruct (Byte.eqb (norm x) (norm x00)) eqn:E.
    + apply byte_eqb_eq in E. apply Hnorm in E. set_solver.
    + apply byte_eqb_neq in E. split; [done|]. intros [=]. done.
  - destruct (Byte.eqb (norm x) (norm y)) eqn:E.
    + apply byte_eqb_eq in E. destruct (Byte.eqb x x00) eqn:E0.
      * apply byte_eqb_eq in E0. set_solver.
      * rewrite IH by set_solver. rewrite E. split; [intros ->; done|by intros [=]].
    + apply byte_eqb_neq in E. split; [done|]. intros [=]. done.
Qed.

(** ** Printing numbers: the [%d], [%zu] and [%x] conversions of [sprintf] *)

Fixpoint digits_go (b : Z) (fuel : nat) (n : Z) : list Z :=
  match fuel with
  | O => []
  | S f => if n <? b then [n] else digits_go b f (n / b) ++ [n mod b]
  end.

(** Positional digits of [n >= 0], most significant first. One step divides by
    [b >= 2], so [log2 n + 1] steps are enough ([digits_unfold]). *)
Definition digits (b n : Z) : list Z := digits_go b (S (Z.to_nat (Z.log2 n))) n.

Definition undigits (b : Z) (ds : list Z) : Z := fold_left (fun a d => a * b + d) ds 0.

Definition digit_char (d : Z) : byte :=
  byte_of_Z (if d <? 10 then 48 + d else 87 + d).

Definition print_nat (n : Z) : bytes := map digit_char (digits 10 n).
Definition print_int (z : Z) : bytes := if z <? 0 then x2d :: print_nat (- z) else print_nat z.
Definition print_hex (n : Z) : bytes := map digit_char (digits 16 n).

Lemma log2_div_lt b n : 2 <= b -> b <= n -> Z.log2 (n / b) < Z.log2 n.
Proof.
  intros Hb Hn.
  assert (1 <= n / b) by (apply Z.div_le_lower_bound; lia).
  assert (n / b <= n / 2) by (apply Z.div_le_compat_l; lia).
  assert (Z.log2 (n / b) <= Z.log2 (n / 2)) by (apply Z.log2_le_mono; lia).
  assert (Z.log2 (n / 2) = Z.log2 n - 1); [|lia].
  change 2 with (2 ^ 1). rewrite <-Z.shiftr_div_pow2 by lia.
  rewrite Z.log2_shiftr by lia. pose proof (Z.log2_pos n). lia.
Qed.

Lemma digits_go_fuel b f n :
  2 <= b -> 0 <= n -> (Z.to_nat (Z.log2 n) < f)%nat ->
  digits_go b f n = digits b n.
Proof.
  intros Hb. unfold digits.
  assert (forall f g n, 0 <= n -> (Z.to_nat (Z.log2 n) < f)%nat ->
            (Z.to_nat (Z.log2 n) < g)%nat -> digits_go b f n = digits_go b g n) as H.
  { clear f n. induction f as [|f IH]; intros [|g] n Hn Hf Hg; try lia.
    simpl. destruct (n <? b) eqn:E; [done|]. bool_to_prop.
    pose proof (log2_div_lt b n Hb E). pose proof (Z.log2_nonneg (n / b)).
    rewrite (IH g); [done|apply Z.div_pos|..]; lia. }
  intros. apply H; lia.
Qed.

Lemma digits_unfold b n :
  2 <= b -> 0 <= n ->
  digits b n = if n <? b then [n] else digits b (n / b) ++ [n mod b].
Proof.
  intros Hb Hn. unfold digits at 1. cbn [digits_go].
  destruct (n <? b) eqn:E; [done|]. bool_to_prop.
  pose proof (log2_div_lt b n Hb E). pose proof (Z.log2_nonneg (n / b)).
  rewrite digits_go_fuel; [done|lia|apply Z.div_pos; lia|lia].
Qed.

(** Induction along the digits of a number. *)
Lemma digits_ind b (P : Z -> Prop) :
  2 <= b -> (forall n, 0 <= n < b -> P n) ->
  (forall n, b <= n -> P (n / b) -> P n) -> forall n, 0 <= n -> P n.
Proof.
  intros Hb H0 HS n Hn. revert n Hn. apply (Zlt_0_ind P). intros n IH Hn.
  destruct (Z.lt_ge_cases n b); [apply H0; lia|].
  apply HS; [done|]. apply IH. split; [apply Z.div_pos; lia|].
  apply Z.div_lt; lia.
Qed.

Lemma undigits_app b l d : undigits b (l ++ [d]) = undigits b l * b + d.
Proof. unfold undigits. by rewrite fold_left_app. Qed.

Lemma undigits_digits b n : 2 <= b -> 0 <= n -> undigits b (digits b n) = n.
Proof.
  intros Hb. revert n. apply (digits_ind b); [done|..]; intros n Hn.
  - rewrite digits_unfold by lia. rewrite (proj2 (Z.ltb_lt _ _)) by lia. done.
  - intros IH. rewrite digits_unfold by lia. rewrite (proj2 (Z.ltb_ge _ _)) by lia.
    rewrite undigits_app, IH. rewrite (Z.div_mod n b) at 3 by lia. lia.
Qed.

Lemma digits_range b n : 2 <= b -> 0 <= n -> Forall (fun d => 0 <= d < b) (digits b n).
Proof.
  intros Hb. revert n. apply (digits_ind b); [done|..]; intros n Hn.
  - rewrite digits_unfold by lia. rewrite (proj2 (Z.ltb_lt _ _)) by lia. auto.
  - intros IH. rewrite digits_unfold by lia. rewrite (proj2 (Z.ltb_ge _ _)) by lia.
    apply Forall_app; split; [done|]. constructor; [apply Z.mod_pos_bound; lia|done].
Qed.

Lemma digits_head n : 0 < n -> exists d ds, digits 10 n = d :: ds /\ 0 < d < 10.
Proof.
  intros Hn. assert (0 <= n) as H0 by lia. revert n H0 Hn.
  apply (digits_ind 10 (fun n => 0 < n -> exists d ds, digits 10 n = d :: ds /\ 0 < d < 10)); [lia|..].
  - intros n Hn Hp. rewrite digits_unfold, (proj2 (Z.ltb_lt n 10)) by lia. exists n, []. split; [done|lia].
  - intros n Hn IH _. rewrite digits_unfold, (proj2 (Z.ltb_ge n 10)) by lia.
    assert (1 <= n / 10) by (apply Z.div_le_lower_bound; lia).
    destruct IH as (d & ds & -> & Hd); [lia|]. exists d, (ds ++ [n mod 10]). split; [done|lia].
Qed.

Lemma digits_nonempty b n : digits b n <> [].
Proof. unfold digits. cbn [digits_go]. destruct (n <? b); [done|]. by destruct (digits_go _ _ _). Qed.

(** ** Reading numbers back *)

Definition digit_val (c : byte) : option Z :=
  let z := Z_of_byte c in
  if (48 <=? z) && (z <=? 57) then Some (z - 48)
  else if (97 <=? z) && (z <=? 102) then Some (z - 87)
  else if (65 <=? z) && (z <=? 70) then Some (z - 55)
  else None.

Definition parse_digits (b : Z) (l : bytes) : option Z :=
  match l with
  | [] => None
  | _ => undigits b <$> mapM (fun c => d ← digit_val c; if d <? b then Some d else None) l
  end.

Lemma digit_val_char d : 0 <= d < 16 -> digit_val (digit_char d) = Some d.
Proof.
  intros H. apply (bool_decide_eq_true (digit_val (digit_char d) = Some d)).
  revert d H. apply forall_below. vm_compute. reflexivity.
Qed.

Lemma parse_digits_print b n :
  2 <= b <= 16 -> 0 <= n -> parse_digits b (map digit_char (digits b n)) = Some n.
Proof.
  intros Hb Hn. pose proof (digits_range b n ltac:(lia) Hn) as Hr.
  pose proof (digits_nonempty b n). rewrite <-(undigits_digits b n) at 2 by lia.
  unfold parse_digits. destruct (digits b n) as [|d ds] eqn:E; [done|].
  rewrite <-E in *. destruct (map digit_char (digits b n)) eqn:E2; [by rewrite E in E2|].
  rewrite <-E2. clear E E2 H Hn.
  assert (mapM (fun c => d ← digit_val c; if d <? b then Some d else None)
            (map digit_char (digits b n)) = Some (digits b n)) as ->; [|done].
  induction Hr as [|x ds' Hx Hds IH]; [done|]. simpl.
  rewrite digit_val_char by lia. simpl. rewrite (proj2 (Z.ltb_lt _ _)) by lia.
  simpl. by rewrite IH.
Qed.

Lemma print_nat_nonneg_digits n : 0 <= n -> Forall (fun c => isdigit c = true) (print_nat n).
Proof.
  intros Hn. unfold print_nat. apply Forall_map.
  eapply Forall_impl; [apply (digits_range 10 n); lia|]. intros d Hd. cbv beta in *.
  revert d Hd. apply forall_below. vm_compute. reflexivity.
Qed.
