(* ===== verification/Types.v ===== *)
(** * The structures of the program

    One record per [struct] of the headers under src/, with the source's field
    names behind a short prefix. A pointer that may be [NULL] is an [option]; a
    pointer to a shared, mutable object is a location of the store ([World]); a
    buffer with its size field is the list of its bytes; an [int] or [char] used
    as a flag is a [bool]. *)
From S2P Require Import Prelude.

Local Open Scope Z_scope.

(** Locations of heap objects. *)
Abbreviation loc := positive.

(** ** Access control (acl.h) *)

(** [struct acl]; [next] is the rest of the list the ACL is in, and an
    [acl_commands] is the list of its commands. *)
Record acl := mk_acl {
  acl_cidr_enabled : bool;
  acl_cidr_subnet : Z;
  acl_cidr_mask : Z;
  acl_http_basic_auth : option bytes;
  acl_enabled : list bytes;
  acl_disabled : list bytes }.

Definition set_acl_cidr_enabled (v : bool) (x : acl) : acl :=
  mk_acl v (acl_cidr_subnet x) (acl_cidr_mask x) (acl_http_basic_auth x) (acl_enabled x)
    (acl_disabled x).
Definition set_acl_cidr_subnet (v : Z) (x : acl) : acl :=
  mk_acl (acl_cidr_enabled x) v (acl_cidr_mask x) (acl_http_basic_auth x) (acl_enabled x)
    (acl_disabled x).
Definition set_acl_cidr_mask (v : Z) (x : acl) : acl :=
  mk_acl (acl_cidr_enabled x) (acl_cidr_subnet x) v (acl_http_basic_auth x) (acl_enabled x)
    (acl_disabled x).
Definition set_acl_http_basic_auth (v : option bytes) (x : acl) : acl :=
  mk_acl (acl_cidr_enabled x) (acl_cidr_subnet x) (acl_cidr_mask x) v (acl_enabled x)
    (acl_disabled x).
Definition set_acl_enabled (v : list bytes) (x : acl) : acl :=
  mk_acl (acl_cidr_enabled x) (acl_cidr_subnet x) (acl_cidr_mask x) (acl_http_basic_auth x) v
    (acl_disabled x).
Definition set_acl_disabled (v : list bytes) (x : acl) : acl :=
  mk_acl (acl_cidr_enabled x) (acl_cidr_subnet x) (acl_cidr_mask x) (acl_http_basic_auth x)
    (acl_enabled x) v.

(** ** Logging levels (slog.h) *)

Inductive log_fsync_mode := LOG_FSYNC_AUTO | LOG_FSYNC_MILLIS | LOG_FSYNC_ALL.

Definition WEBDIS_ERROR : Z := 0.
Definition WEBDIS_WARNING : Z := 1.
Definition WEBDIS_NOTICE : Z := 2.
Definition WEBDIS_INFO : Z := 3.
Definition WEBDIS_DEBUG : Z := 4.
Definition WEBDIS_TRACE : Z := 8.

(** ** Configuration (conf.h) *)

(** [struct auth]. *)
Record auth := mk_auth {
  auth_use_legacy_auth : bool;
  auth_username : option bytes;
  auth_password : option bytes }.

(** [struct conf], without the [HAVE_SSL] block. *)
Record conf := mk_conf {
  cfg_redis_host : bytes;
  cfg_redis_port : Z;
  cfg_redis_auth : option auth;
  cfg_http_host : bytes;
  cfg_http_port : Z;
  cfg_http_threads : Z;
  cfg_http_max_request_size : Z;
  cfg_pool_size_per_thread : Z;
  cfg_daemonize : bool;
  cfg_pidfile : bytes;
  cfg_websockets : bool;
  cfg_database : Z;
  cfg_perms : list acl;
  cfg_user : Z;
  cfg_group : Z;
  cfg_logfile : bytes;
  cfg_verbosity : Z;
  cfg_log_fsync_mode : log_fsync_mode;
  cfg_log_fsync_period_millis : Z;
  cfg_hiredis_keep_alive_sec : Z;
  cfg_default_root : option bytes }.

Definition set_cfg_redis_host (v : bytes) (x : conf) : conf :=
  mk_conf v (cfg_redis_port x) (cfg_redis_auth x) (cfg_http_host x) (cfg_http_port x)
    (cfg_http_threads x) (cfg_http_max_request_size x) (cfg_pool_size_per_thread x)
    (cfg_daemonize x) (cfg_pidfile x) (cfg_websockets x) (cfg_database x) (cfg_perms x)
    (cfg_user x) (cfg_group x) (cfg_logfile x) (cfg_verbosity x) (cfg_log_fsync_mode x)
    (cfg_log_fsync_period_millis x) (cfg_hiredis_keep_alive_sec x) (cfg_default_root x).
Definition set_cfg_redis_port (v : Z) (x : conf) : conf :=
  mk_conf (cfg_redis_host x) v (cfg_redis_auth x) (cfg_http_host x) (cfg_http_port x)
    (cfg_http_threads x) (cfg_http_max_request_size x) (cfg_pool_size_per_thread x)
    (cfg_daemonize x) (cfg_pidfile x) (cfg_websockets x) (cfg_database x) (cfg_perms x)
    (cfg_user x) (cfg_group x) (cfg_logfile x) (cfg_verbosity x) (cfg_log_fsync_mode x)
    (cfg_log_fsync_period_millis x) (cfg_hiredis_keep_alive_sec x) (cfg_default_root x).
Definition set_cfg_redis_auth (v : option auth) (x : conf) : conf :=
  mk_conf (cfg_redis_host x) (cfg_redis_port x) v (cfg_http_host x) (cfg_http_port x)
    (cfg_http_threads x) (cfg_http_max_request_size x) (cfg_pool_size_per_thread x)
    (cfg_daemonize x) (cfg_pidfile x) (cfg_websockets x) (cfg_database x) (cfg_perms x)
    (cfg_user x) (cfg_group x) (cfg_logfile x) (cfg_verbosity x) (cfg_log_fsync_mode x)
    (cfg_log_fsync_period_millis x) (cfg_hiredis_keep_alive_sec x) (cfg_default_root x).
Definition set_cfg_http_host (v : bytes) (x : conf) : conf :=
  mk_conf (cfg_redis_host x) (cfg_redis_port x) (cfg_redis_auth x) v (cfg_http_port x)
    (cfg_http_threads x) (cfg_http_max_request_size x) (cfg_pool_size_per_thread x)
    (cfg_daemonize x) (cfg_pidfile x) (cfg_websockets x) (cfg_database x) (cfg_perms x)
    (cfg_user x) (cfg_group x) (cfg_logfile x) (cfg_verbosity x) (cfg_log_fsync_mode x)
    (cfg_log_fsync_period_millis x) (cfg_hiredis_keep_alive_sec x) (cfg_default_root x).
Definition set_cfg_http_port (v : Z) (x : conf) : conf :=
  mk_conf (cfg_redis_host x) (cfg_redis_port x) (cfg_redis_auth x) (cfg_http_host x) v
    (cfg_http_threads x) (cfg_http_max_request_size x) (cfg_pool_size_per_thread x)
    (cfg_daemonize x) (cfg_pidfile x) (cfg_websockets x) (cfg_database x) (cfg_perms x)
    (cfg_user x) (cfg_group x) (cfg_logfile x) (cfg_verbosity x) (cfg_log_fsync_mode x)
    (cfg_log_fsync_period_millis x) (cfg_hiredis_keep_alive_sec x) (cfg_default_root x).
Definition set_cfg_http_threads (v : Z) (x : conf) : conf :=
  mk_conf (cfg_redis_host x) (cfg_redis_port x) (cfg_redis_auth x) (cfg_http_host x)
    (cfg_http_port x) v (cfg_http_max_request_size x) (cfg_pool_size_per_thread x)
    (cfg_daemonize x) (cfg_pidfile x) (cfg_websockets x) (cfg_database x) (cfg_perms x)
    (cfg_user x) (cfg_group x) (cfg_logfile x) (cfg_verbosity x) (cfg_log_fsync_mode x)
    (cfg_log_fsync_period_millis x) (cfg_hiredis_keep_alive_sec x) (cfg_default_root x).
Definition set_cfg_http_max_request_size (v : Z) (x : conf) : conf :=
  mk_conf (cfg_redis_host x) (cfg_redis_port x) (cfg_redis_auth x) (cfg_http_host x)
    (cfg_http_port x) (cfg_http_threads x) v (cfg_pool_size_per_thread x) (cfg_daemonize x)
    (cfg_pidfile x) (cfg_websockets x) (cfg_database x) (cfg_perms x) (cfg_user x)
    (cfg_group x) (cfg_logfile x) (cfg_verbosity x) (cfg_log_fsync_mode x)
    (cfg_log_fsync_period_millis x) (cfg_hiredis_keep_alive_sec x) (cfg_default_root x).
Definition set_cfg_pool_size_per_thread (v : Z) (x : conf) : conf :=
  mk_conf (cfg_redis_host x) (cfg_redis_port x) (cfg_redis_auth x) (cfg_http_host x)
    (cfg_http_port x) (cfg_http_threads x) (cfg_http_max_request_size x) v (cfg_daemonize x)
    (cfg_pidfile x) (cfg_websockets x) (cfg_database x) (cfg_perms x) (cfg_user x)
    (cfg_group x) (cfg_logfile x) (cfg_verbosity x) (cfg_log_fsync_mode x)
    (cfg_log_fsync_period_millis x) (cfg_hiredis_keep_alive_sec x) (cfg_default_root x).
Definition set_cfg_daemonize (v : bool) (x : conf) : conf :=
  mk_conf (cfg_redis_host x) (cfg_redis_port x) (cfg_redis_auth x) (cfg_http_host x)
    (cfg_http_port x) (cfg_http_threads x) (cfg_http_max_request_size x)
    (cfg_pool_size_per_thread x) v (cfg_pidfile x) (cfg_websockets x) (cfg_database x)
    (cfg_perms x) (cfg_user x) (cfg_group x) (cfg_logfile x) (cfg_verbosity x)
    (cfg_log_fsync_mode x) (cfg_log_fsync_period_millis x) (cfg_hiredis_keep_alive_sec x)
    (cfg_default_root x).
Definition set_cfg_pidfile (v : bytes) (x : conf) : conf :=
  mk_conf (cfg_redis_host x) (cfg_redis_port x) (cfg_redis_auth x) (cfg_http_host x)
    (cfg_http_port x) (cfg_http_threads x) (cfg_http_max_request_size x)
    (cfg_pool_size_per_thread x) (cfg_daemonize x) v (cfg_websockets x) (cfg_database x)
    (cfg_perms x) (cfg_user x) (cfg_group x) (cfg_logfile x) (cfg_verbosity x)
    (cfg_log_fsync_mode x) (cfg_log_fsync_period_millis x) (cfg_hiredis_keep_alive_sec x)
    (cfg_default_root x).
Definition set_cfg_websockets (v : bool) (x : conf) : conf :=
  mk_conf (cfg_redis_host x) (cfg_redis_port x) (cfg_redis_auth x) (cfg_http_host x)
    (cfg_http_port x) (cfg_http_threads x) (cfg_http_max_request_size x)
    (cfg_pool_size_per_thread x) (cfg_daemonize x) (cfg_pidfile x) v (cfg_database x)
    (cfg_perms x) (cfg_user x) (cfg_group x) (cfg_logfile x) (cfg_verbosity x)
    (cfg_log_fsync_mode x) (cfg_log_fsync_period_millis x) (cfg_hiredis_keep_alive_sec x)
    (cfg_default_root x).
Definition set_cfg_database (v : Z) (x : conf) : conf :=
  mk_conf (cfg_redis_host x) (cfg_redis_port x) (cfg_redis_auth x) (cfg_http_host x)
    (cfg_http_port x) (cfg_http_threads x) (cfg_http_max_request_size x)
    (cfg_pool_size_per_thread x) (cfg_daemonize x) (cfg_pidfile x) (cfg_websockets x) v
    (cfg_perms x) (cfg_user x) (cfg_group x) (cfg_logfile x) (cfg_verbosity x)
    (cfg_log_fsync_mode x) (cfg_log_fsync_period_millis x) (cfg_hiredis_keep_alive_sec x)
    (cfg_default_root x).
Definition set_cfg_perms (v : list acl) (x : conf) : conf :=
  mk_conf (cfg_redis_host x) (cfg_redis_port x) (cfg_redis_auth x) (cfg_http_host x)
    (cfg_http_port x) (cfg_http_threads x) (cfg_http_max_request_size x)
    (cfg_pool_size_per_thread x) (cfg_daemonize x) (cfg_pidfile x) (cfg_websockets x)
    (cfg_database x) v (cfg_user x) (cfg_group x) (cfg_logfile x) (cfg_verbosity x)
    (cfg_log_fsync_mode x) (cfg_log_fsync_period_millis x) (cfg_hiredis_keep_alive_sec x)
    (cfg_default_root x).
Definition set_cfg_user (v : Z) (x : conf) : conf :=
  mk_conf (cfg_redis_host x) (cfg_redis_port x) (cfg_redis_auth x) (cfg_http_host x)
    (cfg_http_port x) (cfg_http_threads x) (cfg_http_max_request_size x)
    (cfg_pool_size_per_thread x) (cfg_daemonize x) (cfg_pidfile x) (cfg_websockets x)
    (cfg_database x) (cfg_perms x) v (cfg_group x) (cfg_logfile x) (cfg_verbosity x)
    (cfg_log_fsync_mode x) (cfg_log_fsync_period_millis x) (cfg_hiredis_keep_alive_sec x)
    (cfg_default_root x).
Definition set_cfg_group (v : Z) (x : conf) : conf :=
  mk_conf (cfg_redis_host x) (cfg_redis_port x) (cfg_redis_auth x) (cfg_http_host x)
    (cfg_http_port x) (cfg_http_threads x) (cfg_http_max_request_size x)
    (cfg_pool_size_per_thread x) (cfg_daemonize x) (cfg_pidfile x) (cfg_websockets x)
    (cfg_database x) (cfg_perms x) (cfg_user x) v (cfg_logfile x) (cfg_verbosity x)
    (cfg_log_fsync_mode x) (cfg_log_fsync_period_millis x) (cfg_hiredis_keep_alive_sec x)
    (cfg_default_root x).
Definition set_cfg_logfile (v : bytes) (x : conf) : conf :=
  mk_conf (cfg_redis_host x) (cfg_redis_port x) (cfg_redis_auth x) (cfg_http_host x)
    (cfg_http_port x) (cfg_http_threads x) (cfg_http_max_request_size x)
    (cfg_pool_size_per_thread x) (cfg_daemonize x) (cfg_pidfile x) (cfg_websockets x)
    (cfg_database x) (cfg_perms x) (cfg_user x) (cfg_group x) v (cfg_verbosity x)
    (cfg_log_fsync_mode x) (cfg_log_fsync_period_millis x) (cfg_hiredis_keep_alive_sec x)
    (cfg_default_root x).
Definition set_cfg_verbosity (v : Z) (x : conf) : conf :=
  mk_conf (cfg_redis_host x) (cfg_redis_port x) (cfg_redis_auth x) (cfg_http_host x)
    (cfg_http_port x) (cfg_http_threads x) (cfg_http_max_request_size x)
    (cfg_pool_size_per_thread x) (cfg_daemonize x) (cfg_pidfile x) (cfg_websockets x)
    (cfg_database x) (cfg_perms x) (cfg_user x) (cfg_group x) (cfg_logfile x) v
    (cfg_log_fsync_mode x) (cfg_log_fsync_period_millis x) (cfg_hiredis_keep_alive_sec x)
    (cfg_default_root x).
Definition set_cfg_log_fsync_mode (v : log_fsync_mode) (x : conf) : conf :=
  mk_conf (cfg_redis_host x) (cfg_redis_port x) (cfg_redis_auth x) (cfg_http_host x)
    (cfg_http_port x) (cfg_http_threads x) (cfg_http_max_request_size x)
    (cfg_pool_size_per_thread x) (cfg_daemonize x) (cfg_pidfile x) (cfg_websockets x)
    (cfg_database x) (cfg_perms x) (cfg_user x) (cfg_group x) (cfg_logfile x) (cfg_verbosity x)
    v (cfg_log_fsync_period_millis x) (cfg_hiredis_keep_alive_sec x) (cfg_default_root x).
Definition set_cfg_log_fsync_period_millis (v : Z) (x : conf) : conf :=
  mk_conf (cfg_redis_host x) (cfg_redis_port x) (cfg_redis_auth x) (cfg_http_host x)
    (cfg_http_port x) (cfg_http_threads x) (cfg_http_max_request_size x)
    (cfg_pool_size_per_thread x) (cfg_daemonize x) (cfg_pidfile x) (cfg_websockets x)
    (cfg_database x) (cfg_perms x) (cfg_user x) (cfg_group x) (cfg_logfile x) (cfg_verbosity x)
    (cfg_log_fsync_mode x) v (cfg_hiredis_keep_alive_sec x) (cfg_default_root x).
Definition set_cfg_hiredis_keep_alive_sec (v : Z) (x : conf) : conf :=
  mk_conf (cfg_redis_host x) (cfg_redis_port x) (cfg_redis_auth x) (cfg_http_host x)
    (cfg_http_port x) (cfg_http_threads x) (cfg_http_max_request_size x)
    (cfg_pool_size_per_thread x) (cfg_daemonize x) (cfg_pidfile x) (cfg_websockets x)
    (cfg_database x) (cfg_perms x) (cfg_user x) (cfg_group x) (cfg_logfile x) (cfg_verbosity x)
    (cfg_log_fsync_mode x) (cfg_log_fsync_period_millis x) v (cfg_default_root x).
Definition set_cfg_default_root (v : option bytes) (x : conf) : conf :=
  mk_conf (cfg_redis_host x) (cfg_redis_port x) (cfg_redis_auth x) (cfg_http_host x)
    (cfg_http_port x) (cfg_http_threads x) (cfg_http_max_request_size x)
    (cfg_pool_size_per_thread x) (cfg_daemonize x) (cfg_pidfile x) (cfg_websockets x)
    (cfg_database x) (cfg_perms x) (cfg_user x) (cfg_group x) (cfg_logfile x) (cfg_verbosity x)
    (cfg_log_fsync_mode x) (cfg_log_fsync_period_millis x) (cfg_hiredis_keep_alive_sec x) v.

(** ** The HTTP parser's state (http_parser.h) *)

(** [enum state]. *)
Inductive parser_state :=
| s_dead | s_start_req_or_res | s_res_or_resp_H | s_start_res | s_res_H | s_res_HT | s_res_HTT
| s_res_HTTP | s_res_first_http_major | s_res_http_major | s_res_first_http_minor
| s_res_http_minor | s_res_first_status_code | s_res_status_code | s_res_status
| s_res_line_almost_done | s_start_req | s_req_method | s_req_spaces_before_url | s_req_schema
| s_req_schema_slash | s_req_schema_slash_slash | s_req_host | s_req_port | s_req_path
| s_req_query_string_start | s_req_query_string | s_req_fragment_start | s_req_fragment
| s_req_http_start | s_req_http_H | s_req_http_HT | s_req_http_HTT | s_req_http_HTTP
| s_req_first_http_major | s_req_http_major | s_req_first_http_minor | s_req_http_minor
| s_req_line_almost_done | s_header_field_start | s_header_field | s_header_value_start
| s_header_value | s_header_almost_done | s_headers_almost_done | s_chunk_size_start | s_chunk_size
| s_chunk_size_almost_done | s_chunk_parameters | s_chunk_data | s_chunk_data_almost_done
| s_chunk_data_done | s_body_identity | s_body_identity_eof.

Inductive header_states :=
| h_general | h_C | h_CO | h_CON | h_matching_connection | h_matching_proxy_connection
| h_matching_content_length | h_matching_transfer_encoding | h_matching_upgrade | h_connection
| h_content_length | h_transfer_encoding | h_upgrade | h_matching_transfer_encoding_chunked
| h_matching_connection_keep_alive | h_matching_connection_close | h_transfer_encoding_chunked
| h_connection_keep_alive | h_connection_close.

(** [enum http_parser_type]. *)
Inductive parser_type := HTTP_REQUEST | HTTP_RESPONSE | HTTP_BOTH.

(** [struct http_parser]; its [data] is the client it belongs to. *)
Record http_parser := mk_http_parser {
  hp_type : parser_type;
  hp_flags : Z;
  hp_state : parser_state;
  hp_header_state : header_states;
  hp_index : Z;
  hp_nread : Z;
  hp_content_length : Z;
  hp_http_major : Z;
  hp_http_minor : Z;
  hp_status_code : Z;
  hp_method : Z;
  hp_upgrade : bool }.

Definition set_hp_type (v : parser_type) (x : http_parser) : http_parser :=
  mk_http_parser v (hp_flags x) (hp_state x) (hp_header_state x) (hp_index x) (hp_nread x)
    (hp_content_length x) (hp_http_major x) (hp_http_minor x) (hp_status_code x)
    (hp_method x) (hp_upgrade x).
Definition set_hp_flags (v : Z) (x : http_parser) : http_parser :=
  mk_http_parser (hp_type x) v (hp_state x) (hp_header_state x) (hp_index x) (hp_nread x)
    (hp_content_length x) (hp_http_major x) (hp_http_minor x) (hp_status_code x)
    (hp_method x) (hp_upgrade x).
Definition set_hp_state (v : parser_state) (x : http_parser) : http_parser :=
  mk_http_parser (hp_type x) (hp_flags x) v (hp_header_state x) (hp_index x) (hp_nread x)
    (hp_content_length x) (hp_http_major x) (hp_http_minor x) (hp_status_code x)
    (hp_method x) (hp_upgrade x).
Definition set_hp_header_state (v : header_states) (x : http_parser) : http_parser :=
  mk_http_parser (hp_type x) (hp_flags x) (hp_state x) v (hp_index x) (hp_nread x)
    (hp_content_length x) (hp_http_major x) (hp_http_minor x) (hp_status_code x)
    (hp_method x) (hp_upgrade x).
Definition set_hp_index (v : Z) (x : http_parser) : http_parser :=
  mk_http_parser (hp_type x) (hp_flags x) (hp_state x) (hp_header_state x) v (hp_nread x)
    (hp_content_length x) (hp_http_major x) (hp_http_minor x) (hp_status_code x)
    (hp_method x) (hp_upgrade x).
Definition set_hp_nread (v : Z) (x : http_parser) : http_parser :=
  mk_http_parser (hp_type x) (hp_flags x) (hp_state x) (hp_header_state x) (hp_index x) v
    (hp_content_length x) (hp_http_major x) (hp_http_minor x) (hp_status_code x)
    (hp_method x) (hp_upgrade x).
Definition set_hp_content_length (v : Z) (x : http_parser) : http_parser :=
  mk_http_parser (hp_type x) (hp_flags x) (hp_state x) (hp_header_state x) (hp_index x)
    (hp_nread x) v (hp_http_major x) (hp_http_minor x) (hp_status_code x) (hp_method x)
    (hp_upgrade x).
Definition set_hp_http_major (v : Z) (x : http_parser) : http_parser :=
  mk_http_parser (hp_type x) (hp_flags x) (hp_state x) (hp_header_state x) (hp_index x)
    (hp_nread x) (hp_content_length x) v (hp_http_minor x) (hp_status_code x) (hp_method x)
    (hp_upgrade x).
Definition set_hp_http_minor (v : Z) (x : http_parser) : http_parser :=
  mk_http_parser (hp_type x) (hp_flags x) (hp_state x) (hp_header_state x) (hp_index x)
    (hp_nread x) (hp_content_length x) (hp_http_major x) v (hp_status_code x) (hp_method x)
    (hp_upgrade x).
Definition set_hp_status_code (v : Z) (x : http_parser) : http_parser :=
  mk_http_parser (hp_type x) (hp_flags x) (hp_state x) (hp_header_state x) (hp_index x)
    (hp_nread x) (hp_content_length x) (hp_http_major x) (hp_http_minor x) v (hp_method x)
    (hp_upgrade x).
Definition set_hp_method (v : Z) (x : http_parser) : http_parser :=
  mk_http_parser (hp_type x) (hp_flags x) (hp_state x) (hp_header_state x) (hp_index x)
    (hp_nread x) (hp_content_length x) (hp_http_major x) (hp_http_minor x) (hp_status_code x)
    v (hp_upgrade x).
Definition set_hp_upgrade (v : bool) (x : http_parser) : http_parser :=
  mk_http_parser (hp_type x) (hp_flags x) (hp_state x) (hp_header_state x) (hp_index x)
    (hp_nread x) (hp_content_length x) (hp_http_major x) (hp_http_minor x) (hp_status_code x)
    (hp_method x) v.

(** The fields a client reads, of a parser between two messages. *)
Definition mk_parser (flags http_major http_minor method : Z) (upgrade : bool) : http_parser :=
  mk_http_parser HTTP_REQUEST flags s_start_req h_general 0 0 (-1) http_major http_minor 0 method upgrade.

(** [enum flags]. *)
Definition F_CHUNKED : Z := 1.
Definition F_CONNECTION_KEEP_ALIVE : Z := 2.
Definition F_CONNECTION_CLOSE : Z := 4.
Definition F_TRAILING : Z := 8.
Definition F_UPGRADE : Z := 16.
Definition F_SKIPBODY : Z := 32.

(** [enum http_method]. *)
Definition HTTP_DELETE : Z := 0.
Definition HTTP_GET : Z := 1.
Definition HTTP_HEAD : Z := 2.
Definition HTTP_POST : Z := 3.
Definition HTTP_PUT : Z := 4.
Definition HTTP_CONNECT : Z := 5.
Definition HTTP_OPTIONS : Z := 6.
Definition HTTP_TRACE : Z := 7.
Definition HTTP_COPY : Z := 8.
Definition HTTP_LOCK : Z := 9.
Definition HTTP_MKCOL : Z := 10.
Definition HTTP_MOVE : Z := 11.
Definition HTTP_PROPFIND : Z := 12.
Definition HTTP_PROPPATCH : Z := 13.
Definition HTTP_UNLOCK : Z := 14.
Definition HTTP_REPORT : Z := 15.
Definition HTTP_MKACTIVITY : Z := 16.
Definition HTTP_CHECKOUT : Z := 17.
Definition HTTP_MERGE : Z := 18.
Definition HTTP_MSEARCH : Z := 19.
Definition HTTP_NOTIFY : Z := 20.
Definition HTTP_SUBSCRIBE : Z := 21.
Definition HTTP_UNSUBSCRIBE : Z := 22.

(** ** HTTP clients (client.h) *)

Inductive last_cb_t := LAST_CB_NONE | LAST_CB_KEY | LAST_CB_VAL.

(** [struct http_header] of a request: the value is [NULL] until its callback. *)
Record req_header := mk_req_header {
  rh_key : bytes;
  rh_val : option bytes }.

(** [struct http_client]; [w] and [s] are the worker whose world this is. *)
Record http_client := mk_client {
  hc_fd : Z;
  hc_addr : Z;
  hc_parser : http_parser;
  hc_buffer : bytes;
  hc_request_sz : Z;
  hc_last_cb : last_cb_t;
  hc_keep_alive : bool;
  hc_broken : bool;
  hc_fully_read : bool;
  hc_is_websocket : bool;
  hc_http_version : Z;
  hc_failed_alloc : bool;
  hc_path : option bytes;
  hc_headers : list req_header;
  hc_body : option bytes;
  hc_type : option bytes;
  hc_jsonp : option bytes;
  hc_separator : option bytes;
  hc_filename : option bytes;
  hc_reused_cmd : option loc;
  hc_last_cmd : option loc;
  hc_ws : option loc }.

Definition set_hc_fd (v : Z) (x : http_client) : http_client :=
  mk_client v (hc_addr x) (hc_parser x) (hc_buffer x) (hc_request_sz x) (hc_last_cb x)
    (hc_keep_alive x) (hc_broken x) (hc_fully_read x) (hc_is_websocket x) (hc_http_version x)
    (hc_failed_alloc x) (hc_path x) (hc_headers x) (hc_body x) (hc_type x) (hc_jsonp x)
    (hc_separator x) (hc_filename x) (hc_reused_cmd x) (hc_last_cmd x) (hc_ws x).
Definition set_hc_addr (v : Z) (x : http_client) : http_client :=
  mk_client (hc_fd x) v (hc_parser x) (hc_buffer x) (hc_request_sz x) (hc_last_cb x)
    (hc_keep_alive x) (hc_broken x) (hc_fully_read x) (hc_is_websocket x) (hc_http_version x)
    (hc_failed_alloc x) (hc_path x) (hc_headers x) (hc_body x) (hc_type x) (hc_jsonp x)
    (hc_separator x) (hc_filename x) (hc_reused_cmd x) (hc_last_cmd x) (hc_ws x).
Definition set_hc_parser (v : http_parser) (x : http_client) : http_client :=
  mk_client (hc_fd x) (hc_addr x) v (hc_buffer x) (hc_request_sz x) (hc_last_cb x)
    (hc_keep_alive x) (hc_broken x) (hc_fully_read x) (hc_is_websocket x) (hc_http_version x)
    (hc_failed_alloc x) (hc_path x) (hc_headers x) (hc_body x) (hc_type x) (hc_jsonp x)
    (hc_separator x) (hc_filename x) (hc_reused_cmd x) (hc_last_cmd x) (hc_ws x).
Definition set_hc_buffer (v : bytes) (x : http_client) : http_client :=
  mk_client (hc_fd x) (hc_addr x) (hc_parser x) v (hc_request_sz x) (hc_last_cb x)
    (hc_keep_alive x) (hc_broken x) (hc_fully_read x) (hc_is_websocket x) (hc_http_version x)
    (hc_failed_alloc x) (hc_path x) (hc_headers x) (hc_body x) (hc_type x) (hc_jsonp x)
    (hc_separator x) (hc_filename x) (hc_reused_cmd x) (hc_last_cmd x) (hc_ws x).
Definition set_hc_request_sz (v : Z) (x : http_client) : http_client :=
  mk_client (hc_fd x) (hc_addr x) (hc_parser x) (hc_buffer x) v (hc_last_cb x)
    (hc_keep_alive x) (hc_broken x) (hc_fully_read x) (hc_is_websocket x) (hc_http_version x)
    (hc_failed_alloc x) (hc_path x) (hc_headers x) (hc_body x) (hc_type x) (hc_jsonp x)
    (hc_separator x) (hc_filename x) (hc_reused_cmd x) (hc_last_cmd x) (hc_ws x).
Definition set_hc_last_cb (v : last_cb_t) (x : http_client) : http_client :=
  mk_client (hc_fd x) (hc_addr x) (hc_parser x) (hc_buffer x) (hc_request_sz x) v
    (hc_keep_alive x) (hc_broken x) (hc_fully_read x) (hc_is_websocket x) (hc_http_version x)
    (hc_failed_alloc x) (hc_path x) (hc_headers x) (hc_body x) (hc_type x) (hc_jsonp x)
    (hc_separator x) (hc_filename x) (hc_reused_cmd x) (hc_last_cmd x) (hc_ws x).
Definition set_hc_keep_alive (v : bool) (x : http_client) : http_client :=
  mk_client (hc_fd x) (hc_addr x) (hc_parser x) (hc_buffer x) (hc_request_sz x) (hc_last_cb x)
    v (hc_broken x) (hc_fully_read x) (hc_is_websocket x) (hc_http_version x)
    (hc_failed_alloc x) (hc_path x) (hc_headers x) (hc_body x) (hc_type x) (hc_jsonp x)
    (hc_separator x) (hc_filename x) (hc_reused_cmd x) (hc_last_cmd x) (hc_ws x).
Definition set_hc_broken (v : bool) (x : http_client) : http_client :=
  mk_client (hc_fd x) (hc_addr x) (hc_parser x) (hc_buffer x) (hc_request_sz x) (hc_last_cb x)
    (hc_keep_alive x) v (hc_fully_read x) (hc_is_websocket x) (hc_http_version x)
    (hc_failed_alloc x) (hc_path x) (hc_headers x) (hc_body x) (hc_type x) (hc_jsonp x)
    (hc_separator x) (hc_filename x) (hc_reused_cmd x) (hc_last_cmd x) (hc_ws x).
Definition set_hc_fully_read (v : bool) (x : http_client) : http_client :=
  mk_client (hc_fd x) (hc_addr x) (hc_parser x) (hc_buffer x) (hc_request_sz x) (hc_last_cb x)
    (hc_keep_alive x) (hc_broken x) v (hc_is_websocket x) (hc_http_version x)
    (hc_failed_alloc x) (hc_path x) (hc_headers x) (hc_body x) (hc_type x) (hc_jsonp x)
    (hc_separator x) (hc_filename x) (hc_reused_cmd x) (hc_last_cmd x) (hc_ws x).
Definition set_hc_is_websocket (v : bool) (x : http_client) : http_client :=
  mk_client (hc_fd x) (hc_addr x) (hc_parser x) (hc_buffer x) (hc_request_sz x) (hc_last_cb x)
    (hc_keep_alive x) (hc_broken x) (hc_fully_read x) v (hc_http_version x) (hc_failed_alloc x)
    (hc_path x) (hc_headers x) (hc_body x) (hc_type x) (hc_jsonp x) (hc_separator x)
    (hc_filename x) (hc_reused_cmd x) (hc_last_cmd x) (hc_ws x).
Definition set_hc_http_version (v : Z) (x : http_client) : http_client :=
  mk_client (hc_fd x) (hc_addr x) (hc_parser x) (hc_buffer x) (hc_request_sz x) (hc_last_cb x)
    (hc_keep_alive x) (hc_broken x) (hc_fully_read x) (hc_is_websocket x) v (hc_failed_alloc x)
    (hc_path x) (hc_headers x) (hc_body x) (hc_type x) (hc_jsonp x) (hc_separator x)
    (hc_filename x) (hc_reused_cmd x) (hc_last_cmd x) (hc_ws x).
Definition set_hc_failed_alloc (v : bool) (x : http_client) : http_client :=
  mk_client (hc_fd x) (hc_addr x) (hc_parser x) (hc_buffer x) (hc_request_sz x) (hc_last_cb x)
    (hc_keep_alive x) (hc_broken x) (hc_fully_read x) (hc_is_websocket x) (hc_http_version x) v
    (hc_path x) (hc_headers x) (hc_body x) (hc_type x) (hc_jsonp x) (hc_separator x)
    (hc_filename x) (hc_reused_cmd x) (hc_last_cmd x) (hc_ws x).
Definition set_hc_path (v : option bytes) (x : http_client) : http_client :=
  mk_client (hc_fd x) (hc_addr x) (hc_parser x) (hc_buffer x) (hc_request_sz x) (hc_last_cb x)
    (hc_keep_alive x) (hc_broken x) (hc_fully_read x) (hc_is_websocket x) (hc_http_version x)
    (hc_failed_alloc x) v (hc_headers x) (hc_body x) (hc_type x) (hc_jsonp x) (hc_separator x)
    (hc_filename x) (hc_reused_cmd x) (hc_last_cmd x) (hc_ws x).
Definition set_hc_headers (v : list req_header) (x : http_client) : http_client :=
  mk_client (hc_fd x) (hc_addr x) (hc_parser x) (hc_buffer x) (hc_request_sz x) (hc_last_cb x)
    (hc_keep_alive x) (hc_broken x) (hc_fully_read x) (hc_is_websocket x) (hc_http_version x)
    (hc_failed_alloc x) (hc_path x) v (hc_body x) (hc_type x) (hc_jsonp x) (hc_separator x)
    (hc_filename x) (hc_reused_cmd x) (hc_last_cmd x) (hc_ws x).
Definition set_hc_body (v : option bytes) (x : http_client) : http_client :=
  mk_client (hc_fd x) (hc_addr x) (hc_parser x) (hc_buffer x) (hc_request_sz x) (hc_last_cb x)
    (hc_keep_alive x) (hc_broken x) (hc_fully_read x) (hc_is_websocket x) (hc_http_version x)
    (hc_failed_alloc x) (hc_path x) (hc_headers x) v (hc_type x) (hc_jsonp x) (hc_separator x)
    (hc_filename x) (hc_reused_cmd x) (hc_last_cmd x) (hc_ws x).
Definition set_hc_type (v : option bytes) (x : http_client) : http_client :=
  mk_client (hc_fd x) (hc_addr x) (hc_parser x) (hc_buffer x) (hc_request_sz x) (hc_last_cb x)
    (hc_keep_alive x) (hc_broken x) (hc_fully_read x) (hc_is_websocket x) (hc_http_version x)
    (hc_failed_alloc x) (hc_path x) (hc_headers x) (hc_body x) v (hc_jsonp x) (hc_separator x)
    (hc_filename x) (hc_reused_cmd x) (hc_last_cmd x) (hc_ws x).
Definition set_hc_jsonp (v : option bytes) (x : http_client) : http_client :=
  mk_client (hc_fd x) (hc_addr x) (hc_parser x) (hc_buffer x) (hc_request_sz x) (hc_last_cb x)
    (hc_keep_alive x) (hc_broken x) (hc_fully_read x) (hc_is_websocket x) (hc_http_version x)
    (hc_failed_alloc x) (hc_path x) (hc_headers x) (hc_body x) (hc_type x) v (hc_separator x)
    (hc_filename x) (hc_reused_cmd x) (hc_last_cmd x) (hc_ws x).
Definition set_hc_separator (v : option bytes) (x : http_client) : http_client :=
  mk_client (hc_fd x) (hc_addr x) (hc_parser x) (hc_buffer x) (hc_request_sz x) (hc_last_cb x)
    (hc_keep_alive x) (hc_broken x) (hc_fully_read x) (hc_is_websocket x) (hc_http_version x)
    (hc_failed_alloc x) (hc_path x) (hc_headers x) (hc_body x) (hc_type x) (hc_jsonp x) v
    (hc_filename x) (hc_reused_cmd x) (hc_last_cmd x) (hc_ws x).
Definition set_hc_filename (v : option bytes) (x : http_client) : http_client :=
  mk_client (hc_fd x) (hc_addr x) (hc_parser x) (hc_buffer x) (hc_request_sz x) (hc_last_cb x)
    (hc_keep_alive x) (hc_broken x) (hc_fully_read x) (hc_is_websocket x) (hc_http_version x)
    (hc_failed_alloc x) (hc_path x) (hc_headers x) (hc_body x) (hc_type x) (hc_jsonp x)
    (hc_separator x) v (hc_reused_cmd x) (hc_last_cmd x) (hc_ws x).
Definition set_hc_reused_cmd (v : option loc) (x : http_client) : http_client :=
  mk_client (hc_fd x) (hc_addr x) (hc_parser x) (hc_buffer x) (hc_request_sz x) (hc_last_cb x)
    (hc_keep_alive x) (hc_broken x) (hc_fully_read x) (hc_is_websocket x) (hc_http_version x)
    (hc_failed_alloc x) (hc_path x) (hc_headers x) (hc_body x) (hc_type x) (hc_jsonp x)
    (hc_separator x) (hc_filename x) v (hc_last_cmd x) (hc_ws x).
Definition set_hc_last_cmd (v : option loc) (x : http_client) : http_client :=
  mk_client (hc_fd x) (hc_addr x) (hc_parser x) (hc_buffer x) (hc_request_sz x) (hc_last_cb x)
    (hc_keep_alive x) (hc_broken x) (hc_fully_read x) (hc_is_websocket x) (hc_http_version x)
    (hc_failed_alloc x) (hc_path x) (hc_headers x) (hc_body x) (hc_type x) (hc_jsonp x)
    (hc_separator x) (hc_filename x) (hc_reused_cmd x) v (hc_ws x).
Definition set_hc_ws (v : option loc) (x : http_client) : http_client :=
  mk_client (hc_fd x) (hc_addr x) (hc_parser x) (hc_buffer x) (hc_request_sz x) (hc_last_cb x)
    (hc_keep_alive x) (hc_broken x) (hc_fully_read x) (hc_is_websocket x) (hc_http_version x)
    (hc_failed_alloc x) (hc_path x) (hc_headers x) (hc_body x) (hc_type x) (hc_jsonp x)
    (hc_separator x) (hc_filename x) (hc_reused_cmd x) (hc_last_cmd x) v.

(** ** Commands (cmd.h) *)

(** The reply callbacks a command can be sent with. *)
Inductive formatting_fun := json_reply | raw_reply | msgpack_reply | custom_type_reply.

#[global] Instance formatting_fun_eq_dec : EqDecision formatting_fun.
Proof. solve_decision. Defined.

Inductive cmd_response_t := CMD_SENT | CMD_PARAM_ERROR | CMD_ACL_FAIL | CMD_REDIS_UNAVAIL.

#[global] Instance cmd_response_t_eq_dec : EqDecision cmd_response_t.
Proof. solve_decision. Defined.

(** [struct cmd]. [argv] lists the allocated slots with their [argv_len] bytes
    (an unset slot, [NULL] with length 0, is empty); [count] is the argument count
    sent to Redis, which [cmd_run] may lower below the number of slots. *)
Record cmd := mk_cmd {
  cmd_fd : Z;
  cmd_count : Z;
  cmd_argv : list bytes;
  cmd_mime : option bytes;
  cmd_mime_free : bool;
  cmd_filename : option bytes;
  cmd_if_none_match : option bytes;
  cmd_jsonp : option bytes;
  cmd_separator : option bytes;
  cmd_keep_alive : bool;
  cmd_started_responding : bool;
  cmd_is_websocket : bool;
  cmd_http_version : Z;
  cmd_database : Z;
  cmd_http_client : option loc;
  cmd_pub_sub_client : option loc;
  cmd_ac : option loc }.

Definition set_cmd_fd (v : Z) (x : cmd) : cmd :=
  mk_cmd v (cmd_count x) (cmd_argv x) (cmd_mime x) (cmd_mime_free x) (cmd_filename x)
    (cmd_if_none_match x) (cmd_jsonp x) (cmd_separator x) (cmd_keep_alive x)
    (cmd_started_responding x) (cmd_is_websocket x) (cmd_http_version x) (cmd_database x)
    (cmd_http_client x) (cmd_pub_sub_client x) (cmd_ac x).
Definition set_cmd_count (v : Z) (x : cmd) : cmd :=
  mk_cmd (cmd_fd x) v (cmd_argv x) (cmd_mime x) (cmd_mime_free x) (cmd_filename x)
    (cmd_if_none_match x) (cmd_jsonp x) (cmd_separator x) (cmd_keep_alive x)
    (cmd_started_responding x) (cmd_is_websocket x) (cmd_http_version x) (cmd_database x)
    (cmd_http_client x) (cmd_pub_sub_client x) (cmd_ac x).
Definition set_cmd_argv (v : list bytes) (x : cmd) : cmd :=
  mk_cmd (cmd_fd x) (cmd_count x) v (cmd_mime x) (cmd_mime_free x) (cmd_filename x)
    (cmd_if_none_match x) (cmd_jsonp x) (cmd_separator x) (cmd_keep_alive x)
    (cmd_started_responding x) (cmd_is_websocket x) (cmd_http_version x) (cmd_database x)
    (cmd_http_client x) (cmd_pub_sub_client x) (cmd_ac x).
Definition set_cmd_mime (v : option bytes) (x : cmd) : cmd :=
  mk_cmd (cmd_fd x) (cmd_count x) (cmd_argv x) v (cmd_mime_free x) (cmd_filename x)
    (cmd_if_none_match x) (cmd_jsonp x) (cmd_separator x) (cmd_keep_alive x)
    (cmd_started_responding x) (cmd_is_websocket x) (cmd_http_version x) (cmd_database x)
    (cmd_http_client x) (cmd_pub_sub_client x) (cmd_ac x).
Definition set_cmd_mime_free (v : bool) (x : cmd) : cmd :=
  mk_cmd (cmd_fd x) (cmd_count x) (cmd_argv x) (cmd_mime x) v (cmd_filename x)
    (cmd_if_none_match x) (cmd_jsonp x) (cmd_separator x) (cmd_keep_alive x)
    (cmd_started_responding x) (cmd_is_websocket x) (cmd_http_version x) (cmd_database x)
    (cmd_http_client x) (cmd_pub_sub_client x) (cmd_ac x).
Definition set_cmd_filename (v : option bytes) (x : cmd) : cmd :=
  mk_cmd (cmd_fd x) (cmd_count x) (cmd_argv x) (cmd_mime x) (cmd_mime_free x) v
    (cmd_if_none_match x) (cmd_jsonp x) (cmd_separator x) (cmd_keep_alive x)
    (cmd_started_responding x) (cmd_is_websocket x) (cmd_http_version x) (cmd_database x)
    (cmd_http_client x) (cmd_pub_sub_client x) (cmd_ac x).
Definition set_cmd_if_none_match (v : option bytes) (x : cmd) : cmd :=
  mk_cmd (cmd_fd x) (cmd_count x) (cmd_argv x) (cmd_mime x) (cmd_mime_free x) (cmd_filename x)
    v (cmd_jsonp x) (cmd_separator x) (cmd_keep_alive x) (cmd_started_responding x)
    (cmd_is_websocket x) (cmd_http_version x) (cmd_database x) (cmd_http_client x)
    (cmd_pub_sub_client x) (cmd_ac x).
Definition set_cmd_jsonp (v : option bytes) (x : cmd) : cmd :=
  mk_cmd (cmd_fd x) (cmd_count x) (cmd_argv x) (cmd_mime x) (cmd_mime_free x) (cmd_filename x)
    (cmd_if_none_match x) v (cmd_separator x) (cmd_keep_alive x) (cmd_started_responding x)
    (cmd_is_websocket x) (cmd_http_version x) (cmd_database x) (cmd_http_client x)
    (cmd_pub_sub_client x) (cmd_ac x).
Definition set_cmd_separator (v : option bytes) (x : cmd) : cmd :=
  mk_cmd (cmd_fd x) (cmd_count x) (cmd_argv x) (cmd_mime x) (cmd_mime_free x) (cmd_filename x)
    (cmd_if_none_match x) (cmd_jsonp x) v (cmd_keep_alive x) (cmd_started_responding x)
    (cmd_is_websocket x) (cmd_http_version x) (cmd_database x) (cmd_http_client x)
    (cmd_pub_sub_client x) (cmd_ac x).
Definition set_cmd_keep_alive (v : bool) (x : cmd) : cmd :=
  mk_cmd (cmd_fd x) (cmd_count x) (cmd_argv x) (cmd_mime x) (cmd_mime_free x) (cmd_filename x)
    (cmd_if_none_match x) (cmd_jsonp x) (cmd_separator x) v (cmd_started_responding x)
    (cmd_is_websocket x) (cmd_http_version x) (cmd_database x) (cmd_http_client x)
    (cmd_pub_sub_client x) (cmd_ac x).
Definition set_cmd_started_responding (v : bool) (x : cmd) : cmd :=
  mk_cmd (cmd_fd x) (cmd_count x) (cmd_argv x) (cmd_mime x) (cmd_mime_free x) (cmd_filename x)
    (cmd_if_none_match x) (cmd_jsonp x) (cmd_separator x) (cmd_keep_alive x) v
    (cmd_is_websocket x) (cmd_http_version x) (cmd_database x) (cmd_http_client x)
    (cmd_pub_sub_client x) (cmd_ac x).
Definition set_cmd_is_websocket (v : bool) (x : cmd) : cmd :=
  mk_cmd (cmd_fd x) (cmd_count x) (cmd_argv x) (cmd_mime x) (cmd_mime_free x) (cmd_filename x)
    (cmd_if_none_match x) (cmd_jsonp x) (cmd_separator x) (cmd_keep_alive x)
    (cmd_started_responding x) v (cmd_http_version x) (cmd_database x) (cmd_http_client x)
    (cmd_pub_sub_client x) (cmd_ac x).
Definition set_cmd_http_version (v : Z) (x : cmd) : cmd :=
  mk_cmd (cmd_fd x) (cmd_count x) (cmd_argv x) (cmd_mime x) (cmd_mime_free x) (cmd_filename x)
    (cmd_if_none_match x) (cmd_jsonp x) (cmd_separator x) (cmd_keep_alive x)
    (cmd_started_responding x) (cmd_is_websocket x) v (cmd_database x) (cmd_http_client x)
    (cmd_pub_sub_client x) (cmd_ac x).
Definition set_cmd_database (v : Z) (x : cmd) : cmd :=
  mk_cmd (cmd_fd x) (cmd_count x) (cmd_argv x) (cmd_mime x) (cmd_mime_free x) (cmd_filename x)
    (cmd_if_none_match x) (cmd_jsonp x) (cmd_separator x) (cmd_keep_alive x)
    (cmd_started_responding x) (cmd_is_websocket x) (cmd_http_version x) v (cmd_http_client x)
    (cmd_pub_sub_client x) (cmd_ac x).
Definition set_cmd_http_client (v : option loc) (x : cmd) : cmd :=
  mk_cmd (cmd_fd x) (cmd_count x) (cmd_argv x) (cmd_mime x) (cmd_mime_free x) (cmd_filename x)
    (cmd_if_none_match x) (cmd_jsonp x) (cmd_separator x) (cmd_keep_alive x)
    (cmd_started_responding x) (cmd_is_websocket x) (cmd_http_version x) (cmd_database x) v
    (cmd_pub_sub_client x) (cmd_ac x).
Definition set_cmd_pub_sub_client (v : option loc) (x : cmd) : cmd :=
  mk_cmd (cmd_fd x) (cmd_count x) (cmd_argv x) (cmd_mime x) (cmd_mime_free x) (cmd_filename x)
    (cmd_if_none_match x) (cmd_jsonp x) (cmd_separator x) (cmd_keep_alive x)
    (cmd_started_responding x) (cmd_is_websocket x) (cmd_http_version x) (cmd_database x)
    (cmd_http_client x) v (cmd_ac x).
Definition set_cmd_ac (v : option loc) (x : cmd) : cmd :=
  mk_cmd (cmd_fd x) (cmd_count x) (cmd_argv x) (cmd_mime x) (cmd_mime_free x) (cmd_filename x)
    (cmd_if_none_match x) (cmd_jsonp x) (cmd_separator x) (cmd_keep_alive x)
    (cmd_started_responding x) (cmd_is_websocket x) (cmd_http_version x) (cmd_database x)
    (cmd_http_client x) (cmd_pub_sub_client x) v.

(** ** WebSocket clients (websocket.h) *)

Inductive ws_state := WS_ERROR | WS_READING | WS_MSG_COMPLETE.

#[global] Instance ws_state_eq_dec : EqDecision ws_state.
Proof. solve_decision. Defined.

(** [enum ws_frame_type]: the values are those of the source. *)
Definition WS_TEXT_FRAME : Z := 0.
Definition WS_BINARY_FRAME : Z := 1.
Definition WS_CONNECTION_CLOSE : Z := 8.
Definition WS_PING : Z := 9.
Definition WS_PONG : Z := 10.

(** [struct ws_msg]. *)
Record ws_msg := mk_ws_msg {
  msg_type : Z;
  msg_payload : bytes;
  msg_total_sz : Z }.

(** [struct ws_client]. *)
Record ws_client := mk_ws {
  ws_http_client : option loc;
  ws_scheduled_read : bool;
  ws_scheduled_write : bool;
  ws_rbuf : bytes;
  ws_wbuf : bytes;
  ws_ac : option loc;
  ws_cmd : option loc;
  ws_close_after_events : bool;
  ws_ran_subscribe : bool }.

Definition set_ws_http_client (v : option loc) (x : ws_client) : ws_client :=
  mk_ws v (ws_scheduled_read x) (ws_scheduled_write x) (ws_rbuf x) (ws_wbuf x) (ws_ac x)
    (ws_cmd x) (ws_close_after_events x) (ws_ran_subscribe x).
Definition set_ws_scheduled_read (v : bool) (x : ws_client) : ws_client :=
  mk_ws (ws_http_client x) v (ws_scheduled_write x) (ws_rbuf x) (ws_wbuf x) (ws_ac x)
    (ws_cmd x) (ws_close_after_events x) (ws_ran_subscribe x).
Definition set_ws_scheduled_write (v : bool) (x : ws_client) : ws_client :=
  mk_ws (ws_http_client x) (ws_scheduled_read x) v (ws_rbuf x) (ws_wbuf x) (ws_ac x) (ws_cmd x)
    (ws_close_after_events x) (ws_ran_subscribe x).
Definition set_ws_rbuf (v : bytes) (x : ws_client) : ws_client :=
  mk_ws (ws_http_client x) (ws_scheduled_read x) (ws_scheduled_write x) v (ws_wbuf x) (ws_ac x)
    (ws_cmd x) (ws_close_after_events x) (ws_ran_subscribe x).
Definition set_ws_wbuf (v : bytes) (x : ws_client) : ws_client :=
  mk_ws (ws_http_client x) (ws_scheduled_read x) (ws_scheduled_write x) (ws_rbuf x) v (ws_ac x)
    (ws_cmd x) (ws_close_after_events x) (ws_ran_subscribe x).
Definition set_ws_ac (v : option loc) (x : ws_client) : ws_client :=
  mk_ws (ws_http_client x) (ws_scheduled_read x) (ws_scheduled_write x) (ws_rbuf x) (ws_wbuf x)
    v (ws_cmd x) (ws_close_after_events x) (ws_ran_subscribe x).
Definition set_ws_cmd (v : option loc) (x : ws_client) : ws_client :=
  mk_ws (ws_http_client x) (ws_scheduled_read x) (ws_scheduled_write x) (ws_rbuf x) (ws_wbuf x)
    (ws_ac x) v (ws_close_after_events x) (ws_ran_subscribe x).
Definition set_ws_close_after_events (v : bool) (x : ws_client) : ws_client :=
  mk_ws (ws_http_client x) (ws_scheduled_read x) (ws_scheduled_write x) (ws_rbuf x) (ws_wbuf x)
    (ws_ac x) (ws_cmd x) v (ws_ran_subscribe x).
Definition set_ws_ran_subscribe (v : bool) (x : ws_client) : ws_client :=
  mk_ws (ws_http_client x) (ws_scheduled_read x) (ws_scheduled_write x) (ws_rbuf x) (ws_wbuf x)
    (ws_ac x) (ws_cmd x) (ws_close_after_events x) v.

(** ** Redis replies (hiredis/read.h) *)

(** [redisReply]: the constructors are the [REDIS_REPLY_*] types of RESP2 the
    formats tell apart, and one for every other type code. *)
Inductive redisReply :=
| REPLY_STRING (str : bytes)
| REPLY_ARRAY (element : list redisReply)
| REPLY_INTEGER (integer : Z)
| REPLY_NIL
| REPLY_STATUS (str : bytes)
| REPLY_ERROR (str : bytes)
| REPLY_OTHER (code : Z).

(** The nested lists need their own induction principle. *)
Fixpoint redisReply_ind' (P : redisReply -> Prop)
  (Hs : forall s, P (REPLY_STRING s)) (Ha : forall l, Forall P l -> P (REPLY_ARRAY l))
  (Hi : forall z, P (REPLY_INTEGER z)) (Hn : P REPLY_NIL)
  (Hst : forall s, P (REPLY_STATUS s)) (He : forall s, P (REPLY_ERROR s))
  (Ho : forall z, P (REPLY_OTHER z)) (r : redisReply) : P r :=
  match r with
  | REPLY_STRING s => Hs s
  | REPLY_ARRAY l =>
      Ha l ((fix go l : Forall P l :=
               match l with
               | [] => Forall_nil_2 P
               | x :: l' => Forall_cons_2 P x l' (redisReply_ind' P Hs Ha Hi Hn Hst He Ho x) (go l')
               end) l)
  | REPLY_INTEGER z => Hi z
  | REPLY_NIL => Hn
  | REPLY_STATUS s => Hst s
  | REPLY_ERROR s => He s
  | REPLY_OTHER z => Ho z
  end.
