(* ===== verification/Base64.v ===== *)
(** * src/b64: the libb64 streaming encoder

    [cencode.c] encodes a byte stream in blocks, keeping between two calls the
    position in the current 3-byte group ([step]), the bits of the previous
    byte not yet written ([result]) and the number of groups on the current
    line ([stepcount]). The [switch] into the middle of a [while(1)] is a
    recursion on the input that dispatches on [step]. *)
From S2P Require Import Prelude.

Local Open Scope Z_scope.

Module Base64.

(** ** The code *)

Inductive base64_encodestep := step_A | step_B | step_C.

Record base64_encodestate := mk_state {
  step : base64_encodestep;
  result : Z;
  stepcount : Z }.

Definition CHARS_PER_LINE : Z := 4096.

Definition base64_init_encodestate : base64_encodestate := mk_state step_A 0 0.

Definition encoding : bytes :=
  lit "ABCDEFGHIJKLMNOPQRSTUVWXYZabcdefghijklmnopqrstuvwxyz0123456789+/".

Definition base64_encode_value (value_in : Z) : byte :=
  if 63 <? value_in then x3d else default x00 (encoding !! Z.to_nat value_in).

Fixpoint base64_encode_block (plaintext_in : bytes) (state_in : base64_encodestate)
  : bytes * base64_encodestate :=
  match plaintext_in with
  | [] => ([], state_in)
  | plainchar :: rest =>
      let fragment := Z_of_byte plainchar in
      match step state_in with
      | step_A =>
          let c := base64_encode_value (Z.shiftr (Z.land fragment 0xfc) 2) in
          let (out, st) := base64_encode_block rest
            (mk_state step_B (Z.shiftl (Z.land fragment 0x03) 4) (stepcount state_in)) in
          (c :: out, st)
      | step_B =>
          let c := base64_encode_value
            (Z.lor (result state_in) (Z.shiftr (Z.land fragment 0xf0) 4)) in
          let (out, st) := base64_encode_block rest
            (mk_state step_C (Z.shiftl (Z.land fragment 0x0f) 2) (stepcount state_in)) in
          (c :: out, st)
      | step_C =>
          let c1 := base64_encode_value
            (Z.lor (result state_in) (Z.shiftr (Z.land fragment 0xc0) 6)) in
          let result := Z.shiftr (Z.land fragment 0x3f) 0 in
          let c2 := base64_encode_value result in
          let count := stepcount state_in + 1 in
          if count =? CHARS_PER_LINE / 4 then
            let (out, st) := base64_encode_block rest (mk_state step_A result 0) in
            (c1 :: c2 :: x0a :: out, st)
          else
            let (out, st) := base64_encode_block rest (mk_state step_A result count) in
            (c1 :: c2 :: out, st)
      end
  end.

Definition base64_encode_blockend (state_in : base64_encodestate) : bytes :=
  match step state_in with
  | step_B => [base64_encode_value (result state_in); x3d; x3d]
  | step_C => [base64_encode_value (result state_in); x3d]
  | step_A => []
  end ++ [x0a].

(** What every caller does: one block, then the end of the stream. *)
Definition base64_encode_all (plain : bytes) : bytes :=
  let (out, st) := base64_encode_block plain base64_init_encodestate in
  out ++ base64_encode_blockend st.

(** ** RFC 4648 as a reference *)

(** The characters of a group of three, two or one bytes, by arithmetic. *)
Fixpoint b64 (l : bytes) : bytes :=
  match l with
  | [] => []
  | [a] =>
      let a := Z_of_byte a in
      [base64_encode_value (a / 4); base64_encode_value (a mod 4 * 16); x3d; x3d]
  | [a; b] =>
      let a := Z_of_byte a in let b := Z_of_byte b in
      [base64_encode_value (a / 4); base64_encode_value (a mod 4 * 16 + b / 16);
       base64_encode_value (b mod 16 * 4); x3d]
  | a :: b :: c :: l' =>
      let a := Z_of_byte a in let b := Z_of_byte b in let c := Z_of_byte c in
      base64_encode_value (a / 4) :: base64_encode_value (a mod 4 * 16 + b / 16) ::
      base64_encode_value (b mod 16 * 4 + c / 64) :: base64_encode_value (c mod 64) :: b64 l'
  end.

Definition b64_value (c : byte) : option Z :=
  (fun p => Z.of_nat (fst p)) <$> list_find (fun x => x = c) encoding.

(** The decoder of the alphabet, padding included. *)
Fixpoint b64_decode (l : bytes) : option bytes :=
  match l with
  | [] => Some []
  | [w; x; y; z] =>
      s0 ← b64_value w; s1 ← b64_value x;
      let a := byte_of_Z (s0 * 4 + s1 / 16) in
      if Byte.eqb y x3d && Byte.eqb z x3d then Some [a]
      else
        s2 ← b64_value y;
        let b := byte_of_Z (s1 mod 16 * 16 + s2 / 4) in
        if Byte.eqb z x3d then Some [a; b]
        else s3 ← b64_value z; Some [a; b; byte_of_Z (s2 mod 4 * 64 + s3)]
  | w :: x :: y :: z :: l' =>
      s0 ← b64_value w; s1 ← b64_value x; s2 ← b64_value y; s3 ← b64_value z;
      rest ← b64_decode l';
      Some (byte_of_Z (s0 * 4 + s1 / 16) :: byte_of_Z (s1 mod 16 * 16 + s2 / 4)
            :: byte_of_Z (s2 mod 4 * 64 + s3) :: rest)
  | _ => None
  end.

(** Induction by groups of three. *)
Lemma bytes_ind3 (P : bytes -> Prop) :
  P [] -> (forall a, P [a]) -> (forall a b, P [a; b]) ->
  (forall a b c l, P l -> P (a :: b :: c :: l)) -> forall l, P l.
Proof.
  intros H0 H1 H2 H3.
  assert (forall n l, (length l <= n)%nat -> P l) as H; [|by eauto].
  induction n as [|n IH]; intros [|a [|b [|c l]]] Hl; simpl in Hl; auto; try lia.
  apply H3, IH. lia.
Qed.

(** ** Bit fields of a byte as arithmetic *)

Section Fragments.
Variable b : byte.
Let z := Z_of_byte b.

Ltac by_cases :=
  apply Z.eqb_eq; subst z; generalize (Z_of_byte_range b); generalize (Z_of_byte b);
  apply forall_below; vm_compute; reflexivity.

Lemma frag_fc : Z.shiftr (Z.land z 0xfc) 2 = z / 4. Proof. by_cases. Qed.
Lemma frag_03 : Z.shiftl (Z.land z 0x03) 4 = z mod 4 * 16. Proof. by_cases. Qed.
Lemma frag_f0 : Z.shiftr (Z.land z 0xf0) 4 = z / 16. Proof. by_cases. Qed.
Lemma frag_0f : Z.shiftl (Z.land z 0x0f) 2 = z mod 16 * 4. Proof. by_cases. Qed.
Lemma frag_c0 : Z.shiftr (Z.land z 0xc0) 6 = z / 64. Proof. by_cases. Qed.
Lemma frag_3f : Z.shiftr (Z.land z 0x3f) 0 = z mod 64. Proof. by_cases. Qed.
End Fragments.

Lemma lor_add_16 a b : Z.lor (a mod 4 * 16) (Z_of_byte b / 16) = a mod 4 * 16 + Z_of_byte b / 16.
Proof.
  pose proof (Z_of_byte_range b).
  assert (0 <= Z_of_byte b / 16 < 16) as Hb
    by (split; [apply Z.div_pos|apply Z.div_lt_upper_bound]; lia).
  assert (0 <= a mod 4 < 4) as Ha by (apply Z.mod_pos_bound; lia).
  revert Ha Hb. generalize (a mod 4) (Z_of_byte b / 16). intros x y Hx Hy.
  apply Z.eqb_eq. revert y Hy. apply forall_below. revert x Hx. apply forall_below.
  vm_compute. reflexivity.
Qed.

Lemma lor_add_4 a b : Z.lor (a mod 16 * 4) (Z_of_byte b / 64) = a mod 16 * 4 + Z_of_byte b / 64.
Proof.
  pose proof (Z_of_byte_range b).
  assert (0 <= Z_of_byte b / 64 < 4) as Hb
    by (split; [apply Z.div_pos|apply Z.div_lt_upper_bound]; lia).
  assert (0 <= a mod 16 < 16) as Ha by (apply Z.mod_pos_bound; lia).
  revert Ha Hb. generalize (a mod 16) (Z_of_byte b / 64). intros x y Hx Hy.
  apply Z.eqb_eq. revert y Hy. apply forall_below. revert x Hx. apply forall_below.
  vm_compute. reflexivity.
Qed.

#[local] Hint Rewrite frag_fc frag_03 frag_f0 frag_0f frag_c0 frag_3f lor_add_16 lor_add_4 : b64.

(** ** Characters *)

Lemma encode_value_nl v : 0 <= v -> base64_encode_value v <> x0a.
Proof.
  intros Hv. apply byte_eqb_neq. unfold base64_encode_value.
  destruct (63 <? v) eqn:E; [done|]. bool_to_prop.
  apply negb_true_iff. assert (0 <= v < 64) as H by lia. clear Hv E. revert v H.
  apply forall_below. vm_compute. reflexivity.
Qed.

Lemma encode_value_inv v :
  0 <= v < 64 -> b64_value (base64_encode_value v) = Some v /\ base64_encode_value v <> x3d.
Proof.
  intros Hv. rewrite <-byte_eqb_neq, <-negb_true_iff.
  rewrite <-(bool_decide_eq_true (b64_value _ = _)), <-andb_true_iff.
  revert v Hv. apply forall_below. vm_compute. reflexivity.
Qed.

Example b64_leviathan :
  base64_encode_all (lit "Many hands make light work.")
  = lit "TWFueSBoYW5kcyBtYWtlIGxpZ2h0IHdvcmsu" ++ [x0a].
Proof. vm_compute. reflexivity. Qed.

(** ** Streaming *)

Lemma encode_block_app l1 l2 st :
  base64_encode_block (l1 ++ l2) st =
  let (o1, st1) := base64_encode_block l1 st in
  let (o2, st2) := base64_encode_block l2 st1 in
  (o1 ++ o2, st2).
Proof.
  revert st. induction l1 as [|c l1 IH]; intros st; simpl.
  - by destruct (base64_encode_block l2 st).
  - destruct (step st); [| |destruct (_ =? _)];
      rewrite IH; destruct (base64_encode_block l1 _) as [o1 st1];
      by destruct (base64_encode_block l2 st1).
Qed.

(** One group from [step_A], with the bit fields as arithmetic. *)
Lemma encode_group a b c l r k :
  base64_encode_block (a :: b :: c :: l) (mk_state step_A r k) =
  let nl := k + 1 =? 1024 in
  let (out, st) := base64_encode_block l
    (mk_state step_A (Z_of_byte c mod 64) (if nl then 0 else k + 1)) in
  (take 4 (b64 [a; b; c]) ++ (if nl then [x0a] else []) ++ out, st).
Proof.
  cbn [base64_encode_block step result stepcount]. autorewrite with b64.
  change (CHARS_PER_LINE / 4) with 1024.
  destruct (k + 1 =? 1024); destruct (base64_encode_block l _) as [out st]; reflexivity.
Qed.

Definition strip_nl (l : bytes) : bytes := filter (fun c => c <> x0a) l.

Lemma strip_nl_app l1 l2 : strip_nl (l1 ++ l2) = strip_nl l1 ++ strip_nl l2.
Proof. apply filter_app. Qed.

Lemma b64_chars (P : byte -> Prop) l :
  (forall v, 0 <= v < 64 -> P (base64_encode_value v)) -> P x3d -> Forall P (b64 l).
Proof.
  intros HP H3d. induction l as [|a|a b|a b c l IH] using bytes_ind3; cbn [b64];
    repeat apply Forall_cons_2; try done;
    apply HP;
    repeat match goal with
    | |- context [Z_of_byte ?x] =>
        lazymatch goal with
        | _ : 0 <= Z_of_byte x < 256 |- _ => fail
        | _ => pose proof (Z_of_byte_range x)
        end
    end; Z.to_euclidean_division_equations; lia.
Qed.

Lemma b64_no_nul l : no_nul (b64 l).
Proof.
  unfold no_nul. intros Hin.
  assert (Forall (fun c => c <> x00) (b64 l)) as Hf.
  { apply b64_chars; [|done]. intros v Hv. apply byte_eqb_neq, negb_true_iff. revert v Hv. apply forall_below. vm_compute. reflexivity. }
  rewrite Forall_forall in Hf. by apply (Hf x00).
Qed.

Lemma b64_no_nl l : strip_nl (b64 l) = b64 l.
Proof.
  assert (Forall (fun c => c <> x0a) (b64 l)) as H by (apply b64_chars; [intros v [? _]; by apply encode_value_nl|done]).
  unfold strip_nl. induction H as [|x l' Hx Hl IH]; [done|].
  rewrite filter_cons_True by done. by rewrite IH.
Qed.

(** From any group boundary the stream, newlines apart, is the reference. *)
Lemma encode_from_A l r k :
  let (out, st) := base64_encode_block l (mk_state step_A r k) in
  strip_nl (out ++ base64_encode_blockend st) = b64 l.
Proof.
  revert r k. induction l as [|a|a b|a b c l IH] using bytes_ind3; intros r k.
  - done.
  - cbn [base64_encode_block step result stepcount]. autorewrite with b64.
    rewrite <-(b64_no_nl [a]). done.
  - cbn [base64_encode_block step result stepcount]. autorewrite with b64.
    rewrite <-(b64_no_nl [a; b]). done.
  - rewrite encode_group. cbv zeta.
    specialize (IH (Z_of_byte c mod 64) (if k + 1 =? 1024 then 0 else k + 1)).
    destruct (base64_encode_block l _) as [out st].
    change (take 4 (b64 [a; b; c])) with (b64 [a; b; c]).
    rewrite strip_nl_app in IH. rewrite <-!app_assoc, !strip_nl_app, b64_no_nl, IH.
    by destruct (_ =? _).
Qed.

(** Short of a full line no newline is inserted. *)
Lemma encode_short l r k :
  0 <= k -> k + Z.of_nat (length l) / 3 < 1024 ->
  let (out, st) := base64_encode_block l (mk_state step_A r k) in
  out ++ base64_encode_blockend st = b64 l ++ [x0a].
Proof.
  revert r k. induction l as [|a|a b|a b c l IH] using bytes_ind3; intros r k Hk Hl.
  - done.
  - cbn [base64_encode_block step result stepcount]. by autorewrite with b64.
  - cbn [base64_encode_block step result stepcount]. by autorewrite with b64.
  - rewrite encode_group. cbv zeta.
    replace (Z.of_nat (length (a :: b :: c :: l))) with (Z.of_nat (length l) + 1 * 3) in Hl
      by (simpl length; lia).
    rewrite Z.div_add in Hl by lia.
    assert (0 <= Z.of_nat (length l) / 3) by (apply Z.div_pos; lia).
    rewrite (proj2 (Z.eqb_neq _ _)) by lia.
    specialize (IH (Z_of_byte c mod 64) (k + 1) ltac:(lia) ltac:(lia)).
    destruct (base64_encode_block l _) as [out st].
    rewrite <-app_assoc. simpl app at 2. rewrite IH. done.
Qed.

(** ** The reference decodes *)

Ltac sextets :=
  repeat match goal with
  | |- context [b64_value (base64_encode_value ?v)] =>
      rewrite (proj1 (encode_value_inv v ltac:(Z.to_euclidean_division_equations; lia)));
      cbn [option_bind mbind]
  | |- context [Byte.eqb (base64_encode_value ?v) x3d] =>
      rewrite (proj2 (byte_eqb_neq (base64_encode_value v) x3d)
        (proj2 (encode_value_inv v ltac:(Z.to_euclidean_division_equations; lia))));
      cbn [andb]
  end.

Ltac byte_arith x :=
  apply (byte_of_Z_eq _ x); Z.to_euclidean_division_equations; lia.

Lemma b64_decode_group w x y z l :
  l <> [] ->
  b64_decode (w :: x :: y :: z :: l) =
  (s0 ← b64_value w; s1 ← b64_value x; s2 ← b64_value y; s3 ← b64_value z;
   rest ← b64_decode l;
   Some (byte_of_Z (s0 * 4 + s1 / 16) :: byte_of_Z (s1 mod 16 * 16 + s2 / 4)
         :: byte_of_Z (s2 mod 4 * 64 + s3) :: rest)).
Proof. by destruct l. Qed.

Lemma b64_decode_last w x y z a b c :
  b64_value w = Some a -> b64_value x = Some b -> b64_value y = Some c ->
  Byte.eqb y x3d = false -> Byte.eqb z x3d = false ->
  b64_decode [w; x; y; z] =
  (s3 ← b64_value z;
   Some [byte_of_Z (a * 4 + b / 16); byte_of_Z (b mod 16 * 16 + c / 4);
         byte_of_Z (c mod 4 * 64 + s3)]).
Proof. intros Ha Hb Hc E1 E2. simpl. by rewrite Ha, Hb, E1; simpl; rewrite Hc, E2. Qed.

Lemma b64_decode_b64 l : b64_decode (b64 l) = Some l.
Proof.
  induction l as [|a|a b|a b c l IH] using bytes_ind3; [done|..];
    pose proof (Z_of_byte_range a) as Ha; cbn [b64].
  - simpl b64_decode. sextets. simpl. do 2 f_equal. byte_arith a.
  - pose proof (Z_of_byte_range b) as Hb. simpl b64_decode. sextets. simpl.
    repeat f_equal; [byte_arith a|byte_arith b].
  - pose proof (Z_of_byte_range b) as Hb. pose proof (Z_of_byte_range c) as Hc.
    destruct (decide (b64 l = [])) as [E|E].
    + rewrite E in *. simpl in IH. injection IH as <-.
      erewrite b64_decode_last;
        [|apply encode_value_inv; Z.to_euclidean_division_equations; lia ..
         |sextets; reflexivity|sextets; reflexivity].
      sextets. repeat f_equal; [byte_arith a|byte_arith b|byte_arith c].
    + rewrite b64_decode_group by done. sextets. rewrite IH. simpl.
      repeat f_equal; [byte_arith a|byte_arith b|byte_arith c].
Qed.

(** ** Sizes *)

Lemma length_b64 l : Z.of_nat (length (b64 l)) = 4 * ((Z.of_nat (length l) + 2) / 3).
Proof.
  induction l as [|a|a b|a b c l IH] using bytes_ind3; [done..|].
  cbn [b64 length]. rewrite !Nat2Z.inj_succ, IH.
  replace (Z.succ (Z.succ (Z.succ (Z.of_nat (length l)))) + 2)
    with (Z.of_nat (length l) + 2 + 1 * 3) by lia.
  rewrite Z.div_add by lia. lia.
Qed.

(** The line breaks add one character every 1024 groups. *)
Lemma length_encode_from_A l r k :
  0 <= k < 1024 ->
  let (out, st) := base64_encode_block l (mk_state step_A r k) in
  Z.of_nat (length (out ++ base64_encode_blockend st)) =
  4 * ((Z.of_nat (length l) + 2) / 3) + (k + Z.of_nat (length l) / 3) / 1024 + 1.
Proof.
  revert r k. induction l as [|a|a b|a b c l IH] using bytes_ind3; intros r k Hk.
  1-3: cbn [base64_encode_block step result stepcount app length base64_encode_blockend];
       change (Z.of_nat 0 / 3) with 0; change (Z.of_nat 1 / 3) with 0;
       change (Z.of_nat 2 / 3) with 0; rewrite (Z.add_0_r k), (Z.div_small k) by lia; done.
  rewrite encode_group. cbv zeta.
  specialize (IH (Z_of_byte c mod 64) (if k + 1 =? 1024 then 0 else k + 1)).
  replace (Z.of_nat (length (a :: b :: c :: l))) with (Z.of_nat (length l) + 1 * 3)
    by (simpl length; lia).
  rewrite Z.div_add by lia.
  replace (Z.of_nat (length l) + 1 * 3 + 2) with (Z.of_nat (length l) + 2 + 1 * 3) by lia.
  rewrite Z.div_add by lia.
  destruct (k + 1 =? 1024) eqn:E; bool_to_prop; specialize (IH ltac:(lia));
    destruct (base64_encode_block l _) as [out st];
    rewrite <-!app_assoc, length_app, (length_app _ (out ++ _)), !Nat2Z.inj_add, IH;
    change (Z.of_nat (length (take 4 (b64 [a; b; c])))) with 4;
    change (Z.of_nat (length [x0a])) with 1; change (Z.of_nat (length (@nil byte))) with 0.
  - replace k with 1023 by lia.
    replace (1023 + (Z.of_nat (length l) / 3 + 1)) with (Z.of_nat (length l) / 3 + 1 * 1024) by lia.
    rewrite Z.add_0_l, Z.div_add by lia. lia.
  - rewrite <-(Z.add_assoc k 1), (Z.add_comm 1). lia.
Qed.

(** ** The encoder against the reference *)

(** The calls of a stream: one [base64_encode_block] per piece, then
    [base64_encode_blockend]. *)
Fixpoint encode_pieces (pieces : list bytes) (st : base64_encodestate) : bytes :=
  match pieces with
  | [] => base64_encode_blockend st
  | c :: cs => let (out, st') := base64_encode_block c st in out ++ encode_pieces cs st'
  end.

Lemma encode_pieces_concat pieces st :
  encode_pieces pieces st =
  let (out, st') := base64_encode_block (concat pieces) st in out ++ base64_encode_blockend st'.
Proof.
  revert st. induction pieces as [|c cs IH]; intros st; [done|]. simpl concat.
  rewrite encode_block_app. cbn [encode_pieces].
  destruct (base64_encode_block c st) as [o1 st1]. rewrite IH.
  destruct (base64_encode_block (concat cs) st1) as [o2 st2]. by rewrite app_assoc.
Qed.

Lemma one_line l : Z.of_nat (length l) < 3072 ->
  let (out, st) := base64_encode_block l base64_init_encodestate in
  out ++ base64_encode_blockend st = b64 l ++ [x0a].
Proof.
  intros Hl. apply encode_short; [lia|].
  enough (Z.of_nat (length l) / 3 < 1024) by lia. apply Z.div_lt_upper_bound; lia.
Qed.


(** What the encoder writes for a message shorter than a line decodes to
    the message, and has the length RFC 4648 gives it. *)
Theorem base64_roundtrip (plain : bytes) :
  Z.of_nat (length plain) < 3072 ->
  exists code, base64_encode_all plain = code ++ [x0a] /\
    b64_decode code = Some plain /\
    Z.of_nat (length code) = 4 * ((Z.of_nat (length plain) + 2) / 3).
Proof.
  intros Hl. exists (b64 plain). split; [|split].
  - unfold base64_encode_all. pose proof (one_line plain Hl) as H.
    by destruct (base64_encode_block plain _).
  - apply b64_decode_b64.
  - apply length_b64.
Qed.

Lemma base64_roundtrip_witness :
  exists code, base64_encode_all (lit "user:password") = code ++ [x0a] /\
    b64_decode code = Some (lit "user:password") /\
    Z.of_nat (length code) = 4 * ((Z.of_nat (length (lit "user:password")) + 2) / 3).
Proof. apply (base64_roundtrip (lit "user:password")). vm_compute. reflexivity. Defined.

End Base64.
