(* ===== verification/Acl.v ===== *)
(** * src/acl.c: which client may run which command

    [acl_match_client] selects the ACLs of a client (basic-auth credentials and
    CIDR subnet); [acl_allow_command] runs through the selected ACLs and lets
    each of them override the previous verdict. *)
From S2P Require Import Prelude Types.

Local Open Scope Z_scope.

Module Acl.

(** ** The code *)

(** client.c, [client_get_header]: the value of the first header named [key]. *)
Fixpoint get_header (headers : list req_header) (key : bytes) : option bytes :=
  match headers with
  | [] => None
  | h :: hs =>
      if (strlen key =? length (rh_key h))%nat && strncasecmp_eq (strlen key) key (rh_key h)
      then rh_val h else get_header hs key
  end.

Definition client_get_header (c : http_client) (key : bytes) : option bytes :=
  get_header (hc_headers c) key.

Definition acl_match_client (a : acl) (client : http_client) (ip : Z) : bool :=
  let auth := client_get_header client (lit "Authorization") in
  let auth_ok :=
    match acl_http_basic_auth a with
    | Some expected =>
        match auth with
        | Some v =>
            if strncasecmp_eq 6 v (lit "Basic ")
            then strcmp_eq (drop 6 v) expected
            else false
        | None => false
        end
    | None => true
    end in
  if negb auth_ok then false
  else if negb (acl_cidr_enabled a) then true
  else Z.land ip (acl_cidr_mask a) =? Z.land (acl_cidr_subnet a) (acl_cidr_mask a).

Definition always_off : list bytes :=
  [lit "MULTI"; lit "EXEC"; lit "WATCH"; lit "DISCARD"; lit "SELECT"].

(** The test made for each listed command: [strncasecmp] with the length of the
    command name sent, or the first character of the listed one being a star. *)
Definition command_match (listed cmd_name : bytes) : bool :=
  strncasecmp_eq (length cmd_name) listed cmd_name || strncasecmp_eq 1 listed (lit "*").

(** One turn of the loop over [cfg->perms]. *)
Definition acl_apply (a : acl) (cmd_name : bytes) (authorized : bool) : bool :=
  let authorized :=
    fold_left (fun auth listed => if command_match listed cmd_name then true else auth)
      (acl_enabled a) authorized in
  fold_left (fun auth listed => if command_match listed cmd_name then false else auth)
    (acl_disabled a) authorized.

Fixpoint acl_loop (perms : list acl) (client : http_client) (client_addr : Z)
  (cmd_name : bytes) (authorized : bool) : bool :=
  match perms with
  | [] => authorized
  | a :: next =>
      if acl_match_client a client client_addr
      then acl_loop next client client_addr cmd_name (acl_apply a cmd_name authorized)
      else acl_loop next client client_addr cmd_name authorized
  end.

Definition acl_allow_command (c : cmd) (cfg : conf) (client : http_client) : bool :=
  if cmd_count c =? 0 then false
  else
    let cmd_name := default [] (head (cmd_argv c)) in
    if existsb (fun off => strncasecmp_eq (length cmd_name) off cmd_name) always_off
    then false
    else acl_loop (cfg_perms cfg) client (ntohl (hc_addr client)) cmd_name true.

(** ** The contract: the last rule that speaks about the command decides *)

(** The rules that apply to a client, in the order of the configuration: within
    an ACL the enabled commands come first. *)
Definition rules (perms : list acl) (client : http_client) (client_addr : Z)
  : list (bool * bytes) :=
  flat_map (fun a =>
    if acl_match_client a client client_addr
    then map (pair true) (acl_enabled a) ++ map (pair false) (acl_disabled a)
    else []) perms.

Definition verdict (rs : list (bool * bytes)) (cmd_name : bytes) : bool :=
  match last (filter (fun r => command_match r.2 cmd_name = true) rs) with
  | Some (v, _) => v
  | None => true
  end.

(** What one rule does to the current verdict. *)
Definition apply_rule (cmd_name : bytes) (auth : bool) (r : bool * bytes) : bool :=
  if command_match r.2 cmd_name then r.1 else auth.

Lemma acl_loop_rules perms client ip name auth :
  acl_loop perms client ip name auth =
  fold_left (apply_rule name) (rules perms client ip) auth.
Proof.
  revert auth. induction perms as [|a perms IH]; intros auth; [done|].
  cbn [acl_loop rules flat_map]. fold (rules perms client ip).
  destruct (acl_match_client a client ip); [|apply IH].
  rewrite !fold_left_app, IH. f_equal. unfold acl_apply.
  assert (forall v l au, fold_left (apply_rule name) (map (pair v) l) au =
     fold_left (fun auth listed => if command_match listed name then v else auth) l au) as H.
  { intros v l. induction l as [|x l IHl]; intros au; [done|]. simpl. apply IHl. }
  by rewrite !H.
Qed.

Lemma fold_rules_last name rs auth :
  fold_left (apply_rule name) rs auth =
  match last (filter (fun r => command_match r.2 name = true) rs) with
  | Some (v, _) => v
  | None => auth
  end.
Proof.
  revert auth. induction rs as [|r rs IH] using rev_ind; intros auth; [done|].
  rewrite fold_left_app, filter_app. simpl. unfold apply_rule at 1.
  rewrite filter_cons. destruct (command_match r.2 name) eqn:E; simpl.
  - rewrite last_app. simpl. by destruct r.
  - rewrite app_nil_r. apply IH.
Qed.

(** ** Names *)

(** Equality of command names as Redis reads them. *)
Definition same_command (a b : bytes) : Prop := map tolower a = map tolower b.

Lemma tolower_nul_eq c : tolower c = tolower x00 <-> c = x00.
Proof. change (tolower x00) with x00. apply tolower_nul. Qed.

(** The length-limited comparison accepts exactly the case-insensitive prefixes
    of the listed command. *)
Lemma strncasecmp_prefix listed name :
  no_nul listed -> no_nul name ->
  strncasecmp_eq (length name) listed name = true <->
  map tolower name `prefix_of` map tolower listed.
Proof.
  intros Hl Hn. unfold strncasecmp_eq.
  rewrite strn_eq_spec by (auto using tolower_nul_eq).
  rewrite (take_app_length name). split.
  - intros H. destruct (Nat.le_gt_cases (length name) (length listed)) as [Hlen|Hlen].
    + rewrite take_app_le in H by done. rewrite <-H.
      exists (map tolower (drop (length name) listed)). by rewrite <-map_app, take_drop.
    + exfalso. rewrite take_ge in H by (rewrite length_app; simpl; lia).
      assert (x00 ∈ map tolower name) as Hin.
      { rewrite <-H. apply list_elem_of_In, in_map_iff. exists x00. split; [done|].
        apply in_or_app. right. by left. }
      apply list_elem_of_In, in_map_iff in Hin as (x & Hx & Hx').
      apply tolower_nul in Hx as ->. apply Hn. by apply list_elem_of_In.
  - intros [k Hk].
    assert (length name <= length listed)%nat.
    { apply (f_equal length) in Hk. rewrite length_app, !length_map in Hk. lia. }
    rewrite take_app_le by done. rewrite <-firstn_map, Hk.
    rewrite <-(length_map tolower name) at 1. by rewrite take_app_length.
Qed.

Lemma star_match listed name : head listed = Some x2a -> command_match listed name = true.
Proof.
  destruct listed as [|c l]; simpl; [done|]. intros [= ->].
  unfold command_match. apply orb_true_iff. by right.
Qed.

Lemma same_command_match listed name :
  no_nul listed -> no_nul name -> same_command name listed ->
  strncasecmp_eq (length name) listed name = true.
Proof. intros Hl Hn H. apply strncasecmp_prefix; [done..|]. by rewrite H. Qed.

Lemma always_off_no_nul : Forall no_nul always_off.
Proof. by_decide. Qed.

(** ** Properties *)


(** A transaction command or [SELECT], in any letter case, is refused to
    every client under every configuration. *)
Theorem acl_always_off (c : cmd) (cfg : conf) (client : http_client) (name : bytes) :
  head (cmd_argv c) = Some name -> no_nul name ->
  Exists (same_command name) always_off ->
  acl_allow_command c cfg client = false.
Proof.
  intros Hh Hn Hoff. unfold acl_allow_command. rewrite Hh. simpl default.
  destruct (cmd_count c =? 0); [done|].
  assert (existsb (fun off => strncasecmp_eq (length name) off name) always_off = true) as ->;
    [|done].
  apply existsb_exists. apply Exists_exists in Hoff as (off & Hin & Hsame).
  exists off. split; [by apply list_elem_of_In|].
  apply same_command_match; [|done..].
  pose proof always_off_no_nul as H. rewrite Forall_forall in H. by apply H.
Qed.

Lemma acl_always_off_witness :
  acl_allow_command
    (mk_cmd 5 1 [lit "exec"] None false None None None None true false false 1 0 None None None)
    (mk_conf (lit "127.0.0.1") 6379 None (lit "0.0.0.0") 7379 4 134217728 2 false
       (lit "webdis.pid") false 0 [mk_acl false 0 0 None [lit "EXEC"; lit "*"] []]
       1000 1000 (lit "webdis.log") 2 LOG_FSYNC_AUTO 0 0 None)
    (mk_client 5 16777343 (mk_parser 0 1 1 HTTP_GET false) [] 0 LAST_CB_NONE true false false
       false 1 false None [] None None None None None None None None) = false.
Proof.
  apply (acl_always_off _ _ _ (lit "exec")); [reflexivity|by_decide|].
  right. left. vm_compute. reflexivity.
Defined.

(** A client no ACL distinguishes: rules without credentials or subnet. *)
Definition unconditional (a : acl) : Prop :=
  acl_http_basic_auth a = None /\ acl_cidr_enabled a = false.

Lemma unconditional_match a client ip : unconditional a -> acl_match_client a client ip = true.
Proof. intros [H1 H2]. unfold acl_match_client. by rewrite H1, H2. Qed.

(** The comparison is limited to the length of the name the client sent, so
    a rule that enables [listed] also enables every abbreviation of it: after
    everything was disabled with a star, enabling [GETSET] lets [GET] through. *)
Theorem acl_enabled_prefix_allowed (c : cmd) (cfg : conf) (client : http_client)
  (name listed : bytes) (closed opened : acl) :
  head (cmd_argv c) = Some name -> cmd_count c <> 0 ->
  no_nul name -> no_nul listed -> map tolower name `prefix_of` map tolower listed ->
  Forall (fun off => ~ map tolower name `prefix_of` map tolower off) always_off ->
  unconditional closed -> unconditional opened ->
  acl_disabled closed = [lit "*"] -> acl_enabled opened = [listed] -> acl_disabled opened = [] ->
  cfg_perms cfg = [closed; opened] ->
  acl_allow_command c cfg client = true.
Proof.
  intros Hh Hc Hn Hl Hp Hoff Hu1 Hu2 Hd He Hd2 Hperms.
  unfold acl_allow_command. rewrite Hh, (proj2 (Z.eqb_neq _ _) Hc). simpl default.
  assert (existsb (fun off => strncasecmp_eq (length name) off name) always_off = false) as ->.
  { apply not_true_iff_false. intros H. apply existsb_exists in H as (off & Hin & H).
    apply list_elem_of_In in Hin. pose proof always_off_no_nul as Hnn.
    rewrite Forall_forall in Hoff, Hnn. apply (Hoff off Hin), strncasecmp_prefix; auto. }
  rewrite Hperms. cbn [acl_loop]. rewrite !unconditional_match by done.
  unfold acl_apply at 1. rewrite He, Hd2. simpl. unfold command_match at 1.
  by rewrite (proj2 (strncasecmp_prefix listed name Hl Hn) Hp).
Qed.

Lemma acl_enabled_prefix_witness :
  acl_allow_command
    (mk_cmd 5 2 [lit "GET"; lit "k"] None false None None None None true false false 1 0 None None None)
    (mk_conf (lit "127.0.0.1") 6379 None (lit "0.0.0.0") 7379 4 134217728 2 false
       (lit "webdis.pid") false 0
       [mk_acl false 0 0 None [] [lit "*"]; mk_acl false 0 0 None [lit "GETSET"] []]
       1000 1000 (lit "webdis.log") 2 LOG_FSYNC_AUTO 0 0 None)
    (mk_client 5 16777343 (mk_parser 0 1 1 HTTP_GET false) [] 0 LAST_CB_NONE true false false
       false 1 false None [] None None None None None None None None) = true.
Proof.
  apply (acl_enabled_prefix_allowed _ _ _ (lit "GET") (lit "GETSET")
           (mk_acl false 0 0 None [] [lit "*"]) (mk_acl false 0 0 None [lit "GETSET"] []));
    first [reflexivity | by_decide | split; reflexivity | discriminate].
Defined.

End Acl.
