(* ===== verification/WsFrame.v ===== *)
(** * src/websocket.c: frames

    The byte-level half of the WebSocket code: how a reply is framed
    ([ws_frame_and_send_response]), how a frame of the client is recognised in
    the read buffer ([ws_peek_data]) and unmasked ([ws_msg_add]). The event-loop
    half is in [WebSocket]. *)
From S2P Require Import Prelude Types.

Local Open Scope Z_scope.

Module WsFrame.

(** ** The code *)

(** The macro [webdis_htonll]/[webdis_ntohll] of a little-endian host. *)
Definition webdis_htonll (x : Z) : Z :=
  Z.lor (Z.shiftl (ntohl (Z.land x 0xFFFFFFFF)) 32) (ntohl (Z.shiftr x 32)).

(** The frame [ws_frame_and_send_response] adds to the write buffer. [htons]
    takes a [uint16_t]: the size is truncated on the way in. *)
Definition ws_frame (frame_type : Z) (p : bytes) : bytes :=
  let sz := Z.of_nat (length p) in
  byte_of_Z (Z.lor 0x80 frame_type) ::
  if sz <=? 125 then byte_of_Z sz :: p
  else if sz <=? 65536 then byte_of_Z 126 :: le_bytes 2 (htons (u16 sz)) ++ p
  else byte_of_Z 127 :: le_bytes 8 (webdis_htonll sz) ++ p.

(** [ws_msg_add] with a mask: the bytes it appends to the payload. *)
Fixpoint unmask (i : nat) (p mask : bytes) : bytes :=
  match p with
  | [] => []
  | c :: p' =>
      byte_of_Z (Z.lxor (Z_of_byte c) (Z_of_byte (default x00 (mask !! (i mod 4)%nat))))
      :: unmask (S i) p' mask
  end.

Definition ws_msg_add (m : ws_msg) (p : bytes) (mask : option bytes) : ws_msg :=
  mk_ws_msg (msg_type m)
    (msg_payload m ++ match mask with Some k => unmask 0 p k | None => p end)
    (msg_total_sz m).

(** What [ws_peek_data] finds at the start of the read buffer, before it acts on
    it. A [frame_header] has the bit and field of the header, where the payload
    starts, and the announced payload length. *)
Record frame_header := mk_fh {
  fh_fin : bool;
  fh_type : Z;
  fh_mask : bytes;
  fh_start : nat;
  fh_len : Z }.

Inductive peek := PeekReading | PeekUnmasked | PeekFrame (h : frame_header).

Definition byte_at (l : bytes) (i : nat) : Z := Z_of_byte (default x00 (l !! i)).

Definition ws_peek (frame : bytes) : peek :=
  let sz := length frame in
  if (sz <? 2)%nat then PeekReading
  else
    let fin_bit_set := negb (Z.land (byte_at frame 0) 0x80 =? 0) in
    let frame_type := Z.land (byte_at frame 0) 0x0F in
    let has_mask := negb (Z.land (byte_at frame 1) 0x80 =? 0) in
    if negb has_mask then PeekUnmasked
    else
      let len := Z.land (byte_at frame 1) 0x7f in
      let min_sz := if len =? 126 then (6 + 2)%nat else if len =? 127 then (6 + 8)%nat else 6%nat in
      if (sz <? min_sz)%nat then PeekReading
      else
        let '(start, mask, len) :=
          if len <=? 125 then (6%nat, take 4 (drop 2 frame), len)
          else if len =? 126
          then (8%nat, take 4 (drop 4 frame), ntohs (le_value (take 2 (drop 2 frame))))
          else (14%nat, take 4 (drop 10 frame), webdis_htonll (le_value (take 8 (drop 2 frame)))) in
        if Z.of_nat sz - Z.of_nat start <? len then PeekReading
        else PeekFrame (mk_fh fin_bit_set frame_type mask start len).

(** The message of a complete frame, and the bytes left after it is drained. *)
Definition fh_size (h : frame_header) : nat := (fh_start h + Z.to_nat (fh_len h))%nat.

Definition ws_take_msg (frame : bytes) (h : frame_header) : ws_msg :=
  let p := take (Z.to_nat (fh_len h)) (drop (fh_start h) frame) in
  let m := ws_msg_add (mk_ws_msg (fh_type h) [] 0) p (Some (fh_mask h)) in
  mk_ws_msg (msg_type m) (msg_payload m) (msg_total_sz m + Z.of_nat (fh_size h)).

(** ** RFC 6455, section 5.2, as a reference *)

Definition rfc_length (mask_bit n : Z) : bytes :=
  if n <=? 125 then [byte_of_Z (mask_bit + n)]
  else if n <=? 65535 then byte_of_Z (mask_bit + 126) :: be_bytes 2 n
  else byte_of_Z (mask_bit + 127) :: be_bytes 8 n.

Definition rfc_first (fin : bool) (opcode : Z) : byte :=
  byte_of_Z ((if fin then 128 else 0) + opcode).

(** The masking of RFC 6455, 5.3: the four bytes of the key are used in turn. *)
Fixpoint rfc_mask (key payload : bytes) : bytes :=
  match payload, key with
  | [], _ => []
  | _, [] => payload
  | c :: p, k :: ks => byte_of_Z (Z.lxor (Z_of_byte c) (Z_of_byte k)) :: rfc_mask (ks ++ [k]) p
  end.

(** A frame of a client (masked) and one of a server (not masked). *)
Definition rfc_client_frame (fin : bool) (opcode : Z) (mask payload : bytes) : bytes :=
  rfc_first fin opcode :: rfc_length 128 (Z.of_nat (length payload)) ++ mask
  ++ rfc_mask mask payload.

Definition rfc_server_frame (fin : bool) (opcode : Z) (payload : bytes) : bytes :=
  rfc_first fin opcode :: rfc_length 0 (Z.of_nat (length payload)) ++ payload.

(** ** Bit fields *)

Section Fields.
Variable z : Z.
Hypothesis Hz : 0 <= z < 256.

Lemma land_80 : negb (Z.land z 0x80 =? 0) = (128 <=? z).
Proof.
  apply eqb_prop. revert z Hz. apply forall_below. vm_compute. reflexivity.
Qed.

Lemma land_0f : Z.land z 0x0F = z mod 16.
Proof. apply Z.eqb_eq. revert z Hz. apply forall_below. vm_compute. reflexivity. Qed.

Lemma land_7f : Z.land z 0x7f = z mod 128.
Proof. apply Z.eqb_eq. revert z Hz. apply forall_below. vm_compute. reflexivity. Qed.
End Fields.

Lemma lor_80 t : 0 <= t < 16 -> Z.lor 0x80 t = 128 + t.
Proof. intros Ht. apply Z.eqb_eq. revert t Ht. apply forall_below. vm_compute. reflexivity. Qed.

(** ** Masking *)

Lemma length_unmask i p k : length (unmask i p k) = length p.
Proof. revert i. induction p; intros; simpl; auto. Qed.

#[local] Hint Rewrite length_unmask : len.

Lemma lxor_byte_range a b : 0 <= Z.lxor (Z_of_byte a) (Z_of_byte b) < 256.
Proof.
  pose proof (Z_of_byte_range a). pose proof (Z_of_byte_range b).
  split; [apply Z.lxor_nonneg; lia|].
  destruct (Z.eq_dec (Z.lxor (Z_of_byte a) (Z_of_byte b)) 0) as [->|Hne]; [lia|].
  assert (0 <= Z.lxor (Z_of_byte a) (Z_of_byte b)) by (apply Z.lxor_nonneg; lia).
  change 256 with (2 ^ 8). apply Z.log2_lt_pow2; [lia|].
  eapply Z.le_lt_trans; [apply Z.log2_lxor; lia|].
  assert (forall x, 0 <= x < 256 -> Z.log2 x < 8) as Hlog.
  { intros x Hx. apply Z.ltb_lt. revert x Hx. apply forall_below. vm_compute. reflexivity. }
  apply Z.max_lub_lt; by apply Hlog.
Qed.

Lemma unmask_involutive i p k : unmask i (unmask i p k) k = p.
Proof.
  revert i. induction p as [|c p IH]; intros i; [done|]. cbn [unmask]. f_equal; [|apply IH].
  apply byte_of_Z_eq. rewrite Z_of_byte_of_Z.
  rewrite (Z.mod_small (Z.lxor _ _)) by apply lxor_byte_range.
  by rewrite Z.lxor_assoc, Z.lxor_nilpotent, Z.lxor_0_r.
Qed.

Lemma unmask_rfc i p key :
  length key = 4%nat -> unmask i p key = rfc_mask (drop (i mod 4) key ++ take (i mod 4) key) p.
Proof.
  intros Hk. destruct key as [|k0 [|k1 [|k2 [|k3 [|]]]]]; try discriminate Hk.
  revert i. induction p as [|c p IH]; intros i; [cbn [unmask]; by destruct (_ ++ _)|].
  cbn [unmask]. rewrite IH.
  assert (S i mod 4 = S (i mod 4) mod 4)%nat as -> 
    by (rewrite <-Nat.add_1_r, <-(Nat.add_1_r (i mod 4)); by rewrite Nat.Div0.add_mod_idemp_l).
  assert (i mod 4 < 4)%nat as Hi by (apply Nat.mod_upper_bound; lia).
  destruct (i mod 4)%nat as [|[|[|[|]]]]; [..|lia]; reflexivity.
Qed.

Lemma unmask_0 p key : length key = 4%nat -> unmask 0 p key = rfc_mask key p.
Proof. intros Hk. rewrite unmask_rfc by done. by rewrite app_nil_r. Qed.

(** ** Byte order *)

Lemma webdis_htonll_bswap x : 0 <= x -> webdis_htonll x = bswap 8 x.
Proof.
  intros Hx. unfold webdis_htonll.
  assert (ntohl (Z.land x 0xFFFFFFFF) = ntohl x) as ->.
  { unfold bswap. change 0xFFFFFFFF with (Z.ones 32). rewrite Z.land_ones by lia.
    change (2 ^ 32) with (256 ^ Z.of_nat 4). by rewrite le_bytes_mod. }
  rewrite Z.shiftr_div_pow2 by lia. pose proof (bswap_range 4 (x / 2 ^ 32)) as Hr.
  assert (bswap 8 x = ntohl x * 2 ^ 32 + ntohl (x / 2 ^ 32)) as ->.
  { unfold bswap. rewrite (le_bytes_app 4 4), be_value_app, length_le_bytes. done. }
  apply lor_shiftl_add; [lia|]. exact Hr.
Qed.

Lemma le_bytes_htonll x : 0 <= x -> le_bytes 8 (webdis_htonll x) = be_bytes 8 x.
Proof. intros. rewrite webdis_htonll_bswap by done. apply le_bytes_bswap. Qed.

Lemma webdis_ntohll_le_value l : length l = 8%nat -> webdis_htonll (le_value l) = be_value l.
Proof.
  intros Hl. rewrite webdis_htonll_bswap by apply le_value_range.
  by apply bswap_le_value.
Qed.

(** ** The server's frames *)

Lemma ws_frame_rfc t p :
  0 <= t < 16 -> Z.of_nat (length p) <> 65536 ->
  ws_frame t p = rfc_server_frame true t p.
Proof.
  intros Ht Hp. unfold ws_frame, rfc_server_frame, rfc_first, rfc_length.
  rewrite lor_80 by done. f_equal.
  destruct (Z.of_nat (length p) <=? 125) eqn:E1; [done|]. bool_to_prop.
  destruct (Z.of_nat (length p) <=? 65536) eqn:E2; bool_to_prop.
  - rewrite (proj2 (Z.leb_le _ 65535)) by lia. cbn [app]. f_equal.
    rewrite le_bytes_bswap, wrap_u_small by lia. done.
  - rewrite (proj2 (Z.leb_gt _ 65535)) by lia. rewrite le_bytes_htonll by lia. done.
Qed.

(** The unmasked frames of the RFC, read back. *)
Definition rfc_decode_server (l : bytes) : option (bool * Z * bytes * bytes) :=
  match l with
  | b0 :: b1 :: l =>
      let fin := 128 <=? Z_of_byte b0 in
      let op := Z_of_byte b0 mod 128 in
      let n := Z_of_byte b1 in
      let '(k, len) :=
        if n <=? 125 then (0%nat, n)
        else if n =? 126 then (2%nat, be_value (take 2 l)) else (8%nat, be_value (take 8 l)) in
      if (length l <? k + Z.to_nat len)%nat then None
      else Some (fin, op, take (Z.to_nat len) (drop k l), drop (k + Z.to_nat len) l)
  | _ => None
  end.

Lemma rfc_first_fields fin op :
  0 <= op < 16 ->
  Z_of_byte (rfc_first fin op) = (if fin then 128 else 0) + op.
Proof.
  intros. unfold rfc_first. rewrite Z_of_byte_of_Z. apply Z.mod_small. destruct fin; lia.
Qed.

Lemma rfc_decode_server_frame fin op p rest :
  0 <= op < 16 -> Z.of_nat (length p) < 2 ^ 64 ->
  rfc_decode_server (rfc_server_frame fin op p ++ rest) = Some (fin, op, p, rest).
Proof.
  intros Hop Hp. unfold rfc_server_frame, rfc_length.
  assert (forall k (pre : bytes), length pre = k ->
    take (Z.to_nat (Z.of_nat (length p))) (drop k (pre ++ p ++ rest)) = p /\
    drop (k + Z.to_nat (Z.of_nat (length p))) (pre ++ p ++ rest) = rest /\
    (length (pre ++ p ++ rest) <? k + Z.to_nat (Z.of_nat (length p)))%nat = false) as Hcut.
  { intros k pre <-. rewrite Nat2Z.id, <-drop_drop, drop_app_length, take_app_length,
      drop_app_length. repeat split. apply Nat.ltb_ge. rewrite !length_app. lia. }
  pose proof (rfc_first_fields fin op Hop) as Hf.
  assert ((128 <=? (if fin then 128 else 0) + op) = fin) as Hfin by (destruct fin; lia).
  assert (((if fin then 128 else 0) + op) mod 128 = op) as Hop'
    by (destruct fin; Z.to_euclidean_division_equations; lia).
  destruct (Z.of_nat (length p) <=? 125) eqn:E1; [|destruct (Z.of_nat (length p) <=? 65535) eqn:E2];
    bool_to_prop; cbn [app rfc_decode_server]; rewrite Hf, Hfin, Hop', Z_of_byte_of_Z.
  - rewrite Z.add_0_l, Z.mod_small, (proj2 (Z.leb_le _ _) E1) by lia.
    destruct (Hcut 0%nat [] eq_refl) as (H1 & H2 & H3). cbn [app] in *.
    by rewrite H3, H1, H2.
  - change ((0 + 126) mod 256) with 126. change (126 <=? 125) with false.
    change (126 =? 126) with true. cbv iota beta zeta.
    rewrite <-app_assoc, (take_app_length' (be_bytes 2 _)) by (symmetry; apply length_be_bytes).
    rewrite be_value_bytes, Z.mod_small by (simpl; lia).
    destruct (Hcut 2%nat (be_bytes 2 (Z.of_nat (length p))) (length_be_bytes _ _))
      as (H1 & H2 & H3). by rewrite H3, H1, H2.
  - change ((0 + 127) mod 256) with 127. change (127 <=? 125) with false.
    change (127 =? 126) with false. cbv iota beta zeta.
    rewrite <-app_assoc, (take_app_length' (be_bytes 8 _)) by (symmetry; apply length_be_bytes).
    rewrite be_value_bytes, Z.mod_small by (simpl; lia).
    destruct (Hcut 8%nat (be_bytes 8 (Z.of_nat (length p))) (length_be_bytes _ _))
      as (H1 & H2 & H3). by rewrite H3, H1, H2.
Qed.

(** ** The client's frames *)

(** The three shapes of a header: where the extended length and the mask are. *)
Lemma rfc_length_cases n :
  0 <= n < 2 ^ 64 ->
  exists ext l7, rfc_length 128 n = byte_of_Z (128 + l7) :: ext /\ 0 <= l7 < 128 /\
    (l7 = n /\ n <= 125 /\ ext = [] \/
     l7 = 126 /\ ext = be_bytes 2 n /\ n < 65536 \/
     l7 = 127 /\ ext = be_bytes 8 n).
Proof.
  intros Hn. unfold rfc_length.
  destruct (n <=? 125) eqn:E1; [|destruct (n <=? 65535) eqn:E2]; bool_to_prop.
  - exists [], n. repeat split; [lia..|]. by left.
  - exists (be_bytes 2 n), 126. repeat split; [lia..|]. right. left. repeat split. lia.
  - exists (be_bytes 8 n), 127. repeat split; [lia..|]. by right; right.
Qed.

(** With the header complete, the answer depends on the payload bytes there. *)
Lemma ws_peek_header fin op mask n ext l7 data :
  0 <= op < 16 -> length mask = 4%nat -> 0 <= n < 2 ^ 64 -> 0 <= l7 < 128 ->
  (l7 = n /\ n <= 125 /\ ext = [] \/ l7 = 126 /\ ext = be_bytes 2 n /\ n < 65536 \/
   l7 = 127 /\ ext = be_bytes 8 n) ->
  ws_peek (rfc_first fin op :: byte_of_Z (128 + l7) :: ext ++ mask ++ data) =
  if Z.of_nat (length data) <? n then PeekReading
  else PeekFrame (mk_fh fin op mask (6 + length ext) n).
Proof.
  intros Hop Hmask Hn Hl7 Hcase. unfold ws_peek.
  set (F := rfc_first fin op :: byte_of_Z (128 + l7) :: ext ++ mask ++ data).
  change (byte_at F 0) with (Z_of_byte (rfc_first fin op)).
  change (byte_at F 1) with (Z_of_byte (byte_of_Z (128 + l7))).
  change (drop 2 F) with (ext ++ mask ++ data).
  change (drop 4 F) with (drop 2 (ext ++ mask ++ data)).
  change (drop 10 F) with (drop 8 (ext ++ mask ++ data)).
  rewrite rfc_first_fields, Z_of_byte_of_Z, (Z.mod_small (128 + l7)) by lia.
  rewrite !land_80, land_0f, land_7f by (destruct fin; lia).
  rewrite (proj2 (Z.leb_le 128 (128 + l7))) by lia. cbn [negb].
  replace ((128 + l7) mod 128) with l7 by (Z.to_euclidean_division_equations; lia).
  replace (128 <=? (if fin then 128 else 0) + op) with fin by (destruct fin; lia).
  replace (((if fin then 128 else 0) + op) mod 16) with op
    by (destruct fin; Z.to_euclidean_division_equations; lia).
  assert (length F = 2 + (length ext + (4 + length data)))%nat as HF.
  { subst F. simpl. rewrite !length_app, Hmask. lia. }
  rewrite HF. rewrite (proj2 (Nat.ltb_ge _ 2)) by lia.
  assert (forall x, take 4 (mask ++ x) = mask) as Htake
    by (intros; rewrite <-Hmask; apply take_app_length).
  destruct Hcase as [(-> & Hle & ->) | [(-> & -> & Hlt) | (-> & ->)]].
  - rewrite (proj2 (Z.eqb_neq n 126)), (proj2 (Z.eqb_neq n 127)) by lia.
    rewrite (proj2 (Z.leb_le n 125)) by lia. rewrite (proj2 (Nat.ltb_ge _ 6)) by (simpl; lia).
    simpl app. rewrite Htake.
    replace (Z.of_nat _ - Z.of_nat 6) with (Z.of_nat (length data)) by (simpl length; lia). done.
  - change (126 =? 126) with true. change (126 <=? 125) with false. cbv iota beta zeta.
    rewrite length_be_bytes. rewrite (proj2 (Nat.ltb_ge _ _)) by lia.
    rewrite (take_app_length' (be_bytes 2 _)), (drop_app_length' (be_bytes 2 _))
      by (symmetry; apply length_be_bytes).
    rewrite Htake, bswap_le_value by apply length_be_bytes.
    rewrite be_value_bytes, Z.mod_small by (simpl; lia).
    replace (Z.of_nat _ - Z.of_nat 8) with (Z.of_nat (length data)) by lia. done.
  - change (127 =? 126) with false. change (127 =? 127) with true.
    change (127 <=? 125) with false. cbv iota beta zeta.
    rewrite length_be_bytes. rewrite (proj2 (Nat.ltb_ge _ _)) by lia.
    rewrite (take_app_length' (be_bytes 8 _)), (drop_app_length' (be_bytes 8 _))
      by (symmetry; apply length_be_bytes).
    rewrite Htake, webdis_ntohll_le_value by apply length_be_bytes.
    rewrite be_value_bytes, Z.mod_small by (simpl; lia).
    replace (Z.of_nat _ - Z.of_nat 14) with (Z.of_nat (length data)) by lia. done.
Qed.

(** A header still incomplete. *)
Lemma ws_peek_short fin op l7 l :
  0 <= op < 16 -> 0 <= l7 < 128 ->
  (length l < 4 + (if (l7 =? 126)%Z then 2 else if (l7 =? 127)%Z then 8 else 0))%nat ->
  ws_peek (rfc_first fin op :: byte_of_Z (128 + l7) :: l) = PeekReading.
Proof.
  intros Hop Hl7 Hlen. unfold ws_peek.
  set (F := rfc_first fin op :: byte_of_Z (128 + l7) :: l).
  change (byte_at F 1) with (Z_of_byte (byte_of_Z (128 + l7))).
  rewrite Z_of_byte_of_Z, (Z.mod_small (128 + l7)) by lia.
  rewrite (land_80 (128 + l7)), (land_7f (128 + l7)) by lia.
  rewrite (proj2 (Z.leb_le 128 (128 + l7))) by lia. cbn [negb].
  replace ((128 + l7) mod 128) with l7 by (Z.to_euclidean_division_equations; lia).
  change (length F) with (S (S (length l))).
  revert Hlen. destruct (l7 =? 126), (l7 =? 127); intros Hlen;
    destruct (S (S (length l)) <? 2)%nat; try done; rewrite (proj2 (Nat.ltb_lt _ _)); done || lia.
Qed.

(** ** Properties *)

(** C28: every reply the server frames, of any type and of any size except
    65536 bytes, is decoded by a client following RFC 6455 as one final frame of
    that type with exactly that payload, and the decoder stops where the frame
    does. *)
Theorem ws_frame_roundtrip (t : Z) (p rest : bytes) :
  0 <= t < 16 -> Z.of_nat (length p) <> 65536 -> Z.of_nat (length p) < 2 ^ 64 ->
  rfc_decode_server (ws_frame t p ++ rest) = Some (true, t, p, rest).
Proof. intros. rewrite ws_frame_rfc by done. by apply rfc_decode_server_frame. Qed.

Lemma ws_frame_roundtrip_witness :
  rfc_decode_server (ws_frame WS_BINARY_FRAME (lit "hello") ++ lit "next") =
  Some (true, WS_BINARY_FRAME, lit "hello", lit "next").
Proof. apply ws_frame_roundtrip; vm_compute; [done|discriminate|done]. Defined.

(** A reply of exactly 65536 bytes takes the 16-bit branch, whose length
    field truncates to 0: the client reads an empty frame, and the payload as the
    frames that follow. *)
Theorem ws_frame_65536 (t : Z) (p : bytes) :
  0 <= t < 16 -> Z.of_nat (length p) = 65536 ->
  rfc_decode_server (ws_frame t p) = Some (true, t, [], p).
Proof.
  intros Ht Hp. unfold ws_frame. rewrite Hp.
  change (65536 <=? 125) with false. change (65536 <=? 65536) with true. cbv iota.
  rewrite lor_80 by done. unfold rfc_decode_server.
  fold (rfc_first true t). rewrite rfc_first_fields by done.
  rewrite (proj2 (Z.leb_le 128 _)) by lia.
  replace ((128 + t) mod 128) with t by (Z.to_euclidean_division_equations; lia).
  reflexivity.
Qed.

Lemma ws_frame_65536_witness :
  rfc_decode_server (ws_frame WS_BINARY_FRAME (replicate (Z.to_nat 65536) x61)) =
  Some (true, WS_BINARY_FRAME, [], replicate (Z.to_nat 65536) x61).
Proof.
  apply ws_frame_65536; [vm_compute; done|]. rewrite length_replicate. apply Z2Nat.id. lia.
Defined.

Lemma peek_frame (fin : bool) (op : Z) (mask payload rest : bytes) :
  0 <= op < 16 -> length mask = 4%nat -> Z.of_nat (length payload) < 2 ^ 64 ->
  let buf := rfc_client_frame fin op mask payload ++ rest in
  exists h, ws_peek buf = PeekFrame h /\ fh_fin h = fin /\
    msg_type (ws_take_msg buf h) = op /\
    msg_payload (ws_take_msg buf h) = payload /\
    drop (fh_size h) buf = rest.
Proof.
  intros Hop Hmask Hp buf.
  destruct (rfc_length_cases (Z.of_nat (length payload)) ltac:(lia))
    as (ext & l7 & Hrl & Hl7 & Hc).
  set (data := rfc_mask mask payload).
  assert (buf = rfc_first fin op :: byte_of_Z (128 + l7) :: ext ++ mask ++ data ++ rest) as Hbuf.
  { subst buf. unfold rfc_client_frame. rewrite Hrl. cbn [app]. by rewrite <-!app_assoc. }
  clearbody buf.
  pose proof (ws_peek_header fin op mask (Z.of_nat (length payload)) ext l7 (data ++ rest)
    Hop Hmask ltac:(lia) Hl7 Hc) as H.
  rewrite <-Hbuf in H.
  assert (length data = length payload) as Hd
    by (subst data; rewrite <-unmask_0 by done; apply length_unmask).
  rewrite length_app, Hd in H.
  rewrite (proj2 (Z.ltb_ge (Z.of_nat (length payload + length rest)) (Z.of_nat (length payload)))) in H
    by lia.
  assert (drop (6 + length ext) buf = data ++ rest) as Hdrop.
  { subst buf. replace (6 + length ext)%nat with (S (S (length ext + 4))) by lia.
    cbn [drop]. by rewrite <-drop_drop, drop_app_length, <-Hmask, drop_app_length. }
  eexists. split; [exact H|]. cbn [fh_fin]. split; [done|]. split; [done|].
  unfold ws_take_msg, ws_msg_add, fh_size. cbn [fh_start fh_len fh_mask fh_type msg_payload app].
  rewrite Nat2Z.id, Hdrop. split.
  - rewrite <-Hd, take_app_length. subst data. rewrite <-unmask_0 by done. apply unmask_involutive.
  - rewrite <-drop_drop, Hdrop, <-Hd. apply drop_app_length.
Qed.

(** C29: whatever arrives after it, a complete client frame at the head of the
    read buffer is recognised with its FIN bit and type; the message taken out
    has the payload the client masked, and what is left is what followed. *)
Theorem ws_peek_complete (fin : bool) (op : Z) (mask payload rest : bytes) :
  0 <= op < 16 -> length mask = 4%nat -> Z.of_nat (length payload) < 2 ^ 64 ->
  let buf := rfc_client_frame fin op mask payload ++ rest in
  exists h, ws_peek buf = PeekFrame h /\ fh_fin h = fin /\
    msg_type (ws_take_msg buf h) = op /\
    msg_payload (ws_take_msg buf h) = payload /\
    drop (fh_size h) buf = rest.
Proof. apply peek_frame. Qed.

Lemma ws_peek_complete_witness :
  let buf := rfc_client_frame true WS_BINARY_FRAME (lit "mask") (lit "[PING]") ++ lit "x" in
  exists h, ws_peek buf = PeekFrame h /\ fh_fin h = true /\
    msg_type (ws_take_msg buf h) = WS_BINARY_FRAME /\
    msg_payload (ws_take_msg buf h) = lit "[PING]" /\
    drop (fh_size h) buf = lit "x".
Proof. apply ws_peek_complete; vm_compute; done. Defined.

Lemma peek_prefix (fin : bool) (op : Z) (mask payload l : bytes) :
  0 <= op < 16 -> length mask = 4%nat -> Z.of_nat (length payload) < 2 ^ 64 ->
  l `prefix_of` rfc_client_frame fin op mask payload ->
  l <> rfc_client_frame fin op mask payload ->
  ws_peek l = PeekReading.
Proof.
  intros Hop Hmask Hp [k Hk] Hne. unfold rfc_client_frame in *.
  destruct (rfc_length_cases (Z.of_nat (length payload)) ltac:(lia))
    as (ext & l7 & Hrl & Hl7 & Hc). rewrite Hrl in *. clear Hrl.
  destruct l as [|b0 [|b1 l]]; [done..|]. cbn [app] in Hk, Hne.
  injection Hk as <- <- Hk.
  assert (length ext = if (l7 =? 126)%Z then 2 else if (l7 =? 127)%Z then 8 else 0)%nat as Hext.
  { destruct Hc as [(-> & ? & ->) | [(-> & -> & ?) | (-> & ->)]]; rewrite ?length_be_bytes; try done.
    by rewrite (proj2 (Z.eqb_neq _ 126)), (proj2 (Z.eqb_neq _ 127)) by lia. }
  destruct (Nat.lt_ge_cases (length l) (4 + length ext)) as [Hlt|Hge].
  - apply ws_peek_short; [done..|]. by rewrite <-Hext.
  - assert (exists data, l = ext ++ mask ++ data) as [data ->].
    { exists (drop (4 + length ext) l).
      assert (take (4 + length ext) l = ext ++ mask) as E.
      { rewrite <-(take_app_le l k) by lia. rewrite <-Hk, app_assoc.
        apply take_app_length'. rewrite length_app. lia. }
      by rewrite app_assoc, <-E, take_drop. }
    rewrite (ws_peek_header _ _ _ (Z.of_nat (length payload))); try done; [|lia].
    rewrite <-!app_assoc in Hk. apply app_inv_head in Hk. apply app_inv_head in Hk.
    rewrite (proj2 (Z.ltb_lt _ _)); [done|].
    rewrite <-(length_unmask 0 payload mask), unmask_0, Hk, length_app by done.
    destruct k; [|simpl; lia]. rewrite app_nil_r in Hk. congruence.
Qed.

(** No strict prefix of a client frame is taken for a frame (nor for an
    unmasked one): the server waits for the rest, and runs nothing partial. *)
Theorem ws_peek_partial (fin : bool) (op : Z) (mask payload l : bytes) :
  0 <= op < 16 -> length mask = 4%nat -> Z.of_nat (length payload) < 2 ^ 64 ->
  l `prefix_of` rfc_client_frame fin op mask payload ->
  l <> rfc_client_frame fin op mask payload ->
  ws_peek l = PeekReading.
Proof. apply peek_prefix. Qed.

Lemma ws_peek_partial_witness :
  ws_peek (take 9 (rfc_client_frame true WS_BINARY_FRAME (lit "mask") (lit "[PING]"))) = PeekReading.
Proof.
  apply (ws_peek_partial true WS_BINARY_FRAME (lit "mask") (lit "[PING]"));
    first [by_decide | vm_compute; done].
Defined.

End WsFrame.
