(* ===== verification/Http.v ===== *)
(** * src/http.c: responses

    A response is filled header by header, then serialised into its [out]
    buffer by [http_response_write], and sent by [http_can_write] as fast as the
    socket takes it. *)
From S2P Require Import Prelude Types.

Local Open Scope Z_scope.

Module Http.

(** ** The structures of http.h *)

Definition HEADER_COPY_NONE : Z := 0.
Definition HEADER_COPY_KEY : Z := 1.
Definition HEADER_COPY_VALUE : Z := 2.
Definition HEADER_CHECK_DUPE : Z := 4.

(** [struct http_header] of a response. *)
Record http_header := mk_header {
  h_key : bytes;
  h_val : bytes;
  h_copy : Z }.

(** [struct http_response]; [w] tells whether a worker is attached, in which case
    writes go through the event loop. *)
Record http_response := mk_response {
  r_code : Z;
  r_msg : bytes;
  r_headers : list http_header;
  r_headers_array_size : nat;
  r_body : option bytes;
  r_out : bytes;
  r_chunked : bool;
  r_http_version : Z;
  r_keep_alive : bool;
  r_sent : nat;
  r_w : bool }.

Definition set_r_code (v : Z) (x : http_response) : http_response :=
  mk_response v (r_msg x) (r_headers x) (r_headers_array_size x) (r_body x) (r_out x)
    (r_chunked x) (r_http_version x) (r_keep_alive x) (r_sent x) (r_w x).
Definition set_r_msg (v : bytes) (x : http_response) : http_response :=
  mk_response (r_code x) v (r_headers x) (r_headers_array_size x) (r_body x) (r_out x)
    (r_chunked x) (r_http_version x) (r_keep_alive x) (r_sent x) (r_w x).
Definition set_r_headers (v : list http_header) (x : http_response) : http_response :=
  mk_response (r_code x) (r_msg x) v (r_headers_array_size x) (r_body x) (r_out x)
    (r_chunked x) (r_http_version x) (r_keep_alive x) (r_sent x) (r_w x).
Definition set_r_headers_array_size (v : nat) (x : http_response) : http_response :=
  mk_response (r_code x) (r_msg x) (r_headers x) v (r_body x) (r_out x) (r_chunked x)
    (r_http_version x) (r_keep_alive x) (r_sent x) (r_w x).
Definition set_r_body (v : option bytes) (x : http_response) : http_response :=
  mk_response (r_code x) (r_msg x) (r_headers x) (r_headers_array_size x) v (r_out x)
    (r_chunked x) (r_http_version x) (r_keep_alive x) (r_sent x) (r_w x).
Definition set_r_out (v : bytes) (x : http_response) : http_response :=
  mk_response (r_code x) (r_msg x) (r_headers x) (r_headers_array_size x) (r_body x) v
    (r_chunked x) (r_http_version x) (r_keep_alive x) (r_sent x) (r_w x).
Definition set_r_chunked (v : bool) (x : http_response) : http_response :=
  mk_response (r_code x) (r_msg x) (r_headers x) (r_headers_array_size x) (r_body x) (r_out x)
    v (r_http_version x) (r_keep_alive x) (r_sent x) (r_w x).
Definition set_r_http_version (v : Z) (x : http_response) : http_response :=
  mk_response (r_code x) (r_msg x) (r_headers x) (r_headers_array_size x) (r_body x) (r_out x)
    (r_chunked x) v (r_keep_alive x) (r_sent x) (r_w x).
Definition set_r_keep_alive (v : bool) (x : http_response) : http_response :=
  mk_response (r_code x) (r_msg x) (r_headers x) (r_headers_array_size x) (r_body x) (r_out x)
    (r_chunked x) (r_http_version x) v (r_sent x) (r_w x).
Definition set_r_sent (v : nat) (x : http_response) : http_response :=
  mk_response (r_code x) (r_msg x) (r_headers x) (r_headers_array_size x) (r_body x) (r_out x)
    (r_chunked x) (r_http_version x) (r_keep_alive x) v (r_w x).
Definition set_r_w (v : bool) (x : http_response) : http_response :=
  mk_response (r_code x) (r_msg x) (r_headers x) (r_headers_array_size x) (r_body x) (r_out x)
    (r_chunked x) (r_http_version x) (r_keep_alive x) (r_sent x) v.

(** ** Building a response *)

Definition DEFAULT_HEADERS_ARRAY_SIZE : nat := 9.

(** The position of the first header whose key starts with [k]. *)
Fixpoint find_header (headers : list http_header) (k : bytes) : option nat :=
  match headers with
  | [] => None
  | h :: hs => if strncmp_eq (strlen k) (h_key h) k then Some O else S <$> find_header hs k
  end.

Definition http_response_set_header (r : http_response) (k v : bytes) (copy : Z)
  : http_response :=
  let dupe := if Z.land copy HEADER_CHECK_DUPE =? 0 then None
              else find_header (r_headers r) k in
  let pos := default (length (r_headers r)) dupe in
  let r := if (pos =? r_headers_array_size r)%nat
           then set_r_headers_array_size (r_headers_array_size r + 1) r else r in
  let h := mk_header (cstr k) (cstr v) copy in
  let r := match dupe with
           | Some i => set_r_headers (<[i := h]> (r_headers r)) r
           | None => set_r_headers (r_headers r ++ [h]) r
           end in
  if negb (r_chunked r) && strcmp_eq k (lit "Transfer-Encoding") && strcmp_eq v (lit "chunked")
  then set_r_chunked true r else r.

Definition http_response_init (w : bool) (code : Z) (msg : bytes) : http_response :=
  let r := mk_response code msg [] DEFAULT_HEADERS_ARRAY_SIZE None [] false 0 false 0 w in
  let r := http_response_set_header r (lit "Server") (lit "Webdis") HEADER_COPY_NONE in
  let r := http_response_set_header r (lit "Allow") (lit "GET,POST,PUT,OPTIONS")
             HEADER_COPY_NONE in
  let r := http_response_set_header r (lit "Access-Control-Allow-Methods")
             (lit "GET,POST,PUT,OPTIONS") HEADER_COPY_NONE in
  let r := http_response_set_header r (lit "Access-Control-Allow-Origin") (lit "*")
             HEADER_COPY_NONE in
  http_response_set_header r (lit "Access-Control-Allow-Headers")
    (lit "X-Requested-With, Content-Type, Authorization") HEADER_COPY_NONE.

Definition http_response_set_body (r : http_response) (body : option bytes) : http_response :=
  set_r_body body r.

Definition http_response_set_keep_alive (r : http_response) (enabled : bool) : http_response :=
  let r := set_r_keep_alive enabled r in
  if enabled
  then http_response_set_header r (lit "Connection") (lit "Keep-Alive") HEADER_COPY_NONE
  else http_response_set_header r (lit "Connection") (lit "Close") HEADER_COPY_NONE.

(** ** Serialising it *)

Definition CRLF : bytes := [x0d; x0a].

(** [sprintf(tmp, "%x\r\n", (int)sz)], the data, and a line end. *)
Definition format_chunk (p : bytes) : bytes :=
  print_hex (u32 (Z.of_nat (length p))) ++ CRLF ++ p ++ CRLF.

Definition status_line (r : http_response) : bytes :=
  lit "HTTP/1." ++ print_int (if r_http_version r =? 0 then 0 else 1) ++ lit " "
  ++ print_int (r_code r) ++ lit " " ++ r_msg r ++ CRLF.

(** The status line as the code lays it out: a zeroed buffer of the size a
    three-digit code needs, with the line printed into it. *)
Definition status_buffer (r : http_response) : bytes :=
  let out_sz := (length (lit "HTTP/1.x xxx ") + strlen (r_msg r) + 2)%nat in
  take out_sz (status_line r ++ replicate out_sz x00).

Definition header_line (h : http_header) : bytes := h_key h ++ lit ": " ++ h_val h ++ CRLF.

(** The loop over the headers: it appends the lines, and notes keep-alive. *)
Definition is_keep_alive_header (h : http_header) : bool :=
  strncasecmp_eq (length (h_key h)) (lit "Connection") (h_key h) &&
  strncasecmp_eq (length (h_val h)) (lit "Keep-Alive") (h_val h).

Definition write_headers (r : http_response) : http_response :=
  fold_left (fun r h =>
    let r := set_r_out (r_out r ++ header_line h) r in
    if is_keep_alive_header h then set_r_keep_alive true r else r) (r_headers r) r.

Definition set_content_length (r : http_response) : http_response :=
  if r_chunked r then r
  else
    match r_body r with
    | Some body =>
        if r_code r =? 200
        then http_response_set_header r (lit "Content-Length")
               (print_nat (Z.of_nat (length body))) (Z.lor HEADER_COPY_VALUE HEADER_CHECK_DUPE)
        else http_response_set_header r (lit "Content-Length") (lit "0")
               (Z.lor HEADER_COPY_NONE HEADER_CHECK_DUPE)
    | None => http_response_set_header r (lit "Content-Length") (lit "0")
                (Z.lor HEADER_COPY_NONE HEADER_CHECK_DUPE)
    end.

(** [http_response_write] up to the call that schedules the first write; a
    negative descriptor (the client is gone) only cleans up. *)
Definition http_response_write (r : http_response) (fd : Z) : option http_response :=
  if fd <? 0 then None
  else
    let r := set_r_out (status_buffer r) r in
    let r := set_content_length r in
    let r := write_headers r in
    let r := set_r_out (r_out r ++ CRLF) r in
    let r :=
      match r_body r with
      | Some (c :: b) =>
          set_r_out (r_out r ++ (if r_chunked r then format_chunk (c :: b) else c :: b)) r
      | _ => r
      end in
    Some (set_r_sent 0 r).

(** [http_response_write_chunk]: a chunk of a started response. *)
Definition http_response_write_chunk (w : bool) (p : bytes) : http_response :=
  let r := http_response_init w 0 [] in
  let r := set_r_keep_alive true r in
  set_r_out (format_chunk p) r.

(** [http_response_init_with_buffer]. *)
Definition http_response_init_with_buffer (w : bool) (data : bytes) (keep_alive : bool)
  : http_response :=
  mk_response 0 [] [] DEFAULT_HEADERS_ARRAY_SIZE None data false 0 keep_alive 0 w.

(** ** Sending it *)

(** [http_response_cleanup]: whether the descriptor is closed. *)
Definition cleanup_closes (r : http_response) (fd : Z) (success : bool) : bool :=
  (negb (r_keep_alive r) || negb success) && (0 <? fd).

Inductive write_result :=
| WriteDone (r : http_response) (success : bool)
| WriteAgain (r : http_response).

(** [http_can_write] once [write(2)] returned [ret]. *)
Definition http_can_write (r : http_response) (ret : Z) : write_result :=
  let r := if 0 <? ret then set_r_sent (r_sent r + Z.to_nat ret) r else r in
  if (ret <=? 0) || (length (r_out r) - r_sent r =? 0)%nat
  then WriteDone r (length (r_out r) =? r_sent r)%nat
  else WriteAgain r.

(** The write loop: [rets] are the successive results of [write(2)], and the
    bytes handed to the kernel by each accepted write are collected. *)
Fixpoint write_loop (r : http_response) (rets : list Z) : bytes * option (http_response * bool) :=
  match rets with
  | [] => ([], None)
  | ret :: rets' =>
      let accepted := take (Z.to_nat ret) (drop (r_sent r) (r_out r)) in
      match http_can_write r ret with
      | WriteDone r' success => (accepted, Some (r', success))
      | WriteAgain r' => let (rest, res) := write_loop r' rets' in (accepted ++ rest, res)
      end
  end.

(** ** The write loop *)

(** What [write(2)] may answer when [n] bytes are left: an error, or a number of
    bytes it accepted. *)
Fixpoint os_answers (n : nat) (rets : list Z) : Prop :=
  match rets with
  | [] => True
  | ret :: rets' => ret <= Z.of_nat n /\ (0 < ret -> os_answers (n - Z.to_nat ret) rets')
  end.

Lemma write_loop_spec r rets :
  (r_sent r <= length (r_out r))%nat ->
  os_answers (length (r_out r) - r_sent r) rets ->
  let (data, res) := write_loop r rets in
  data `prefix_of` drop (r_sent r) (r_out r) /\
  match res with
  | Some (r', success) =>
      r_keep_alive r' = r_keep_alive r /\
      (success = true <-> data = drop (r_sent r) (r_out r))
  | None => Forall (fun ret => 0 < ret) rets /\
            (length rets <= length data)%nat /\
            (r_sent r + length data < length (r_out r) \/ rets = [] /\ data = [])%nat
  end.
Proof.
  revert r. induction rets as [|ret rets IH]; intros r Hs Hos; cbn [write_loop].
  { repeat split; [apply prefix_nil|done|simpl; lia|by right]. }
  destruct Hos as [Hle Hos]. unfold http_can_write.
  destruct (0 <? ret) eqn:Epos; bool_to_prop.
  - rewrite (proj2 (Z.leb_gt ret 0)) by lia. cbn [orb r_out r_sent set_r_sent].
    destruct (_ =? 0)%nat eqn:Edone; bool_to_prop.
    + assert (Z.to_nat ret = length (r_out r) - r_sent r)%nat as Eret by lia.
      rewrite Eret, <-length_drop, firstn_all. repeat split; [done|].
      intros _. apply Nat.eqb_eq. rewrite length_drop. lia.
    + specialize (IH (set_r_sent (r_sent r + Z.to_nat ret) r)).
      cbn [r_out r_sent set_r_sent r_keep_alive] in IH.
      specialize (IH ltac:(lia)).
      replace (length (r_out r) - (r_sent r + Z.to_nat ret))%nat
        with (length (r_out r) - r_sent r - Z.to_nat ret)%nat in IH by lia.
      specialize (IH (Hos Epos)).
      set (acc := take (Z.to_nat ret) (drop (r_sent r) (r_out r))).
      assert (drop (r_sent r) (r_out r) = acc ++ drop (r_sent r + Z.to_nat ret) (r_out r)) as Hsplit.
      { subst acc. by rewrite <-drop_drop, take_drop. }
      assert (length acc = Z.to_nat ret) as Hacc.
      { subst acc. rewrite length_take, length_drop. lia. }
      destruct (write_loop _ rets) as [rest res]. destruct IH as [IH1 IH2].
      rewrite Hsplit. split; [by apply prefix_app|].
      destruct res as [[r' success]|].
      * destruct IH2 as [IH2 IH3]. split; [done|]. rewrite IH3. split.
        -- by intros ->.
        -- intros H. by apply app_inv_head in H.
      * destruct IH2 as (IH2 & IH3 & IH4). split; [by constructor|].
        rewrite length_app, Hacc. split; [simpl; lia|]. left.
        destruct IH4 as [IH4|[-> ->]]; simpl; lia.
  - rewrite (proj2 (Z.leb_le ret 0)) by lia. cbn [orb].
    replace (Z.to_nat ret) with 0%nat by lia. cbn [take]. split; [apply prefix_nil|].
    split; [done|]. rewrite Nat.eqb_eq. split.
    + intros <-. by rewrite drop_all.
    + intros H. symmetry in H. apply (f_equal length) in H. rewrite length_drop in H.
      simpl in H. lia.
Qed.

(** ** Reading a response back *)

Fixpoint split_crlf (l : bytes) : option (bytes * bytes) :=
  match l with
  | [] => None
  | c :: l' =>
      match l' with
      | d :: rest =>
          if Byte.eqb c x0d && Byte.eqb d x0a then Some ([], rest)
          else prod_map (cons c) id <$> split_crlf l'
      | [] => None
      end
  end.

Lemma split_crlf_app a b : x0d ∉ a -> split_crlf (a ++ CRLF ++ b) = Some (a, b).
Proof.
  induction a as [|c a IH]; intros Ha; [done|]. cbn [app split_crlf].
  destruct (a ++ CRLF ++ b) as [|d rest] eqn:E; [by destruct a|].
  assert (Byte.eqb c x0d = false) as -> by (apply byte_eqb_neq; set_solver).
  cbn [andb]. rewrite IH by set_solver. done.
Qed.

Fixpoint parse_headers (fuel : nat) (l : bytes) : option (list (bytes * bytes) * bytes) :=
  match fuel with
  | O => None
  | S fuel' =>
      '(line, rest) ← split_crlf l;
      match line with
      | [] => Some ([], rest)
      | _ =>
          i ← memchr x3a (length line) line;
          '(hs, body) ← parse_headers fuel' rest;
          Some ((take i line, drop (i + 2) line) :: hs, body)
      end
  end.

(** A client's view of a response: minor version, code, reason, headers, and
    what follows the empty line. *)
Definition parse_response (l : bytes)
  : option (bytes * Z * bytes * list (bytes * bytes) * bytes) :=
  '(line, rest) ← split_crlf l;
  if bytes_eqb (take 7 line) (lit "HTTP/1.") then
    code ← parse_digits 10 (take 3 (drop 9 line));
    '(hs, body) ← parse_headers (length l) rest;
    Some (take 1 (drop 7 line), code, drop 13 line, hs, body)
  else None.

(** Headers that survive the trip: a key without colon or line end, a value
    without line end. *)
Definition wf_header (h : http_header) : Prop :=
  h_key h <> [] /\ x3a ∉ h_key h /\ x0d ∉ h_key h /\ x0d ∉ h_val h.

Definition wf_response (r : http_response) : Prop :=
  100 <= r_code r <= 999 /\ no_nul (r_msg r) /\ x0d ∉ r_msg r /\
  Forall wf_header (r_headers r).

Lemma print_int_code z : 100 <= z <= 999 ->
  exists a b c, print_int z = [a; b; c] /\ parse_digits 10 [a; b; c] = Some z /\
    x0d ∉ [a; b; c].
Proof.
  intros Hz. unfold print_int. rewrite (proj2 (Z.ltb_ge z 0)) by lia.
  assert (parse_digits 10 (print_nat z) = Some z) as Hp
    by (apply parse_digits_print; lia).
  assert (print_nat z = map digit_char [z / 10 / 10; z / 10 mod 10; z mod 10]) as E.
  { unfold print_nat. f_equal.
    rewrite digits_unfold, (proj2 (Z.ltb_ge z 10)) by lia.
    rewrite digits_unfold, (proj2 (Z.ltb_ge (z / 10) 10))
      by (try apply Z.div_le_lower_bound; try apply Z.div_pos; lia).
    rewrite digits_unfold, (proj2 (Z.ltb_lt (z / 10 / 10) 10))
      by (Z.to_euclidean_division_equations; lia). done. }
  rewrite E in *. cbn [map] in *. do 3 eexists. split; [done|]. split; [done|].
  intros Hin. assert (Forall (fun c => isdigit c = true) (print_nat z)) as Hd
    by (apply print_nat_nonneg_digits; lia).
  rewrite E, Forall_forall in Hd. apply Hd in Hin. done.
Qed.

Lemma header_lines_parse hs body fuel :
  Forall wf_header hs -> (length hs < fuel)%nat ->
  parse_headers fuel (concat (map header_line hs) ++ CRLF ++ body) =
  Some (map (fun h => (h_key h, h_val h)) hs, body).
Proof.
  intros Hwf. revert fuel. induction Hwf as [|h hs (Hne & Hcol & Hk & Hv) Hwf IH];
    intros [|fuel] Hf; simpl in Hf; try lia.
  - done.
  - cbn [map concat]. unfold header_line at 1. rewrite <-!app_assoc.
    cbn [parse_headers]. rewrite (app_assoc (h_key h)), (app_assoc (h_key h ++ _)).
    rewrite split_crlf_app.
    2: { intros [[H|H]%elem_of_app|H]%elem_of_app; [done|set_solver|done]. }
    cbn [mbind option_bind].
    assert (memchr x3a (length ((h_key h ++ lit ": ") ++ h_val h))
              ((h_key h ++ lit ": ") ++ h_val h) = Some (length (h_key h))) as Hm.
    { rewrite <-app_assoc. change (lit ": " ++ h_val h) with (x3a :: x20 :: h_val h).
      apply memchr_app_here; [done|]. rewrite length_app. simpl. lia. }
    rewrite Hm.
    destruct ((h_key h ++ lit ": ") ++ h_val h) as [|c l] eqn:E.
    { by destruct (h_key h). }
    rewrite <-E. cbn [mbind option_bind]. rewrite IH by lia. cbn [mbind option_bind].
    do 3 f_equal. f_equal.
    + rewrite <-app_assoc. apply take_app_length.
    + apply drop_app_length'. rewrite length_app. done.
Qed.

(** The loop over the headers appends their lines and touches nothing else but
    keep-alive. *)
Lemma write_headers_spec r :
  let r' := write_headers r in
  r_out r' = r_out r ++ concat (map header_line (r_headers r)) /\
  r_headers r' = r_headers r /\ r_body r' = r_body r /\ r_chunked r' = r_chunked r /\
  r_w r' = r_w r /\
  r_keep_alive r' = r_keep_alive r || existsb is_keep_alive_header (r_headers r).
Proof.
  unfold write_headers.
  assert (forall hs r0,
    let r' := fold_left (fun r h =>
      let r := set_r_out (r_out r ++ header_line h) r in
      if is_keep_alive_header h then set_r_keep_alive true r else r) hs r0 in
    r_out r' = r_out r0 ++ concat (map header_line hs) /\
    r_headers r' = r_headers r0 /\ r_body r' = r_body r0 /\ r_chunked r' = r_chunked r0 /\
    r_w r' = r_w r0 /\
    r_keep_alive r' = r_keep_alive r0 || existsb is_keep_alive_header hs) as H; [|apply H].
  induction hs as [|h hs IH]; intros r0.
  { simpl. by rewrite app_nil_r, orb_false_r. }
  cbn [fold_left map concat existsb]. specialize (IH
    (let r := set_r_out (r_out r0 ++ header_line h) r0 in
     if is_keep_alive_header h then set_r_keep_alive true r else r)).
  cbv zeta in *. destruct IH as (-> & -> & -> & -> & -> & ->).
  destruct (is_keep_alive_header h); cbn; rewrite <-app_assoc; repeat split;
    by rewrite ?orb_true_r.
Qed.

Lemma status_buffer_line r : 100 <= r_code r <= 999 -> no_nul (r_msg r) ->
  status_buffer r = status_line r.
Proof.
  intros Hc Hm. unfold status_buffer, status_line.
  destruct (print_int_code _ Hc) as (a & b & c & -> & _).
  apply take_app_length'. rewrite !length_app. unfold strlen. rewrite cstr_id by done.
  destruct (r_http_version r =? 0); simpl; lia.
Qed.

(** ** Chunks *)

Definition dechunk (l : bytes) : option (bytes * bytes) :=
  '(line, rest) ← split_crlf l;
  n ← parse_digits 16 line;
  let n := Z.to_nat n in
  if bytes_eqb (take 2 (drop n rest)) CRLF then Some (take n rest, drop (n + 2) rest) else None.

Fixpoint dechunk_all (fuel : nat) (l : bytes) : option (list bytes) :=
  match l, fuel with
  | [], _ => Some []
  | _, O => None
  | _, S fuel' => '(p, rest) ← dechunk l; ps ← dechunk_all fuel' rest; Some (p :: ps)
  end.

Lemma print_hex_no_cr n : 0 <= n -> x0d ∉ print_hex n.
Proof.
  intros Hn Hin. unfold print_hex in Hin. apply list_elem_of_In, in_map_iff in Hin.
  destruct Hin as (d & Hd & Hin). apply list_elem_of_In in Hin.
  pose proof (digits_range 16 n ltac:(lia) Hn) as Hr. rewrite Forall_forall in Hr.
  apply Hr in Hin. apply (f_equal digit_val) in Hd. by rewrite digit_val_char in Hd by lia.
Qed.

Lemma dechunk_format p rest :
  Z.of_nat (length p) < 2 ^ 32 -> dechunk (format_chunk p ++ rest) = Some (p, rest).
Proof.
  intros Hp. unfold format_chunk. rewrite wrap_u_small by lia. rewrite <-!app_assoc.
  unfold dechunk. rewrite split_crlf_app by (apply print_hex_no_cr; lia).
  cbn [mbind option_bind]. unfold print_hex. rewrite parse_digits_print by lia.
  cbn [mbind option_bind]. rewrite Nat2Z.id, drop_app_length, take_app_length.
  change (take 2 (CRLF ++ rest)) with CRLF. rewrite (proj2 (bytes_eqb_eq _ _) eq_refl).
  by rewrite <-drop_drop, drop_app_length.
Qed.

(** ** Content-Length *)

Definition starts_with (k : bytes) (h : http_header) : Prop :=
  strncmp_eq (strlen k) (h_key h) k = true.

Lemma find_header_split hs k :
  match find_header hs k with
  | Some i => exists l1 h l2, hs = l1 ++ h :: l2 /\ i = length l1 /\
                Forall (fun h => ~ starts_with k h) l1 /\ starts_with k h
  | None => Forall (fun h => ~ starts_with k h) hs
  end.
Proof.
  induction hs as [|h hs IH]; cbn [find_header]; [constructor|].
  destruct (strncmp_eq _ _ _) eqn:E.
  { exists [], h, hs. repeat split; [constructor|done]. }
  assert (~ starts_with k h) by (unfold starts_with; congruence).
  destruct (find_header hs k) as [i|]; cbn [fmap option_fmap option_map].
  - destruct IH as (l1 & h' & l2 & -> & -> & Hl1 & Hh').
    exists (h :: l1), h', l2. repeat split; [by constructor|done].
  - by constructor.
Qed.

#[global] Instance starts_with_dec k h : Decision (starts_with k h).
Proof. unfold starts_with. apply _. Defined.

Lemma filter_none {A} (P : A -> Prop) `{!forall x, Decision (P x)} l :
  Forall (fun x => ~ P x) l -> filter P l = [].
Proof. induction 1; [done|]. by rewrite filter_cons_False. Qed.

(** A set with [HEADER_CHECK_DUPE] leaves one header of that name, the new one,
    when there was at most one; the others keep their order. *)
Lemma set_header_dupe r k v copy :
  Z.land copy HEADER_CHECK_DUPE <> 0 -> strncmp_eq (strlen k) (cstr k) k = true ->
  (length (filter (starts_with k) (r_headers r)) <= 1)%nat ->
  let r' := http_response_set_header r k v copy in
  filter (starts_with k) (r_headers r') = [mk_header (cstr k) (cstr v) copy] /\
  filter (fun h => ~ starts_with k h) (r_headers r') =
  filter (fun h => ~ starts_with k h) (r_headers r).
Proof.
  intros Hc Hk Hone. unfold http_response_set_header.
  rewrite (proj2 (Z.eqb_neq _ _) Hc). cbv zeta.
  set (h := mk_header (cstr k) (cstr v) copy).
  assert (forall b r0, r_headers (if b : bool then set_r_chunked true r0 else r0) = r_headers r0)
    as -> by (by intros []).
  pose proof (find_header_split (r_headers r) k) as Hf.
  assert (starts_with k h) as Hh by done.
  assert (forall b (n : nat) r0, r_headers (if b : bool then set_r_headers_array_size n r0 else r0)
            = r_headers r0) as Hsz by (by intros []).
  destruct (find_header (r_headers r) k) as [i|]; cbn [r_headers set_r_headers]; rewrite Hsz.
  - destruct Hf as (l1 & h0 & l2 & E & -> & Hl1 & Hh0). rewrite E in *.
    rewrite filter_app, filter_cons_True, (filter_none _ l1 Hl1) in Hone by done.
    rewrite insert_app_r_alt, Nat.sub_diag by lia. cbn [insert list_insert].
    rewrite !filter_app, filter_cons_True, (filter_none _ l1 Hl1) by done.
    rewrite !filter_cons_False by (by intros H; apply H). cbn [app] in *.
    split; [|done]. f_equal. destruct (filter _ l2); [done|simpl in Hone; lia].
  - rewrite !filter_app, (filter_none _ _ Hf), filter_cons_True by done.
    rewrite (filter_cons_False _ h) by (by intros H; apply H). by rewrite app_nil_r.
Qed.

(** ** Properties *)

Lemma wf_set_header r k v copy :
  Forall wf_header (r_headers r) -> wf_header (mk_header (cstr k) (cstr v) copy) ->
  Forall wf_header (r_headers (http_response_set_header r k v copy)).
Proof.
  intros Hr Hh. unfold http_response_set_header. cbv zeta.
  assert (forall b r0, r_headers (if b : bool then set_r_chunked true r0 else r0) = r_headers r0)
    as -> by (by intros []).
  assert (forall b (n : nat) r0, r_headers (if b : bool then set_r_headers_array_size n r0 else r0)
            = r_headers r0) as Hsz by (by intros []).
  destruct (if _ =? 0 then None else _); cbn [r_headers set_r_headers]; rewrite Hsz.
  - by apply Forall_insert.
  - apply Forall_app_2; [done|by apply Forall_singleton].
Qed.

Lemma wf_content_length r :
  wf_response r -> Forall wf_header (r_headers (set_content_length r)).
Proof.
  intros (_ & _ & _ & Hh). unfold set_content_length.
  assert (forall copy, wf_header (mk_header (cstr (lit "Content-Length")) (cstr (lit "0")) copy)) as H0.
  { intros. repeat split; cbn [h_key h_val]; by_decide. }
  destruct (r_chunked r); [done|]. destruct (r_body r) as [b|]; [|by apply wf_set_header].
  destruct (r_code r =? 200); apply wf_set_header; try done.
  repeat split; cbn [h_key h_val]; try by_decide.
  intros Hin. eapply prefix_elem in Hin; [|apply cstr_prefix].
  pose proof (print_nat_nonneg_digits (Z.of_nat (length b)) ltac:(lia)) as Hd.
  rewrite Forall_forall in Hd. by apply Hd in Hin.
Qed.

(** The response as it leaves [http_response_write]: the fields that matter. *)
Lemma http_response_write_shape r fd r' :
  http_response_write r fd = Some r' ->
  let r1 := set_content_length r in
  r_headers r' = r_headers r1 /\ r_sent r' = 0%nat /\
  r_out r' = status_buffer r ++ concat (map header_line (r_headers r1)) ++ CRLF ++
    match r_body r with
    | Some (c :: b) => if r_chunked r then format_chunk (c :: b) else c :: b
    | _ => []
    end.
Proof.
  unfold http_response_write. destruct (fd <? 0); [discriminate|]. intros [= <-].
  set (r0 := set_r_out (status_buffer r) r).
  assert (forall o, set_content_length (set_r_out o r) = set_r_out o (set_content_length r)) as Hcl.
  { intros o. unfold set_content_length, http_response_set_header. destruct r; cbn.
    repeat case_match; try done. }
  assert (r_body (set_content_length r) = r_body r /\
          r_chunked (set_content_length r) = r_chunked r) as [Hb Hch].
  { clear. unfold set_content_length, http_response_set_header. destruct r; cbn.
    repeat case_match; try done. }
  pose proof (write_headers_spec (set_content_length r0)) as (Ho & Hh & Hb' & Hch' & _).
  subst r0. rewrite Hcl in *. cbn [r_out r_headers r_body r_chunked set_r_out] in *.
  rewrite Hb', Hch', Hb, Hch.
  destruct (r_body r) as [[|c b]|]; cbn [r_out r_headers r_sent set_r_out set_r_sent];
    rewrite Ho, Hh, <-!app_assoc; repeat split.
Qed.


(** In a response with a body that is not chunked, the Content-Length header
    appears once and is the size of the body for a 200, and 0 for any other
    code or when there is no body. *)
Theorem http_response_content_length (r r' : http_response) (fd : Z) :
  http_response_write r fd = Some r' -> r_chunked r = false ->
  (length (filter (starts_with (lit "Content-Length")) (r_headers r)) <= 1)%nat ->
  map (fun h => (h_key h, h_val h)) (filter (starts_with (lit "Content-Length")) (r_headers r')) =
  [(lit "Content-Length",
    match r_body r with
    | Some b => if r_code r =? 200 then print_nat (Z.of_nat (length b)) else lit "0"
    | None => lit "0"
    end)].
Proof.
  intros Hw Hch Hone. destruct (http_response_write_shape _ _ _ Hw) as (-> & _ & _).
  unfold set_content_length. rewrite Hch.
  assert (forall n, cstr (print_nat (Z.of_nat n)) = print_nat (Z.of_nat n)) as Hpn.
  { intros n. apply cstr_id. intros Hin.
    pose proof (print_nat_nonneg_digits (Z.of_nat n) ltac:(lia)) as Hd.
    rewrite Forall_forall in Hd. by apply Hd in Hin. }
  destruct (r_body r) as [b|]; [destruct (r_code r =? 200)|];
    (edestruct set_header_dupe as [H _]; [| |exact Hone|rewrite H; cbn [map h_key h_val]]);
    try done; by rewrite Hpn.
Qed.


(** A stream of non-empty chunks is decoded into the payloads sent, in
    order. *)
Theorem chunk_stream_roundtrip (ps : list bytes) :
  Forall (fun p => Z.of_nat (length p) < 2 ^ 32) ps ->
  dechunk_all (length ps) (concat (map format_chunk ps)) = Some ps.
Proof.
  induction 1 as [|p ps Hp Hps IH]; [done|]. cbn [map concat length dechunk_all].
  destruct (format_chunk p ++ concat (map format_chunk ps)) as [|c l] eqn:E.
  - apply (f_equal length) in E. unfold format_chunk in E. rewrite !length_app in E.
    simpl in E. lia.
  - rewrite <-E. rewrite dechunk_format by done. cbn [mbind option_bind]. rewrite IH. done.
Qed.

(** ** Witnesses *)

(** The reply to a GET, with a keep-alive client. *)
Definition sample : http_response :=
  http_response_set_body
    (http_response_set_keep_alive
       (http_response_set_header (http_response_init true 200 (lit "OK"))
          (lit "Content-Type") (lit "application/json") HEADER_COPY_VALUE) true)
    (Some (lit "[true]")).

Definition sample_written : http_response := default sample (http_response_write sample 7).


Lemma http_response_content_length_witness :
  map (fun h => (h_key h, h_val h))
    (filter (starts_with (lit "Content-Length")) (r_headers sample_written)) =
  [(lit "Content-Length", print_nat 6)].
Proof.
  apply (http_response_content_length sample sample_written 7);
    [vm_compute; reflexivity|reflexivity|by_decide].
Defined.


Lemma chunk_stream_roundtrip_witness :
  dechunk_all 2 (concat (map format_chunk [lit "hello"; lit "world!"])) =
  Some [lit "hello"; lit "world!"].
Proof. apply (chunk_stream_roundtrip [lit "hello"; lit "world!"]). by_decide. Defined.

End Http.
