(* ===== verification/Raw.v ===== *)
(** * src/formats/raw.c and [integer_length] of src/formats/common.c

    The raw format writes a Redis reply back in the Redis protocol. Every
    formatter first computes the size of its output with [integer_length],
    allocates it, prints into it, and hands the computed number of bytes to
    [format_send_reply]: the model keeps the allocation, the text printed and the
    size announced apart, since only their agreement makes the code safe. *)
From S2P Require Import Prelude Types Http.

Local Open Scope Z_scope.

Module Raw.
Import Http.

(** ** The code *)

(** The loop of [integer_length]: an [int] below [2^31] has at most 10 digits,
    so 11 turns are enough ([integer_length_loop_enough]). *)
Fixpoint integer_length_loop (fuel : nat) (ci sz : Z) : Z :=
  match fuel with
  | O => sz
  | S f => if 0 <? ci then integer_length_loop f (ci / 10) (sz + 1) else sz
  end.

Definition integer_length (i : Z) : Z :=
  let ci := i32 (i64 (Z.abs i)) in
  let sz := integer_length_loop 11 ci 0 in
  if i =? 0 then 1 else if i <? 0 then sz + 1 else sz.

(** A formatter's result: the size of its allocation, the text it prints, the
    number of bytes it writes (terminator of [sprintf] included), the size it
    announces. *)
Record raw_buffer := mk_raw {
  raw_alloc : Z;
  raw_text : bytes;
  raw_extent : Z;
  raw_sz : Z }.

Definition raw_element (e : redisReply) : bytes :=
  match e with
  | REPLY_STRING s => lit "$" ++ print_nat (Z.of_nat (length s)) ++ CRLF ++ s ++ CRLF
  | REPLY_INTEGER z =>
      lit "$" ++ print_int (integer_length z) ++ CRLF ++ print_int z ++ CRLF
  | _ => []
  end.

Definition raw_element_sz (e : redisReply) : Z :=
  match e with
  | REPLY_STRING s =>
      let len := Z.of_nat (length s) in 1 + integer_length len + 2 + len + 2
  | REPLY_INTEGER z => 1 + integer_length (integer_length z) + 2 + integer_length z + 2
  | _ => 0
  end.

Definition raw_array (element : list redisReply) : raw_buffer :=
  let elements := Z.of_nat (length element) in
  let sz := fold_left (fun sz e => sz + raw_element_sz e) element
              (1 + integer_length elements + 2) in
  let text := lit "*" ++ print_nat elements ++ CRLF ++ concat (map raw_element element) in
  mk_raw (1 + sz) text (Z.of_nat (length text) + 1) sz.

Definition raw_wrap (r : redisReply) : raw_buffer :=
  match r with
  | REPLY_STATUS s =>
      let sz := 3 + Z.of_nat (length s) in mk_raw sz (lit "+" ++ s ++ CRLF) sz sz
  | REPLY_ERROR s =>
      let sz := 3 + Z.of_nat (length s) in mk_raw sz (lit "-" ++ s ++ CRLF) sz sz
  | REPLY_STRING s =>
      let len := Z.of_nat (length s) in
      let sz := 1 + integer_length len + 2 + len + 2 in
      let hdr := lit "$" ++ print_nat len ++ CRLF in
      mk_raw sz (take (Z.to_nat (sz - 2)) (hdr ++ s) ++ CRLF)
        (Z.max sz (Z.of_nat (length hdr) + 1)) sz
  | REPLY_INTEGER z =>
      let sz := 3 + integer_length z in
      let text := lit ":" ++ print_int z ++ CRLF in
      mk_raw (4 + sz) text (Z.of_nat (length text) + 1) sz
  | REPLY_ARRAY l => raw_array l
  | _ => mk_raw 5 (lit "$-1" ++ CRLF) 5 5
  end.

(** What the client receives: the announced number of bytes of the buffer. *)
Definition raw_sent (b : raw_buffer) : bytes := take (Z.to_nat (raw_sz b)) (raw_text b).

(** [raw_ws_error]. *)
Definition raw_ws_error (msg : bytes) : bytes := lit "-ERR " ++ msg ++ CRLF.

(** ** The protocol as a reference *)

Fixpoint resp_parse (fuel : nat) (l : bytes) : option (redisReply * bytes) :=
  match fuel, l with
  | S fuel', c :: l' =>
      '(line, rest) ← split_crlf l';
      if Byte.eqb c x2b then Some (REPLY_STATUS line, rest)
      else if Byte.eqb c x2d then Some (REPLY_ERROR line, rest)
      else if Byte.eqb c x3a then
        match line with
        | d :: ds => if Byte.eqb d x2d then z ← parse_digits 10 ds; Some (REPLY_INTEGER (- z), rest)
                     else z ← parse_digits 10 line; Some (REPLY_INTEGER z, rest)
        | [] => None
        end
      else if Byte.eqb c x24 then
        if bytes_eqb line (lit "-1") then Some (REPLY_NIL, rest)
        else
          n ← parse_digits 10 line;
          let n := Z.to_nat n in
          if bytes_eqb (take 2 (drop n rest)) CRLF
          then Some (REPLY_STRING (take n rest), drop (n + 2) rest) else None
      else if Byte.eqb c x2a then
        n ← parse_digits 10 line;
        '(l, rest) ← (fix elems (k : nat) (rest : bytes) : option (list redisReply * bytes) :=
           match k with
           | O => Some ([], rest)
           | S k' => '(e, rest) ← resp_parse fuel' rest;
                     '(es, rest) ← elems k' rest; Some (e :: es, rest)
           end) (Z.to_nat n) rest;
        Some (REPLY_ARRAY l, rest)
      else None
  | _, _ => None
  end.

(** The replies raw mode renders faithfully, and what the client reads: an
    integer inside an array comes back as the string of its digits. *)
Definition small_int (z : Z) : Prop := - 2 ^ 31 < z < 2 ^ 31.

Definition plain_element (e : redisReply) : Prop :=
  match e with
  | REPLY_STRING s => Z.of_nat (length s) < 2 ^ 31
  | REPLY_INTEGER z => small_int z
  | _ => False
  end.

Definition raw_ok (r : redisReply) : Prop :=
  match r with
  | REPLY_STATUS s | REPLY_ERROR s => x0d ∉ s
  | REPLY_STRING s => Z.of_nat (length s) < 2 ^ 31
  | REPLY_INTEGER z => small_int z
  | REPLY_ARRAY l => Forall plain_element l /\ Z.of_nat (length l) < 2 ^ 31
  | REPLY_NIL => True
  | REPLY_OTHER _ => False
  end.

Definition raw_seen_element (e : redisReply) : redisReply :=
  match e with REPLY_INTEGER z => REPLY_STRING (print_int z) | _ => e end.

Definition raw_seen (r : redisReply) : redisReply :=
  match r with REPLY_ARRAY l => REPLY_ARRAY (map raw_seen_element l) | _ => r end.

(** ** Lengths of numbers *)

Lemma length_digits_succ b n : 2 <= b -> b <= n ->
  length (digits b n) = S (length (digits b (n / b))).
Proof.
  intros Hb Hn. rewrite digits_unfold, (proj2 (Z.ltb_ge n b)) by lia.
  rewrite length_app. simpl. lia.
Qed.

Lemma integer_length_loop_digits f n sz :
  0 < n -> (length (digits 10 n) < f)%nat ->
  integer_length_loop f n sz = sz + Z.of_nat (length (digits 10 n)).
Proof.
  intros Hn. revert f sz. assert (0 <= n) as Hn0 by lia. revert n Hn0 Hn.
  apply (digits_ind 10 (fun n => 0 < n -> forall f sz, (length (digits 10 n) < f)%nat ->
    integer_length_loop f n sz = sz + Z.of_nat (length (digits 10 n)))); [lia|..].
  - intros n Hn Hpos f sz Hf. rewrite digits_unfold, (proj2 (Z.ltb_lt n 10)) in * by lia.
    destruct f as [|[|f]]; simpl in Hf; try lia. cbn [integer_length_loop].
    rewrite (proj2 (Z.ltb_lt 0 n)), Z.div_small by lia. done.
  - intros n Hn IH Hpos f sz Hf. rewrite length_digits_succ in * by lia.
    destruct f as [|f]; [lia|]. cbn [integer_length_loop].
    rewrite (proj2 (Z.ltb_lt 0 n)) by lia.
    assert (1 <= n / 10) by (apply Z.div_le_lower_bound; lia).
    rewrite IH by lia. lia.
Qed.

Lemma length_digits_bound k n : 0 <= n < 10 ^ Z.of_nat (S k) -> (length (digits 10 n) <= S k)%nat.
Proof.
  revert n. induction k as [|k IH]; intros n Hn.
  - rewrite digits_unfold, (proj2 (Z.ltb_lt n 10)) by lia. done.
  - destruct (Z.lt_ge_cases n 10).
    { rewrite digits_unfold, (proj2 (Z.ltb_lt n 10)) by lia. simpl. lia. }
    rewrite length_digits_succ by lia. apply le_n_S, IH.
    rewrite Nat2Z.inj_succ, Z.pow_succ_r in Hn by lia.
    split; [apply Z.div_pos; lia|]. apply Z.div_lt_upper_bound; lia.
Qed.

(** Within the range of [int], the computed length is the printed one. *)
Lemma integer_length_print z : small_int z -> integer_length z = Z.of_nat (length (print_int z)).
Proof.
  unfold small_int. intros Hz. unfold integer_length, print_int.
  rewrite (wrap_s_small 64), (wrap_s_small 32) by lia.
  destruct (Z.eqb_spec z 0) as [->|Hne]; [done|].
  assert (length (digits 10 (Z.abs z)) < 11)%nat.
  { enough (length (digits 10 (Z.abs z)) <= 10)%nat by lia. apply length_digits_bound. simpl. lia. }
  rewrite integer_length_loop_digits by lia.
  destruct (Z.ltb_spec z 0); unfold print_nat; cbn [length]; rewrite length_map.
  - replace (- z) with (Z.abs z) by lia. lia.
  - replace (Z.abs z) with z by lia. lia.
Qed.

Lemma print_int_nat z : 0 <= z -> print_int z = print_nat z.
Proof. intros. unfold print_int. by rewrite (proj2 (Z.ltb_ge z 0)) by lia. Qed.

Lemma print_nat_digit n c : 0 <= n -> c ∈ print_nat n -> isdigit c = true.
Proof.
  intros Hn Hin. pose proof (print_nat_nonneg_digits n Hn) as H.
  rewrite Forall_forall in H. by apply H.
Qed.

Lemma print_nat_no_cr n : 0 <= n -> x0d ∉ print_nat n.
Proof. intros Hn Hin. by apply print_nat_digit in Hin. Qed.

Lemma print_int_no_cr z : x0d ∉ print_int z.
Proof.
  unfold print_int. destruct (Z.ltb_spec z 0).
  - intros [[=]|Hin]%elem_of_cons. by apply print_nat_no_cr in Hin; [|lia].
  - by apply print_nat_no_cr.
Qed.

Lemma length_print_int z : small_int z -> (0 < length (print_int z) <= 11)%nat.
Proof.
  unfold small_int, print_int, print_nat. intros Hz.
  assert (forall n, (0 <= n < 2 ^ 31)%Z -> (0 < length (map digit_char (digits 10 n)) <= 10)%nat) as H.
  { intros n Hn. rewrite length_map. split.
    - pose proof (digits_nonempty 10 n). destruct (digits 10 n); [done|simpl; lia].
    - apply length_digits_bound. simpl. lia. }
  destruct (z <? 0) eqn:E; bool_to_prop; cbn [length].
  - specialize (H (- z) ltac:(lia)). lia.
  - specialize (H z ltac:(lia)). lia.
Qed.

(** ** Parsing what was printed *)

Lemma resp_parse_bulk f s rest :
  resp_parse (S f) (lit "$" ++ print_nat (Z.of_nat (length s)) ++ CRLF ++ s ++ CRLF ++ rest) =
  Some (REPLY_STRING s, rest).
Proof.
  change (lit "$") with [x24]. cbn [app resp_parse].
  rewrite split_crlf_app by (apply print_nat_no_cr; lia). cbn [mbind option_bind Byte.eqb].
  change (Byte.eqb x24 x2b) with false. change (Byte.eqb x24 x2d) with false.
  change (Byte.eqb x24 x3a) with false. change (Byte.eqb x24 x24) with true. cbv iota.
  assert (bytes_eqb (print_nat (Z.of_nat (length s))) (lit "-1") = false) as ->.
  { apply not_true_is_false. rewrite bytes_eqb_eq. intros E.
    assert (x2d ∈ print_nat (Z.of_nat (length s))) as H by (rewrite E; by_decide).
    apply print_nat_digit in H; [done|lia]. }
  unfold print_nat. rewrite parse_digits_print by lia. cbn [mbind option_bind].
  rewrite Nat2Z.id, drop_app_length, take_app_length.
  change (take 2 (CRLF ++ rest)) with CRLF. rewrite (proj2 (bytes_eqb_eq _ _) eq_refl).
  by rewrite <-drop_drop, drop_app_length.
Qed.

Lemma resp_parse_element f e rest :
  plain_element e ->
  resp_parse (S f) (raw_element e ++ rest) = Some (raw_seen_element e, rest).
Proof.
  destruct e; simpl plain_element; intros H; try done; unfold raw_element.
  - rewrite <-!app_assoc. apply resp_parse_bulk.
  - rewrite integer_length_print by done. rewrite print_int_nat by lia.
    rewrite <-!app_assoc. apply resp_parse_bulk.
Qed.

(** The array case of the parser, with its inner loop named. *)
Fixpoint resp_elems (fuel k : nat) (rest : bytes) : option (list redisReply * bytes) :=
  match k with
  | O => Some ([], rest)
  | S k' => '(e, rest) ← resp_parse fuel rest;
            '(es, rest) ← resp_elems fuel k' rest; Some (e :: es, rest)
  end.

Lemma resp_parse_array f n rest :
  0 <= n ->
  resp_parse (S f) (lit "*" ++ print_nat n ++ CRLF ++ rest) =
  ('(l, rest) ← resp_elems f (Z.to_nat n) rest; Some (REPLY_ARRAY l, rest)).
Proof.
  intros Hn. change (lit "*") with [x2a]. cbn [app resp_parse].
  rewrite split_crlf_app by by apply print_nat_no_cr. cbn [mbind option_bind].
  change (Byte.eqb x2a x2b) with false. change (Byte.eqb x2a x2d) with false.
  change (Byte.eqb x2a x3a) with false. change (Byte.eqb x2a x24) with false.
  change (Byte.eqb x2a x2a) with true. cbv iota.
  unfold print_nat. rewrite parse_digits_print by lia. cbn [mbind option_bind].
  f_equal. generalize (Z.to_nat n) as k. intros k. revert rest.
  induction k as [|k IH]; intros rest; [done|]. simpl.
  destruct (resp_parse f rest) as [[e rest']|]; [|done]. simpl. by rewrite IH.
Qed.

Lemma resp_elems_concat f l rest :
  Forall plain_element l ->
  resp_elems (S f) (length l) (concat (map raw_element l) ++ rest) =
  Some (map raw_seen_element l, rest).
Proof.
  induction 1 as [|e l He Hl IH]; [done|]. cbn [length resp_elems map concat].
  rewrite <-app_assoc, resp_parse_element by done. cbn [mbind option_bind].
  rewrite IH. done.
Qed.

(** ** Announced sizes *)

Lemma raw_element_sz_length e : plain_element e -> raw_element_sz e = Z.of_nat (length (raw_element e)).
Proof.
  destruct e; simpl plain_element; intros H; try done; unfold raw_element_sz, raw_element.
  - rewrite integer_length_print by (unfold small_int; lia). rewrite print_int_nat by lia.
    rewrite !length_app. simpl. lia.
  - rewrite (integer_length_print integer) by done.
    pose proof (length_print_int integer H).
    rewrite integer_length_print by (unfold small_int; lia).
    rewrite !length_app. simpl. lia.
Qed.

Lemma raw_array_sz l :
  Forall plain_element l -> Z.of_nat (length l) < 2 ^ 31 ->
  raw_sz (raw_array l) = Z.of_nat (length (raw_text (raw_array l))).
Proof.
  intros Hl Hlen. unfold raw_array. cbn [raw_sz raw_text].
  assert (forall k, fold_left (fun sz e => sz + raw_element_sz e) l k =
    k + Z.of_nat (length (concat (map raw_element l)))) as ->.
  { clear Hlen. induction Hl as [|e l He Hl IH]; intros k; cbn [fold_left map concat]; [simpl; lia|].
    rewrite IH, raw_element_sz_length, length_app by done. lia. }
  rewrite integer_length_print by (unfold small_int; lia). rewrite print_int_nat by lia.
  rewrite !length_app. simpl. lia.
Qed.

Lemma raw_wrap_sz r : raw_ok r -> raw_sz (raw_wrap r) = Z.of_nat (length (raw_text (raw_wrap r))).
Proof.
  destruct r; cbn [raw_ok raw_wrap raw_sz raw_text]; intros H; try done.
  - rewrite integer_length_print by (unfold small_int; lia). rewrite print_int_nat by lia.
    rewrite length_app, length_take, !length_app. simpl. lia.
  - destruct H. by apply raw_array_sz.
  - rewrite integer_length_print by done. rewrite !length_app. simpl. lia.
  - rewrite !length_app. simpl. lia.
  - rewrite !length_app. simpl. lia.
Qed.

Lemma raw_sent_text r : raw_ok r -> raw_sent (raw_wrap r) = raw_text (raw_wrap r).
Proof. intros H. unfold raw_sent. rewrite raw_wrap_sz, Nat2Z.id by done. apply firstn_all. Qed.

Lemma resp_parse_line c line f rest :
  x0d ∉ line -> (c = x2b \/ c = x2d) ->
  resp_parse (S f) (c :: line ++ CRLF ++ rest) =
  Some (if Byte.eqb c x2b then REPLY_STATUS line else REPLY_ERROR line, rest).
Proof.
  intros Hl Hc. cbn [resp_parse]. rewrite split_crlf_app by done. by destruct Hc as [-> | ->].
Qed.

Lemma resp_parse_integer z f rest :
  resp_parse (S f) (lit ":" ++ print_int z ++ CRLF ++ rest) = Some (REPLY_INTEGER z, rest).
Proof.
  change (lit ":") with [x3a]. cbn [app resp_parse]. rewrite split_crlf_app by apply print_int_no_cr.
  cbn [mbind option_bind].
  change (Byte.eqb x3a x2b) with false. change (Byte.eqb x3a x2d) with false.
  change (Byte.eqb x3a x3a) with true. cbv iota.
  unfold print_int. destruct (Z.ltb_spec z 0).
  - change (Byte.eqb x2d x2d) with true. cbv iota. unfold print_nat.
    rewrite parse_digits_print by lia. cbn [mbind option_bind]. do 3 f_equal. lia.
  - destruct (print_nat z) as [|d ds] eqn:E.
    { unfold print_nat in E. apply map_eq_nil in E. by apply digits_nonempty in E. }
    assert (Byte.eqb d x2d = false) as ->.
    { apply byte_eqb_neq. intros ->.
      assert (x2d ∈ print_nat z) as Hin by (rewrite E; set_solver).
      by apply print_nat_digit in Hin. }
    rewrite <-E. unfold print_nat. rewrite parse_digits_print by lia. done.
Qed.

(** ** Properties *)



(** An integer reply from 2^31 up to 2^32 makes [integer_length] count no
    digit at all: the buffer is 7 bytes for the 14 the [sprintf] writes, and
    only 3 bytes of the reply are announced. *)
Theorem raw_integer_overflow (z : Z) :
  2 ^ 31 <= z < 2 ^ 32 ->
  integer_length z = 0 /\ raw_alloc (raw_wrap (REPLY_INTEGER z)) = 7 /\
  raw_extent (raw_wrap (REPLY_INTEGER z)) = 14 /\ raw_sz (raw_wrap (REPLY_INTEGER z)) = 3.
Proof.
  intros Hz.
  assert (i32 (i64 (Z.abs z)) = z - 2 ^ 32) as E.
  { rewrite (wrap_s_small 64) by lia. unfold wrap_s. rewrite Z.abs_eq by lia.
    replace (z + 2 ^ (32 - 1)) with (z - 2 ^ 31 + 1 * 2 ^ 32) by lia.
    rewrite Z_mod_plus_full, Z.mod_small by lia. lia. }
  assert (integer_length z = 0) as Hil.
  { unfold integer_length. rewrite E. cbn [integer_length_loop].
    rewrite (proj2 (Z.ltb_ge 0 _)), (proj2 (Z.eqb_neq z 0)), (proj2 (Z.ltb_ge z 0)) by lia. done. }
  split; [done|]. cbn [raw_wrap raw_alloc raw_extent raw_sz]. rewrite Hil. split; [done|split; [|done]].
  rewrite print_int_nat by lia. rewrite !length_app. unfold print_nat. rewrite length_map.
  assert (length (digits 10 z) = 10%nat) as ->; [|done].
  apply Nat.le_antisymm; [apply length_digits_bound; simpl; lia|].
  do 9 (rewrite length_digits_succ; [apply le_n_S|lia|Z.to_euclidean_division_equations; lia]).
  pose proof (digits_nonempty 10 (z / 10 / 10 / 10 / 10 / 10 / 10 / 10 / 10 / 10)).
  destruct (digits 10 _); [done|simpl; lia].
Qed.

Lemma raw_integer_overflow_witness :
  integer_length 3000000000 = 0 /\ raw_alloc (raw_wrap (REPLY_INTEGER 3000000000)) = 7 /\
  raw_extent (raw_wrap (REPLY_INTEGER 3000000000)) = 14 /\
  raw_sz (raw_wrap (REPLY_INTEGER 3000000000)) = 3.
Proof. apply raw_integer_overflow. lia. Defined.

(** An array with a nil element announces the element and does not write it:
    no client can read the reply to an [MGET] with a missing key to the end. *)
Theorem raw_array_nil_unreadable (s : bytes) (fuel : nat) :
  Z.of_nat (length s) < 2 ^ 31 ->
  resp_parse fuel (raw_sent (raw_wrap (REPLY_ARRAY [REPLY_STRING s; REPLY_NIL]))) = None.
Proof.
  intros Hs.
  assert (raw_sent (raw_wrap (REPLY_ARRAY [REPLY_STRING s; REPLY_NIL])) =
    lit "*" ++ print_nat 2 ++ CRLF ++ raw_element (REPLY_STRING s)) as ->.
  { unfold raw_sent. cbn [raw_wrap raw_array raw_text raw_sz fold_left map concat].
    assert (raw_element_sz (REPLY_STRING s) = Z.of_nat (length (raw_element (REPLY_STRING s)))) as ->
      by (by apply raw_element_sz_length).
    cbn [raw_element raw_element_sz]. rewrite app_nil_r. apply take_ge.
    change (integer_length (Z.of_nat (length [REPLY_STRING s; REPLY_NIL]))) with 1.
    rewrite !length_app. simpl. lia. }
  destruct fuel as [|fuel]; [done|]. rewrite resp_parse_array by lia.
  change (Z.to_nat 2) with 2%nat. cbn [resp_elems].
  destruct fuel as [|fuel]; [done|]. rewrite <-(app_nil_r (raw_element _)).
  rewrite resp_parse_element by done. done.
Qed.

Lemma raw_array_nil_unreadable_witness :
  resp_parse 9 (raw_sent (raw_wrap (REPLY_ARRAY [REPLY_STRING (lit "a"); REPLY_NIL]))) = None.
Proof. apply (raw_array_nil_unreadable (lit "a") 9). by_decide. Defined.

End Raw.
