(* ===== verification/Resp.v ===== *)
(** * The Redis protocol: src/hiredis/read.c and the formatting of src/hiredis/hiredis.c

    The reader is incremental: bytes are fed to it as they arrive, and it keeps a
    stack of unfinished aggregates between two calls. Its state is translated with
    the consumed part of the buffer dropped, so that the position in it is 0; the
    stack holds, innermost first, the elements already read of each aggregate. The
    properties say that how the input was cut does not matter, and that the reader
    gets back what the protocol's text stands for. *)
From S2P Require Import Prelude Types Http Raw.

Local Open Scope Z_scope.

Module Resp.
Import Http Raw.

(** ** Sending: [redisFormatSdsCommandArgv] *)

(** [countDigits]: a 64-bit number has at most 20 digits, five turns of four. *)
Fixpoint countDigits_loop (fuel : nat) (v result : Z) : Z :=
  match fuel with
  | O => result
  | S f =>
      if v <? 10 then result
      else if v <? 100 then result + 1
      else if v <? 1000 then result + 2
      else if v <? 10000 then result + 3
      else countDigits_loop f (v / 10000) (result + 4)
  end.

Definition countDigits (v : Z) : Z := countDigits_loop 6 v 1.

Definition bulklen (len : Z) : Z := 1 + countDigits len + 2 + len + 2.

(** The length is printed with [%u], from its lower 32 bits; [None] is the failed
    assertion on the length of the text. *)
Definition redisFormatSdsCommandArgv (argv : list bytes) : option bytes :=
  let argc := Z.of_nat (length argv) in
  let totlen := fold_left (fun t a => t + bulklen (Z.of_nat (length a))) argv (1 + countDigits argc + 2) in
  let cmd := lit "*" ++ print_int argc ++ CRLF ++
    concat (map (fun a => lit "$" ++ print_nat (u32 (Z.of_nat (length a))) ++ CRLF ++ a ++ CRLF) argv) in
  if Z.of_nat (length cmd) =? totlen then Some cmd else None.

(** ** Reading *)

(** The types of read.h; a task without a type has [-1] there. *)
Definition REDIS_REPLY_STRING : Z := 1.
Definition REDIS_REPLY_ARRAY : Z := 2.
Definition REDIS_REPLY_INTEGER : Z := 3.
Definition REDIS_REPLY_NIL : Z := 4.
Definition REDIS_REPLY_STATUS : Z := 5.
Definition REDIS_REPLY_ERROR : Z := 6.
Definition REDIS_REPLY_DOUBLE : Z := 7.
Definition REDIS_REPLY_BOOL : Z := 8.
Definition REDIS_REPLY_MAP : Z := 9.
Definition REDIS_REPLY_SET : Z := 10.
Definition REDIS_REPLY_PUSH : Z := 12.
Definition REDIS_REPLY_VERB : Z := 14.
Definition REDIS_READER_MAX_ARRAY_ELEMENTS : Z := 2 ^ 32 - 1.

(** An aggregate that is being read: its type, its size and its elements so far. *)
Record frame := mk_frame {
  fr_type : Z;
  fr_elements : Z;
  fr_objs : list redisReply }.

Inductive reader_error := ProtocolError (errstr : bytes) | AssertionFailed.

(** [redisReader]: the error, the unread bytes, and the stack: the type of the
    current item if it has been read, and the aggregates around it. *)
Record redisReader := mk_reader {
  rd_err : option reader_error;
  rd_buf : bytes;
  rd_task : option (option Z * list frame) }.

Definition redisReaderCreate : redisReader := mk_reader None [] None.

(** [strtod] of the C library: whether it takes the whole text and gives a number
    other than NaN. *)
Class Strtod := strtod_number : bytes -> bool.

Inductive step_result :=
| StepOk (r : redisReader) (reply : option redisReply)
| StepMore (r : redisReader)
| StepErr (r : redisReader).

Definition __redisReaderSetError (e : reader_error) : step_result := StepErr (mk_reader (Some e) [] None).

Definition isprint (c : byte) : bool := (32 <=? Z_of_byte c) && (Z_of_byte c <=? 126).

Definition chrtos (c : byte) : bytes :=
  let q s := [x22] ++ s ++ [x22] in
  if Byte.eqb c x5c || Byte.eqb c x22 then q [x5c; c]
  else if Byte.eqb c x0a then q [x5c; x6e]
  else if Byte.eqb c x0d then q [x5c; x72]
  else if Byte.eqb c x09 then q [x5c; x74]
  else if Byte.eqb c x07 then q [x5c; x61]
  else if Byte.eqb c x08 then q [x5c; x62]
  else if isprint c then q [c]
  else q [x5c; x78; digit_char (Z_of_byte c / 16); digit_char (Z_of_byte c mod 16)].

Fixpoint seekNewline (s : bytes) : option nat :=
  match s with
  | [] => None
  | c :: s' =>
      match s' with
      | d :: _ => if Byte.eqb c x0d && Byte.eqb d x0a then Some O else S <$> seekNewline s'
      | [] => None
      end
  end.

Definition ULLONG_MAX : Z := 2 ^ 64 - 1.

Fixpoint string2ll_loop (p : bytes) (v : Z) : option Z :=
  match p with
  | [] => Some v
  | c :: p' =>
      if isdigit c then
        let d := Z_of_byte c - 48 in
        if ULLONG_MAX / 10 <? v then None
        else if ULLONG_MAX - d <? v * 10 then None
        else string2ll_loop p' (v * 10 + d)
      else None
  end.

Definition string2ll (s : bytes) : option Z :=
  if bytes_eqb s (lit "0") then Some 0
  else
    let '(negative, p) := match s with x2d :: p => (true, p) | _ => (false, s) end in
    match p with
    | c :: p' =>
        if isdigit c && negb (Byte.eqb c x30) then
          v ← string2ll_loop p' (Z_of_byte c - 48);
          if (negative : bool) then if 2 ^ 63 <? v then None else Some (- v)
          else if 2 ^ 63 - 1 <? v then None else Some v
        else None
    | [] => None
    end.

(** [moveToNextTask] after the current item was created: it becomes an element of
    the aggregate around it, which may complete that one too. The result is the new
    stack, or the reply when the stack is empty. *)
Definition aggregate (ty : Z) (objs : list redisReply) : redisReply :=
  if ty =? REDIS_REPLY_ARRAY then REPLY_ARRAY objs else REPLY_OTHER ty.

Fixpoint moveToNextTask (obj : redisReply) (parents : list frame) : (option Z * list frame) + redisReply :=
  match parents with
  | [] => inr obj
  | f :: rest =>
      let objs := fr_objs f ++ [obj] in
      if Z.of_nat (length objs) =? fr_elements f then moveToNextTask (aggregate (fr_type f) objs) rest
      else inl (None, mk_frame (fr_type f) (fr_elements f) objs :: rest)
  end.

Definition finish (buf : bytes) (obj : redisReply) (parents : list frame) : step_result :=
  match moveToNextTask obj parents with
  | inl task => StepOk (mk_reader None buf (Some task)) None
  | inr reply => StepOk (mk_reader None buf None) (Some reply)
  end.

(** The assertion of [createNilObject], [createDoubleObject] and [createBoolObject]:
    the aggregate is not a push message. *)
Definition finish_asserted (buf : bytes) (obj : redisReply) (parents : list frame) : step_result :=
  match parents with
  | f :: _ => if fr_type f =? REDIS_REPLY_PUSH then __redisReaderSetError AssertionFailed else finish buf obj parents
  | [] => finish buf obj parents
  end.

Section Reader.
Context `{Strtod}.

(** An item of a line of text: the line ends at [n]. *)
Definition processLineItem (buf : bytes) (ty : Z) (parents : list frame) : step_result :=
  match seekNewline buf with
  | None => StepMore (mk_reader None buf (Some (Some ty, parents)))
  | Some n =>
      let p := take n buf in
      let rest := drop (n + 2) buf in
      if ty =? REDIS_REPLY_INTEGER then
        match string2ll p with
        | Some v => finish rest (REPLY_INTEGER v) parents
        | None => __redisReaderSetError (ProtocolError (lit "Bad integer value"))
        end
      else if ty =? REDIS_REPLY_DOUBLE then
        if 326 <=? Z.of_nat n then __redisReaderSetError (ProtocolError (lit "Double value is too large"))
        else if strcasecmp_eq p (lit ",inf") || strcasecmp_eq p (lit ",-inf") ||
                (negb (bytes_eqb (cstr p) []) && strtod_number (cstr p))
        then finish_asserted rest (REPLY_OTHER ty) parents
        else __redisReaderSetError (ProtocolError (lit "Bad double value"))
      else if ty =? REDIS_REPLY_NIL then finish_asserted rest REPLY_NIL parents
      else if ty =? REDIS_REPLY_BOOL then finish_asserted rest (REPLY_OTHER ty) parents
      else finish rest (if ty =? REDIS_REPLY_ERROR then REPLY_ERROR p else REPLY_STATUS p) parents
  end.

(** A string preceded by its length. The two bytes behind it are skipped unread. *)
Definition processBulkItem (buf : bytes) (ty : Z) (parents : list frame) : step_result :=
  let more := StepMore (mk_reader None buf (Some (Some ty, parents))) in
  match seekNewline buf with
  | None => more
  | Some n =>
      match string2ll (take n buf) with
      | None => __redisReaderSetError (ProtocolError (lit "Bad bulk string length"))
      | Some len =>
          if len <? -1 then __redisReaderSetError (ProtocolError (lit "Bulk string length out of range"))
          else if len =? -1 then finish_asserted (drop (n + 2) buf) REPLY_NIL parents
          else if Z.of_nat (n + 2) + len + 2 <=? Z.of_nat (length buf) then
            let str := take (Z.to_nat len) (drop (n + 2) buf) in
            if (ty =? REDIS_REPLY_VERB) && ((len <? 4) || negb (bool_decide (str !! 3%nat = Some x3a)))
            then __redisReaderSetError
                   (ProtocolError (lit "Verbatim string 4 bytes of content type are missing or incorrectly encoded."))
            else
              finish (drop (n + 2 + Z.to_nat len + 2) buf)
                (if ty =? REDIS_REPLY_VERB then REPLY_OTHER ty else REPLY_STRING str) parents
          else more
      end
  end.

(** The number of elements of an aggregate; the memory of its vector and of the
    stack is not modelled. *)
Definition processAggregateItem (buf : bytes) (ty : Z) (parents : list frame) : step_result :=
  match seekNewline buf with
  | None => StepMore (mk_reader None buf (Some (Some ty, parents)))
  | Some n =>
      let rest := drop (n + 2) buf in
      match string2ll (take n buf) with
      | None => __redisReaderSetError (ProtocolError (lit "Bad multi-bulk length"))
      | Some elements =>
          if (elements <? -1) || (REDIS_READER_MAX_ARRAY_ELEMENTS <? elements)
          then __redisReaderSetError (ProtocolError (lit "Multi-bulk length out of range"))
          else if elements =? -1 then finish_asserted rest REPLY_NIL parents
          else
            let elements := if ty =? REDIS_REPLY_MAP then elements * 2 else elements in
            if 0 <? elements
            then StepOk (mk_reader None rest (Some (None, mk_frame ty elements [] :: parents))) None
            else finish rest (aggregate ty []) parents
      end
  end.

Definition type_of_byte (c : byte) : option Z :=
  if Byte.eqb c x2d then Some REDIS_REPLY_ERROR
  else if Byte.eqb c x2b then Some REDIS_REPLY_STATUS
  else if Byte.eqb c x3a then Some REDIS_REPLY_INTEGER
  else if Byte.eqb c x2c then Some REDIS_REPLY_DOUBLE
  else if Byte.eqb c x5f then Some REDIS_REPLY_NIL
  else if Byte.eqb c x24 then Some REDIS_REPLY_STRING
  else if Byte.eqb c x2a then Some REDIS_REPLY_ARRAY
  else if Byte.eqb c x25 then Some REDIS_REPLY_MAP
  else if Byte.eqb c x7e then Some REDIS_REPLY_SET
  else if Byte.eqb c x23 then Some REDIS_REPLY_BOOL
  else if Byte.eqb c x3d then Some REDIS_REPLY_VERB
  else if Byte.eqb c x3e then Some REDIS_REPLY_PUSH
  else None.

Definition process_typed (buf : bytes) (ty : Z) (parents : list frame) : step_result :=
  if (ty =? REDIS_REPLY_STRING) || (ty =? REDIS_REPLY_VERB) then processBulkItem buf ty parents
  else if (ty =? REDIS_REPLY_ARRAY) || (ty =? REDIS_REPLY_MAP) || (ty =? REDIS_REPLY_SET) || (ty =? REDIS_REPLY_PUSH)
  then processAggregateItem buf ty parents
  else processLineItem buf ty parents.

Definition processItem (buf : bytes) (task : option Z * list frame) : step_result :=
  match task with
  | (Some ty, parents) => process_typed buf ty parents
  | (None, parents) =>
      match buf with
      | [] => StepMore (mk_reader None buf (Some task))
      | c :: rest =>
          match type_of_byte c with
          | Some ty => process_typed rest ty parents
          | None =>
              __redisReaderSetError
                (ProtocolError (lit "Protocol error, got " ++ chrtos c ++ lit " as reply type byte"))
          end
      end
  end.

Definition redisReaderFeed (r : redisReader) (data : bytes) : redisReader :=
  match rd_err r with
  | Some _ => r
  | None => mk_reader None (rd_buf r ++ data) (rd_task r)
  end.

(** The loop over the items of a reply: every item takes a byte, so the length of
    the buffer bounds the turns ([read_items_fuel]). The result is whether the
    reader is without error, and the reply. *)
Fixpoint read_items (fuel : nat) (r : redisReader) : bool * option redisReply * redisReader :=
  match rd_task r, fuel with
  | Some task, S f =>
      match processItem (rd_buf r) task with
      | StepOk r' (Some reply) => (true, Some reply, r')
      | StepOk r' None => read_items f r'
      | StepMore r' => (true, None, r')
      | StepErr r' => (false, None, r')
      end
  | _, _ => (true, None, r)
  end.

Definition redisReaderGetReply (r : redisReader) : bool * option redisReply * redisReader :=
  match rd_err r with
  | Some _ => (false, None, r)
  | None =>
      match rd_buf r with
      | [] => (true, None, r)
      | _ =>
          let task := default (None, []) (rd_task r) in
          read_items (S (length (rd_buf r))) (mk_reader None (rd_buf r) (Some task))
      end
  end.

(** What [redisProcessCallbacks] does with it: replies until there is none. *)
Fixpoint read_all (fuel : nat) (r : redisReader) : list redisReply * redisReader :=
  match fuel with
  | O => ([], r)
  | S f =>
      match redisReaderGetReply r with
      | (true, Some v, r') => let '(l, r'') := read_all f r' in (v :: l, r'')
      | (_, _, r') => ([], r')
      end
  end.

Definition get_replies (r : redisReader) : list redisReply * redisReader := read_all (S (length (rd_buf r))) r.

(** ** More input *)

Definition extend (t : bytes) (r : redisReader) : redisReader := mk_reader (rd_err r) (rd_buf r ++ t) (rd_task r).

(** The result of a step when there is more behind what it looked at. *)
Definition extend_step (t : bytes) (s : step_result) : step_result :=
  match s with
  | StepOk r o => StepOk (extend t r) o
  | StepMore r => StepMore (extend t r)
  | StepErr r => StepErr r
  end.

Lemma seekNewline_bound s n : seekNewline s = Some n -> (n + 2 <= length s)%nat.
Proof using.
  revert n. induction s as [|c s IH]; intros n; [done|]. cbn [seekNewline]. destruct s as [|d s]; [done|].
  destruct (_ && _); [intros [= <-]; cbn; lia|].
  intros (m & Hm & ->)%fmap_Some. apply IH in Hm. cbn [length] in *. lia.
Qed.

Lemma seekNewline_extend s t n : seekNewline s = Some n -> seekNewline (s ++ t) = Some n.
Proof using.
  revert n. induction s as [|c s IH]; intros n; [done|]. cbn [seekNewline app]. destruct s as [|d s]; [done|].
  cbn [app]. destruct (_ && _); [done|]. intros (m & Hm & ->)%fmap_Some.
  change (d :: s ++ t) with ((d :: s) ++ t). by rewrite (IH m).
Qed.

(** The buffer a finished step leaves is shorter, and the stack is empty when it
    ended a reply. *)
Definition step_fits (buf : bytes) (s : step_result) : Prop :=
  match s with
  | StepOk r o => rd_err r = None /\ (length (rd_buf r) < length buf)%nat /\ (o = None <-> is_Some (rd_task r))
  | StepMore _ => True
  | StepErr r => is_Some (rd_err r)
  end.

(** A step on [buf] that did not run out of input, and what it is with [t] behind. *)
Definition stable (t buf : bytes) (s s' : step_result) : Prop :=
  (forall r, s <> StepMore r) /\ s' = extend_step t s /\ step_fits buf s.

Lemma stable_error t buf e : stable t buf (__redisReaderSetError e) (__redisReaderSetError e).
Proof using. split; [done|]. split; [done|]. by eexists. Qed.

Lemma stable_push t buf rest task :
  (length rest < length buf)%nat ->
  stable t buf (StepOk (mk_reader None rest (Some task)) None) (StepOk (mk_reader None (rest ++ t) (Some task)) None).
Proof using. intros Hl. by repeat split. Qed.

Lemma stable_finish t buf rest obj ps :
  (length rest < length buf)%nat -> stable t buf (finish rest obj ps) (finish (rest ++ t) obj ps).
Proof using.
  intros Hl. unfold finish. destruct (moveToNextTask obj ps); repeat split; try done. by intros [].
Qed.

Lemma stable_finish_asserted t buf rest obj ps :
  (length rest < length buf)%nat -> stable t buf (finish_asserted rest obj ps) (finish_asserted (rest ++ t) obj ps).
Proof using.
  intros Hl. unfold finish_asserted.
  destruct ps; [|destruct (_ =? _); [apply stable_error|]]; by apply stable_finish.
Qed.

#[local] Hint Resolve stable_error stable_push stable_finish stable_finish_asserted : resp.

(** Case analysis on the conditions both steps test. *)
Ltac stable :=
  repeat match goal with
    | |- stable _ _ (if ?b then _ else _) _ => destruct b
    | |- stable _ _ (match ?o with _ => _ end) _ => destruct o
    end; auto with resp.

Section Line.
Context (buf t : bytes) (n : nat) (Hn : (n + 2 <= length buf)%nat).

Lemma take_line : take n (buf ++ t) = take n buf.
Proof using Hn. apply take_app_le. lia. Qed.

Lemma drop_line k : (k <= length buf)%nat -> drop k (buf ++ t) = drop k buf ++ t.
Proof using. intros Hk. by apply drop_app_le. Qed.

Lemma line_shorter : (length (drop (n + 2) buf) < length buf)%nat.
Proof using Hn. rewrite length_drop. lia. Qed.
End Line.

#[local] Hint Resolve line_shorter : resp.

Lemma processLineItem_stable buf t ty ps n :
  seekNewline buf = Some n -> stable t buf (processLineItem buf ty ps) (processLineItem (buf ++ t) ty ps).
Proof.
  intros E. pose proof (seekNewline_bound _ _ E). unfold processLineItem.
  rewrite (seekNewline_extend _ t _ E), E, take_line, drop_line by lia. stable.
Qed.

Lemma processAggregateItem_stable buf t ty ps n :
  seekNewline buf = Some n -> stable t buf (processAggregateItem buf ty ps) (processAggregateItem (buf ++ t) ty ps).
Proof.
  intros E. pose proof (seekNewline_bound _ _ E). unfold processAggregateItem.
  rewrite (seekNewline_extend _ t _ E), E, take_line, drop_line by lia. stable.
Qed.

Lemma processBulkItem_stable buf t ty ps :
  processBulkItem buf ty ps = StepMore (mk_reader None buf (Some (Some ty, ps))) \/
  stable t buf (processBulkItem buf ty ps) (processBulkItem (buf ++ t) ty ps).
Proof.
  unfold processBulkItem. destruct (seekNewline buf) as [n|] eqn:E; [|by left].
  pose proof (seekNewline_bound _ _ E). rewrite (seekNewline_extend _ t _ E), take_line by lia.
  destruct (string2ll _) as [len|]; [|right; auto with resp].
  destruct (len <? -1) eqn:E0; [right; auto with resp|].
  destruct (len =? -1) eqn:E1; [right; rewrite drop_line by lia; auto with resp|].
  destruct (_ <=? Z.of_nat (length buf)) eqn:E2; [right|by left]. bool_to_prop.
  rewrite (proj2 (Z.leb_le _ (Z.of_nat (length (buf ++ t))))) by (rewrite length_app; lia).
  rewrite (drop_line _ _ (n + 2)), (drop_line _ _ (n + 2 + Z.to_nat len + 2)), take_app_le
    by (rewrite ?length_drop; lia).
  stable; apply stable_finish; rewrite length_drop; lia.
Qed.

(** An item either stops for more input, keeping what it had, or does the same
    whatever follows. *)
Lemma process_typed_stable buf t ty ps :
  process_typed buf ty ps = StepMore (mk_reader None buf (Some (Some ty, ps))) \/
  stable t buf (process_typed buf ty ps) (process_typed (buf ++ t) ty ps).
Proof.
  unfold process_typed. destruct (_ || _); [apply processBulkItem_stable|].
  destruct (seekNewline buf) as [n|] eqn:E.
  - right. destruct (_ || _); [by eapply processAggregateItem_stable|by eapply processLineItem_stable].
  - left. unfold processAggregateItem, processLineItem. rewrite E. by destruct (_ || _).
Qed.

Lemma processItem_stable buf t task :
  (exists buf' task', processItem buf task = StepMore (mk_reader None buf' (Some task')) /\
     processItem (buf' ++ t) task' = processItem (buf ++ t) task) \/
  stable t buf (processItem buf task) (processItem (buf ++ t) task).
Proof.
  destruct task as [[ty|] ps]; cbn [processItem].
  - destruct (process_typed_stable buf t ty ps) as [E|E]; [left|by right]. exists buf, (Some ty, ps). by rewrite E.
  - destruct buf as [|c buf]; [left; by exists [], (None, ps)|]. cbn [app].
    destruct (type_of_byte c) as [ty|]; [|right; apply stable_error].
    destruct (process_typed_stable buf t ty ps) as [E|(H1 & H2 & H3)]; [left|right].
    + exists buf, (Some ty, ps). by rewrite E.
    + split; [done|]. split; [done|]. unfold step_fits in *. destruct (process_typed buf ty ps); try done.
      cbn [length]. destruct H3 as (? & ? & ?). split; [done|]. split; [lia|done].
Qed.

(** ** Reading item by item *)

Definition task_of (r : redisReader) : option Z * list frame := default (None, []) (rd_task r).

Fixpoint drain_go (fuel : nat) (r : redisReader) : list redisReply * redisReader :=
  match fuel, rd_err r, rd_buf r with
  | S f, None, _ :: _ =>
      match processItem (rd_buf r) (task_of r) with
      | StepOk r' o => (option_list o ++ (drain_go f r').1, (drain_go f r').2)
      | StepMore r' | StepErr r' => ([], r')
      end
  | _, _, _ => ([], r)
  end.

(** All the replies in the buffer, and the state the reader is left in. *)
Definition drain (r : redisReader) : list redisReply * redisReader := drain_go (S (length (rd_buf r))) r.

Lemma processItem_fits buf task : step_fits buf (processItem buf task).
Proof. destruct (processItem_stable buf [] task) as [(b & k & -> & _)|(_ & _ & ?)]; done. Qed.

Lemma drain_go_fuel f g r : (length (rd_buf r) < f)%nat -> (length (rd_buf r) < g)%nat -> drain_go f r = drain_go g r.
Proof.
  revert g r. induction f as [|f IH]; intros [|g] r Hf Hg; try lia. cbn [drain_go].
  destruct (rd_err r); [done|]. destruct (rd_buf r) as [|c b] eqn:Eb; [done|].
  pose proof (processItem_fits (c :: b) (task_of r)) as Hfit. destruct (processItem _ _) as [r' o|r'|r']; [|done..].
  cbn [step_fits] in Hfit. by rewrite (IH g) by lia.
Qed.

Lemma drain_unfold r :
  drain r =
  match rd_err r, rd_buf r with
  | None, _ :: _ =>
      match processItem (rd_buf r) (task_of r) with
      | StepOk r' o => (option_list o ++ (drain r').1, (drain r').2)
      | StepMore r' | StepErr r' => ([], r')
      end
  | _, _ => ([], r)
  end.
Proof.
  unfold drain at 1. cbn [drain_go]. destruct (rd_err r); [done|]. destruct (rd_buf r) as [|c b] eqn:Eb; [done|].
  pose proof (processItem_fits (c :: b) (task_of r)) as Hfit. destruct (processItem _ _) as [r' o|r'|r']; [|done..].
  cbn [step_fits] in Hfit. unfold drain. by rewrite (drain_go_fuel (length (c :: b)) (S (length (rd_buf r')))) by lia.
Qed.

Lemma drain_ind (P : redisReader -> Prop) :
  (forall r, (forall r', (length (rd_buf r') < length (rd_buf r))%nat -> P r') -> P r) -> forall r, P r.
Proof using. intros Hstep r. remember (length (rd_buf r)) as n eqn:E. revert r E.
  induction (lt_wf n) as [n _ IH]. intros r ->. apply Hstep. intros r' Hr'. by apply (IH _ Hr'). Qed.

(** Nothing is read from an empty buffer. *)
Lemma processItem_nil task : processItem [] task = StepMore (mk_reader None [] (Some task)).
Proof.
  destruct task as [[ty|] ps]; [|done]. cbn [processItem].
  unfold process_typed, processBulkItem, processAggregateItem, processLineItem. cbn [seekNewline].
  destruct (_ || _); [done|]. by destruct (_ || _).
Qed.

(** [redisReaderGetReply] stops at the first reply. *)
Lemma read_items_drain f r task :
  rd_err r = None -> rd_task r = Some task -> (length (rd_buf r) < f)%nat ->
  drain r =
  match read_items f r with
  | (true, Some v, r') => (v :: (drain r').1, (drain r').2)
  | (_, _, r') => ([], r')
  end.
Proof.
  revert r task. induction f as [|f IH]; intros r task He Ht Hf; [lia|]. cbn [read_items]. rewrite Ht.
  rewrite drain_unfold, He. unfold task_of. rewrite Ht. cbn [from_option]. unfold id.
  destruct (rd_buf r) as [|c b] eqn:Eb.
  - rewrite processItem_nil. destruct r; cbn in *; by subst.
  - pose proof (processItem_fits (c :: b) task) as Hfit. destruct (processItem (c :: b) task) as [r' [v|]|r'|r']; [done| |done..].
    destruct Hfit as (He' & Hl & Ht'). destruct (proj1 Ht' eq_refl) as [task' Et].
    cbn [option_list app]. rewrite (IH r' task') by (done || lia). by destruct (read_items f r') as [[[] [v|]] r''].
Qed.

Lemma get_reply_drain r :
  drain r =
  match redisReaderGetReply r with
  | (true, Some v, r') => (v :: (drain r').1, (drain r').2)
  | (_, _, r') => ([], r')
  end.
Proof.
  unfold redisReaderGetReply. destruct (rd_err r) eqn:He; [by rewrite drain_unfold, He|].
  destruct (rd_buf r) as [|c b] eqn:Eb; [by rewrite drain_unfold, He, Eb|].
  rewrite <-Eb, <-(read_items_drain _ (mk_reader None (rd_buf r) (Some (task_of r))) (task_of r)) by (done || (cbn; lia)).
  rewrite (drain_unfold r), (drain_unfold (mk_reader _ _ _)). cbn [rd_err rd_buf]. by rewrite He, Eb.
Qed.

Lemma read_items_shorter f r task v r' :
  rd_task r = Some task -> read_items f r = (true, Some v, r') -> (length (rd_buf r') < length (rd_buf r))%nat.
Proof.
  revert r task. induction f as [|f IH]; intros r task Ht; cbn [read_items]; rewrite Ht; [done|].
  pose proof (processItem_fits (rd_buf r) task) as Hfit. destruct (processItem _ _) as [r1 [v1|]|r1|r1]; [|..|done|done].
  - intros [= <- <-]. apply Hfit.
  - destruct Hfit as (_ & Hl & Ht'). destruct (proj1 Ht' eq_refl) as [task' Et]. intros E%(IH _ _ Et). lia.
Qed.

Lemma get_reply_shorter r v r' :
  redisReaderGetReply r = (true, Some v, r') -> (length (rd_buf r') < length (rd_buf r))%nat.
Proof.
  unfold redisReaderGetReply. destruct (rd_err r); [done|]. destruct (rd_buf r) as [|c b] eqn:Eb; [done|].
  intros E. by eapply (read_items_shorter _ (mk_reader None (c :: b) _)).
Qed.

Lemma get_replies_drain r : get_replies r = drain r.
Proof.
  unfold get_replies. assert (forall f r, (length (rd_buf r) < f)%nat -> read_all f r = drain r) as Hall; [|apply Hall; lia].
  clear r. induction f as [|f IH]; intros r Hf; [lia|]. cbn [read_all]. rewrite get_reply_drain.
  destruct (redisReaderGetReply r) as [[[] [v|]] r'] eqn:E; [|done..]. apply get_reply_shorter in E.
  rewrite IH by lia. by destruct (drain r').
Qed.

(** What was read does not depend on what comes later. *)
Lemma drain_feed r t :
  drain (redisReaderFeed r t) =
  ((drain r).1 ++ (drain (redisReaderFeed (drain r).2 t)).1, (drain (redisReaderFeed (drain r).2 t)).2).
Proof.
  induction r as [r IH] using drain_ind. rewrite (drain_unfold r).
  destruct (rd_err r) as [e|] eqn:He; [apply surjective_pairing|].
  destruct (rd_buf r) as [|c b] eqn:Eb; [apply surjective_pairing|].
  assert (redisReaderFeed r t = mk_reader None ((c :: b) ++ t) (rd_task r)) as Efeed
    by (unfold redisReaderFeed; by rewrite He, Eb).
  rewrite Efeed, (drain_unfold (mk_reader _ _ _)). cbn [rd_err rd_buf app].
  change (task_of (mk_reader None (c :: b ++ t) (rd_task r))) with (task_of r).
  destruct (processItem_stable (c :: b) t (task_of r)) as [(buf' & task' & -> & E)|(Hno & E & Hfit)].
  - cbn [fst snd app]. rewrite <-surjective_pairing. unfold redisReaderFeed. cbn [rd_err rd_buf rd_task].
    rewrite (drain_unfold (mk_reader None (buf' ++ t) (Some task'))). cbn [rd_err rd_buf].
    change (task_of (mk_reader None (buf' ++ t) (Some task'))) with task'.
    change (c :: b ++ t) with ((c :: b) ++ t). rewrite <-E.
    destruct (buf' ++ t) eqn:En; [|done]. by rewrite processItem_nil.
  - change (c :: b ++ t) with ((c :: b) ++ t). rewrite E.
    destruct (processItem (c :: b) (task_of r)) as [r' o|r'|r'] eqn:Ei; cbn [extend_step].
    + destruct Hfit as (He' & Hl & _). cbn [fst snd].
      assert (extend t r' = redisReaderFeed r' t) as -> by (unfold redisReaderFeed, extend; by rewrite He').
      rewrite (IH r' Hl). cbn [fst snd]. by rewrite app_assoc.
    + by destruct (Hno r').
    + cbn [fst snd app]. rewrite <-surjective_pairing.
      destruct Hfit as [e He'].
      unfold redisReaderFeed. by rewrite He', drain_unfold, He'.
Qed.

(** The reader after some of the input: there is nothing more to read. *)
Lemma drain_drain r : drain (drain r).2 = ([], (drain r).2).
Proof.
  induction r as [r IH] using drain_ind. rewrite (drain_unfold r).
  destruct (rd_err r) as [e|] eqn:He; [by cbn [snd]; rewrite drain_unfold, He|].
  destruct (rd_buf r) as [|c b] eqn:Eb; [by cbn [snd]; rewrite drain_unfold, He, Eb|].
  pose proof (processItem_fits (c :: b) (task_of r)) as Hfit.
  destruct (processItem_stable (c :: b) [] (task_of r)) as [(buf' & task' & E1 & E)|(Hno & _)].
  - rewrite E1. cbn [snd]. rewrite !app_nil_r, E1 in E.
    rewrite drain_unfold. cbn [rd_err rd_buf]. change (task_of (mk_reader None buf' (Some task'))) with task'.
    rewrite E. by destruct buf'.
  - destruct (processItem _ _) as [r' o|r'|r']; cbn [snd].
    + apply IH. apply Hfit.
    + by destruct (Hno r').
    + destruct Hfit as [e He']. by rewrite drain_unfold, He'.
Qed.

(** The input in pieces, every reply taken as soon as it is complete. *)
Fixpoint feed_pieces (pieces : list bytes) (r : redisReader) : list redisReply * redisReader :=
  match pieces with
  | [] => ([], r)
  | p :: rest =>
      let '(l, r') := get_replies (redisReaderFeed r p) in
      let '(l', r'') := feed_pieces rest r' in (l ++ l', r'')
  end.

Lemma feed_app r a b : redisReaderFeed (redisReaderFeed r a) b = redisReaderFeed r (a ++ b).
Proof using. unfold redisReaderFeed. destruct (rd_err r) eqn:E; [by rewrite E|]. cbn. by rewrite app_assoc. Qed.

Lemma feed_nil r : redisReaderFeed r [] = r.
Proof using. unfold redisReaderFeed. destruct r as [[e|] b t]; cbn; [done|]. by rewrite app_nil_r. Qed.

Lemma feed_pieces_drain pieces r :
  drain r = ([], r) -> feed_pieces pieces r = drain (redisReaderFeed r (concat pieces)).
Proof.
  revert r. induction pieces as [|p rest IH]; intros r Hr; cbn [feed_pieces concat]; [by rewrite feed_nil, Hr|].
  rewrite get_replies_drain, <-feed_app, (drain_feed (redisReaderFeed r p)).
  pose proof (drain_drain (redisReaderFeed r p)) as Hd. destruct (drain (redisReaderFeed r p)) as [l r'].
  cbn [fst snd] in *. rewrite (IH r' Hd). by destruct (drain (redisReaderFeed r' (concat rest))).
Qed.

(** ** Text and replies *)

(** The text of a reply in the protocol. *)
Fixpoint resp_text (v : redisReply) : bytes :=
  match v with
  | REPLY_STRING s => lit "$" ++ print_nat (Z.of_nat (length s)) ++ CRLF ++ s ++ CRLF
  | REPLY_INTEGER z => lit ":" ++ print_int z ++ CRLF
  | REPLY_STATUS s => lit "+" ++ s ++ CRLF
  | REPLY_ERROR s => lit "-" ++ s ++ CRLF
  | REPLY_ARRAY l => lit "*" ++ print_nat (Z.of_nat (length l)) ++ CRLF ++ concat (map resp_text l)
  | REPLY_NIL | REPLY_OTHER _ => lit "$-1" ++ CRLF
  end.

Fixpoint resp_ok (v : redisReply) : Prop :=
  match v with
  | REPLY_STRING s => Z.of_nat (length s) < 2 ^ 63
  | REPLY_INTEGER z => - 2 ^ 63 <= z < 2 ^ 63
  | REPLY_STATUS s | REPLY_ERROR s => x0d ∉ s
  | REPLY_ARRAY l =>
      Z.of_nat (length l) <= REDIS_READER_MAX_ARRAY_ELEMENTS /\
      (fix all l := match l with [] => True | v :: l' => resp_ok v /\ all l' end) l
  | REPLY_NIL => True
  | REPLY_OTHER _ => False
  end.

Lemma seekNewline_line a b : x0d ∉ a -> seekNewline (a ++ CRLF ++ b) = Some (length a).
Proof using.
  induction a as [|c a IH]; intros Ha; [done|]. rewrite not_elem_of_cons in Ha. destruct Ha as [Hc Ha].
  specialize (IH Ha). cbn [app seekNewline length]. destruct (a ++ CRLF ++ b) as [|d l] eqn:E; [by destruct a|].
  rewrite IH. destruct (Byte.eqb c x0d) eqn:Ec; [|done].
  apply Byte.byte_dec_bl in Ec. by subst.
Qed.

Lemma digit_char_decimal d :
  0 <= d < 10 -> isdigit (digit_char d) = true /\ Z_of_byte (digit_char d) = 48 + d.
Proof using.
  intros Hd. apply (bool_decide_eq_true (isdigit (digit_char d) = true /\ Z_of_byte (digit_char d) = 48 + d)).
  revert d Hd. apply forall_below. vm_compute. reflexivity.
Qed.

Lemma fold_digits_ge ds v : Forall (fun d => 0 <= d < 10) ds -> 0 <= v -> v <= fold_left (fun a d => a * 10 + d) ds v.
Proof using.
  intros Hd. revert v. induction Hd as [|d ds Hd _ IH]; intros v Hv; cbn [fold_left]; [lia|].
  specialize (IH (v * 10 + d) ltac:(lia)). lia.
Qed.

Lemma string2ll_loop_digits ds v :
  Forall (fun d => 0 <= d < 10) ds -> 0 <= v -> fold_left (fun a d => a * 10 + d) ds v <= ULLONG_MAX ->
  string2ll_loop (map digit_char ds) v = Some (fold_left (fun a d => a * 10 + d) ds v).
Proof using.
  intros Hd. revert v. induction Hd as [|d ds Hd Hds IH]; intros v Hv Hmax; [done|]. cbn [map string2ll_loop fold_left] in *.
  destruct (digit_char_decimal d Hd) as [-> ->]. pose proof (fold_digits_ge ds (v * 10 + d) Hds ltac:(lia)).
  replace (48 + d - 48) with d by lia. unfold ULLONG_MAX in *.
  rewrite (proj2 (Z.ltb_ge _ v)) by (apply Z.div_le_lower_bound; lia).
  rewrite (proj2 (Z.ltb_ge _ (v * 10))) by lia. apply IH; lia.
Qed.

(** The loop on the digits of a positive number. *)
Lemma string2ll_digits n :
  0 < n -> n <= ULLONG_MAX ->
  exists c p, print_nat n = c :: p /\ isdigit c && negb (Byte.eqb c x30) = true /\ c <> x2d /\
    string2ll_loop p (Z_of_byte c - 48) = Some n.
Proof using.
  intros Hn Hmax. destruct (digits_head n Hn) as (d & ds & E & Hd).
  pose proof (digits_range 10 n ltac:(lia) ltac:(lia)) as Hr. rewrite E in Hr. apply Forall_cons in Hr as [Hd' Hds].
  pose proof (undigits_digits 10 n ltac:(lia) ltac:(lia)) as Hu. rewrite E in Hu. unfold undigits in Hu. cbn [fold_left] in Hu.
  destruct (digit_char_decimal d Hd') as [H1 H2].
  exists (digit_char d), (map digit_char ds). unfold print_nat. rewrite E, H1, H2.
  split; [done|]. split; [|split].
  - apply andb_true_iff. split; [done|]. apply negb_true_iff. apply not_true_is_false. intros Eb%Byte.byte_dec_bl.
    rewrite Eb in H2. change (Z_of_byte x30) with 48 in H2. lia.
  - intros Eb. rewrite Eb in H2. change (Z_of_byte x2d) with 45 in H2. lia.
  - replace (48 + d - 48) with (0 * 10 + d) by lia. rewrite string2ll_loop_digits by (done || lia). by rewrite Hu.
Qed.

Lemma string2ll_print z : - 2 ^ 63 <= z < 2 ^ 63 -> string2ll (print_int z) = Some z.
Proof using.
  intros Hz. unfold print_int. destruct (Z.ltb_spec z 0) as [Hn|Hn].
  - destruct (string2ll_digits (- z)) as (c & p & -> & H1 & _ & H2); [lia|unfold ULLONG_MAX; lia|].
    unfold string2ll. cbn [bytes_eqb]. change (bytes_eqb (x2d :: c :: p) (lit "0")) with false. cbn iota.
    rewrite H1, H2. cbn [mbind option_bind]. rewrite (proj2 (Z.ltb_ge _ _)) by lia. f_equal. lia.
  - destruct (decide (z = 0)) as [->|Hz0]; [done|].
    destruct (string2ll_digits z) as (c & p & -> & H1 & Hc & H2); [lia|unfold ULLONG_MAX; lia|].
    unfold string2ll. assert (bytes_eqb (c :: p) (lit "0") = false) as ->.
    { apply not_true_is_false. intros E%bytes_eqb_eq. injection E as -> _. by apply andb_true_iff in H1 as [_ [=]]. }
    assert (match c :: p with x2d :: p0 => (true, p0) | _ => (false, c :: p) end = (false, c :: p)) as ->.
    { destruct c; try done. }
    rewrite H1, H2. cbn [mbind option_bind]. by rewrite (proj2 (Z.ltb_ge _ _)) by lia.
Qed.

(** What is read once an item is complete. *)
Definition after (rest : bytes) (v : redisReply) (ps : list frame) : list redisReply * redisReader :=
  match moveToNextTask v ps with
  | inl task => drain (mk_reader None rest (Some task))
  | inr x => (x :: (drain (mk_reader None rest None)).1, (drain (mk_reader None rest None)).2)
  end.

Lemma drain_finish buf rest v ps :
  buf <> [] -> processItem buf (None, ps) = finish rest v ps ->
  drain (mk_reader None buf (Some (None, ps))) = after rest v ps.
Proof.
  intros Hb E. rewrite drain_unfold. cbn [rd_err rd_buf]. destruct buf as [|c b]; [done|].
  change (task_of (mk_reader None (c :: b) (Some (None, ps)))) with (@None Z, ps). rewrite E.
  unfold finish, after. destruct (moveToNextTask v ps) as [task|x]; [|done].
  symmetry. apply surjective_pairing.
Qed.

Definition in_arrays (ps : list frame) : Prop := Forall (fun f => fr_type f = REDIS_REPLY_ARRAY) ps.

Lemma finish_asserted_array rest v ps : in_arrays ps -> finish_asserted rest v ps = finish rest v ps.
Proof using. intros Hp. unfold finish_asserted. destruct Hp as [|f ps Hf _]; [done|]. by rewrite Hf. Qed.

Lemma print_nat_int n : 0 <= n -> print_nat n = print_int n.
Proof using. intros Hn. unfold print_int. by rewrite (proj2 (Z.ltb_ge _ _)). Qed.

Lemma drop_line_end (a b : bytes) : drop (length a + 2) (a ++ CRLF ++ b) = b.
Proof using. rewrite <-drop_drop, drop_app_length. done. Qed.

(** A line of text: the result is that of its content. *)
Lemma process_typed_line ty line rest ps :
  ty = REDIS_REPLY_INTEGER \/ ty = REDIS_REPLY_STATUS \/ ty = REDIS_REPLY_ERROR -> x0d ∉ line ->
  process_typed (line ++ CRLF ++ rest) ty ps =
  if ty =? REDIS_REPLY_INTEGER then
    match string2ll line with
    | Some v => finish rest (REPLY_INTEGER v) ps
    | None => __redisReaderSetError (ProtocolError (lit "Bad integer value"))
    end
  else finish rest (if ty =? REDIS_REPLY_ERROR then REPLY_ERROR line else REPLY_STATUS line) ps.
Proof.
  intros Hty Hl. assert (process_typed (line ++ CRLF ++ rest) ty ps = processLineItem (line ++ CRLF ++ rest) ty ps) as ->
    by (by destruct Hty as [-> |[-> | ->]]).
  unfold processLineItem. rewrite seekNewline_line, take_app_length, drop_line_end by done.
  by destruct Hty as [-> |[-> | ->]].
Qed.

(** Everything but an array with elements is one item. *)
Lemma processItem_text v rest ps :
  resp_ok v -> in_arrays ps -> (forall l, v = REPLY_ARRAY l -> l = []) ->
  processItem (resp_text v ++ rest) (None, ps) = finish rest v ps.
Proof.
  intros Hok Hps Ha. destruct v as [str|l|z| |str|str|z]; cbn [resp_text resp_ok] in *; try done.
  - rewrite <-!app_assoc. change (lit "$") with [x24]. cbn [app processItem type_of_byte Byte.eqb].
    unfold process_typed. cbn [Z.eqb orb REDIS_REPLY_STRING Pos.eqb]. unfold processBulkItem.
    rewrite seekNewline_line by (apply print_nat_no_cr; lia). rewrite take_app_length, print_nat_int, string2ll_print by lia.
    rewrite (proj2 (Z.ltb_ge _ _)), (proj2 (Z.eqb_neq _ _)) by lia.
    rewrite (proj2 (Z.leb_le _ _)) by (rewrite !length_app; cbn; lia).
    rewrite Nat2Z.id, drop_line_end, take_app_length. change (REDIS_REPLY_STRING =? REDIS_REPLY_VERB) with false. cbn [andb].
    f_equal. rewrite <-Nat.add_assoc, <-drop_drop, drop_line_end, <-drop_drop, drop_app_length. done.
  - rewrite (Ha l eq_refl) in *. change (resp_text (REPLY_ARRAY []) ++ rest) with (x2a :: lit "0" ++ CRLF ++ rest).
    reflexivity.
  - rewrite <-!app_assoc. change (lit ":") with [x3a]. cbn [app].
    change (processItem (x3a :: ?b) (None, ps)) with (process_typed b REDIS_REPLY_INTEGER ps).
    rewrite process_typed_line by (auto using print_int_no_cr). by rewrite string2ll_print.
  - change (lit "$-1" ++ CRLF) with (lit "$-1" ++ CRLF ++ []). cbn. apply (finish_asserted_array rest REPLY_NIL ps Hps).
  - rewrite <-!app_assoc. change (lit "+") with [x2b]. cbn [app].
    change (processItem (x2b :: ?b) (None, ps)) with (process_typed b REDIS_REPLY_STATUS ps).
    by rewrite process_typed_line by auto.
  - rewrite <-!app_assoc. change (lit "-") with [x2d]. cbn [app].
    change (processItem (x2d :: ?b) (None, ps)) with (process_typed b REDIS_REPLY_ERROR ps).
    by rewrite process_typed_line by auto.
Qed.

(** The elements of an array, of which some were already read. *)
Lemma drain_elements l : forall objs n rest ps,
  Forall (fun v => forall rest ps, in_arrays ps ->
    drain (mk_reader None (resp_text v ++ rest) (Some (None, ps))) = after rest v ps) l ->
  in_arrays ps -> l <> [] -> Z.of_nat (length objs + length l) = n ->
  drain (mk_reader None (concat (map resp_text l) ++ rest) (Some (None, mk_frame REDIS_REPLY_ARRAY n objs :: ps))) =
  after rest (REPLY_ARRAY (objs ++ l)) ps.
Proof.
  induction l as [|v l IH]; intros objs n rest ps Hl Hps Hne Hn; [done|]. apply Forall_cons in Hl as [Hv Hl].
  cbn [map concat]. rewrite <-app_assoc, Hv by (by constructor).
  unfold after at 1. cbn [moveToNextTask fr_objs fr_elements fr_type]. rewrite length_app. cbn [length] in *.
  destruct l as [|v2 l].
  - rewrite (proj2 (Z.eqb_eq _ _)) by (cbn [length] in Hn; lia). done.
  - rewrite (proj2 (Z.eqb_neq _ _)) by (cbn [length] in Hn; lia).
    rewrite (IH (objs ++ [v])) by (try done; rewrite length_app; cbn [length] in *; lia).
    by rewrite <-app_assoc.
Qed.

Lemma resp_ok_array l :
  resp_ok (REPLY_ARRAY l) -> Z.of_nat (length l) <= REDIS_READER_MAX_ARRAY_ELEMENTS /\ Forall resp_ok l.
Proof using.
  intros [H1 H2]. split; [done|]. clear H1. induction l as [|v l IH]; [constructor|].
  destruct H2. constructor; [done|by apply IH].
Qed.

Lemma drain_value v : forall rest ps, resp_ok v -> in_arrays ps ->
  drain (mk_reader None (resp_text v ++ rest) (Some (None, ps))) = after rest v ps.
Proof.
  induction v as [str|l IH|z| |str|str|z] using redisReply_ind'; intros rest ps Hok Hps;
    try (apply drain_finish; [by destruct str + done|by apply processItem_text]).
  destruct l as [|v l]; [apply drain_finish; [done|by apply processItem_text; [..|intros ? [= <-]]]|].
  apply resp_ok_array in Hok as [Hlen Hok].
  assert (processItem (resp_text (REPLY_ARRAY (v :: l)) ++ rest) (None, ps) =
    StepOk (mk_reader None (concat (map resp_text (v :: l)) ++ rest)
      (Some (None, mk_frame REDIS_REPLY_ARRAY (Z.of_nat (length (v :: l))) [] :: ps))) None) as E.
  { cbn [resp_text]. rewrite <-!app_assoc. change (lit "*") with [x2a]. cbn [app].
    change (processItem (x2a :: ?b) (None, ps)) with (processAggregateItem b REDIS_REPLY_ARRAY ps).
    unfold processAggregateItem, REDIS_READER_MAX_ARRAY_ELEMENTS in *.
    rewrite seekNewline_line by (apply print_nat_no_cr; lia).
    rewrite take_app_length, drop_line_end, print_nat_int, string2ll_print by lia.
    rewrite (proj2 (Z.ltb_ge _ (-1))), (proj2 (Z.ltb_ge _ (Z.of_nat _))), (proj2 (Z.eqb_neq _ _)) by lia. cbn [orb].
    change (REDIS_REPLY_ARRAY =? REDIS_REPLY_MAP) with false. by rewrite (proj2 (Z.ltb_lt _ _)) by (cbn [length]; lia). }
  rewrite drain_unfold. cbn [rd_err rd_buf].
  change (task_of (mk_reader None ?b (Some (None, ps)))) with (@None Z, ps). rewrite E.
  change (resp_text (REPLY_ARRAY (v :: l)) ++ rest) with (x2a :: (print_nat (Z.of_nat (length (v :: l))) ++ CRLF ++
    concat (map resp_text (v :: l))) ++ rest). cbn iota.
  rewrite (drain_elements (v :: l) [] _ rest ps); [symmetry; apply surjective_pairing| |done|done|done].
  rewrite Forall_forall in IH, Hok |- *. intros x Hx rest' ps' Hp'. by apply IH; [|apply Hok|].
Qed.

(** A stream of replies, read from the start of one. *)
Lemma drain_stream vs :
  Forall resp_ok vs -> drain (mk_reader None (concat (map resp_text vs)) None) = (vs, redisReaderCreate).
Proof.
  induction 1 as [|v vs Hv _ IH]; [done|]. cbn [map concat].
  assert (drain (mk_reader None (resp_text v ++ concat (map resp_text vs)) None) =
          drain (mk_reader None (resp_text v ++ concat (map resp_text vs)) (Some (None, [])))) as ->.
  { rewrite (drain_unfold (mk_reader _ _ None)), (drain_unfold (mk_reader _ _ (Some _))). cbn [rd_err rd_buf].
    by destruct v. }
  rewrite drain_value by (done || constructor). unfold after. cbn [moveToNextTask]. by rewrite IH.
Qed.

(** ** The length of a command *)

Lemma length_digits_small v : 0 <= v < 10 -> length (digits 10 v) = 1%nat.
Proof using. intros Hv. rewrite digits_unfold by lia. by rewrite (proj2 (Z.ltb_lt _ _)) by lia. Qed.

Lemma length_digits_step v : 10 <= v -> length (digits 10 v) = S (length (digits 10 (v / 10))).
Proof using.
  intros Hv. rewrite digits_unfold by lia. rewrite (proj2 (Z.ltb_ge _ _)) by lia.
  rewrite length_app. cbn [length]. lia.
Qed.

Lemma countDigits_loop_spec f v r :
  0 <= v < 10000 ^ Z.of_nat f -> (0 < f)%nat ->
  countDigits_loop f v r = r - 1 + Z.of_nat (length (digits 10 v)).
Proof using.
  revert v r. induction f as [|f IH]; intros v r Hv Hf; [lia|]. cbn [countDigits_loop].
  destruct (Z.ltb_spec v 10); [rewrite length_digits_small by lia; lia|].
  rewrite length_digits_step by lia. assert (1 <= v / 10) by (apply Z.div_le_lower_bound; lia).
  destruct (Z.ltb_spec v 100).
  { assert (v / 10 < 10) by (apply Z.div_lt_upper_bound; lia). rewrite length_digits_small by lia. lia. }
  assert (10 <= v / 10) by (apply Z.div_le_lower_bound; lia).
  rewrite length_digits_step, Z.div_div by lia. change (10 * 10) with 100.
  destruct (Z.ltb_spec v 1000).
  { assert (1 <= v / 100 < 10) by (split; [apply Z.div_le_lower_bound|apply Z.div_lt_upper_bound]; lia).
    rewrite length_digits_small by lia. lia. }
  assert (10 <= v / 100) by (apply Z.div_le_lower_bound; lia).
  rewrite length_digits_step, Z.div_div by lia. change (100 * 10) with 1000.
  destruct (Z.ltb_spec v 10000).
  { assert (1 <= v / 1000 < 10) by (split; [apply Z.div_le_lower_bound|apply Z.div_lt_upper_bound]; lia).
    rewrite length_digits_small by lia. lia. }
  assert (10 <= v / 1000) by (apply Z.div_le_lower_bound; lia).
  rewrite length_digits_step, Z.div_div by lia. change (1000 * 10) with 10000.
  rewrite Nat2Z.inj_succ, Z.pow_succ_r in Hv by lia.
  assert (0 <= v / 10000 < 10000 ^ Z.of_nat f) by (split; [apply Z.div_pos|apply Z.div_lt_upper_bound]; lia).
  destruct f as [|f]; [cbn in *; lia|]. rewrite IH by lia. lia.
Qed.

Lemma countDigits_spec v : 0 <= v < 2 ^ 64 -> countDigits v = Z.of_nat (length (print_nat v)).
Proof using.
  intros Hv. unfold countDigits, print_nat. rewrite length_map, countDigits_loop_spec; [lia| |lia].
  change (Z.of_nat 6) with 6. lia.
Qed.

(** The text is that of the array of the arguments. *)
Lemma format_text argv :
  Z.of_nat (length argv) < 2 ^ 31 -> Forall (fun a => Z.of_nat (length a) < 2 ^ 32) argv ->
  redisFormatSdsCommandArgv argv = Some (resp_text (REPLY_ARRAY (map REPLY_STRING argv))).
Proof using.
  intros Hn Ha. unfold redisFormatSdsCommandArgv. cbn [resp_text]. rewrite length_map, map_map, <-print_nat_int by lia.
  assert (map (fun a => lit "$" ++ print_nat (u32 (Z.of_nat (length a))) ++ CRLF ++ a ++ CRLF) argv =
          map (fun a => resp_text (REPLY_STRING a)) argv) as ->.
  { apply map_ext_in. intros a Hin. apply list_elem_of_In in Hin. eapply Forall_forall in Ha; [|exact Hin].
    cbn [resp_text]. unfold u32, wrap_u. by rewrite Z.mod_small by lia. }
  rewrite (proj2 (Z.eqb_eq _ _)); [done|].
  rewrite !length_app, countDigits_spec by lia. cbn [length lit].
  assert (forall t, fold_left (fun t a => t + bulklen (Z.of_nat (length a))) argv t =
    t + Z.of_nat (length (concat (map (fun a => resp_text (REPLY_STRING a)) argv)))) as Hfold.
  { clear Hn. induction Ha as [|a argv Hlen _ IH]; intros t; cbn [fold_left map concat length]; [lia|].
    rewrite IH, length_app. unfold bulklen. cbn [resp_text]. rewrite !length_app, countDigits_spec by lia.
    change (length (lit "$")) with 1%nat. change (length CRLF) with 2%nat. lia. }
  rewrite Hfold. change (length CRLF) with 2%nat. change (length (lit "*")) with 1%nat. lia.
Qed.

(** ** Properties *)




End Reader.



End Resp.
