(* ===== verification/Digest.v ===== *)
(** * Message digests: src/sha1/sha1.c and src/md5/md5.c

    Both digests cut a message into blocks of 64 bytes, keep the bytes of the
    incomplete block in their context between calls, count the bits of the message,
    and pad the last block when the digest is asked for. Their functions are
    translated with the context they update; the reference is the fold of the
    compression function over the blocks of the padded message, as the standards
    define it. SHA-1 makes the accept key of a WebSocket handshake, MD5 the entity
    tag of a reply. *)
From S2P Require Import Prelude.

Local Open Scope Z_scope.

Module Digest.

(** ** 32-bit words *)

Definition add32 (a b : Z) : Z := u32 (a + b).
Definition not32 (a : Z) : Z := Z.lxor a 4294967295.
Definition rotl32 (bits word : Z) : Z :=
  Z.lor (u32 (Z.shiftl word bits)) (Z.shiftr word (32 - bits)).

(** [memcpy(buf + off, p, sizeof p)]. *)
Definition overwrite (buf : bytes) (off : nat) (p : bytes) : bytes :=
  take off buf ++ p ++ drop (off + length p) buf.

(** ** SHA-1 *)

Record SHA1Context := mk_sha1 {
  Message_Digest : list Z;
  Length_Low : Z;
  Length_High : Z;
  Message_Block : bytes;
  Message_Block_Index : nat;
  Computed : bool;
  Corrupted : bool }.

(** [SHA1Reset] leaves the block as it was; its bytes are written before they are
    read. *)
Definition SHA1Reset : SHA1Context :=
  mk_sha1 [0x67452301; 0xEFCDAB89; 0x98BADCFE; 0x10325476; 0xC3D2E1F0] 0 0 (replicate 64 x00) 0 false false.

(** The words [W]: the first 16 from the block, the others from the ones before. *)
Definition word_at (block : bytes) (t : nat) : Z :=
  let b i := Z_of_byte (default x00 (block !! (t * 4 + i)%nat)) in
  Z.lor (Z.lor (Z.lor (Z.shiftl (b 0%nat) 24) (Z.shiftl (b 1%nat) 16)) (Z.shiftl (b 2%nat) 8)) (b 3%nat).

Fixpoint extend_words (n : nat) (W : list Z) : list Z :=
  match n with
  | O => W
  | S n' =>
      let t := length W in
      let at_ k := default 0 (W !! (t - k)%nat) in
      extend_words n' (W ++ [rotl32 1 (Z.lxor (Z.lxor (Z.lxor (at_ 3%nat) (at_ 8%nat)) (at_ 14%nat)) (at_ 16%nat))])
  end.

Record regs := mk_regs { rA : Z; rB : Z; rC : Z; rD : Z; rE : Z }.

(** One turn of the four loops. *)
Definition sha1_step (W : list Z) (x : regs) (t : nat) : regs :=
  let '(mk_regs A B C D E) := x in
  let '(f, K) :=
    if (t <? 20)%nat then (Z.lor (Z.land B C) (Z.land (not32 B) D), 0x5A827999)
    else if (t <? 40)%nat then (Z.lxor (Z.lxor B C) D, 0x6ED9EBA1)
    else if (t <? 60)%nat then (Z.lor (Z.lor (Z.land B C) (Z.land B D)) (Z.land C D), 0x8F1BBCDC)
    else (Z.lxor (Z.lxor B C) D, 0xCA62C1D6) in
  let temp := u32 (rotl32 5 A + f + E + default 0 (W !! t) + K) in
  mk_regs temp A (rotl32 30 B) C D.

(** The new digest for a block. *)
Definition sha1_compress (digest : list Z) (block : bytes) : list Z :=
  let W := extend_words 64 (map (word_at block) (seq 0 16)) in
  let H i := default 0 (digest !! i) in
  let x := fold_left (sha1_step W) (seq 0 80) (mk_regs (H 0%nat) (H 1%nat) (H 2%nat) (H 3%nat) (H 4%nat)) in
  [add32 (H 0%nat) (rA x); add32 (H 1%nat) (rB x); add32 (H 2%nat) (rC x); add32 (H 3%nat) (rD x);
   add32 (H 4%nat) (rE x)].

Definition SHA1ProcessMessageBlock (c : SHA1Context) : SHA1Context :=
  mk_sha1 (sha1_compress (Message_Digest c) (Message_Block c)) (Length_Low c) (Length_High c)
    (Message_Block c) 0 (Computed c) (Corrupted c).

Definition put_block (b : byte) (c : SHA1Context) : SHA1Context :=
  mk_sha1 (Message_Digest c) (Length_Low c) (Length_High c) (<[Message_Block_Index c := b]> (Message_Block c))
    (S (Message_Block_Index c)) (Computed c) (Corrupted c).

Definition count_byte (c : SHA1Context) : SHA1Context :=
  let low := u32 (Length_Low c + 8) in
  if low =? 0 then
    let high := u32 (Length_High c + 1) in
    mk_sha1 (Message_Digest c) low high (Message_Block c) (Message_Block_Index c) (Computed c)
      (if high =? 0 then true else Corrupted c)
  else mk_sha1 (Message_Digest c) low (Length_High c) (Message_Block c) (Message_Block_Index c)
         (Computed c) (Corrupted c).

Fixpoint input_loop (message : bytes) (c : SHA1Context) : SHA1Context :=
  match message with
  | [] => c
  | b :: rest =>
      if Corrupted c then c
      else
        let c := count_byte (put_block b c) in
        input_loop rest (if (Message_Block_Index c =? 64)%nat then SHA1ProcessMessageBlock c else c)
  end.

Definition SHA1Input (c : SHA1Context) (message : bytes) : SHA1Context :=
  match message with
  | [] => c
  | _ =>
      if Computed c || Corrupted c
      then mk_sha1 (Message_Digest c) (Length_Low c) (Length_High c) (Message_Block c)
             (Message_Block_Index c) (Computed c) true
      else input_loop message c
  end.

(** [while(Message_Block_Index < n) Message_Block[Message_Block_Index++] = 0]. *)
Fixpoint zero_to (fuel n : nat) (c : SHA1Context) : SHA1Context :=
  match fuel with
  | O => c
  | S f => if (Message_Block_Index c <? n)%nat then zero_to f n (put_block x00 c) else c
  end.

Definition SHA1PadMessage (c : SHA1Context) : SHA1Context :=
  let c :=
    if (55 <? Message_Block_Index c)%nat
    then zero_to 64 56 (SHA1ProcessMessageBlock (zero_to 64 64 (put_block x80 c)))
    else zero_to 64 56 (put_block x80 c) in
  let block := overwrite (Message_Block c) 56 (be_bytes 4 (Length_High c) ++ be_bytes 4 (Length_Low c)) in
  SHA1ProcessMessageBlock
    (mk_sha1 (Message_Digest c) (Length_Low c) (Length_High c) block (Message_Block_Index c)
       (Computed c) (Corrupted c)).

Definition SHA1Result (c : SHA1Context) : option SHA1Context :=
  if Corrupted c then None
  else if Computed c then Some c
  else
    let c := SHA1PadMessage c in
    Some (mk_sha1 (Message_Digest c) (Length_Low c) (Length_High c) (Message_Block c)
            (Message_Block_Index c) true (Corrupted c)).

(** ** MD5 *)

Record md5_state_t := mk_md5 {
  count0 : Z;
  count1 : Z;
  abcd : list Z;
  md5_buf : bytes }.

(** The constants [T1] to [T64]. *)
Definition md5_T : list Z :=
  [0xd76aa478; 0xe8c7b756; 0x242070db; 0xc1bdceee; 0xf57c0faf; 0x4787c62a; 0xa8304613; 0xfd469501;
   0x698098d8; 0x8b44f7af; 0xffff5bb1; 0x895cd7be; 0x6b901122; 0xfd987193; 0xa679438e; 0x49b40821;
   0xf61e2562; 0xc040b340; 0x265e5a51; 0xe9b6c7aa; 0xd62f105d; 0x02441453; 0xd8a1e681; 0xe7d3fbc8;
   0x21e1cde6; 0xc33707d6; 0xf4d50d87; 0x455a14ed; 0xa9e3e905; 0xfcefa3f8; 0x676f02d9; 0x8d2a4c8a;
   0xfffa3942; 0x8771f681; 0x6d9d6122; 0xfde5380c; 0xa4beea44; 0x4bdecfa9; 0xf6bb4b60; 0xbebfbc70;
   0x289b7ec6; 0xeaa127fa; 0xd4ef3085; 0x04881d05; 0xd9d4d039; 0xe6db99e5; 0x1fa27cf8; 0xc4ac5665;
   0xf4292244; 0x432aff97; 0xab9423a7; 0xfc93a039; 0x655b59c3; 0x8f0ccc92; 0xffeff47d; 0x85845dd1;
   0x6fa87e4f; 0xfe2ce6e0; 0xa3014314; 0x4e0811a1; 0xf7537e82; 0xbd3af235; 0x2ad7d2bb; 0xeb86d391].

(** The word [k] and the rotation [s] of each [SET], in order. *)
Definition md5_k : list nat :=
  [0; 1; 2; 3; 4; 5; 6; 7; 8; 9; 10; 11; 12; 13; 14; 15;
   1; 6; 11; 0; 5; 10; 15; 4; 9; 14; 3; 8; 13; 2; 7; 12;
   5; 8; 11; 14; 1; 4; 7; 10; 13; 0; 3; 6; 9; 12; 15; 2;
   0; 7; 14; 5; 12; 3; 10; 1; 8; 15; 6; 13; 4; 11; 2; 9]%nat.

Definition md5_s (i : nat) : Z :=
  let row := if (i <? 16)%nat then [7; 12; 17; 22]
             else if (i <? 32)%nat then [5; 9; 14; 20]
             else if (i <? 48)%nat then [4; 11; 16; 23]
             else [6; 10; 15; 21] in
  default 0 (row !! (i mod 4)%nat).

Definition md5_f (i : nat) (x y z : Z) : Z :=
  if (i <? 16)%nat then Z.lor (Z.land x y) (Z.land (not32 x) z)
  else if (i <? 32)%nat then Z.lor (Z.land x z) (Z.land y (not32 z))
  else if (i <? 48)%nat then Z.lxor (Z.lxor x y) z
  else Z.lxor y (Z.lor x (not32 z)).

(** [SET(a, b, c, d, k, s, Ti)]: the four names turn by one place from one
    operation to the next, so the registers are passed turned: the new [a] becomes
    the [b] of the next operation. *)
Definition md5_set (X : list Z) (q : Z * Z * Z * Z) (i : nat) : Z * Z * Z * Z :=
  let '(a, b, c, d) := q in
  let t := u32 (a + md5_f i b c d + default 0 (X !! default O (md5_k !! i)) + default 0 (md5_T !! i)) in
  let a := add32 (rotl32 (md5_s i) t) b in
  (d, a, b, c).

Definition md5_compress (s : list Z) (data : bytes) : list Z :=
  let X := map (fun i => le_value (take 4 (drop (4 * i) data))) (seq 0 16) in
  let v i := default 0 (s !! i) in
  let '(a, b, c, d) := fold_left (md5_set X) (seq 0 64) (v 0%nat, v 1%nat, v 2%nat, v 3%nat) in
  [add32 (v 0%nat) a; add32 (v 1%nat) b; add32 (v 2%nat) c; add32 (v 3%nat) d].

Definition md5_process (pms : md5_state_t) (data : bytes) : md5_state_t :=
  mk_md5 (count0 pms) (count1 pms) (md5_compress (abcd pms) data) (md5_buf pms).

(** [buf] is left as it was; its bytes are written before they are read. *)
Definition md5_init : md5_state_t :=
  mk_md5 0 0 [0x67452301; 0xefcdab89; 0x98badcfe; 0x10325476] (replicate 64 x00).

(** The full blocks from [p] on, and the bytes left. *)
Fixpoint process_blocks (fuel : nat) (pms : md5_state_t) (p : bytes) : md5_state_t * bytes :=
  match fuel with
  | O => (pms, p)
  | S f =>
      if (64 <=? length p)%nat then process_blocks f (md5_process pms (take 64 p)) (drop 64 p)
      else (pms, p)
  end.

Definition md5_tail (pms : md5_state_t) (p : bytes) : md5_state_t :=
  let '(pms, rest) := process_blocks (length p) pms p in
  mk_md5 (count0 pms) (count1 pms) (abcd pms) (overwrite (md5_buf pms) 0 rest).

(** [nbytes] is an [int]: the first [nbytes] bytes of [data], none when it is
    negative. *)
Definition md5_append (pms : md5_state_t) (data : bytes) (nbytes : Z) : md5_state_t :=
  let offset := Z.to_nat (Z.land (Z.shiftr (count0 pms) 3) 63) in
  let nbits := u32 (Z.shiftl nbytes 3) in
  if nbytes <=? 0 then pms
  else
    let p := take (Z.to_nat nbytes) data in
    let c0 := u32 (count0 pms + nbits) in
    let c1 := u32 (count1 pms + Z.shiftr nbytes 29) in
    let c1 := if c0 <? nbits then u32 (c1 + 1) else c1 in
    let pms := mk_md5 c0 c1 (abcd pms) (md5_buf pms) in
    if (offset =? 0)%nat then md5_tail pms p
    else
      let copy := if (64 <? offset + length p)%nat then (64 - offset)%nat else length p in
      let pms := mk_md5 c0 c1 (abcd pms) (overwrite (md5_buf pms) offset (take copy p)) in
      if (offset + copy <? 64)%nat then pms
      else md5_tail (md5_process pms (md5_buf pms)) (drop copy p).

Definition md5_finish (pms : md5_state_t) : bytes :=
  let data := le_bytes 4 (count0 pms) ++ le_bytes 4 (count1 pms) in
  let pms := md5_append pms (x80 :: replicate 63 x00) (Z.land (55 - Z.shiftr (count0 pms) 3) 63 + 1) in
  let pms := md5_append pms data 8 in
  flat_map (le_bytes 4) (abcd pms).

(** ** Test vectors *)

Definition sha1_hex (m : bytes) : option bytes :=
  (fun c => flat_map print_hex (Message_Digest c)) <$> SHA1Result (SHA1Input SHA1Reset m).

Definition md5_hex (m : bytes) : bytes :=
  flat_map (fun b => [digit_char (Z_of_byte b / 16); digit_char (Z_of_byte b mod 16)])
    (md5_finish (md5_append md5_init m (Z.of_nat (length m)))).

Example sha1_abc : sha1_hex (lit "abc") = Some (lit "a9993e364706816aba3e25717850c26c9cd0d89d").
Proof. vm_compute. reflexivity. Qed.

Example md5_abc : md5_hex (lit "abc") = lit "900150983cd24fb0d6963f7d28e17f72".
Proof. vm_compute. reflexivity. Qed.

Example md5_digits :
  md5_hex (lit "12345678901234567890123456789012345678901234567890123456789012345678901234567890") =
  lit "57edf4a22be3c955ac49da2e2107b67a".
Proof. vm_compute. reflexivity. Qed.

(** ** Reference: a fold over the blocks of the padded message *)

Section Absorb.
Context {St : Type} (compress : St -> bytes -> St).

Fixpoint absorb_go (fuel : nat) (s : St) (l : bytes) : St * bytes :=
  match fuel with
  | O => (s, l)
  | S f => if (64 <=? length l)%nat then absorb_go f (compress s (take 64 l)) (drop 64 l) else (s, l)
  end.

(** The state after the full blocks of [l], and what is left. *)
Definition absorb (s : St) (l : bytes) : St * bytes := absorb_go (length l) s l.

Lemma absorb_go_fuel f s l : (length l <= f)%nat -> absorb_go f s l = absorb s l.
Proof using.
  unfold absorb. revert f s. induction l as [l IH] using (induction_ltof1 _ (@length byte)); unfold ltof in IH.
  intros f s Hf. destruct f as [|f]; [by destruct l; [|cbn in Hf; lia]|].
  destruct l as [|c l'] eqn:El; [by destruct f|]. rewrite <-El in *. cbn [absorb_go].
  replace (length l) with (S (length l')) at 2 by (by rewrite El). cbn [absorb_go].
  destruct (Nat.leb_spec 64 (length l)); [|done].
  assert (length (drop 64 l) < length l)%nat by (rewrite length_drop; lia).
  assert (length l = S (length l')) by (by rewrite El).
  etrans; [apply IH; lia|symmetry; apply IH; lia].
Qed.

Lemma absorb_small s l : (length l < 64)%nat -> absorb s l = (s, l).
Proof using.
  intros H. unfold absorb. destruct (length l) as [|n] eqn:E; [done|]. cbn [absorb_go].
  by rewrite (proj2 (Nat.leb_gt _ _)) by lia.
Qed.

Lemma absorb_block s b l : length b = 64%nat -> absorb s (b ++ l) = absorb (compress s b) l.
Proof using.
  intros Hb. unfold absorb at 1. destruct (length (b ++ l)) as [|n] eqn:E; [rewrite length_app in E; lia|].
  cbn [absorb_go]. rewrite (proj2 (Nat.leb_le _ _)) by (rewrite length_app; lia).
  rewrite take_app_length', drop_app_length' by done. apply absorb_go_fuel. rewrite length_app in E. lia.
Qed.

(** The induction that follows the blocks. *)
Lemma blocks_ind (P : bytes -> Prop) :
  (forall l, (length l < 64)%nat -> P l) -> (forall b l, length b = 64%nat -> P l -> P (b ++ l)) -> forall l, P l.
Proof using.
  intros Hs Hb l. induction l as [l IH] using (induction_ltof1 _ (@length byte)). unfold ltof in IH.
  destruct (Nat.lt_ge_cases (length l) 64); [by apply Hs|].
  rewrite <-(take_drop 64 l). apply Hb; [rewrite length_take; lia|]. apply IH. rewrite length_drop. lia.
Qed.

Lemma absorb_app s a b : absorb s (a ++ b) = absorb (absorb s a).1 ((absorb s a).2 ++ b).
Proof using.
  revert s. induction a as [a Ha|blk a Hblk IH] using blocks_ind; intros s.
  - by rewrite (absorb_small s a) by done.
  - rewrite <-app_assoc, (absorb_block s blk (a ++ b)), (absorb_block s blk a) by done. apply IH.
Qed.

Lemma absorb_rest s l : length (absorb s l).2 = (length l mod 64)%nat.
Proof using.
  revert s. induction l as [l Hl|blk l Hblk IH] using blocks_ind; intros s.
  - rewrite absorb_small by done. cbn [snd]. by rewrite Nat.mod_small.
  - rewrite absorb_block, IH by done. rewrite length_app, Hblk.
    rewrite <-(Nat.Div0.mod_add (length l) 1 64). f_equal. lia.
Qed.

Lemma absorb_invariant (I : St -> Prop) s l :
  (forall s b, I s -> I (compress s b)) -> I s -> I (absorb s l).1.
Proof using.
  intros HI. revert s. induction l as [l Hl|blk l Hblk IH] using blocks_ind; intros s Hs.
  - by rewrite absorb_small.
  - rewrite absorb_block by done. apply IH. by apply HI.
Qed.
End Absorb.

(** The padding of the standards: a 1 bit, zeros up to 56 bytes modulo 64, and the
    length in bits in 8 bytes. *)
Definition padding (len : nat) (len_bytes : bytes) : bytes :=
  x80 :: replicate (Z.to_nat ((55 - Z.of_nat len) mod 64)) x00 ++ len_bytes.

Definition sha1_spec (m : bytes) : list Z :=
  (absorb sha1_compress (Message_Digest SHA1Reset)
     (m ++ padding (length m) (be_bytes 8 (8 * Z.of_nat (length m))))).1.

Definition md5_spec (m : bytes) : bytes :=
  flat_map (le_bytes 4)
    (absorb md5_compress (abcd md5_init)
       (m ++ padding (length m) (le_bytes 8 (8 * Z.of_nat (length m))))).1.

(** ** SHA-1 implements it *)

Record sha1_inv (c : SHA1Context) (m : bytes) : Prop := {
  si_absorb : absorb sha1_compress (Message_Digest SHA1Reset) m =
              (Message_Digest c, take (Message_Block_Index c) (Message_Block c));
  si_block : length (Message_Block c) = 64%nat;
  si_index : (Message_Block_Index c < 64)%nat;
  si_low : Length_Low c = (8 * Z.of_nat (length m)) mod 2 ^ 32;
  si_high : Length_High c = 8 * Z.of_nat (length m) / 2 ^ 32;
  si_flags : Computed c = false /\ Corrupted c = false }.

Lemma sha1_reset_inv : sha1_inv SHA1Reset [].
Proof. split; try done. cbn. lia. Qed.

Lemma si_index_mod c m : sha1_inv c m -> Message_Block_Index c = (length m mod 64)%nat.
Proof.
  intros H. rewrite <-(absorb_rest sha1_compress (Message_Digest SHA1Reset) m), (si_absorb _ _ H). cbn [snd].
  rewrite length_take, (si_block _ _ H). pose proof (si_index _ _ H). lia.
Qed.

Lemma take_insert_next (l : bytes) i b : (i < length l)%nat -> take (S i) (<[i := b]> l) = take i l ++ [b].
Proof.
  intros Hi. rewrite (take_S_r _ i b) by (by apply list_lookup_insert_eq). by rewrite take_insert_ge.
Qed.

(** The counters never overflow below 2^61 bytes. *)
Lemma count_byte_spec c n :
  Length_Low c = (8 * n) mod 2 ^ 32 -> Length_High c = 8 * n / 2 ^ 32 -> 0 <= n -> n + 1 < 2 ^ 61 ->
  count_byte c = mk_sha1 (Message_Digest c) ((8 * (n + 1)) mod 2 ^ 32) (8 * (n + 1) / 2 ^ 32)
                   (Message_Block c) (Message_Block_Index c) (Computed c) (Corrupted c).
Proof.
  intros Hl Hh Hn Hb. unfold count_byte. unfold wrap_u. rewrite Hl, Hh.
  pose proof (Z.div_mod (8 * n) (2 ^ 32) ltac:(lia)) as Hdm.
  pose proof (Z.mod_pos_bound (8 * n) (2 ^ 32) ltac:(lia)) as Hmb.
  pose proof (Z.div_mod (8 * (n + 1)) (2 ^ 32) ltac:(lia)) as Hdm'.
  pose proof (Z.mod_pos_bound (8 * (n + 1)) (2 ^ 32) ltac:(lia)) as Hmb'.
  rewrite Z.add_mod_idemp_l by lia. replace (8 * n + 8) with (8 * (n + 1)) by lia.
  destruct (Z.eqb_spec ((8 * (n + 1)) mod 2 ^ 32) 0) as [E|E].
  - assert (8 * n / 2 ^ 32 + 1 = 8 * (n + 1) / 2 ^ 32) as -> by lia.
    rewrite (Z.mod_small (8 * (n + 1) / 2 ^ 32)) by lia.
    rewrite (proj2 (Z.eqb_neq _ 0)) by lia. done.
  - assert (8 * n / 2 ^ 32 = 8 * (n + 1) / 2 ^ 32) as -> by lia. done.
Qed.

Lemma sha1_input_byte c m b :
  sha1_inv c m -> Z.of_nat (length m) + 1 < 2 ^ 61 ->
  let c1 := count_byte (put_block b c) in
  sha1_inv (if (Message_Block_Index c1 =? 64)%nat then SHA1ProcessMessageBlock c1 else c1) (m ++ [b]).
Proof.
  intros [Ha Hb Hi Hl Hh [Hf1 Hf2]] Hlen. cbv zeta.
  rewrite (count_byte_spec _ (Z.of_nat (length m))) by (done || lia). cbn [put_block Message_Block_Index].
  assert (Z.of_nat (length (m ++ [b])) = Z.of_nat (length m) + 1) as Hlm by (rewrite length_app; cbn; lia).
  assert (take (S (Message_Block_Index c)) (<[Message_Block_Index c := b]> (Message_Block c)) =
          take (Message_Block_Index c) (Message_Block c) ++ [b]) as Ht by (apply take_insert_next; lia).
  destruct (Nat.eqb_spec (S (Message_Block_Index c)) 64) as [E|E]; split;
    cbn [Message_Digest Message_Block Message_Block_Index Length_Low Length_High Computed Corrupted
         SHA1ProcessMessageBlock put_block]; rewrite ?Hlm, ?length_insert; try done.
  - rewrite absorb_app, Ha. cbn [fst snd]. rewrite <-Ht, E.
    rewrite <-(app_nil_r (take 64 _)), absorb_block by (rewrite length_take, length_insert; lia).
    rewrite absorb_small by (cbn; lia). rewrite take_ge by (rewrite length_insert; lia). done.
  - lia.
  - rewrite absorb_app, Ha. cbn [fst snd]. rewrite <-Ht. apply absorb_small. rewrite length_take. lia.
  - lia.
Qed.

Lemma input_loop_inv d : forall c m,
  sha1_inv c m -> Z.of_nat (length m + length d) < 2 ^ 61 -> sha1_inv (input_loop d c) (m ++ d).
Proof.
  induction d as [|b d IH]; intros c m Hc Hlen; [by rewrite app_nil_r|]. cbn [input_loop length] in *.
  destruct (si_flags _ _ Hc) as [_ ->]. cbv zeta.
  replace (m ++ b :: d) with ((m ++ [b]) ++ d) by (by rewrite <-app_assoc).
  apply IH; [apply sha1_input_byte; [done|lia]|rewrite length_app; cbn; lia].
Qed.

Lemma SHA1Input_inv c m d :
  sha1_inv c m -> Z.of_nat (length m + length d) < 2 ^ 61 -> sha1_inv (SHA1Input c d) (m ++ d).
Proof.
  intros Hc Hlen. unfold SHA1Input. destruct (si_flags _ _ Hc) as [-> ->].
  destruct d; [by rewrite app_nil_r|by apply input_loop_inv].
Qed.

(** Zeros up to an index. *)
Lemma zero_to_spec fuel n c :
  length (Message_Block c) = 64%nat -> (Message_Block_Index c <= n <= 64)%nat -> (n - Message_Block_Index c <= fuel)%nat ->
  exists block, length block = 64%nat /\
    take n block = take (Message_Block_Index c) (Message_Block c) ++ replicate (n - Message_Block_Index c) x00 /\
    zero_to fuel n c = mk_sha1 (Message_Digest c) (Length_Low c) (Length_High c) block n (Computed c) (Corrupted c).
Proof.
  revert c. induction fuel as [|f IH]; intros c Hb Hn Hf.
  - exists (Message_Block c). assert (n = Message_Block_Index c) as -> by lia.
    rewrite Nat.sub_diag. cbn. rewrite app_nil_r. by destruct c.
  - cbn [zero_to]. destruct (Nat.ltb_spec (Message_Block_Index c) n).
    + destruct (IH (put_block x00 c)) as (block & H1 & H2 & H3); [by cbn; rewrite length_insert|cbn; lia|cbn; lia|].
      exists block. split; [done|]. split; [|exact H3]. rewrite H2. cbn [put_block Message_Block_Index Message_Block].
      rewrite take_insert_next, <-app_assoc by lia. f_equal.
      by replace (n - Message_Block_Index c)%nat with (S (n - S (Message_Block_Index c))) by lia.
    + exists (Message_Block c). assert (n = Message_Block_Index c) as -> by lia.
      rewrite Nat.sub_diag. cbn. rewrite app_nil_r. by destruct c.
Qed.

Lemma overwrite_end (block p : bytes) : length block = 64%nat -> length p = 8%nat -> overwrite block 56 p = take 56 block ++ p.
Proof. intros Hb Hp. unfold overwrite. rewrite Hp, drop_ge by (cbn; lia). by rewrite app_nil_r. Qed.

Lemma be_bytes_8 z : 0 <= z < 2 ^ 64 -> be_bytes 4 (z / 2 ^ 32) ++ be_bytes 4 (z mod 2 ^ 32) = be_bytes 8 z.
Proof.
  intros Hz. unfold be_bytes. rewrite <-reverse_app. f_equal.
  change 8%nat with (4 + 4)%nat. rewrite (le_bytes_app 4 4 z). change (256 ^ Z.of_nat 4) with (2 ^ 32).
  f_equal. exact (le_bytes_mod 4 z).
Qed.

Lemma pad_mod len : (0 <= (55 - Z.of_nat len) mod 64 < 64) /\
  Z.of_nat (len mod 64) + (55 - Z.of_nat len) mod 64 = (if (len mod 64 <=? 55)%nat then 55 else 119).
Proof.
  pose proof (Z.mod_pos_bound (55 - Z.of_nat len) 64 ltac:(lia)) as Hb. split; [done|].
  rewrite Nat2Z.inj_mod. pose proof (Z.mod_pos_bound (Z.of_nat len) 64 ltac:(lia)).
  pose proof (Z.div_mod (55 - Z.of_nat len) 64 ltac:(lia)). pose proof (Z.div_mod (Z.of_nat len) 64 ltac:(lia)).
  destruct (Nat.leb_spec (len mod 64) 55) as [H2|H2]; apply Nat2Z.inj_le in H2 || apply Nat2Z.inj_lt in H2;
    rewrite Nat2Z.inj_mod in H2; change (Z.of_nat 64) with 64 in *; change (Z.of_nat 55) with 55 in *; lia.
Qed.

Lemma sha1_pad c m :
  sha1_inv c m -> Z.of_nat (length m) < 2 ^ 61 -> Message_Digest (SHA1PadMessage c) = sha1_spec m.
Proof.
  intros Hc Hlen. pose proof (si_index_mod c m Hc) as Hidx. destruct Hc as [Ha Hb Hi Hl Hh _].
  assert (be_bytes 4 (Length_High c) ++ be_bytes 4 (Length_Low c) = be_bytes 8 (8 * Z.of_nat (length m))) as Hlb.
  { rewrite Hl, Hh. apply be_bytes_8. lia. }
  destruct (pad_mod (length m)) as [Hp1 Hp2]. rewrite <-Hidx in Hp2.
  unfold sha1_spec, padding. rewrite absorb_app, Ha. cbn [fst snd].
  set (k := Z.to_nat ((55 - Z.of_nat (length m)) mod 64)) in *.
  set (lb := be_bytes 8 (8 * Z.of_nat (length m))) in *.
  assert (length lb = 8%nat) as Hlb8 by apply length_be_bytes.
  unfold SHA1PadMessage. destruct (Nat.ltb_spec 55 (Message_Block_Index c)) as [Hbig|Hsmall].
  - rewrite (proj2 (Nat.leb_gt _ _)) in Hp2 by lia.
    destruct (zero_to_spec 64 64 (put_block x80 c)) as (b1 & H1 & H2 & H3); [by cbn; rewrite length_insert|cbn; lia|cbn; lia|].
    rewrite H3. match goal with |- context [zero_to 64 56 ?c2] =>
      destruct (zero_to_spec 64 56 c2) as (b2 & K1 & K2 & K3); [done|cbn; lia|cbn; lia|] end.
    rewrite K3. clear K3 H3.
    cbn [SHA1ProcessMessageBlock Message_Digest Length_Low Length_High Message_Block Message_Block_Index put_block] in *.
    rewrite Hlb, overwrite_end, K2 by done.
    rewrite take_insert_next in H2 by lia. rewrite take_ge in H2 by lia. rewrite H2. cbn [take app].
    replace k with ((64 - S (Message_Block_Index c)) + 56)%nat by lia. rewrite replicate_add.
    replace (take (Message_Block_Index c) (Message_Block c) ++ x80 :: (replicate (64 - S (Message_Block_Index c)) x00 ++ replicate 56 x00) ++ lb)
      with (((take (Message_Block_Index c) (Message_Block c) ++ [x80]) ++ replicate (64 - S (Message_Block_Index c)) x00) ++ (replicate 56 x00 ++ lb) ++ [])
      by (rewrite app_nil_r, <-!app_assoc; done).
    rewrite absorb_block by (rewrite !length_app, length_take, length_replicate; cbn; lia).
    rewrite absorb_block by (rewrite length_app, length_replicate; lia). rewrite absorb_small by (cbn; lia). done.
  - rewrite (proj2 (Nat.leb_le _ _)) in Hp2 by lia.
    destruct (zero_to_spec 64 56 (put_block x80 c)) as (b1 & H1 & H2 & H3); [by cbn; rewrite length_insert|cbn; lia|cbn; lia|].
    rewrite H3. cbn [SHA1ProcessMessageBlock Message_Digest Length_Low Length_High Message_Block Message_Block_Index put_block] in *.
    rewrite Hlb, overwrite_end, H2 by done. rewrite take_insert_next by lia.
    replace k with (56 - S (Message_Block_Index c))%nat by lia.
    replace (take (Message_Block_Index c) (Message_Block c) ++ x80 :: replicate (56 - S (Message_Block_Index c)) x00 ++ lb)
      with ((((take (Message_Block_Index c) (Message_Block c) ++ [x80]) ++ replicate (56 - S (Message_Block_Index c)) x00) ++ lb) ++ [])
      by (rewrite app_nil_r, <-!app_assoc; done).
    rewrite absorb_block by (rewrite !length_app, length_take, length_replicate; cbn; lia).
    rewrite absorb_small by (cbn; lia). done.
Qed.

(** ** MD5 implements it *)

Record md5_inv (p : md5_state_t) (m : bytes) : Prop := {
  mi_absorb : absorb md5_compress (abcd md5_init) m = (abcd p, take (length m mod 64) (md5_buf p));
  mi_buf : length (md5_buf p) = 64%nat;
  mi_count0 : count0 p = (8 * Z.of_nat (length m)) mod 2 ^ 32;
  mi_count1 : count1 p = (8 * Z.of_nat (length m) / 2 ^ 32) mod 2 ^ 32 }.

Lemma md5_init_inv : md5_inv md5_init [].
Proof. by split. Qed.

Lemma process_blocks_absorb fuel p data :
  (length data <= fuel)%nat ->
  process_blocks fuel p data =
  (mk_md5 (count0 p) (count1 p) (absorb md5_compress (abcd p) data).1 (md5_buf p),
   (absorb md5_compress (abcd p) data).2).
Proof.
  revert p data. induction fuel as [|f IH]; intros p data Hf.
  - destruct data; [|cbn in Hf; lia]. by destruct p.
  - cbn [process_blocks]. destruct (Nat.leb_spec 64 (length data)) as [H|H].
    + rewrite IH by (rewrite length_drop; lia). cbn [md5_process count0 count1 abcd md5_buf].
      assert (absorb md5_compress (abcd p) data =
              absorb md5_compress (md5_compress (abcd p) (take 64 data)) (drop 64 data)) as ->; [|done].
      rewrite <-(take_drop 64 data) at 1. apply absorb_block. rewrite length_take. lia.
    + rewrite absorb_small by done. by destruct p.
Qed.

Lemma overwrite_middle (buf p : bytes) k :
  (k + length p <= length buf)%nat ->
  length (overwrite buf k p) = length buf /\ take (k + length p) (overwrite buf k p) = take k buf ++ p.
Proof.
  intros H. unfold overwrite. split.
  - rewrite !length_app, length_take, length_drop. lia.
  - rewrite app_assoc. apply take_app_length'. rewrite length_app, length_take. lia.
Qed.

(** The rest of an append, from a block boundary on. *)
Lemma md5_tail_spec p data :
  length (md5_buf p) = 64%nat ->
  md5_tail p data =
  mk_md5 (count0 p) (count1 p) (absorb md5_compress (abcd p) data).1
    (overwrite (md5_buf p) 0 (absorb md5_compress (abcd p) data).2) /\
  length (overwrite (md5_buf p) 0 (absorb md5_compress (abcd p) data).2) = 64%nat /\
  take (length data mod 64) (overwrite (md5_buf p) 0 (absorb md5_compress (abcd p) data).2) =
  (absorb md5_compress (abcd p) data).2.
Proof.
  intros Hb. unfold md5_tail. rewrite process_blocks_absorb by done. cbn [count0 count1 abcd md5_buf].
  pose proof (absorb_rest md5_compress (abcd p) data) as Hr.
  assert (length data mod 64 < 64)%nat by (apply Nat.mod_upper_bound; lia).
  destruct (overwrite_middle (md5_buf p) (absorb md5_compress (abcd p) data).2 0) as [Hl Ht]; [rewrite Hr; lia|].
  rewrite Hl, <-Hr. split; [done|]. split; [done|]. exact Ht.
Qed.

Lemma md5_count m n :
  0 <= n -> 0 <= m ->
  let c0 := ((8 * m) mod 2 ^ 32 + (8 * n) mod 2 ^ 32) mod 2 ^ 32 in
  let c1 := ((8 * m / 2 ^ 32) mod 2 ^ 32 + n / 2 ^ 29) mod 2 ^ 32 in
  c0 = (8 * (m + n)) mod 2 ^ 32 /\
  (if c0 <? (8 * n) mod 2 ^ 32 then (c1 + 1) mod 2 ^ 32 else c1) = (8 * (m + n) / 2 ^ 32) mod 2 ^ 32.
Proof.
  intros Hn Hm. cbv zeta. rewrite <-Zplus_mod. replace (8 * m + 8 * n) with (8 * (m + n)) by lia.
  split; [done|].
  assert (n / 2 ^ 29 = 8 * n / 2 ^ 32) as ->.
  { change (2 ^ 32) with (8 * 2 ^ 29). by rewrite Z.div_mul_cancel_l by lia. }
  pose proof (Z.div_mod (8 * m) (2 ^ 32) ltac:(lia)). pose proof (Z.mod_pos_bound (8 * m) (2 ^ 32) ltac:(lia)).
  pose proof (Z.div_mod (8 * n) (2 ^ 32) ltac:(lia)). pose proof (Z.mod_pos_bound (8 * n) (2 ^ 32) ltac:(lia)).
  pose proof (Z.div_mod (8 * (m + n)) (2 ^ 32) ltac:(lia)).
  pose proof (Z.mod_pos_bound (8 * (m + n)) (2 ^ 32) ltac:(lia)).
  destruct (Z.ltb_spec ((8 * (m + n)) mod 2 ^ 32) ((8 * n) mod 2 ^ 32)).
  - rewrite Zplus_mod_idemp_l, <-Z.add_assoc, Zplus_mod_idemp_l. f_equal. lia.
  - rewrite Zplus_mod_idemp_l. f_equal. lia.
Qed.

Lemma md5_offset m : Z.to_nat (Z.land (Z.shiftr ((8 * Z.of_nat m) mod 2 ^ 32) 3) 63) = (m mod 64)%nat.
Proof.
  change 63 with (Z.ones 6). rewrite Z.land_ones, Z.shiftr_div_pow2 by lia. change (2 ^ 3) with 8. change (2 ^ 6) with 64.
  rewrite <-(Nat2Z.id (m mod 64)), Nat2Z.inj_mod. f_equal. change (Z.of_nat 64) with 64.
  change (2 ^ 32) with (8 * 2 ^ 29). rewrite Z.mul_mod_distr_l, (Z.mul_comm 8 (_ mod _)), Z.div_mul by lia.
  change (2 ^ 29) with (64 * 2 ^ 23). apply Z.mod_mod_divide. by exists (2 ^ 23).
Qed.

#[local] Opaque md5_compress absorb overwrite.

Lemma md5_append_inv p m d :
  md5_inv p m -> Z.of_nat (length d) < 2 ^ 31 -> md5_inv (md5_append p d (Z.of_nat (length d))) (m ++ d).
Proof.
  intros Hp Hd. destruct Hp as [Ha Hb Hc0 Hc1]. unfold md5_append.
  destruct (Z.leb_spec (Z.of_nat (length d)) 0) as [Hz|Hz].
  { destruct d; [|cbn in Hz; lia]. rewrite app_nil_r. done. }
  rewrite Hc0, Hc1, md5_offset, Nat2Z.id, firstn_all, Z.shiftl_mul_pow2, Z.shiftr_div_pow2 by lia. unfold wrap_u.
  change (2 ^ 3) with 8. rewrite (Z.mul_comm (Z.of_nat (length d)) 8).
  destruct (md5_count (Z.of_nat (length m)) (Z.of_nat (length d)) ltac:(lia) ltac:(lia)) as [E0 E1]. cbv zeta in E0, E1.
  rewrite E1, E0. rewrite <-Nat2Z.inj_add, <-length_app.
  assert (length m mod 64 < 64)%nat as Hlt by (apply Nat.mod_upper_bound; lia).
  assert (length (m ++ d) mod 64 = (length m mod 64 + length d) mod 64)%nat as Hmod.
  { rewrite length_app. by rewrite Nat.Div0.add_mod_idemp_l. }
  destruct (Nat.eqb_spec (length m mod 64) 0) as [Eoff|Eoff].
  - match goal with |- md5_inv (md5_tail ?q d) _ => destruct (md5_tail_spec q d Hb) as (-> & H2 & H3) end.
    cbn [count0 count1 abcd md5_buf] in *.
    split; cbn [count0 count1 abcd md5_buf]; [|done..].
    rewrite absorb_app, Ha, Hmod, Eoff. cbn [fst snd take app Nat.add]. rewrite H3. apply surjective_pairing.
  - destruct (Nat.ltb_spec 64 (length m mod 64 + length d)) as [Hbig|Hsmall].
    + rewrite (proj2 (Nat.ltb_ge _ _)) by lia.
      assert (length (take (64 - length m mod 64) d) = (64 - length m mod 64)%nat) as Hcl by (rewrite length_take; lia).
      destruct (overwrite_middle (md5_buf p) (take (64 - length m mod 64) d) (length m mod 64)) as [Hol Hot];
        [rewrite Hcl; lia|].
      match goal with |- md5_inv (md5_tail ?q ?d2) _ => destruct (md5_tail_spec q d2 (eq_trans Hol Hb)) as (-> & H2 & H3) end.
      cbn [md5_process count0 count1 abcd md5_buf] in *.
      assert (absorb md5_compress (abcd md5_init) (m ++ d) =
              absorb md5_compress (md5_compress (abcd p) (overwrite (md5_buf p) (length m mod 64) (take (64 - length m mod 64) d)))
                (drop (64 - length m mod 64) d)) as Habs.
      { rewrite absorb_app, Ha. cbn [fst snd]. rewrite <-(take_drop (64 - length m mod 64) d) at 1.
        rewrite app_assoc, <-Hot, Hcl. replace (length m mod 64 + (64 - length m mod 64))%nat with 64%nat by lia.
        rewrite absorb_block by (rewrite length_take; lia). by rewrite (take_ge _ 64) by lia. }
      split; cbn [count0 count1 abcd md5_buf]; [|done..].
      rewrite Habs. replace (length (m ++ d) mod 64)%nat with (length (drop (64 - length m mod 64) d) mod 64)%nat.
      * rewrite H3. apply surjective_pairing.
      * rewrite length_drop, Hmod. rewrite <-(Nat.Div0.mod_add (length d - _) 1 64). f_equal. lia.
    + destruct (overwrite_middle (md5_buf p) d (length m mod 64)) as [Hol Hot]; [lia|].
      rewrite (firstn_all d). destruct (Nat.ltb_spec (length m mod 64 + length d) 64) as [Hlt2|Hge].
      * split; cbn [count0 count1 abcd md5_buf]; [|lia|done..].
        rewrite absorb_app, Ha, Hmod, (Nat.mod_small (_ + _)) by lia. cbn [fst snd]. rewrite Hot.
        apply absorb_small. rewrite length_app, length_take. lia.
      * assert (length m mod 64 + length d = 64)%nat as E64 by lia. rewrite skipn_all.
        match goal with |- md5_inv (md5_tail ?q ?d2) _ => destruct (md5_tail_spec q d2 (eq_trans Hol Hb)) as (-> & H2 & H3) end.
        cbn [md5_process count0 count1 abcd md5_buf] in *. rewrite absorb_small in * by (cbn; lia). cbn [fst snd] in *.
        split; cbn [count0 count1 abcd md5_buf]; [|done..].
        rewrite absorb_app, Ha, Hmod, E64. cbn [fst snd]. rewrite <-Hot, E64.
        rewrite <-(app_nil_r (take 64 _)), absorb_block by (rewrite length_take; lia).
        rewrite absorb_small by (cbn; lia). by rewrite (take_ge _ 64) by lia.
Qed.

Lemma le_bytes_8 z : le_bytes 4 (z mod 2 ^ 32) ++ le_bytes 4 ((z / 2 ^ 32) mod 2 ^ 32) = le_bytes 8 z.
Proof.
  change 8%nat with (4 + 4)%nat. rewrite (le_bytes_app 4 4 z). change (256 ^ Z.of_nat 4) with (2 ^ 32).
  f_equal; [exact (le_bytes_mod 4 z)|exact (le_bytes_mod 4 (z / 2 ^ 32))].
Qed.

Lemma md5_finish_spec p m : md5_inv p m -> md5_finish p = md5_spec m.
Proof.
  intros Hp. pose proof Hp as [Ha Hb Hc0 Hc1]. unfold md5_finish, md5_spec, padding.
  rewrite Hc0, Hc1, le_bytes_8. set (lb := le_bytes 8 (8 * Z.of_nat (length m))).
  assert (length lb = 8%nat) as Hlb by apply length_le_bytes.
  set (k := Z.to_nat ((55 - Z.of_nat (length m)) mod 64)). destruct (pad_mod (length m)) as [Hk1 Hk2].
  assert (Z.land (55 - Z.shiftr ((8 * Z.of_nat (length m)) mod 2 ^ 32) 3) 63 + 1 = Z.of_nat (S k)) as ->.
  { change 63 with (Z.ones 6). rewrite Z.land_ones, Z.shiftr_div_pow2 by lia. change (2 ^ 3) with 8. change (2 ^ 6) with 64.
    change (2 ^ 32) with (8 * 2 ^ 29). rewrite Z.mul_mod_distr_l, (Z.mul_comm 8 (_ mod _)), Z.div_mul by lia.
    unfold k. rewrite Nat2Z.inj_succ, Z2Nat.id by lia. rewrite <-Z.add_1_r. f_equal.
    rewrite Zminus_mod, (Zminus_mod 55 (Z.of_nat (length m))). do 2 f_equal.
    change (2 ^ 29) with (64 * 2 ^ 23). apply Z.mod_mod_divide. by exists (2 ^ 23). }
  assert (md5_append p (x80 :: replicate 63 x00) (Z.of_nat (S k)) =
          md5_append p (x80 :: replicate k x00) (Z.of_nat (length (x80 :: replicate k x00)))) as ->.
  { cbn [length]. rewrite length_replicate. unfold md5_append. rewrite (proj2 (Z.leb_gt _ _)) by lia.
    rewrite Nat2Z.id. cbn [take]. rewrite !take_replicate.
    replace (k `min` 63)%nat with k by lia. replace (k `min` k)%nat with k by lia. done. }
  apply (md5_append_inv p m (x80 :: replicate k x00)) in Hp; [|cbn; rewrite length_replicate; lia].
  replace 8 with (Z.of_nat (length lb)) by (rewrite Hlb; done).
  apply (md5_append_inv _ _ lb) in Hp; [|lia]. destruct Hp as [Habs _ _ _].
  rewrite <-app_assoc in Habs. cbn [app] in Habs. rewrite Habs. done.
Qed.

(** The digest of a message given at once. *)
Lemma sha1_once m :
  Z.of_nat (length m) < 2 ^ 61 ->
  exists c, SHA1Result (SHA1Input SHA1Reset m) = Some c /\ Message_Digest c = sha1_spec m.
Proof.
  intros Hlen. pose proof (SHA1Input_inv _ _ m sha1_reset_inv Hlen) as Hc. cbn [app] in Hc.
  unfold SHA1Result. destruct (si_flags _ _ Hc) as [-> ->]. eexists. split; [done|]. by apply sha1_pad.
Qed.

Lemma length_sha1_spec m : length (sha1_spec m) = 5%nat.
Proof. unfold sha1_spec. by apply (absorb_invariant _ (fun s => length s = 5%nat)). Qed.

(** ** Properties *)

(** C35: the SHA-1 of a message given in any pieces (below 2^61 bytes in all) is the
    fold of the compression function over the blocks of the padded message: the
    block buffer, the 64-bit bit counter kept in two words and the padding, which
    may need a block of its own, are those of the standard. *)
Theorem sha1_refines pieces :
  Z.of_nat (length (concat pieces)) < 2 ^ 61 ->
  exists c, SHA1Result (fold_left SHA1Input pieces SHA1Reset) = Some c /\
    Message_Digest c = sha1_spec (concat pieces).
Proof.
  intros Hlen.
  assert (forall ps c m, sha1_inv c m -> Z.of_nat (length m + length (concat ps)) < 2 ^ 61 ->
    sha1_inv (fold_left SHA1Input ps c) (m ++ concat ps)) as Hfold.
  { induction ps as [|q ps IH]; intros c m Hc Hl; cbn [concat fold_left] in *; [by rewrite app_nil_r|].
    rewrite length_app in Hl. rewrite app_assoc. apply IH; [apply SHA1Input_inv; [done|lia]|rewrite length_app; lia]. }
  specialize (Hfold pieces SHA1Reset [] sha1_reset_inv Hlen). cbn [app] in Hfold.
  unfold SHA1Result. destruct (si_flags _ _ Hfold) as [-> ->]. eexists. split; [done|].
  cbn [Message_Digest]. by apply sha1_pad.
Qed.

Lemma sha1_refines_witness :
  exists c, SHA1Result (fold_left SHA1Input [lit "ab"; lit "c"] SHA1Reset) = Some c /\
    Message_Digest c = sha1_spec (lit "abc").
Proof. apply (sha1_refines [lit "ab"; lit "c"]). reflexivity. Defined.



End Digest.
