(* ===== verification/Uri.v ===== *)
(** * The request line as a command: the parsing of src/cmd.c

    [cmd_run] turns [/CMD/arg0/arg1.ext?query] into an argument vector. This file
    holds the pieces of it that only compute: counting the parameters, choosing
    the format from the extension, finding the database number and the command
    name, splitting and decoding the arguments, and the tests on the command name.
    [Cmd] composes them with the access control, the pool and Redis.

    A [const char *] into a buffer is the buffer and an offset; a read outside of
    the buffer, or a write outside of [argv], is [None]. *)
From S2P Require Import Prelude Types.

Local Open Scope Z_scope.

Module Uri.

(** ** The code *)

Definition hex_value (c : byte) : Z := default 0 (digit_val c).

(** The loop of [decode_uri] at [uri + i], with [n = length - i]. The two
    characters after a percent sign are read whether or not they are before
    [length]. *)
Fixpoint decode_loop (n : nat) (uri : bytes) (in_query : bool) : option bytes :=
  match n, uri with
  | O, _ => Some []
  | S _, [] => None
  | S n', c :: rest =>
      if Byte.eqb c x3f then cons c <$> decode_loop n' rest true
      else if Byte.eqb c x2b && in_query then cons x20 <$> decode_loop n' rest in_query
      else if Byte.eqb c x25 then
        match rest with
        | [] => None
        | h :: rest1 =>
            if isxdigit h then
              match rest1 with
              | [] => None
              | l :: rest2 =>
                  if isxdigit l
                  then cons (byte_of_Z (hex_value h * 16 + hex_value l)) <$>
                         decode_loop (n' - 2) rest2 in_query
                  else cons c <$> decode_loop n' rest in_query
              end
            else cons c <$> decode_loop n' rest in_query
        end
      else cons c <$> decode_loop n' rest in_query
  end.

Definition decode_uri (uri : bytes) (length : nat) (always_decode_plus : bool) : option bytes :=
  decode_loop length uri always_decode_plus.

(** The counting loop of [cmd_run]: [p] is [None] once [memchr] has failed. A turn
    moves [p] forward, so [uri_len] turns are enough. *)
Fixpoint count_loop (fuel : nat) (uri : bytes) (uri_len : nat) (p : option nat) : nat :=
  match fuel, p with
  | S f, Some p =>
      if (p <? uri_len)%nat
      then S (count_loop f uri uri_len
                (Nat.add (p + 1) <$> memchr x2f (uri_len - (p + 1)) (drop (p + 1) uri)))
      else O
  | _, _ => O
  end.

Definition count_params (uri : bytes) (uri_len : nat) : nat :=
  count_loop (S uri_len) uri uri_len (Some O).

(** [struct reply_format funs[]] of [cmd_select_format]. *)
Definition funs : list (bytes * formatting_fun * bytes) :=
  [(lit "json", json_reply, lit "application/json");
   (lit "raw", raw_reply, lit "binary/octet-stream");
   (lit "msg", msgpack_reply, lit "application/x-msgpack");
   (lit "bin", custom_type_reply, lit "binary/octet-stream");
   (lit "txt", custom_type_reply, lit "text/plain");
   (lit "html", custom_type_reply, lit "text/html");
   (lit "xhtml", custom_type_reply, lit "application/xhtml+xml");
   (lit "xml", custom_type_reply, lit "text/xml");
   (lit "png", custom_type_reply, lit "image/png");
   (lit "jpg", custom_type_reply, lit "image/jpeg");
   (lit "jpeg", custom_type_reply, lit "image/jpeg");
   (lit "js", json_reply, lit "application/javascript");
   (lit "css", custom_type_reply, lit "text/css")].

(** The search for the extension: [ext] walks down from [uri + uri_len - 1] to
    [uri] or a slash; the result is the pointer behind the dot. *)
Fixpoint find_ext (fuel : nat) (buf : bytes) (uri ext : Z) : option (option Z) :=
  match fuel with
  | O => None
  | S f =>
      if ext =? uri then Some None
      else if ext <? 0 then None
      else
        c ← buf !! Z.to_nat ext;
        if Byte.eqb c x2f then Some None
        else if Byte.eqb c x2e then Some (Some (ext + 1))
        else find_ext f buf uri (ext - 1)
  end.

(** [cmd_select_format]: the remaining length, the formatting function and the
    command with its content type. *)
Definition cmd_select_format (client_type : option bytes) (c : cmd) (buf : bytes)
  (uri uri_len : nat) : option (nat * formatting_fun * cmd) :=
  ext ← find_ext (S (length buf)) buf (Z.of_nat uri) (Z.of_nat uri + Z.of_nat uri_len - 1);
  let ext_len :=
    match ext with
    | Some e => Z.of_nat uri + Z.of_nat uri_len - e
    | None => -1
    end in
  if ext_len =? 0 then Some (uri_len, json_reply, c)
  else
    let text := take (Z.to_nat ext_len) (drop (Z.to_nat (default 0 ext)) buf) in
    let '(found, f, c) :=
      fold_left (fun '(found, f, c) '(s, fn, ct) =>
        if (ext_len =? Z.of_nat (length s)) && strncmp_eq (Z.to_nat ext_len) text s
        then (true, fn, set_cmd_mime_free false (set_cmd_mime (Some ct) c))
        else (found, f, c)) funs (false, json_reply, c) in
    let f := match client_type with Some _ => custom_type_reply | None => f end in
    Some (if (found : bool) then Z.to_nat (Z.of_nat uri_len - ext_len - 1) else uri_len, f, c).

(** The digits before the first slash; [None] is [has_db = 0]. *)
Fixpoint db_loop (l : bytes) (db_num : Z) : option Z :=
  match l with
  | [] => Some db_num
  | c :: l' =>
      if isdigit c then db_loop l' (i32 (db_num * 10 + (Z_of_byte c - 48))) else None
  end.

(** Where the command name is: [slash], the database number if the first segment
    is one, the offset and the length of the name. *)
Record name_pos := mk_pos {
  np_slash : option nat;
  np_db : option Z;
  np_name : nat;
  np_len : nat }.

Definition find_name (uri : bytes) (uri_len : nat) : name_pos :=
  let slash := memchr x2f uri_len uri in
  match slash with
  | Some s =>
      match db_loop (take s uri) 0 with
      | Some db_num =>
          let cmd_name := (s + 1)%nat in
          let cmd_len :=
            match memchr x2f (uri_len - s) (drop cmd_name uri) with
            | Some next => next
            | None => (uri_len - (s + 1))%nat
            end in
          mk_pos slash (Some db_num) cmd_name cmd_len
      | None => mk_pos slash None O s
      end
  | None => mk_pos slash None O uri_len
  end.

(** [memcpy] from [uri + off]. *)
Definition slice (uri : bytes) (off len : nat) : option bytes :=
  if (off + len <=? length uri)%nat then Some (take len (drop off uri)) else None.

(** [cmd->argv[i] = v]. *)
Definition put_arg (argv : list bytes) (i : nat) (v : bytes) : option (list bytes) :=
  if (i <? length argv)%nat then Some (<[i:=v]> argv) else None.

(** The loop over the arguments, at [uri + p]. *)
Fixpoint args_loop (fuel : nat) (uri : bytes) (uri_len p : nat) (argv : list bytes)
  (cur_param : nat) : option (list bytes * nat) :=
  match fuel with
  | O => None
  | S f =>
      if (p <? uri_len)%nat then
        let '(arg_len, p') :=
          match memchr x2f (uri_len - p) (drop p uri) with
          | Some next => (next, p + next + 1)%nat
          | None => (uri_len - p, uri_len)%nat
          end in
        arg ← decode_uri (drop p uri) arg_len true;
        argv ← put_arg argv cur_param arg;
        args_loop f uri uri_len p' argv (S cur_param)
      else Some (argv, cur_param)
  end.

(** The arguments and the body of a [PUT]. *)
Definition record_args (uri : bytes) (uri_len p : nat) (argv : list bytes) (body : option bytes)
  : option (list bytes) :=
  '(argv, cur_param) ← args_loop (S uri_len) uri uri_len p argv 1;
  match body with
  | Some b => put_arg argv cur_param b
  | None => Some argv
  end.

Definition cmd_is_subscribe_args (c : cmd) : bool :=
  let a0 := default [] (head (cmd_argv c)) in
  (2 <=? cmd_count c) &&
  (((length a0 =? 9)%nat && strncasecmp_eq 9 a0 (lit "subscribe")) ||
   ((length a0 =? 10)%nat && strncasecmp_eq 10 a0 (lit "psubscribe"))).

Definition cmd_is_subscribe (c : cmd) : bool :=
  match cmd_pub_sub_client c with
  | Some _ => true
  | None => cmd_is_subscribe_args c
  end.

Definition cmd_is_unsubscribe_args (c : cmd) : bool :=
  let a0 := default [] (head (cmd_argv c)) in
  (2 <=? cmd_count c) &&
  (((length a0 =? 11)%nat && strncasecmp_eq 11 a0 (lit "unsubscribe")) ||
   ((length a0 =? 12)%nat && strncasecmp_eq 12 a0 (lit "punsubscribe"))).

(** ** Reference: segments and percent encoding *)

(** The segments between the slashes; a text without slash is one segment. *)
Fixpoint split_slash (l : bytes) : list bytes :=
  match l with
  | [] => [[]]
  | c :: l' =>
      if Byte.eqb c x2f then [] :: split_slash l'
      else match split_slash l' with
           | s :: ss => (c :: s) :: ss
           | [] => [[c]]
           end
  end.

Fixpoint join_slash (segs : list bytes) : bytes :=
  match segs with
  | [] => []
  | [s] => s
  | s :: ss => s ++ x2f :: join_slash ss
  end.

Fixpoint url_decode (l : bytes) : bytes :=
  match l with
  | [] => []
  | c :: r =>
      if Byte.eqb c x2b then x20 :: url_decode r
      else if Byte.eqb c x25 then
        match r with
        | h :: lo :: r2 =>
            if isxdigit h && isxdigit lo
            then byte_of_Z (hex_value h * 16 + hex_value lo) :: url_decode r2
            else c :: url_decode r
        | _ => c :: url_decode r
        end
      else c :: url_decode r
  end.

(** Every byte but letters and digits is escaped. *)
Definition isalnum (c : byte) : bool :=
  let z := Z_of_byte c in
  ((48 <=? z) && (z <=? 57)) || ((65 <=? z) && (z <=? 90)) || ((97 <=? z) && (z <=? 122)).

Definition encode_byte (c : byte) : bytes :=
  if isalnum c then [c]
  else [x25; digit_char (Z_of_byte c / 16); digit_char (Z_of_byte c mod 16)].

Definition url_encode (l : bytes) : bytes := flat_map encode_byte l.

(** The segments an argument list is read from: a last empty one is not read. *)
Definition args_of (r : bytes) : list bytes :=
  let segs := split_slash r in
  if bool_decide (last segs = Some []) then removelast segs else segs.

(** ** Segments *)

Lemma split_slash_nonempty l : split_slash l <> [].
Proof. destruct l as [|c l]; simpl; [done|]. destruct (Byte.eqb c x2f); [done|]. by destruct (split_slash l). Qed.

Lemma split_slash_single s : x2f ∉ s -> split_slash s = [s].
Proof.
  induction s as [|c s IH]; simpl; intros H; [done|].
  rewrite (proj2 (byte_eqb_neq c x2f)) by set_solver. by rewrite IH by set_solver.
Qed.

Lemma split_slash_app s r : x2f ∉ s -> split_slash (s ++ x2f :: r) = s :: split_slash r.
Proof.
  induction s as [|c s IH]; simpl; intros H; [done|].
  rewrite (proj2 (byte_eqb_neq c x2f)) by set_solver. by rewrite IH by set_solver.
Qed.

Lemma split_join segs :
  segs <> [] -> Forall (fun s => x2f ∉ s) segs -> split_slash (join_slash segs) = segs.
Proof.
  intros Hne H. induction H as [|s ss Hs Hss IH]; [done|].
  destruct ss as [|s' ss]; [by apply split_slash_single|].
  cbn [join_slash] in *. rewrite split_slash_app by done. by rewrite IH.
Qed.

Lemma args_of_app s r : x2f ∉ s -> args_of (s ++ x2f :: r) = s :: args_of r.
Proof.
  intros Hs. unfold args_of. rewrite split_slash_app by done.
  pose proof (split_slash_nonempty r). destruct (split_slash r) as [|s' ss]; [done|].
  cbn [last removelast]. by destruct (bool_decide _).
Qed.

Lemma args_of_single s : x2f ∉ s -> s <> [] -> args_of s = [s].
Proof.
  intros Hs Hne. unfold args_of. rewrite split_slash_single by done.
  cbn [last]. by rewrite bool_decide_eq_false_2 by congruence.
Qed.

Lemma length_args_of r : (length (args_of r) <= length (split_slash r))%nat.
Proof.
  unfold args_of. destruct (bool_decide _); [|done].
  pose proof (split_slash_nonempty r).
  destruct (exists_last H) as (l & x & ->). rewrite removelast_last, length_app. simpl. lia.
Qed.

(** The segments are read one by one: a first one up to a slash, or the last. *)
Lemma segment_cases (r : bytes) :
  (x2f ∉ r) \/ exists s r', r = s ++ x2f :: r' /\ x2f ∉ s.
Proof.
  induction r as [|c r IH]; [left; set_solver|].
  destruct (Byte.byte_eq_dec c x2f) as [->|Hne].
  - right. exists [], r. split; [done|set_solver].
  - destruct IH as [IH|(s & r' & -> & Hs)]; [left; set_solver|].
    right. exists (c :: s), r'. split; [done|set_solver].
Qed.

Lemma memchr_absent c n l : c ∉ take n l -> memchr c n l = None.
Proof. apply memchr_None. Qed.

(** ** Decoding *)

Lemma isxdigit_percent : isxdigit x25 = false.
Proof. reflexivity. Qed.

(** On a slice that is not followed by a hexadecimal digit, [decode_uri] reads
    nothing that matters behind it. *)
Lemma decode_uri_slice n a t rest :
  (length a <= n)%nat -> isxdigit t = false ->
  decode_uri (a ++ t :: rest) (length a) true = Some (url_decode a).
Proof.
  intros Hn Ht. unfold decode_uri. revert a Hn.
  induction n as [|n IH]; intros [|c a] Hn; simpl in Hn; try done; try lia.
  cbn [length app decode_loop url_decode].
  assert (decode_loop (length a) (a ++ t :: rest) true = Some (url_decode a)) as E by (apply IH; lia).
  destruct (Byte.eqb c x3f) eqn:E1.
  { apply byte_eqb_eq in E1 as ->. rewrite E. done. }
  rewrite andb_true_r. destruct (Byte.eqb c x2b) eqn:E2; [by rewrite E|].
  destruct (Byte.eqb c x25) eqn:E3; [|by rewrite E].
  destruct a as [|h a]; cbn [app] in *; [by rewrite Ht, E|].
  destruct (isxdigit h) eqn:Eh; [|rewrite E; by destruct a].
  destruct a as [|lo a]; cbn [app] in *; [by rewrite Ht, E|].
  cbn [andb]. destruct (isxdigit lo) eqn:El; [|by rewrite E].
  change (length (h :: lo :: a) - 2)%nat with (length a - 0)%nat.
  rewrite Nat.sub_0_r, IH by (simpl in Hn; lia). done.
Qed.

Lemma length_url_decode n a : (length a <= n)%nat -> (length (url_decode a) <= length a)%nat.
Proof.
  revert a. induction n as [|n IH]; intros [|c a] Hn; simpl in Hn; try (simpl; lia).
  cbn [url_decode]. pose proof (IH a ltac:(lia)).
  destruct (Byte.eqb c x2b); [simpl; lia|]. destruct (Byte.eqb c x25); [|simpl; lia].
  destruct a as [|h [|lo a]]; try (simpl in *; lia).
  destruct (isxdigit h && isxdigit lo); [|simpl in *; lia].
  pose proof (IH a ltac:(simpl in *; lia)). simpl. lia.
Qed.

Lemma url_decode_encode_byte c l : url_decode (encode_byte c ++ l) = c :: url_decode l.
Proof.
  unfold encode_byte. destruct (isalnum c) eqn:E.
  - cbn [app url_decode].
    assert (Byte.eqb c x2b = false /\ Byte.eqb c x25 = false) as [-> ->]; [|done].
    split; apply byte_eqb_neq; intros ->; discriminate.
  - cbn [app url_decode]. change (Byte.eqb x25 x2b) with false. change (Byte.eqb x25 x25) with true.
    cbv iota. pose proof (Z_of_byte_range c).
    assert (forall d, 0 <= d < 16 -> isxdigit (digit_char d) = true) as Hx.
    { apply (forall_below 16 (fun d => isxdigit (digit_char d))). vm_compute. reflexivity. }
    assert (0 <= Z_of_byte c / 16 < 16) by (split; [apply Z.div_pos|apply Z.div_lt_upper_bound]; lia).
    assert (0 <= Z_of_byte c mod 16 < 16) by (apply Z.mod_pos_bound; lia).
    rewrite !Hx by done. cbn [andb]. f_equal. unfold hex_value.
    rewrite !digit_val_char by done. cbn [default]. apply byte_of_Z_eq.
    rewrite (Z.div_mod (Z_of_byte c) 16) at 3 by lia. simpl. lia.
Qed.

Lemma url_decode_encode l : url_decode (url_encode l) = l.
Proof.
  unfold url_encode. induction l as [|c l IH]; [done|].
  cbn [flat_map]. by rewrite url_decode_encode_byte, IH.
Qed.

Lemma isalnum_digit_char d : 0 <= d < 16 -> isalnum (digit_char d) = true.
Proof. revert d. apply forall_below. vm_compute. reflexivity. Qed.

Lemma url_encode_chars l c : c ∈ url_encode l -> isalnum c = true \/ c = x25.
Proof.
  unfold url_encode. rewrite list_elem_of_In, in_flat_map. intros (x & _ & Hc).
  unfold encode_byte in Hc. pose proof (Z_of_byte_range x). destruct (isalnum x) eqn:E.
  - destruct Hc as [->|[]]. auto.
  - destruct Hc as [<-|[<-|[<-|[]]]]; auto; left; apply isalnum_digit_char.
    + split; [apply Z.div_pos|apply Z.div_lt_upper_bound]; lia.
    + apply Z.mod_pos_bound. lia.
Qed.

Lemma url_encode_absent l c : isalnum c = false -> c <> x25 -> c ∉ url_encode l.
Proof. intros H1 H2 Hin. apply url_encode_chars in Hin as [?|?]; congruence. Qed.

(** ** Counting and recording the arguments *)

Lemma memchr_slash_slice s r post :
  x2f ∉ s -> memchr x2f (length (s ++ x2f :: r)) ((s ++ x2f :: r) ++ post) = Some (length s).
Proof. intros Hs. rewrite <-app_assoc. apply memchr_app_here; [done|len]. Qed.

Lemma memchr_none_slice s post : x2f ∉ s -> memchr x2f (length s) (s ++ post) = None.
Proof. intros Hs. apply memchr_absent. by rewrite take_app_length. Qed.

Lemma count_loop_split fuel pre c r post :
  (length r < fuel)%nat ->
  count_loop fuel (pre ++ c :: r ++ post) (length pre + S (length r)) (Some (length pre)) =
  length (split_slash r).
Proof.
  revert pre c r. induction fuel as [|f IH]; intros pre c r Hf; [lia|].
  cbn [count_loop]. rewrite (proj2 (Nat.ltb_lt _ _)) by lia.
  replace (drop (length pre + 1) (pre ++ c :: r ++ post)) with (r ++ post)
    by (by rewrite <-drop_drop, drop_app_length).
  replace (length pre + S (length r) - (length pre + 1))%nat with (length r) by lia.
  destruct (segment_cases r) as [Hr|(s & r' & -> & Hs)].
  - rewrite memchr_none_slice, split_slash_single by done. by destruct f.
  - rewrite memchr_slash_slice, split_slash_app by done. cbn [fmap option_fmap option_map length].
    f_equal. rewrite <-(IH (pre ++ c :: s) x2f r') by len.
    f_equal; [by rewrite <-!app_assoc|len|f_equal; len].
Qed.

Lemma count_params_split u post :
  count_params (u ++ post) (length u) =
  match u with [] => O | _ :: r => length (split_slash r) end.
Proof.
  unfold count_params. destruct u as [|c r]; [done|].
  apply (count_loop_split _ [] c r post). simpl. lia.
Qed.

(** The loop fills the slots behind the ones already set with the decoded
    segments; it never runs out of slots when there is one per segment. *)
Lemma args_loop_split fuel pre r t post set k :
  (length r < fuel)%nat -> isxdigit t = false -> (length (args_of r) <= k)%nat ->
  args_loop fuel (pre ++ r ++ t :: post) (length pre + length r) (length pre)
    (set ++ replicate k []) (length set) =
  Some (set ++ map url_decode (args_of r) ++ replicate (k - length (args_of r)) [],
        (length set + length (args_of r))%nat).
Proof.
  intros Hf Ht. revert pre r set k Hf. induction fuel as [|f IH]; intros pre r set k Hf Hk; [lia|].
  cbn [args_loop]. destruct (decide (r = [])) as [->|Hne].
  { rewrite (proj2 (Nat.ltb_ge _ _)) by (simpl; lia). simpl. by rewrite Nat.sub_0_r, Nat.add_0_r. }
  assert (0 < length r)%nat by (destruct r; [done|simpl; lia]).
  rewrite (proj2 (Nat.ltb_lt _ _)) by lia. rewrite drop_app_length.
  replace (length pre + length r - length pre)%nat with (length r) by lia.
  assert (forall v, (1 <= k)%nat -> put_arg (set ++ replicate k []) (length set) v =
            Some ((set ++ [v]) ++ replicate (k - 1) [])) as Hput.
  { intros v H1. unfold put_arg. rewrite (proj2 (Nat.ltb_lt _ _)) by len.
    rewrite insert_app_r_alt, Nat.sub_diag by lia. destruct k as [|k]; [lia|]. simpl.
    by rewrite <-app_assoc, Nat.sub_0_r. }
  destruct (segment_cases r) as [Hr|(s & r' & -> & Hs)].
  - rewrite memchr_none_slice by done. rewrite args_of_single in * by done.
    rewrite (decode_uri_slice (length r)) by done. cbn [mbind option_bind]. simpl in Hk.
    rewrite Hput by lia. cbn [mbind option_bind].
    pose proof (IH (pre ++ r) [] (set ++ [url_decode r]) (k - 1)%nat) as IH'.
    rewrite length_app, Nat.add_0_r in IH'. rewrite <-app_assoc in IH'. cbn [app] in IH'.
    destruct f as [|f']; [lia|]. cbn [args_loop] in *.
    rewrite (proj2 (Nat.ltb_ge _ _)) by lia. cbn [map length].
    rewrite <-app_assoc. repeat f_equal. len.
  - rewrite memchr_slash_slice by done. rewrite args_of_app in * by done.
    rewrite <-(app_assoc s). cbn [app].
    rewrite (decode_uri_slice (length s)) by done. cbn [mbind option_bind]. simpl in Hk.
    rewrite Hput by lia. cbn [mbind option_bind].
    replace (length pre + length s + 1)%nat with (length (pre ++ s ++ [x2f])) by len.
    replace (length pre + length (s ++ x2f :: r'))%nat
      with (length (pre ++ s ++ [x2f]) + length r')%nat by len.
    replace (S (length set)) with (length (set ++ [url_decode s])) by len.
    replace (pre ++ s ++ x2f :: r' ++ t :: post) with ((pre ++ s ++ [x2f]) ++ r' ++ t :: post)
      by (by rewrite <-!app_assoc).
    rewrite IH by (len || (simpl; lia)). cbn [map length].
    f_equal. f_equal; [|len]. rewrite <-!app_assoc. cbn [app].
    by replace (k - S (length (args_of r')))%nat with (k - 1 - length (args_of r'))%nat by lia.
Qed.

(** ** The extension *)

(** The extension behind the last dot: the dot is not the first character and no
    slash follows it. The text is scanned from its end. *)
Fixpoint rev_ext (r : bytes) (e : bytes) : option (bytes * bytes) :=
  match r with
  | [] | [_] => None
  | c :: r' =>
      if Byte.eqb c x2f then None
      else if Byte.eqb c x2e then Some (reverse r', e)
      else rev_ext r' (c :: e)
  end.

Definition split_ext (u : bytes) : option (bytes * bytes) := rev_ext (reverse u) [].

Definition format_of (e : bytes) : option (formatting_fun * bytes) :=
  (fun p => (p.1.2, p.2)) <$> List.find (fun p => bytes_eqb e p.1.1) funs.

(** The command of a request text, without the extension if it names a format. *)
Definition command_text (u : bytes) : bytes :=
  match split_ext u with
  | Some (a, e) => match format_of e with Some _ => a | None => u end
  | None => u
  end.

(** The format of a request: [?type=] overrides the one of the extension, unless
    the text ends in a dot. *)
Definition text_format (client_type : option bytes) (u : bytes) : formatting_fun :=
  match split_ext u with
  | Some (_, []) => json_reply
  | Some (_, e) =>
      match client_type with
      | Some _ => custom_type_reply
      | None => match format_of e with Some (f, _) => f | None => json_reply end
      end
  | None => match client_type with Some _ => custom_type_reply | None => json_reply end
  end.

Definition text_mime (u : bytes) (c : cmd) : cmd :=
  match split_ext u ≫= (fun p => format_of p.2) with
  | Some (_, ct) => set_cmd_mime_free false (set_cmd_mime (Some ct) c)
  | None => c
  end.

Lemma rev_ext_cons c r e :
  r <> [] ->
  rev_ext (c :: r) e =
  if Byte.eqb c x2f then None else if Byte.eqb c x2e then Some (reverse r, e) else rev_ext r (c :: e).
Proof. by destruct r. Qed.

Lemma rev_ext_spec v s a e :
  rev_ext (reverse v) s = Some (a, e) -> x2f ∉ s ->
  v ++ s = a ++ x2e :: e /\ a <> [] /\ x2f ∉ e.
Proof.
  revert s. induction v as [|c v IH] using rev_ind; intros s H Hs; [done|].
  rewrite reverse_app in H. change (reverse [c] ++ reverse v) with (c :: reverse v) in H.
  destruct (decide (reverse v = [])) as [E|E]; [by rewrite E in H|].
  assert (v <> []) by (intros ->; done). rewrite rev_ext_cons in H by done.
  destruct (Byte.eqb c x2f) eqn:E1; [done|]. apply byte_eqb_neq in E1.
  destruct (Byte.eqb c x2e) eqn:E2.
  - apply byte_eqb_eq in E2 as ->. injection H as <- <-. rewrite reverse_involutive, <-app_assoc. done.
  - rewrite <-app_assoc. apply (IH (c :: s)); [done|set_solver].
Qed.

Lemma command_text_shape u :
  exists e, u = command_text u ++ e /\ (e = [] \/ exists e', e = x2e :: e' /\ x2f ∉ e' /\ command_text u <> []).
Proof.
  unfold command_text. destruct (split_ext u) as [[a e]|] eqn:E; [|exists []; rewrite app_nil_r; auto].
  destruct (format_of e); [|exists []; rewrite app_nil_r; auto].
  apply rev_ext_spec in E as (Hu & Ha & He); [|set_solver]. rewrite app_nil_r in Hu.
  exists (x2e :: e). split; [done|]. right. by exists e.
Qed.

Lemma byte_at_end (pre v s post : bytes) c :
  (pre ++ (v ++ [c]) ++ s ++ post) !! Z.to_nat (Z.of_nat (length pre) + Z.of_nat (length (v ++ [c])) - 1) =
  Some c.
Proof.
  rewrite length_app. cbn [length].
  replace (Z.to_nat _) with (length pre + length v)%nat by lia.
  rewrite <-!app_assoc, lookup_app_r by lia.
  rewrite lookup_app_r by lia. by replace (length pre + length v - length pre - length v)%nat with O by lia.
Qed.

Lemma find_ext_spec fuel pre v s post :
  (length v < fuel)%nat -> v <> [] ->
  find_ext fuel (pre ++ v ++ s ++ post) (Z.of_nat (length pre))
    (Z.of_nat (length pre) + Z.of_nat (length v) - 1) =
  Some ((fun p => Z.of_nat (length pre + length p.1 + 1)) <$> rev_ext (reverse v) s).
Proof.
  revert fuel s. induction v as [|c v IH] using rev_ind; intros fuel s Hf Hne; [done|].
  rewrite length_app in Hf. cbn [length] in Hf. destruct fuel as [|f]; [lia|]. cbn [find_ext].
  rewrite reverse_app. change (reverse [c] ++ reverse v) with (c :: reverse v).
  destruct (Z.eqb_spec (Z.of_nat (length pre) + Z.of_nat (length (v ++ [c])) - 1) (Z.of_nat (length pre)))
    as [E|E]; rewrite length_app in E; cbn [length] in E.
  { destruct v; [done|cbn in E; lia]. }
  assert (v <> []) as Hv by (intros ->; cbn in E; lia).
  rewrite (proj2 (Z.ltb_ge _ 0)) by (rewrite length_app; cbn; lia).
  rewrite byte_at_end. cbn [mbind option_bind].
  assert (reverse v <> []) as Hr by (intros R; apply (f_equal reverse) in R; by rewrite reverse_involutive in R).
  rewrite rev_ext_cons by done. destruct (Byte.eqb c x2f); [done|]. destruct (Byte.eqb c x2e).
  - rewrite reverse_involutive, length_app. cbn [length fmap option_fmap option_map fst]. do 2 f_equal. lia.
  - rewrite <-(IH f (c :: s)) by (done || lia). rewrite length_app. cbn [length].
    f_equal; [by rewrite <-!app_assoc|lia].
Qed.

(** ** Choosing the format *)

Lemma find_ext_text pre u t post :
  (u = [] -> last pre = Some x2f) ->
  find_ext (S (length (pre ++ u ++ t :: post))) (pre ++ u ++ t :: post) (Z.of_nat (length pre))
    (Z.of_nat (length pre) + Z.of_nat (length u) - 1) =
  Some ((fun p => Z.of_nat (length pre + length p.1 + 1)) <$> split_ext u).
Proof.
  intros Hslash. destruct u as [|x u].
  - specialize (Hslash eq_refl). apply last_Some in Hslash as [pre' ->]. cbn [find_ext].
    rewrite (proj2 (Z.eqb_neq _ _)) by (cbn; lia). rewrite length_app. cbn [length].
    rewrite (proj2 (Z.ltb_ge _ 0)) by lia.
    replace (Z.to_nat _) with (length pre') by lia.
    rewrite <-app_assoc, lookup_app_r, Nat.sub_diag by lia. done.
  - apply (find_ext_spec _ pre (x :: u) [] (t :: post)); [len|done].
Qed.

Lemma strncmp_same_length (e s : bytes) :
  length e = length s -> no_nul s -> strncmp_eq (length e) e s = bytes_eqb e s.
Proof.
  unfold strncmp_eq, bytes_eqb, no_nul. revert s. induction e as [|c e IH]; intros [|y s] Hl Hs; try done.
  injection Hl as Hl. cbn [length strn_eq head tail default]. unfold id at 1 2. cbn.
  destruct (Byte.eqb c y) eqn:E.
  - apply byte_eqb_eq in E as ->. rewrite (proj2 (byte_eqb_neq y x00)) by set_solver.
    rewrite IH by (done || set_solver). apply bool_decide_ext. split; congruence.
  - apply byte_eqb_neq in E. rewrite bool_decide_eq_false_2 by congruence. done.
Qed.

Lemma format_test (e s : bytes) :
  no_nul s ->
  (Z.of_nat (length e) =? Z.of_nat (length s)) && strncmp_eq (length e) e s = bytes_eqb e s.
Proof.
  intros Hs. destruct (Z.eqb_spec (Z.of_nat (length e)) (Z.of_nat (length s))) as [El|El].
  - apply strncmp_same_length; [lia|done].
  - symmetry. apply not_true_iff_false. intros ->%bytes_eqb_eq. done.
Qed.

(** The names of the formats are different, so the last match is the first one. *)
Lemma select_fold e c :
  fold_left (fun '(found, f, c) '(s, fn, ct) =>
     if (Z.of_nat (length e) =? Z.of_nat (length s)) && strncmp_eq (length e) e s
     then (true, fn, set_cmd_mime_free false (set_cmd_mime (Some ct) c)) else (found, f, c))
    funs (false, json_reply, c) =
  match format_of e with
  | Some (f, ct) => (true, f, set_cmd_mime_free false (set_cmd_mime (Some ct) c))
  | None => (false, json_reply, c)
  end.
Proof.
  assert (Forall (fun p : bytes * formatting_fun * bytes => no_nul p.1.1) funs) as Hn.
  { unfold funs, no_nul. repeat constructor; cbn; by_decide. }
  unfold format_of, funs in *. repeat rewrite Forall_cons in Hn. cbn [fst snd] in Hn.
  destruct_and! Hn. cbn [fold_left List.find fst snd].
  repeat (rewrite format_test by done;
    match goal with
    | |- context [bytes_eqb e ?s] =>
        let E := fresh in destruct (bytes_eqb e s) eqn:E;
          [apply bytes_eqb_eq in E; subst e; reflexivity|]
    end; cbv iota beta). reflexivity.
Qed.

(** [cmd_select_format] reads the extension of the text and nothing else. *)
Lemma cmd_select_format_eq client_type c pre u t post :
  (u = [] -> last pre = Some x2f) ->
  cmd_select_format client_type c (pre ++ u ++ t :: post) (length pre) (length u) =
  Some (length (command_text u), text_format client_type u, text_mime u c).
Proof.
  intros Hslash. unfold cmd_select_format, command_text, text_format, text_mime.
  rewrite find_ext_text by done. cbn [mbind option_bind].
  destruct (split_ext u) as [[a e]|] eqn:E; cbn [fmap option_fmap option_map mbind option_bind].
  - apply rev_ext_spec in E as (Hu & Ha & He); [|set_solver]. rewrite app_nil_r in Hu. subst u. cbn [fst snd].
    replace (Z.of_nat (length pre) + Z.of_nat (length (a ++ x2e :: e)) - Z.of_nat (length pre + length a + 1))
      with (Z.of_nat (length e)) by len.
    destruct e as [|e0 e]; [done|].
    rewrite (proj2 (Z.eqb_neq _ 0)) by (cbn; lia). cbn [default]. unfold id. rewrite !Nat2Z.id.
    replace (take _ (drop _ _)) with (e0 :: e).
    2: { replace (pre ++ (a ++ x2e :: e0 :: e) ++ t :: post) with ((pre ++ a ++ [x2e]) ++ (e0 :: e) ++ t :: post)
           by (by rewrite <-!app_assoc).
         replace (length pre + length a + 1)%nat with (length (pre ++ a ++ [x2e])) by len.
         by rewrite drop_app_length, take_app_length. }
    rewrite select_fold. destruct (format_of (e0 :: e)) as [[f ct]|]; [|done].
    do 3 f_equal. rewrite length_app. cbn [length]. lia.
  - change (-1 =? 0) with false. cbv iota. set (F := fold_left _ funs _).
    assert (F = (false, json_reply, c)) as -> by reflexivity. done.
Qed.

(** ** The shape of a request *)

(** A last empty segment is not read as an argument. *)
Definition strip_last (segs : list bytes) : list bytes :=
  if bool_decide (last segs = Some []) then removelast segs else segs.

Lemma length_strip_last segs : (length (strip_last segs) <= length segs)%nat.
Proof.
  unfold strip_last. destruct (bool_decide _); [|done].
  destruct segs as [|x segs] using rev_ind; [done|]. rewrite removelast_last. len.
Qed.

(** The command a text is: the database, the name, the segments behind the name
    (none without slash), and the argument count [cmd_run] ends with. *)
Record request := mk_request {
  rq_slash : bool;
  rq_db : option Z;
  rq_name : bytes;
  rq_rest : list bytes }.

Definition request_of (u : bytes) : request :=
  match split_slash u with
  | s0 :: s1 :: rest =>
      match db_loop s0 0 with
      | Some db => mk_request true (Some db) s1 rest
      | None => mk_request true None s0 (s1 :: rest)
      end
  | _ => mk_request false None u []
  end.

Definition request_args (r : request) : list bytes := map url_decode (strip_last (rq_rest r)).

(** The slots [cmd_run] allocates for a text: one per segment, but a slash at the
    very beginning is not counted. *)
Definition slots_of (u : bytes) : nat :=
  match u with [] => O | _ :: r => length (split_slash r) end.

Definition body_list (body : option bytes) : list bytes := match body with Some b => [b] | None => [] end.

(** [argv] once it is filled. *)
Definition fill_argv (slots : nat) (r : request) (body : option bytes) : list bytes :=
  let filled := rq_name r :: request_args r ++ body_list body in
  filled ++ replicate (slots - length filled) [].

Lemma slots_of_segments u :
  (slots_of u + (if bool_decide (u = []) || bool_decide (head u = Some x2f) then 1 else 0))%nat =
  length (split_slash u).
Proof.
  destruct u as [|c u]; [done|]. cbn [slots_of split_slash head].
  destruct (Byte.eqb c x2f) eqn:E.
  - apply byte_eqb_eq in E as ->. rewrite orb_true_r. cbn. lia.
  - apply byte_eqb_neq in E. rewrite !bool_decide_eq_false_2 by congruence. cbn [orb].
    pose proof (split_slash_nonempty u). destruct (split_slash u); [done|]. cbn. lia.
Qed.

Lemma put_arg_next (filled : list bytes) k v :
  (1 <= k)%nat -> put_arg (filled ++ replicate k []) (length filled) v = Some ((filled ++ [v]) ++ replicate (k - 1) []).
Proof.
  intros H1. unfold put_arg. rewrite (proj2 (Nat.ltb_lt _ _)) by len.
  rewrite insert_app_r_alt, Nat.sub_diag by lia. destruct k as [|k]; [lia|]. simpl.
  by rewrite <-app_assoc, Nat.sub_0_r.
Qed.

Lemma put_body (filled : list bytes) k body :
  (length (body_list body) <= k)%nat ->
  match body with
  | Some b => put_arg (filled ++ replicate k []) (length filled) b
  | None => Some (filled ++ replicate k [])
  end = Some ((filled ++ body_list body) ++ replicate (k - length (body_list body)) []).
Proof.
  destruct body as [b|]; cbn [body_list length]; intros H; [by apply put_arg_next|].
  by rewrite app_nil_r, Nat.sub_0_r.
Qed.

(** The arguments from [pre] on. *)
Lemma record_args_spec pre r t post name k body :
  isxdigit t = false -> (length (args_of r) + length (body_list body) <= k)%nat ->
  let filled := name :: map url_decode (args_of r) ++ body_list body in
  record_args (pre ++ r ++ t :: post) (length pre + length r) (length pre) (name :: replicate k []) body =
  Some (filled ++ replicate (S k - length filled) []).
Proof.
  intros Ht Hk. cbv zeta. unfold record_args.
  change (name :: replicate k []) with ([name] ++ replicate k []). change 1%nat with (length [name]) at 1.
  rewrite (args_loop_split (S (length pre + length r)) pre r t post [name] k) by (done || lia).
  cbn [mbind option_bind]. rewrite app_assoc.
  replace (length [name] + length (args_of r))%nat
    with (length ([name] ++ map url_decode (args_of r))) by (rewrite length_app, length_map; done).
  rewrite put_body by lia. cbn [app length]. rewrite length_app, length_map.
  do 4 f_equal. lia.
Qed.

(** No arguments: the name was the last segment. *)
Lemma record_args_none uri n p name k body :
  (n <= p)%nat -> (length (body_list body) <= k)%nat ->
  record_args uri n p (name :: replicate k []) body =
  Some ((name :: body_list body) ++ replicate (k - length (body_list body)) []).
Proof.
  intros Hp Hk. unfold record_args. cbn [args_loop]. rewrite (proj2 (Nat.ltb_ge _ _)) by lia.
  cbn [mbind option_bind]. exact (put_body [name] k body Hk).
Qed.

Lemma slice_prefix a b : slice (a ++ b) 0 (length a) = Some a.
Proof.
  unfold slice. rewrite (proj2 (Nat.leb_le _ _)) by len. by rewrite drop_0, take_app_length.
Qed.

Lemma slice_middle pre a b : slice (pre ++ a ++ b) (length pre) (length a) = Some a.
Proof.
  unfold slice. rewrite (proj2 (Nat.leb_le _ _)) by len. by rewrite drop_app_length, take_app_length.
Qed.

(** [find_name] and the argument loop compute the command the text is. *)
Lemma find_name_request u t post :
  isxdigit t = false -> t <> x2f ->
  let r := request_of u in let np := find_name (u ++ t :: post) (length u) in
  (if rq_slash r then is_Some (np_slash np) else np_slash np = None) /\
  np_db np = rq_db r /\
  slice (u ++ t :: post) (np_name np) (np_len np) = Some (rq_name r) /\
  (rq_slash r = true -> forall k body, (length (request_args r) + length (body_list body) <= k)%nat ->
     record_args (u ++ t :: post) (length u) (np_name np + np_len np + 1) (rq_name r :: replicate k []) body =
     Some (fill_argv (S k) r body)).
Proof.
  intros Ht Hts. cbv zeta. unfold request_of, find_name.
  destruct (segment_cases u) as [Hu|(s & r & -> & Hs)].
  - rewrite split_slash_single, memchr_none_slice by done. cbn. repeat split; try done. apply slice_prefix.
  - rewrite memchr_slash_slice, split_slash_app by done.
    pose proof (split_slash_nonempty r) as Hne. destruct (split_slash r) as [|s1 rest] eqn:Er; [done|].
    rewrite <-app_assoc. cbn [app]. rewrite take_app_length. destruct (db_loop s 0) as [db|].
    + cbn [np_slash np_db np_name np_len rq_slash rq_db rq_name rq_rest].
      rewrite <-drop_drop, drop_app_length. change (drop 1 (x2f :: r ++ t :: post)) with (r ++ t :: post).
      replace (length (s ++ x2f :: r) - length s)%nat with (S (length r)) by len.
      assert (forall x, (s ++ x2f :: x) = ((s ++ [x2f]) ++ x)) as Hassoc by (intros; by rewrite <-app_assoc).
      assert ((length s + 1)%nat = length (s ++ [x2f])) as Hl by len.
      destruct (segment_cases r) as [Hr|(s' & r' & -> & Hs')].
      * rewrite split_slash_single in Er by done. injection Er as <- <-.
        rewrite memchr_absent.
        2: { replace (S (length r)) with (length (r ++ [t])) by len. replace (r ++ t :: post) with ((r ++ [t]) ++ post)
               by (by rewrite <-app_assoc). rewrite take_app_length. set_solver. }
        replace (length (s ++ x2f :: r) - (length s + 1))%nat with (length r) by len.
        split; [by eexists|]. split; [done|]. split.
        -- rewrite Hassoc, Hl. apply slice_middle.
        -- intros _ k body Hk. cbn in Hk. rewrite record_args_none by (len || lia). done.
      * rewrite split_slash_app in Er by done. injection Er as <- Er. subst rest.
        rewrite <-app_assoc. cbn [app].
        rewrite memchr_app_here by (done || len).
        split; [by eexists|]. split; [done|]. split.
        -- rewrite Hassoc, Hl. apply slice_middle.
        -- intros _ k body Hk. unfold request_args in Hk. cbn [rq_rest] in Hk. rewrite length_map in Hk.
           replace (s ++ x2f :: s' ++ x2f :: r' ++ t :: post)
             with ((s ++ x2f :: s' ++ [x2f]) ++ r' ++ t :: post) by (by rewrite <-!app_assoc; cbn; rewrite <-app_assoc).
           replace (length (s ++ x2f :: s' ++ x2f :: r'))
             with (length (s ++ x2f :: s' ++ [x2f]) + length r')%nat by (autorewrite with len; cbn; autorewrite with len; cbn; lia).
           replace (length s + 1 + length s' + 1)%nat with (length (s ++ x2f :: s' ++ [x2f]))
             by (autorewrite with len; cbn; autorewrite with len; cbn; lia).
           by rewrite record_args_spec.
    + cbn [np_slash np_db np_name np_len rq_slash rq_db rq_name rq_rest].
      split; [by eexists|]. split; [done|]. split; [apply slice_prefix|].
      intros _ k body Hk. unfold request_args in Hk. cbn [rq_rest] in Hk. rewrite length_map, <-Er in Hk.
      replace (s ++ x2f :: r ++ t :: post) with ((s ++ [x2f]) ++ r ++ t :: post) by (by rewrite <-app_assoc).
      replace (length (s ++ x2f :: r)) with (length (s ++ [x2f]) + length r)%nat by len.
      replace (0 + length s + 1)%nat with (length (s ++ [x2f])) by len.
      rewrite record_args_spec by done. unfold fill_argv, request_args. cbn [rq_name rq_rest]. by rewrite <-Er.
Qed.

(** ** Enough slots *)

Lemma length_split_noslash r e : x2f ∉ e -> length (split_slash (r ++ e)) = length (split_slash r).
Proof.
  intros He. induction r as [|c r IH]; [cbn [app]; by rewrite (split_slash_single e)|]. cbn [app split_slash].
  destruct (Byte.eqb c x2f); [cbn; congruence|].
  pose proof (split_slash_nonempty (r ++ e)). pose proof (split_slash_nonempty r).
  destruct (split_slash (r ++ e)), (split_slash r); try done; cbn in *; congruence.
Qed.

Lemma slots_of_command_text u : slots_of (command_text u) = slots_of u.
Proof.
  destruct (command_text_shape u) as (e & Hu & [-> | (e' & -> & He & Hne)]).
  - by rewrite app_nil_r in Hu; rewrite <-Hu.
  - symmetry. rewrite Hu at 1. destruct (command_text u) as [|c v]; [done|]. cbn [slots_of app].
    rewrite length_split_noslash; [done|]. set_solver.
Qed.

(** There is a slot for the name, for every argument and for the body. *)
Lemma request_fits u : rq_slash (request_of u) = true -> (S (length (request_args (request_of u))) <= slots_of u)%nat.
Proof.
  pose proof (slots_of_segments u) as Hs. unfold request_of, request_args.
  destruct (split_slash u) as [|s0 [|s1 rest]] eqn:E; try done.
  destruct (db_loop s0 0) eqn:Edb; cbn [rq_rest]; intros _; rewrite length_map.
  - pose proof (length_strip_last rest). destruct (_ || _); cbn in *; lia.
  - pose proof (length_strip_last (s1 :: rest)). destruct u as [|c u]; [done|].
    rewrite (bool_decide_eq_false_2 (c :: u = [])) in Hs by done. cbn [orb head] in Hs.
    rewrite bool_decide_eq_false_2 in Hs; [cbn in *; lia|]. intros [= ->]. cbn in E. injection E as <- _. done.
Qed.

(** The text before the query string. *)
Definition before_query (u : bytes) : bytes :=
  match memchr x3f (length u) u with Some i => take i u | None => u end.

Lemma before_query_shape u t post :
  isxdigit t = false -> t <> x2f ->
  exists t' post', u ++ t :: post = before_query u ++ t' :: post' /\ isxdigit t' = false /\ t' <> x2f /\
    default (length u) (memchr x3f (length u) (u ++ t :: post)) = length (before_query u).
Proof.
  intros Ht Hts.
  assert (memchr x3f (length u) (u ++ t :: post) = memchr x3f (length u) u) as E.
  { clear. induction u as [|c u IH]; [done|]. cbn [length app memchr]. by rewrite IH. }
  rewrite E. unfold before_query. destruct (memchr x3f (length u) u) as [i|] eqn:Em.
  - apply memchr_Some in Em as (Hi & Hl & _). cbn [default].
    exists x3f, (drop (S i) u ++ t :: post). split; [|split; [done|]; split; [done|]].
    + rewrite <-(take_drop_middle u i x3f) at 1 by done. by rewrite <-app_assoc.
    + rewrite length_take. unfold id. lia.
  - by exists t, post.
Qed.

(** ** Properties *)

(** The format of a reply. Whatever surrounds the text of a request in its
    buffer, [cmd_select_format] reads only the extension behind the last dot of the
    last segment: if it is one of the listed names the text is cut before the dot
    and the listed function and content type are chosen, otherwise the whole text
    stays and the reply is JSON; [?type=] turns the function into
    [custom_type_reply]. *)
Theorem select_format_spec client_type c pre u t post :
  (u = [] -> last pre = Some x2f) ->
  cmd_select_format client_type c (pre ++ u ++ t :: post) (length pre) (length u) =
  Some (length (command_text u), text_format client_type u, text_mime u c).
Proof. apply cmd_select_format_eq. Qed.

Definition blank_cmd : cmd :=
  mk_cmd 0 0 [] None false None None None None false false false 0 0 None None None.

Lemma select_format_spec_witness :
  cmd_select_format None blank_cmd (lit "/GET/a.b/logo.png?x" ++ [x00]) 1 16 =
  Some (12%nat, custom_type_reply, set_cmd_mime (Some (lit "image/png")) blank_cmd).
Proof.
  exact (select_format_spec None blank_cmd (lit "/") (lit "GET/a.b/logo.png") x3f (lit "x" ++ [x00]) ltac:(done)).
Defined.

End Uri.
