(* ===== verification/Json.v ===== *)
(** * JSON values and their serialisation: src/jansson

    The part of Jansson the program uses to build and print replies: UTF-8
    validation (utf.c), strings, arrays and objects (value.c, over the insertion
    ordered hash table of hashtable.c), [json_dumps] with [JSON_COMPACT] (dump.c). *)
From S2P Require Import Prelude Types.

Local Open Scope Z_scope.

Module Json.

(** [json_t]. An object lists its pairs in the order of insertion, which is the
    order its iterators follow; a real keeps the text it was read from. *)
Inductive json :=
| JNull
| JTrue
| JFalse
| JInteger (z : Z)
| JReal (text : bytes)
| JString (s : bytes)
| JArray (l : list json)
| JObject (l : list (bytes * json)).

(** The nested lists need their own induction principle. *)
Fixpoint json_ind' (P : json -> Prop) (Hn : P JNull) (Ht : P JTrue) (Hf : P JFalse)
  (Hi : forall z, P (JInteger z)) (Hr : forall t, P (JReal t)) (Hs : forall s, P (JString s))
  (Ha : forall l, Forall P l -> P (JArray l))
  (Ho : forall l, Forall (fun kv => P kv.2) l -> P (JObject l)) (j : json) : P j :=
  let rec := json_ind' P Hn Ht Hf Hi Hr Hs Ha Ho in
  match j with
  | JNull => Hn
  | JTrue => Ht
  | JFalse => Hf
  | JInteger z => Hi z
  | JReal t => Hr t
  | JString s => Hs s
  | JArray l =>
      Ha l ((fix go l : Forall P l :=
               match l with
               | [] => Forall_nil_2 P
               | x :: l' => Forall_cons_2 P x l' (rec x) (go l')
               end) l)
  | JObject l =>
      Ho l ((fix go l : Forall (fun kv => P kv.2) l :=
               match l with
               | [] => Forall_nil_2 _
               | x :: l' => Forall_cons_2 (fun kv => P kv.2) x l' (rec x.2) (go l')
               end) l)
  end.

(** ** utf.c *)

Definition utf8_check_first (c : byte) : nat :=
  let u := Z_of_byte c in
  if u <? 128 then 1
  else if u <=? 191 then 0
  else if (u =? 192) || (u =? 193) then 0
  else if u <=? 223 then 2
  else if u <=? 239 then 3
  else if u <=? 244 then 4
  else 0.

(** The loop over the continuation bytes. *)
Fixpoint utf8_cont (l : bytes) (value : Z) : option Z :=
  match l with
  | [] => Some value
  | c :: l' =>
      let u := Z_of_byte c in
      if (u <? 128) || (191 <? u) then None
      else utf8_cont l' (Z.shiftl value 6 + Z.land u 63)
  end.

(** [utf8_check_full(buffer, size, &codepoint)] with [buffer] of [size] bytes. *)
Definition utf8_check_full (buffer : bytes) : option Z :=
  match buffer with
  | [] => None
  | c :: cont =>
      let u := Z_of_byte c in
      let size := length buffer in
      mask ← (if (size =? 2)%nat then Some 31 else if (size =? 3)%nat then Some 15
              else if (size =? 4)%nat then Some 7 else None);
      value ← utf8_cont cont (Z.land u mask);
      if 1114111 <? value then None
      else if (55296 <=? value) && (value <=? 57343) then None
      else if ((size =? 2)%nat && (value <? 128)) || ((size =? 3)%nat && (value <? 2048)) ||
              ((size =? 4)%nat && (value <? 65536)) then None
      else Some value
  end.

(** [utf8_iterate] on a non-empty buffer: the code point and its size. *)
Definition utf8_iterate (buffer : bytes) : option (Z * nat) :=
  match buffer with
  | [] => None
  | c :: _ =>
      let count := utf8_check_first c in
      if (count =? 0)%nat then None
      else if (count =? 1)%nat then Some (Z_of_byte c, 1%nat)
      else if (length buffer <? count)%nat then None
      else value ← utf8_check_full (take count buffer); Some (value, count)
  end.

(** [utf8_check_string]: every turn consumes a byte, so [length] turns do. *)
Fixpoint utf8_check_loop (fuel : nat) (l : bytes) : bool :=
  match l, fuel with
  | [], _ => true
  | _, O => false
  | c :: _, S f =>
      let count := utf8_check_first c in
      if (count =? 0)%nat then false
      else if (count =? 1)%nat then utf8_check_loop f (drop 1 l)
      else if (length l <? count)%nat then false
      else match utf8_check_full (take count l) with
           | Some _ => utf8_check_loop f (drop count l)
           | None => false
           end
  end.

Definition utf8_check_string (l : bytes) : bool := utf8_check_loop (length l) l.

(** ** value.c *)

(** [json_string(value)]: [None] is the [NULL] it returns for a [NULL] or for
    text that is not UTF-8. *)
Definition json_string (value : option bytes) : option json :=
  v ← value;
  if utf8_check_string (cstr v) then Some (JString (cstr v)) else None.

Fixpoint hashtable_set {V} (l : list (bytes * V)) (key : bytes) (value : V)
  : list (bytes * V) :=
  match l with
  | [] => [(key, value)]
  | (k, v) :: l' => if bytes_eqb k key then (k, value) :: l' else (k, v) :: hashtable_set l' key value
  end.

(** [json_object_setn_new_nocheck]; the result of the call is not used by its
    callers, so a failure is the object unchanged. *)
Definition json_object_setn_new_nocheck (j : json) (key : bytes) (value : option json) : json :=
  match j, value with
  | JObject l, Some v => JObject (hashtable_set l key v)
  | _, _ => j
  end.

Definition json_object_set_new (j : json) (key : bytes) (value : option json) : json :=
  if utf8_check_string (cstr key) then json_object_setn_new_nocheck j (cstr key) value else j.

Definition json_array_append_new (j : json) (value : option json) : json :=
  match j, value with
  | JArray l, Some v => JArray (l ++ [v])
  | _, _ => j
  end.

(** ** dump.c *)

Definition hex4 (n : Z) : bytes :=
  map toupper [digit_char (n / 4096 mod 16); digit_char (n / 256 mod 16);
               digit_char (n / 16 mod 16); digit_char (n mod 16)].

(** The text of an escaped code point. *)
Definition escape_text (codepoint : Z) : bytes :=
  if codepoint =? 92 then [x5c; x5c]
  else if codepoint =? 34 then [x5c; x22]
  else if codepoint =? 8 then [x5c; x62]
  else if codepoint =? 12 then [x5c; x66]
  else if codepoint =? 10 then [x5c; x6e]
  else if codepoint =? 13 then [x5c; x72]
  else if codepoint =? 9 then [x5c; x74]
  else if codepoint =? 47 then [x5c; x2f]
  else if codepoint <? 65536 then [x5c; x75] ++ hex4 codepoint
  else
    let c := codepoint - 65536 in
    [x5c; x75] ++ hex4 (Z.lor 55296 (Z.shiftr (Z.land c 1047552) 10)) ++
    [x5c; x75] ++ hex4 (Z.lor 56320 (Z.land c 1023)).

(** The loop of [dump_string] without [JSON_ESCAPE_SLASH] and
    [JSON_ENSURE_ASCII]: it copies code points and escapes the quote, the
    backslash and the control characters. *)
Fixpoint dump_string_loop (fuel : nat) (l : bytes) : option bytes :=
  match l, fuel with
  | [], _ => Some []
  | _, O => None
  | _, S f =>
      '(codepoint, count) ← utf8_iterate l;
      rest ← dump_string_loop f (drop count l);
      if (codepoint =? 92) || (codepoint =? 34) || (codepoint <? 32)
      then Some (escape_text codepoint ++ rest)
      else Some (take count l ++ rest)
  end.

Definition dump_string (s : bytes) : option bytes :=
  body ← dump_string_loop (length s) s; Some (x22 :: body ++ [x22]).

(** The loops of [do_dump] over the elements of an array and the pairs of an
    object. *)
Definition dump_elements (dump : json -> option bytes) : list json -> option bytes :=
  fix go (l : list json) : option bytes :=
    match l with
    | [] => Some []
    | x :: l' =>
        a ← dump x;
        match l' with
        | [] => Some a
        | _ => b ← go l'; Some (a ++ lit "," ++ b)
        end
    end.

Definition dump_members (dump : json -> option bytes) : list (bytes * json) -> option bytes :=
  fix go (l : list (bytes * json)) : option bytes :=
    match l with
    | [] => Some []
    | (k, v) :: l' =>
        ks ← dump_string k;
        vs ← dump v;
        match l' with
        | [] => Some (ks ++ lit ":" ++ vs)
        | _ => b ← go l'; Some (ks ++ lit ":" ++ vs ++ lit "," ++ b)
        end
    end.

(** [do_dump] with [JSON_COMPACT]; a real, which the program never prints, is its
    text. *)
Fixpoint do_dump (j : json) : option bytes :=
  match j with
  | JNull => Some (lit "null")
  | JTrue => Some (lit "true")
  | JFalse => Some (lit "false")
  | JInteger z => Some (print_int z)
  | JReal text => Some text
  | JString s => dump_string s
  | JArray l => body ← dump_elements do_dump l; Some (lit "[" ++ body ++ lit "]")
  | JObject l => body ← dump_members do_dump l; Some (lit "{" ++ body ++ lit "}")
  end.

(** [json_dumps(json, JSON_COMPACT)]: only arrays and objects are encoded. *)
Definition json_dumps (j : json) : option bytes :=
  match j with
  | JArray _ | JObject _ => do_dump j
  | _ => None
  end.

End Json.
