(* ===== verification/JsonLoad.v ===== *)
(** * The JSON parser: src/jansson/src/load.c

    The byte stream with its UTF-8 check, the lexical analyser and the recursive
    parser behind [json_loads]. The parse flags are kept, because the program
    passes them. Line and column numbers and the texts of errors are left out: an
    error is [None]. *)
From S2P Require Import Prelude Types Json.

Local Open Scope Z_scope.

Module JsonLoad.
Import Json.

(** ** Flags (jansson.h) *)

Definition JSON_REJECT_DUPLICATES : Z := 1.
Definition JSON_DISABLE_EOF_CHECK : Z := 2.
Definition JSON_DECODE_ANY : Z := 4.
Definition JSON_DECODE_INT_AS_REAL : Z := 8.
Definition JSON_ALLOW_NUL : Z := 16.
Definition JSON_PARSER_MAX_DEPTH : Z := 2048.

Definition has_flag (flags f : Z) : bool := negb (Z.land flags f =? 0).

(** ** The stream *)

Inductive stream_state := STREAM_STATE_OK | STREAM_STATE_EOF | STREAM_STATE_ERROR.

(** [stream_t] over [string_get]: the bytes of the current sequence that are
    still to be delivered, the rest of the C string, the state. *)
Record stream := mk_stream {
  st_buffer : bytes;
  st_rest : bytes;
  st_state : stream_state }.

Inductive got := Got (c : byte) | GotEOF | GotError.

Definition stream_get (s : stream) : got * stream :=
  match st_state s with
  | STREAM_STATE_EOF => (GotEOF, s)
  | STREAM_STATE_ERROR => (GotError, s)
  | STREAM_STATE_OK =>
      match st_buffer s with
      | c :: b => (Got c, mk_stream b (st_rest s) STREAM_STATE_OK)
      | [] =>
          match st_rest s with
          | [] => (GotEOF, mk_stream [] [] STREAM_STATE_EOF)
          | c :: r =>
              if Z_of_byte c <? 128 then (Got c, mk_stream [] r STREAM_STATE_OK)
              else
                let count := utf8_check_first c in
                let seq := take count (c :: r) in
                if (count =? 0)%nat then (GotError, mk_stream [] r STREAM_STATE_ERROR)
                else if (length seq =? count)%nat
                then match utf8_check_full seq with
                     | Some _ => (Got c, mk_stream (tail seq) (drop count (c :: r)) STREAM_STATE_OK)
                     | None => (GotError, mk_stream [] (drop count (c :: r)) STREAM_STATE_ERROR)
                     end
                else (GotError, mk_stream [] [] STREAM_STATE_ERROR)
          end
      end
  end.

Definition stream_unget (c : got) (s : stream) : stream :=
  match c with
  | Got c => mk_stream (c :: st_buffer s) (st_rest s) (st_state s)
  | _ => s
  end.

(** An upper bound on the bytes a stream can still deliver: the fuel of loops. *)
Definition stream_size (s : stream) : nat := length (st_buffer s) + length (st_rest s).

(** ** The lexical analyser *)

Inductive token :=
| TOKEN_INVALID
| TOKEN_EOF
| TOKEN_CHAR (c : byte)
| TOKEN_STRING (s : bytes)
| TOKEN_INTEGER (z : Z)
| TOKEN_REAL (text : bytes)
| TOKEN_TRUE
| TOKEN_FALSE
| TOKEN_NULL.

Definition l_isalpha (c : byte) : bool :=
  let z := Z_of_byte c in ((65 <=? z) && (z <=? 90)) || ((97 <=? z) && (z <=? 122)).

(** [lex_get_save] on the text saved so far. *)
Definition lex_get_save (saved : bytes) (s : stream) : got * bytes * stream :=
  let '(c, s) := stream_get s in
  match c with
  | Got b => (c, saved ++ [b], s)
  | _ => (c, saved, s)
  end.

(** Four hexadecimal digits behind a backslash and a u; [None] is an invalid
    escape. *)
Fixpoint scan_hex (n : nat) (c : got) (saved : bytes) (s : stream)
  : option (got * bytes * stream) :=
  match n with
  | O => Some (c, saved, s)
  | S n' =>
      match c with
      | Got b =>
          if isxdigit b then let '(c, saved, s) := lex_get_save saved s in scan_hex n' c saved s
          else None
      | _ => None
      end
  end.

(** The escapes of one character. *)
Definition short_escape (e : byte) : option byte :=
  if Byte.eqb e x22 || Byte.eqb e x5c || Byte.eqb e x2f then Some e
  else if Byte.eqb e x62 then Some x08
  else if Byte.eqb e x66 then Some x0c
  else if Byte.eqb e x6e then Some x0a
  else if Byte.eqb e x72 then Some x0d
  else if Byte.eqb e x74 then Some x09
  else None.

(** The first loop of [lex_scan_string]: the text up to the closing quote. *)
Fixpoint scan_string (fuel : nat) (c : got) (saved : bytes) (s : stream)
  : option bytes * stream :=
  match fuel with
  | O => (None, s)
  | S f =>
      match c with
      | GotError | GotEOF => (None, s)
      | Got b =>
          if Byte.eqb b x22 then (Some saved, s)
          else if Z_of_byte b <=? 31 then (None, stream_unget c s)
          else if Byte.eqb b x5c then
            let '(c, saved, s) := lex_get_save saved s in
            match c with
            | Got e =>
                if Byte.eqb e x75 then
                  let '(c, saved, s) := lex_get_save saved s in
                  match scan_hex 4 c saved s with
                  | Some (c, saved, s) => scan_string f c saved s
                  | None => (None, s)
                  end
                else
                  match short_escape e with
                  | Some _ => let '(c, saved, s) := lex_get_save saved s in scan_string f c saved s
                  | None => (None, s)
                  end
            | _ => (None, s)
            end
          else let '(c, saved, s) := lex_get_save saved s in scan_string f c saved s
      end
  end.

(** [decode_unicode_escape] on the four characters behind the u. *)
Definition decode_unicode_escape (str : bytes) : option Z :=
  match str with
  | a :: b :: c :: d :: _ =>
      a ← digit_val a; b ← digit_val b; c ← digit_val c; d ← digit_val d;
      Some (((a * 16 + b) * 16 + c) * 16 + d)
  | _ => None
  end.

Definition utf8_encode (codepoint : Z) : option bytes :=
  let byte := byte_of_Z in
  if codepoint <? 0 then None
  else if codepoint <? 128 then Some [byte codepoint]
  else if codepoint <? 2048 then
    Some [byte (192 + Z.shiftr (Z.land codepoint 1984) 6); byte (128 + Z.land codepoint 63)]
  else if codepoint <? 65536 then
    Some [byte (224 + Z.shiftr (Z.land codepoint 61440) 12);
          byte (128 + Z.shiftr (Z.land codepoint 4032) 6); byte (128 + Z.land codepoint 63)]
  else if codepoint <=? 1114111 then
    Some [byte (240 + Z.shiftr (Z.land codepoint 1835008) 18);
          byte (128 + Z.shiftr (Z.land codepoint 258048) 12);
          byte (128 + Z.shiftr (Z.land codepoint 4032) 6); byte (128 + Z.land codepoint 63)]
  else None.

(** The second loop of [lex_scan_string]: the value of the saved text, without
    its quotes. *)
Fixpoint unescape (fuel : nat) (p : bytes) : option bytes :=
  match fuel, p with
  | _, [] => Some []
  | O, _ => None
  | S f, c :: p' =>
      if Byte.eqb c x22 then Some []
      else if Byte.eqb c x5c then
        match p' with
        | [] => None
        | e :: p'' =>
            if Byte.eqb e x75 then
              value ← decode_unicode_escape p'';
              let p := drop 4 p'' in
              if (55296 <=? value) && (value <=? 56319) then
                match p with
                | b :: u :: p3 =>
                    if Byte.eqb b x5c && Byte.eqb u x75 then
                      value2 ← decode_unicode_escape p3;
                      if (56320 <=? value2) && (value2 <=? 57343) then
                        t ← utf8_encode (Z.shiftl (value - 55296) 10 + (value2 - 56320) + 65536);
                        rest ← unescape f (drop 4 p3); Some (t ++ rest)
                      else None
                    else None
                | _ => None
                end
              else if (56320 <=? value) && (value <=? 57343) then None
              else t ← utf8_encode value; rest ← unescape f p; Some (t ++ rest)
            else
              t ← short_escape e;
              rest ← unescape f p''; Some (t :: rest)
        end
      else rest ← unescape f p'; Some (c :: rest)
  end.

(** [lex_scan_string], called behind the opening quote. *)
Definition lex_scan_string (s : stream) : token * stream :=
  let fuel := S (stream_size s) in
  let '(c, saved, s) := lex_get_save [x22] s in
  match scan_string fuel c saved s with
  | (Some saved, s) =>
      match unescape (length saved) (tail saved) with
      | Some v => (TOKEN_STRING v, s)
      | None => (TOKEN_INVALID, s)
      end
  | (None, s) => (TOKEN_INVALID, s)
  end.

(** [do c = lex_get_save(); while(pred(c))]. *)
Fixpoint scan_while (fuel : nat) (pred : byte -> bool) (saved : bytes) (s : stream)
  : got * bytes * stream :=
  let '(c, saved, s) := lex_get_save saved s in
  match fuel, c with
  | S f, Got b => if pred b then scan_while f pred saved s else (c, saved, s)
  | _, _ => (c, saved, s)
  end.

(** [lex_unget_unsave]. *)
Definition unget_unsave (c : got) (saved : bytes) (s : stream) : bytes * stream :=
  match c with
  | Got _ => (removelast saved, stream_unget c s)
  | _ => (saved, s)
  end.

Definition is_got (c : got) (b : byte) : bool :=
  match c with Got x => Byte.eqb x b | _ => false end.

Definition got_digit (c : got) : bool := match c with Got b => isdigit b | _ => false end.

(** [strtoll] on the saved text: [None] is [ERANGE]. *)
Definition strtoll (saved : bytes) : option Z :=
  let value :=
    match saved with
    | c :: ds => if Byte.eqb c x2d then Z.opp <$> parse_digits 10 ds else parse_digits 10 saved
    | [] => None
    end in
  z ← value;
  if (- 2 ^ 63 <=? z) && (z <? 2 ^ 63) then Some z else None.

(** The fraction and the exponent of a real; [None] is the failed exit. *)
Definition scan_fraction (c : got) (saved : bytes) (s : stream)
  : option (got * bytes * stream) * stream :=
  if is_got c x2e then
    let '(c, s) := stream_get s in
    match c with
    | Got b =>
        if isdigit b
        then (Some (scan_while (S (stream_size s)) isdigit (saved ++ [b]) s), s)
        else (None, stream_unget c s)
    | _ => (None, s)
    end
  else (Some (c, saved, s), s).

Definition scan_exponent (c : got) (saved : bytes) (s : stream)
  : option (got * bytes * stream) * stream :=
  if is_got c x45 || is_got c x65 then
    let '(c, saved, s) := lex_get_save saved s in
    let '(c, saved, s) :=
      if is_got c x2b || is_got c x2d then lex_get_save saved s else (c, saved, s) in
    if got_digit c
    then (Some (scan_while (S (stream_size s)) isdigit saved s), s)
    else (None, (unget_unsave c saved s).2)
  else (Some (c, saved, s), s).

(** [jsonp_strtod]: whether the decimal number of a text rounds to infinity, that
    is, is at least the largest double plus half a unit in the last place. *)
Fixpoint span_digits (l : bytes) : bytes * bytes :=
  match l with
  | c :: l' => if isdigit c then let (a, b) := span_digits l' in (c :: a, b) else ([], l)
  | [] => ([], [])
  end.

Definition real_overflows (text : bytes) : bool :=
  let text := match text with c :: l => if Byte.eqb c x2d then l else text | [] => [] end in
  let '(int, rest) := span_digits text in
  let '(frac, rest) :=
    match rest with
    | c :: l => if Byte.eqb c x2e then span_digits l else ([], rest)
    | [] => ([], rest)
    end in
  let exp :=
    match rest with
    | _ :: c :: l =>
        if Byte.eqb c x2d then - default 0 (parse_digits 10 l)
        else if Byte.eqb c x2b then default 0 (parse_digits 10 l)
        else default 0 (parse_digits 10 (c :: l))
    | _ => 0
    end in
  let m := default 0 (parse_digits 10 (int ++ frac)) in
  let e := exp - Z.of_nat (length frac) in
  2 ^ 1024 - 2 ^ 970 <=? (if 0 <=? e then m * 10 ^ e else m / 10 ^ (- e)).

(** The rest of [lex_scan_number] behind the sign and the first digit [c]. *)
Definition scan_number_rest (flags : Z) (c : byte) (saved : bytes) (s : stream) : token * stream :=
  let zero := Byte.eqb c x30 in
  let '(c, saved, s) :=
    if zero then lex_get_save saved s
    else scan_while (S (stream_size s)) isdigit saved s in
  if zero && got_digit c then (TOKEN_INVALID, (unget_unsave c saved s).2)
  else if negb (has_flag flags JSON_DECODE_INT_AS_REAL) &&
          negb (is_got c x2e) && negb (is_got c x45) && negb (is_got c x65)
  then
    let '(saved, s) := unget_unsave c saved s in
    match strtoll saved with
    | Some z => (TOKEN_INTEGER z, s)
    | None => (TOKEN_INVALID, s)
    end
  else
    match scan_fraction c saved s with
    | (None, s) => (TOKEN_INVALID, s)
    | (Some (c, saved, s), _) =>
        match scan_exponent c saved s with
        | (None, s) => (TOKEN_INVALID, s)
        | (Some (c, saved, s), _) =>
            let '(saved, s) := unget_unsave c saved s in
            if real_overflows saved then (TOKEN_INVALID, s) else (TOKEN_REAL saved, s)
        end
    end.

(** [lex_scan_number], with [c] the first character, already saved. *)
Definition lex_scan_number (flags : Z) (c : byte) (s : stream) : token * stream :=
  let saved := [c] in
  let '(c, saved, s) :=
    if Byte.eqb c x2d then lex_get_save saved s else (Got c, saved, s) in
  match c with
  | Got d =>
      if isdigit d then scan_number_rest flags d saved s
      else (TOKEN_INVALID, (unget_unsave c saved s).2)
  | _ => (TOKEN_INVALID, s)
  end.

Definition is_space (b : byte) : bool :=
  Byte.eqb b x20 || Byte.eqb b x09 || Byte.eqb b x0a || Byte.eqb b x0d.

Fixpoint skip_space (fuel : nat) (s : stream) : got * stream :=
  let '(c, s) := stream_get s in
  match fuel, c with
  | S f, Got b => if is_space b then skip_space f s else (c, s)
  | _, _ => (c, s)
  end.

Definition is_punct (b : byte) : bool :=
  Byte.eqb b x7b || Byte.eqb b x7d || Byte.eqb b x5b || Byte.eqb b x5d ||
  Byte.eqb b x3a || Byte.eqb b x2c.

Definition lex_scan (flags : Z) (s : stream) : token * stream :=
  let '(c, s) := skip_space (S (stream_size s)) s in
  match c with
  | GotEOF => (TOKEN_EOF, s)
  | GotError => (TOKEN_INVALID, s)
  | Got b =>
      if is_punct b then (TOKEN_CHAR b, s)
      else if Byte.eqb b x22 then lex_scan_string s
      else if isdigit b || Byte.eqb b x2d then lex_scan_number flags b s
      else if l_isalpha b then
        let '(c, saved, s) := scan_while (S (stream_size s)) l_isalpha [b] s in
        let '(saved, s) := unget_unsave c saved s in
        (if bytes_eqb saved (lit "true") then TOKEN_TRUE
         else if bytes_eqb saved (lit "false") then TOKEN_FALSE
         else if bytes_eqb saved (lit "null") then TOKEN_NULL
         else TOKEN_INVALID, s)
      else (TOKEN_INVALID, mk_stream [] (st_rest s) (st_state s))
  end.

(** ** The parser

    [parse_value] is called on the current token. Fuel bounds the nesting and the
    number of elements of a value; both are less than the bytes of the input. *)
Definition is_char (tok : token) (c : byte) : bool :=
  match tok with TOKEN_CHAR x => Byte.eqb x c | _ => false end.

(** The loops of [parse_object] and [parse_array], given [parse_value]. *)
Fixpoint members_loop (value_of : token -> stream -> option (json * stream)) (flags : Z) (n : nat)
  (object : list (bytes * json)) (tok : token) (s : stream) : option (json * stream) :=
  match n, tok with
  | S n', TOKEN_STRING key =>
      if bool_decide (x00 ∈ key) then None
      else if has_flag flags JSON_REJECT_DUPLICATES &&
              existsb (fun kv => bytes_eqb kv.1 key) object then None
      else
        let '(tok, s) := lex_scan flags s in
        if is_char tok x3a then
          let '(tok, s) := lex_scan flags s in
          '(value, s) ← value_of tok s;
          let object := hashtable_set object key value in
          let '(tok, s) := lex_scan flags s in
          if is_char tok x2c then
            let '(tok, s) := lex_scan flags s in members_loop value_of flags n' object tok s
          else if is_char tok x7d then Some (JObject object, s)
          else None
        else None
  | _, _ => None
  end.

Fixpoint elements_loop (value_of : token -> stream -> option (json * stream)) (flags : Z) (n : nat)
  (array : list json) (tok : token) (s : stream) : option (json * stream) :=
  match n with
  | O => None
  | S n' =>
      '(elem, s) ← value_of tok s;
      let array := array ++ [elem] in
      let '(tok, s) := lex_scan flags s in
      if is_char tok x2c then
        let '(tok, s) := lex_scan flags s in elements_loop value_of flags n' array tok s
      else if is_char tok x5d then Some (JArray array, s)
      else None
  end.

Fixpoint parse_value (fuel : nat) (flags depth : Z) (tok : token) (s : stream)
  : option (json * stream) :=
  match fuel with
  | O => None
  | S f =>
      if JSON_PARSER_MAX_DEPTH <? depth + 1 then None
      else
        match tok with
        | TOKEN_STRING v =>
            if negb (has_flag flags JSON_ALLOW_NUL) && bool_decide (x00 ∈ v) then None
            else Some (JString v, s)
        | TOKEN_INTEGER z => Some (JInteger z, s)
        | TOKEN_REAL t => Some (JReal t, s)
        | TOKEN_TRUE => Some (JTrue, s)
        | TOKEN_FALSE => Some (JFalse, s)
        | TOKEN_NULL => Some (JNull, s)
        | TOKEN_CHAR c =>
            if Byte.eqb c x7b then
              let '(tok, s) := lex_scan flags s in
              if is_char tok x7d then Some (JObject [], s)
              else members_loop (parse_value f flags (depth + 1)) flags f [] tok s
            else if Byte.eqb c x5b then
              let '(tok, s) := lex_scan flags s in
              if is_char tok x5d then Some (JArray [], s)
              else elements_loop (parse_value f flags (depth + 1)) flags f [] tok s
            else None
        | TOKEN_INVALID | TOKEN_EOF => None
        end
  end.

Definition parse_json (flags : Z) (s : stream) : option json :=
  let fuel := S (stream_size s) in
  let '(tok, s) := lex_scan flags s in
  if negb (has_flag flags JSON_DECODE_ANY) && negb (is_char tok x5b || is_char tok x7b) then None
  else
    '(result, s) ← parse_value fuel flags 0 tok s;
    if has_flag flags JSON_DISABLE_EOF_CHECK then Some result
    else match (lex_scan flags s).1 with TOKEN_EOF => Some result | _ => None end.

(** [json_loads(string, flags, &error)]. *)
Definition json_loads (string : bytes) (flags : Z) : option json :=
  parse_json flags (mk_stream [] (cstr string) STREAM_STATE_OK).

(** ** Streams at a position *)

Definition pos (l : bytes) : stream := mk_stream [] l STREAM_STATE_OK.

(** The stream is at [l]: either nothing is buffered, or one pushed back
    character is. *)
Definition at_pos (l : bytes) (s : stream) : Prop :=
  s = pos l \/ exists c l', l = c :: l' /\ s = mk_stream [c] l' STREAM_STATE_OK.

Definition ascii (c : byte) : bool := Z_of_byte c <? 128.

Lemma at_pos_pos l : at_pos l (pos l).
Proof. by left. Qed.

Lemma at_pos_unget c l : at_pos (c :: l) (mk_stream [c] l STREAM_STATE_OK).
Proof. right. by exists c, l. Qed.

#[local] Hint Resolve at_pos_pos at_pos_unget : core.

Lemma stream_get_ascii c l s :
  at_pos (c :: l) s -> ascii c = true -> stream_get s = (Got c, pos l).
Proof.
  unfold ascii. intros Hs Ha. destruct Hs as [->|(c' & l' & [= <- <-] & ->)]; [|done].
  unfold stream_get, pos. cbn [st_state st_buffer st_rest]. by rewrite Ha.
Qed.

Lemma at_pos_size l s : at_pos l s -> stream_size s = length l.
Proof. unfold stream_size. intros [->|(c & l' & -> & ->)]; done. Qed.

Lemma stream_size_pos l : stream_size (pos l) = length l.
Proof. done. Qed.

(** Where a value ends in a text [do_dump] wrote. *)
Definition delimiter (c : byte) : bool := Byte.eqb c x2c || Byte.eqb c x5d || Byte.eqb c x7d.

Lemma delimiter_facts c :
  delimiter c = true ->
  ascii c = true /\ isdigit c = false /\ l_isalpha c = false /\
  Byte.eqb c x2e = false /\ Byte.eqb c x45 = false /\ Byte.eqb c x65 = false.
Proof.
  unfold delimiter. rewrite !orb_true_iff, !byte_eqb_eq. intros [[-> | ->] | ->]; by vm_compute.
Qed.

Lemma skip_space_none n c l s :
  at_pos (c :: l) s -> ascii c = true -> is_space c = false ->
  skip_space (S n) s = (Got c, pos l).
Proof. intros Hs Ha Hc. cbn [skip_space]. by rewrite (stream_get_ascii c l s Hs Ha), Hc. Qed.

Lemma lex_scan_head flags c l s :
  at_pos (c :: l) s -> ascii c = true -> is_space c = false ->
  lex_scan flags s =
  if is_punct c then (TOKEN_CHAR c, pos l)
  else if Byte.eqb c x22 then lex_scan_string (pos l)
  else if isdigit c || Byte.eqb c x2d then lex_scan_number flags c (pos l)
  else if l_isalpha c then
    let '(c, saved, s) := scan_while (S (length l)) l_isalpha [c] (pos l) in
    let '(saved, s) := unget_unsave c saved s in
    (if bytes_eqb saved (lit "true") then TOKEN_TRUE
     else if bytes_eqb saved (lit "false") then TOKEN_FALSE
     else if bytes_eqb saved (lit "null") then TOKEN_NULL
     else TOKEN_INVALID, s)
  else (TOKEN_INVALID, pos l).
Proof. intros Hs Ha Hc. unfold lex_scan. by rewrite (skip_space_none _ c l s Hs Ha Hc). Qed.

Lemma lex_scan_punct flags c l s :
  at_pos (c :: l) s -> is_punct c = true -> lex_scan flags s = (TOKEN_CHAR c, pos l).
Proof.
  intros Hs Hc. assert (ascii c = true /\ is_space c = false) as [Ha Hsp].
  { unfold is_punct in Hc. rewrite !orb_true_iff, !byte_eqb_eq in Hc.
    by destruct Hc as [[[[[-> | ->] | ->] | ->] | ->] | ->]; vm_compute. }
  by rewrite (lex_scan_head flags c l s), Hc.
Qed.

(** [scan_while] over characters that pass the test, up to one that does not. *)
Lemma scan_while_run fuel pred saved run c l :
  (length run < fuel)%nat -> Forall (fun c => pred c = true /\ ascii c = true) run ->
  pred c = false -> ascii c = true ->
  scan_while fuel pred saved (pos (run ++ c :: l)) = (Got c, saved ++ run ++ [c], pos l).
Proof.
  intros Hf Hrun Hc Ha. revert fuel saved Hf.
  induction Hrun as [|x run [Hx Hxa] Hrun IH]; intros [|f] saved Hf; simpl in Hf; try lia;
    cbn [scan_while app]; unfold lex_get_save.
  - rewrite (stream_get_ascii c l) by auto. by rewrite Hc.
  - rewrite (stream_get_ascii x (run ++ c :: l)) by auto. rewrite Hx, IH by lia.
    by rewrite <-!app_assoc.
Qed.

Lemma unget_unsave_run c saved l :
  unget_unsave (Got c) (saved ++ [c]) (pos l) = (saved, mk_stream [c] l STREAM_STATE_OK).
Proof. unfold unget_unsave. by rewrite removelast_last. Qed.

(** ** Numbers and literals *)

Lemma isdigit_ascii c : isdigit c = true -> ascii c = true.
Proof. unfold isdigit, ascii. intros H. bool_to_prop. apply Z.ltb_lt. lia. Qed.

Lemma l_isalpha_ascii c : l_isalpha c = true -> ascii c = true.
Proof.
  unfold l_isalpha, ascii. rewrite orb_true_iff. intros H. apply Z.ltb_lt.
  destruct H; bool_to_prop; lia.
Qed.

Lemma print_nat_head n :
  0 <= n -> exists c ds, print_nat n = c :: ds /\ isdigit c = true /\
  Forall (fun c => isdigit c = true /\ ascii c = true) ds /\ (c = x30 -> ds = []).
Proof.
  intros Hn. pose proof (print_nat_nonneg_digits n Hn) as Hd.
  assert (Forall (fun c => isdigit c = true /\ ascii c = true) (print_nat n)) as Hd'.
  { eapply Forall_impl; [exact Hd|]. intros c Hc. split; [done|by apply isdigit_ascii]. }
  destruct (Z.eq_dec n 0) as [->|Hne].
  { exists x30, []. by repeat split. }
  destruct (digits_head n) as (d & ds & E & Hr); [lia|].
  unfold print_nat in *. rewrite E in *. cbn [map] in *.
  exists (digit_char d), (map digit_char ds). inversion_clear Hd'. repeat split; [apply H|done|].
  intros Hz. exfalso. assert (digit_val (digit_char d) = Some d) as Hv by (apply digit_val_char; lia).
  rewrite Hz in Hv. vm_compute in Hv. injection Hv. lia.
Qed.

(** The digits behind the first one, read by either branch of the scanner. *)
Lemma scan_digits_run c ds pre d rest :
  Forall (fun c => isdigit c = true /\ ascii c = true) ds -> (c = x30 -> ds = []) ->
  isdigit d = false -> ascii d = true ->
  (if Byte.eqb c x30 then lex_get_save pre (pos (ds ++ d :: rest))
   else scan_while (S (length (ds ++ d :: rest))) isdigit pre (pos (ds ++ d :: rest))) =
  (Got d, pre ++ ds ++ [d], pos rest).
Proof.
  intros Hds Hz Hd Ha. destruct (Byte.eqb c x30) eqn:E.
  - apply byte_eqb_eq in E. rewrite (Hz E). unfold lex_get_save. cbn [app].
    by rewrite (stream_get_ascii d rest) by auto.
  - apply scan_while_run; [len|done..].
Qed.

Lemma strtoll_print z : - 2 ^ 63 <= z < 2 ^ 63 -> strtoll (print_int z) = Some z.
Proof.
  intros Hz. unfold strtoll, print_int. destruct (Z.ltb_spec z 0).
  - change (Byte.eqb x2d x2d) with true. cbv iota. unfold print_nat.
    rewrite parse_digits_print by lia. cbn [fmap option_fmap option_map mbind option_bind].
    rewrite Z.opp_involutive.
    by rewrite (proj2 (Z.leb_le _ _)), (proj2 (Z.ltb_lt _ _)) by lia.
  - destruct (print_nat_head z) as (c & ds & E & Hc & _); [lia|]. rewrite E.
    assert (Byte.eqb c x2d = false) as -> by (apply byte_eqb_neq; by intros ->).
    rewrite <-E. unfold print_nat. rewrite parse_digits_print by lia. cbn [mbind option_bind].
    by rewrite (proj2 (Z.leb_le _ _)), (proj2 (Z.ltb_lt _ _)) by lia.
Qed.

(** The decimal text of a 64-bit integer is far below the overflow of a double. *)
Lemma span_digits_all l : Forall (fun c => isdigit c = true) l -> span_digits l = (l, []).
Proof. induction 1 as [|c l Hc Hl IH]; [done|]. cbn [span_digits]. by rewrite Hc, IH. Qed.

Lemma real_overflows_int z : - 2 ^ 63 <= z < 2 ^ 63 -> real_overflows (print_int z) = false.
Proof.
  intros Hz.
  assert (forall n, 0 <= n <= 2 ^ 63 -> exists c ds, print_nat n = c :: ds /\ Byte.eqb c x2d = false /\
    (let '(int, rest) := span_digits (c :: ds) in
     let '(frac, rest) := match rest with c :: l => if Byte.eqb c x2e then span_digits l else ([], rest)
                          | [] => ([], rest) end in
     2 ^ 1024 - 2 ^ 970 <=? default 0 (parse_digits 10 (int ++ frac)) * 10 ^ 0) = false) as H.
  { intros n Hn. destruct (print_nat_head n) as (c & ds & E & Hc & _); [lia|]. exists c, ds.
    split; [done|]. split; [apply byte_eqb_neq; by intros ->|]. rewrite <-E.
    rewrite span_digits_all by (apply print_nat_nonneg_digits; lia). rewrite app_nil_r.
    unfold print_nat. rewrite parse_digits_print by lia. change (default 0 (Some n)) with n.
    apply Z.leb_gt. apply Z.le_lt_trans with (2 ^ 63); [rewrite Z.pow_0_r; lia|by vm_compute]. }
  unfold real_overflows, print_int. destruct (Z.ltb_spec z 0).
  - destruct (H (- z)) as (c & ds & E & Hc & Hr); [lia|]. change (Byte.eqb x2d x2d) with true. cbv iota.
    rewrite E. rewrite <-E in *. rewrite span_digits_all in Hr |- * by (apply print_nat_nonneg_digits; lia).
    exact Hr.
  - destruct (H z) as (c & ds & E & Hc & Hr); [lia|]. rewrite E, Hc, <-E in *.
    rewrite span_digits_all in Hr |- * by (apply print_nat_nonneg_digits; lia). exact Hr.
Qed.

(** What an integer is read as under the given flags. *)
Definition int_token (flags z : Z) : token :=
  if has_flag flags JSON_DECODE_INT_AS_REAL then TOKEN_REAL (print_int z) else TOKEN_INTEGER z.

Lemma scan_number_rest_integer flags z pre c ds d rest :
  - 2 ^ 63 <= z < 2 ^ 63 -> delimiter d = true ->
  Forall (fun c => isdigit c = true /\ ascii c = true) ds -> (c = x30 -> ds = []) ->
  pre ++ ds = print_int z ->
  scan_number_rest flags c pre (pos (ds ++ d :: rest)) =
  (int_token flags z, mk_stream [d] rest STREAM_STATE_OK).
Proof.
  intros Hz Hd Hds Hzero Hpre. unfold int_token.
  destruct (delimiter_facts d Hd) as (Ha & Hdd & _ & Hdot & HE & He).
  unfold scan_number_rest. rewrite stream_size_pos, scan_digits_run by done.
  cbn [got_digit is_got]. rewrite Hdd, andb_false_r, Hdot, HE, He. cbn [negb andb].
  destruct (has_flag flags JSON_DECODE_INT_AS_REAL); cbn [negb andb].
  - unfold scan_fraction. cbn [is_got]. rewrite Hdot. unfold scan_exponent. cbn [is_got].
    rewrite HE, He. cbn [orb].
    by rewrite app_assoc, Hpre, unget_unsave_run, real_overflows_int.
  - by rewrite app_assoc, Hpre, unget_unsave_run, strtoll_print.
Qed.

(** Letters and digits are neither spaces nor punctuation. *)
Lemma word_char_plain c :
  isdigit c || l_isalpha c = true ->
  is_space c = false /\ is_punct c = false /\ Byte.eqb c x22 = false /\
  (l_isalpha c = true -> isdigit c = false) /\ Byte.eqb c x2d = false.
Proof.
  intros H. assert (implb (isdigit c || l_isalpha c)
    (negb (is_space c) && negb (is_punct c) && negb (Byte.eqb c x22) &&
     implb (l_isalpha c) (negb (isdigit c)) && negb (Byte.eqb c x2d)) = true) as E.
  { revert c H. intros c _. revert c. apply forall_byte. vm_compute. reflexivity. }
  rewrite H in E. cbn [implb] in E. bool_to_prop. repeat split; try done.
  intros Hal. match goal with Hi : implb _ _ = true |- _ => rewrite Hal in Hi end.
  cbn [implb] in *. by bool_to_prop.
Qed.

Lemma lex_scan_integer flags z d rest s :
  - 2 ^ 63 <= z < 2 ^ 63 -> delimiter d = true -> at_pos (print_int z ++ d :: rest) s ->
  lex_scan flags s = (int_token flags z, mk_stream [d] rest STREAM_STATE_OK).
Proof.
  intros Hz Hd Hs. unfold print_int in Hs. destruct (Z.ltb_spec z 0).
  - destruct (print_nat_head (- z)) as (c & ds & E & Hc & Hds & Hzero); [lia|].
    rewrite E in Hs. cbn [app] in Hs.
    rewrite (lex_scan_head flags x2d (c :: ds ++ d :: rest) s) by done.
    change (is_punct x2d) with false. change (Byte.eqb x2d x22) with false.
    change (isdigit x2d || Byte.eqb x2d x2d) with true. cbv iota. unfold lex_scan_number.
    change (Byte.eqb x2d x2d) with true. cbv iota. unfold lex_get_save at 1.
    rewrite (stream_get_ascii c (ds ++ d :: rest)) by (auto using isdigit_ascii).
    rewrite Hc. apply scan_number_rest_integer; try done.
    unfold print_int. by rewrite (proj2 (Z.ltb_lt z 0)), E by lia.
  - destruct (print_nat_head z) as (c & ds & E & Hc & Hds & Hzero); [lia|].
    rewrite E in Hs. cbn [app] in Hs.
    destruct (word_char_plain c) as (Hsp & Hp & Hq & _ & Hm); [by rewrite Hc|].
    rewrite (lex_scan_head flags c (ds ++ d :: rest) s Hs (isdigit_ascii _ Hc) Hsp).
    rewrite Hp, Hq, Hc. cbn [orb]. unfold lex_scan_number. rewrite Hm, Hc.
    apply scan_number_rest_integer; try done.
    unfold print_int. by rewrite (proj2 (Z.ltb_ge z 0)), E by lia.
Qed.

(** A literal: the identifier is read up to the delimiter. *)
Lemma lex_scan_literal flags c w d rest s :
  l_isalpha c = true -> Forall (fun c => l_isalpha c = true) w -> delimiter d = true ->
  at_pos (c :: w ++ d :: rest) s ->
  lex_scan flags s =
  (if bytes_eqb (c :: w) (lit "true") then TOKEN_TRUE
   else if bytes_eqb (c :: w) (lit "false") then TOKEN_FALSE
   else if bytes_eqb (c :: w) (lit "null") then TOKEN_NULL
   else TOKEN_INVALID, mk_stream [d] rest STREAM_STATE_OK).
Proof.
  intros Hc Hw Hd Hs. destruct (delimiter_facts d Hd) as (Ha & _ & Hal & _).
  destruct (word_char_plain c) as (Hsp & Hp & Hq & Hdig & Hm); [by rewrite Hc, orb_true_r|].
  rewrite (lex_scan_head flags c (w ++ d :: rest) s Hs (l_isalpha_ascii _ Hc) Hsp).
  rewrite Hp, Hq, (Hdig Hc), Hm, Hc. cbn [orb]. rewrite scan_while_run; [|len| |done..].
  - rewrite app_assoc, unget_unsave_run. done.
  - eapply Forall_impl; [exact Hw|]. intros x Hx. split; [done|by apply l_isalpha_ascii].
Qed.

(** ** Strings *)

Lemma utf8_cont_high l v w :
  utf8_cont l v = Some w -> Forall (fun c => ascii c = false) l.
Proof.
  revert v. induction l as [|c l IH]; intros v; cbn [utf8_cont]; [constructor|].
  destruct ((Z_of_byte c <? 128) || (191 <? Z_of_byte c)) eqn:E; [done|].
  intros H. apply orb_false_iff in E as [E _]. constructor; [exact E|by eapply IH].
Qed.

Lemma utf8_check_first_ascii c : utf8_check_first c = 1%nat <-> ascii c = true.
Proof.
  assert (Bool.eqb (utf8_check_first c =? 1)%nat (ascii c) = true) as E.
  { revert c. apply forall_byte. vm_compute. reflexivity. }
  apply eqb_prop in E. rewrite <-E. apply iff_sym, Nat.eqb_eq.
Qed.

Lemma utf8_check_first_le c : (utf8_check_first c <= 4)%nat.
Proof.
  apply Nat.leb_le. revert c. apply forall_byte. vm_compute. reflexivity.
Qed.

Lemma utf8_check_full_Some buffer cp :
  utf8_check_full buffer = Some cp ->
  exists c cont, buffer = c :: cont /\ Forall (fun c => ascii c = false) cont /\ 128 <= cp.
Proof.
  destruct buffer as [|c cont]; [done|]. unfold utf8_check_full. cbv zeta.
  intros (mask & Hm & (v & Hv & H)%bind_Some)%bind_Some. exists c, cont.
  split; [done|]. split; [by eapply utf8_cont_high|].
  destruct (1114111 <? v); [done|]. destruct ((55296 <=? v) && _); [done|].
  destruct (_ || _ || _) eqn:E; [done|]. injection H as <-.
  apply orb_false_iff in E as [E E4]. apply orb_false_iff in E as [E2 E3].
  destruct (length (c :: cont) =? 2)%nat; [cbn in E2; bool_to_prop; lia|].
  destruct (length (c :: cont) =? 3)%nat; [cbn in E3; bool_to_prop; lia|].
  destruct (length (c :: cont) =? 4)%nat; [cbn in E4; bool_to_prop; lia|done].
Qed.

(** A code point is one ASCII byte, or a sequence of two to four others. *)
Lemma utf8_iterate_cases l cp count :
  utf8_iterate l = Some (cp, count) ->
  exists c r, l = c :: r /\
  ((count = 1%nat /\ ascii c = true /\ cp = Z_of_byte c) \/
   ((2 <= count <= length l)%nat /\ utf8_check_first c = count /\
    utf8_check_full (take count l) = Some cp /\ 128 <= cp /\
    Forall (fun c => ascii c = false) (take count l))).
Proof.
  destruct l as [|c r]; [done|]. cbn [utf8_iterate]. intros H. exists c, r. split; [done|].
  pose proof (utf8_check_first_le c) as Hle.
  destruct (utf8_check_first c =? 0)%nat eqn:E0; [done|].
  destruct (utf8_check_first c =? 1)%nat eqn:E1; bool_to_prop.
  - injection H as <- <-. left. by rewrite <-utf8_check_first_ascii.
  - destruct (length (c :: r) <? utf8_check_first c)%nat eqn:E2; [done|]. bool_to_prop.
    destruct (utf8_check_full (take (utf8_check_first c) (c :: r))) as [v|] eqn:Ev; [|done].
    injection H as <- <-. right. repeat split; try lia; try done.
    + by apply utf8_check_full_Some in Ev as (? & ? & ? & ? & ?).
    + assert (ascii c = false) as Hc.
      { apply not_true_is_false. by rewrite <-utf8_check_first_ascii. }
      remember (utf8_check_first c) as k. destruct k as [|k]; [lia|]. cbn [take] in *.
      apply utf8_check_full_Some in Ev as (? & ? & [= <- <-] & ? & ?). by constructor.
Qed.

(** The scanner at the character that comes next. *)
Definition scan_from (fuel : nat) (saved : bytes) (s : stream) : option bytes * stream :=
  let '(c, saved, s) := lex_get_save saved s in scan_string fuel c saved s.

Lemma scan_string_plain f c saved s :
  Byte.eqb c x22 = false -> 31 < Z_of_byte c -> Byte.eqb c x5c = false ->
  scan_string (S f) (Got c) saved s = scan_from f saved s.
Proof.
  intros H1 H2 H3. cbn [scan_string]. by rewrite H1, (proj2 (Z.leb_gt _ _)), H3 by lia.
Qed.

Lemma not_ascii_plain c :
  ascii c = false -> Byte.eqb c x22 = false /\ 31 < Z_of_byte c /\ Byte.eqb c x5c = false.
Proof.
  unfold ascii. intros H. bool_to_prop. repeat split; [|lia|]; apply byte_eqb_neq; by intros ->.
Qed.

Lemma scan_from_high f saved b r :
  Forall (fun c => ascii c = false) b ->
  scan_from (length b + f) saved (mk_stream b r STREAM_STATE_OK) = scan_from f (saved ++ b) (pos r).
Proof.
  intros Hb. revert saved. induction Hb as [|c b Hc Hb IH]; intros saved; [by rewrite app_nil_r|].
  destruct (not_ascii_plain c Hc) as (H1 & H2 & H3).
  unfold scan_from at 1, lex_get_save, stream_get.
  cbn [st_state st_buffer st_rest length Nat.add]. rewrite scan_string_plain by done.
  rewrite IH. by rewrite <-app_assoc.
Qed.

Lemma scan_from_sequence f saved l cp count :
  (2 <= count)%nat -> utf8_iterate l = Some (cp, count) ->
  scan_from (count + f) saved (pos l) = scan_from f (saved ++ take count l) (pos (drop count l)).
Proof.
  intros Hc H. destruct (utf8_iterate_cases _ _ _ H) as (c & r & -> & [?|(Hl & Hf & Hu & _ & Hh)]); [lia|].
  assert (ascii c = false) as Ha by (destruct count; [lia|]; by inversion Hh).
  unfold scan_from at 1, lex_get_save, stream_get. cbn [st_state st_buffer st_rest pos].
  unfold ascii in Ha. rewrite Ha. cbv zeta. rewrite Hf, (proj2 (Nat.eqb_neq count 0)) by lia.
  rewrite length_take, Nat.min_l, Nat.eqb_refl by lia. rewrite Hu. cbv iota.
  destruct count as [|k]; [lia|]. cbn [take tail drop] in *. inversion_clear Hh.
  destruct (not_ascii_plain c) as (H3 & H4 & H5); [done|]. cbn [Nat.add].
  rewrite scan_string_plain by done.
  assert (length (take k r) = k) as Hk by (rewrite length_take; simpl in Hl; lia).
  rewrite <-Hk at 1. rewrite scan_from_high by done. by rewrite <-app_assoc.
Qed.

Lemma scan_from_plain f saved c l :
  ascii c = true -> Byte.eqb c x22 = false -> 31 < Z_of_byte c -> Byte.eqb c x5c = false ->
  scan_from (S f) saved (pos (c :: l)) = scan_from f (saved ++ [c]) (pos l).
Proof.
  intros Ha H1 H2 H3. unfold scan_from at 1, lex_get_save.
  rewrite (stream_get_ascii c l) by auto. by rewrite scan_string_plain.
Qed.

Definition escaped (c : byte) : bool :=
  (Z_of_byte c =? 92) || (Z_of_byte c =? 34) || (Z_of_byte c <? 32).

(** The two shapes of an escape, and what they stand for. *)
Lemma escape_text_cases c :
  escaped c = true ->
  (exists e, escape_text (Z_of_byte c) = [x5c; e] /\ ascii e = true /\ Byte.eqb e x75 = false /\
             short_escape e = Some c) \/
  (exists h1 h2 h3 h4, escape_text (Z_of_byte c) = [x5c; x75; h1; h2; h3; h4] /\
     Forall (fun h => isxdigit h = true /\ ascii h = true) [h1; h2; h3; h4] /\
     decode_unicode_escape [h1; h2; h3; h4] = Some (Z_of_byte c) /\
     utf8_encode (Z_of_byte c) = Some [c] /\ Z_of_byte c < 55296).
Proof.
  destruct c; intros H; try discriminate H;
    first [left; eexists; repeat split; reflexivity
          |right; do 4 eexists; repeat split; repeat constructor; reflexivity].
Qed.

Lemma scan_from_escape f saved c l :
  escaped c = true ->
  scan_from (S f) saved (pos (escape_text (Z_of_byte c) ++ l)) =
  scan_from f (saved ++ escape_text (Z_of_byte c)) (pos l).
Proof.
  intros Hc. destruct (escape_text_cases c Hc)
    as [(e & -> & Ha & Hu & He)|(h1 & h2 & h3 & h4 & -> & Hh & _)];
    cbn [app]; unfold scan_from at 1, lex_get_save.
  - rewrite (stream_get_ascii x5c (e :: l)) by auto. cbn [scan_string].
    change (Byte.eqb x5c x22) with false. change (Z_of_byte x5c <=? 31) with false.
    change (Byte.eqb x5c x5c) with true. cbv iota. unfold lex_get_save at 1.
    rewrite (stream_get_ascii e l) by auto. rewrite Hu, He, <-app_assoc. done.
  - rewrite (stream_get_ascii x5c (x75 :: h1 :: h2 :: h3 :: h4 :: l)) by auto. cbn [scan_string].
    change (Byte.eqb x5c x22) with false. change (Z_of_byte x5c <=? 31) with false.
    change (Byte.eqb x5c x5c) with true. cbv iota. unfold lex_get_save at 1.
    rewrite (stream_get_ascii x75 (h1 :: h2 :: h3 :: h4 :: l)) by auto.
    change (Byte.eqb x75 x75) with true. cbv iota. unfold lex_get_save at 1.
    decompose_Forall_hyps. destruct_and?.
    rewrite (stream_get_ascii h1 (h2 :: h3 :: h4 :: l)) by auto. cbn [scan_hex].
    repeat match goal with H : isxdigit ?h = true |- context [isxdigit ?h] => rewrite H end.
    unfold lex_get_save at 1. rewrite (stream_get_ascii h2 (h3 :: h4 :: l)) by auto.
    repeat match goal with H : isxdigit ?h = true |- context [isxdigit ?h] => rewrite H end.
    unfold lex_get_save at 1. rewrite (stream_get_ascii h3 (h4 :: l)) by auto.
    repeat match goal with H : isxdigit ?h = true |- context [isxdigit ?h] => rewrite H end.
    unfold lex_get_save at 1. rewrite (stream_get_ascii h4 l) by auto.
    repeat match goal with H : isxdigit ?h = true |- context [isxdigit ?h] => rewrite H end.
    rewrite <-!app_assoc. cbn [app]. unfold scan_from.
    by destruct (lex_get_save _ (pos l)) as [[??]?].
Qed.

(** One turn of [dump_string]: an escape, a plain character, or a sequence. *)
Lemma dump_string_loop_cases n l body :
  dump_string_loop n l = Some body -> l <> [] ->
  exists n' rest, n = S n' /\
  ((exists c r, l = c :: r /\ escaped c = true /\ dump_string_loop n' r = Some rest /\
      body = escape_text (Z_of_byte c) ++ rest) \/
   (exists c r, l = c :: r /\ ascii c = true /\ escaped c = false /\
      dump_string_loop n' r = Some rest /\ body = c :: rest) \/
   (exists cp count, (2 <= count <= length l)%nat /\ utf8_iterate l = Some (cp, count) /\
      Forall (fun c => ascii c = false) (take count l) /\
      dump_string_loop n' (drop count l) = Some rest /\ body = take count l ++ rest)).
Proof.
  intros H Hne. destruct l as [|c0 r0]; [done|]. destruct n as [|n]; [done|].
  cbn [dump_string_loop] in H. apply bind_Some in H as ([cp count] & Hit & (rest & Hr & H)%bind_Some).
  exists n, rest. split; [done|].
  destruct (utf8_iterate_cases _ _ _ Hit)
    as (c & r & [= <- <-] & [(-> & Ha & ->)|(Hc & _ & _ & Hcp & Hh)]).
  - cbn [drop] in Hr. rewrite drop_0 in Hr. fold (escaped c0) in H. destruct (escaped c0) eqn:E.
    + injection H as <-. left. by exists c0, r0.
    + injection H as <-. right; left. by exists c0, r0.
  - right; right. exists cp, count.
    assert ((cp =? 92) || (cp =? 34) || (cp <? 32) = false) as E.
    { rewrite !orb_false_iff, !Z.eqb_neq, Z.ltb_ge. lia. }
    rewrite E in H. injection H as <-. done.
Qed.

Lemma scan_from_body n l body fuel saved rest :
  dump_string_loop n l = Some body -> (length body < fuel)%nat ->
  scan_from fuel saved (pos (body ++ x22 :: rest)) = (Some (saved ++ body ++ [x22]), pos rest).
Proof.
  revert l body fuel saved. induction n as [n IH] using lt_wf_ind. intros l body fuel saved H Hf.
  destruct (decide (l = [])) as [->|Hne].
  { assert (body = []) as -> by (destruct n; simpl in H; congruence).
    destruct fuel as [|f]; [simpl in Hf; lia|]. cbn [app]. unfold scan_from, lex_get_save.
    by rewrite (stream_get_ascii x22 rest) by auto. }
  destruct (dump_string_loop_cases _ _ _ H Hne) as (n' & rest' & -> &
    [(c & r & -> & Hc & Hr & ->)|[(c & r & -> & Ha & Hc & Hr & ->)|
     (cp & count & Hcount & Hit & Hh & Hr & ->)]]); rewrite length_app in Hf || simpl in Hf.
  - destruct fuel as [|f]; [lia|]. rewrite <-app_assoc, scan_from_escape by done.
    rewrite (IH n' ltac:(lia) _ _ f _ Hr); [by rewrite <-!app_assoc|].
    destruct (escape_text_cases c Hc) as [(e & E & _)|(h1 & h2 & h3 & h4 & E & _)];
      rewrite E in Hf; simpl in Hf; lia.
  - destruct fuel as [|f]; [lia|]. cbn [app]. unfold escaped in Hc.
    rewrite !orb_false_iff, !Z.eqb_neq, Z.ltb_ge in Hc. destruct_and!.
    rewrite scan_from_plain; [|done|apply byte_eqb_neq; by intros ->|lia|apply byte_eqb_neq; by intros ->].
    rewrite (IH n' ltac:(lia) _ _ f _ Hr) by lia. by rewrite <-!app_assoc.
  - rewrite length_take, Nat.min_l in Hf by lia.
    replace fuel with (count + (fuel - count))%nat by lia. rewrite <-app_assoc.
    assert (utf8_iterate (take count l ++ rest' ++ x22 :: rest) = Some (cp, count)) as Hit'.
    { destruct (utf8_iterate_cases _ _ _ Hit) as (c & r & -> & [?|(? & Hf1 & Hfull & _)]); [lia|].
      destruct count as [|k]; [lia|]. cbn [take app utf8_iterate]. rewrite Hf1.
      rewrite (proj2 (Nat.eqb_neq _ 0)), (proj2 (Nat.eqb_neq _ 1)) by lia.
      rewrite (proj2 (Nat.ltb_ge _ _)) by (simpl in *; rewrite length_app, length_take; lia).
      cbn [take] in *. rewrite take_app_le, take_take, Nat.min_id
        by (rewrite length_take; simpl in *; lia). by rewrite Hfull. }
    rewrite (scan_from_sequence _ _ _ cp count (proj1 Hcount) Hit').
    rewrite take_app_le, take_take, Nat.min_id by (rewrite length_take; lia).
    rewrite drop_app_ge by (rewrite length_take; lia).
    rewrite length_take, Nat.min_l, Nat.sub_diag, drop_0 by lia.
    rewrite (IH n' ltac:(lia) _ _ _ _ Hr) by lia. by rewrite <-!app_assoc.
Qed.

Lemma unescape_high b f p :
  Forall (fun c => ascii c = false) b ->
  unescape (length b + f) (b ++ p) = (rest ← unescape f p; Some (b ++ rest)).
Proof.
  induction 1 as [|c b Hc Hb IH]; cbn [length Nat.add app].
  - by destruct (unescape f p).
  - cbn [unescape]. destruct (not_ascii_plain c Hc) as (-> & _ & ->).
    rewrite IH. by destruct (unescape f p).
Qed.

Lemma unescape_body n l body fuel p :
  dump_string_loop n l = Some body -> (length body < fuel)%nat ->
  unescape fuel (body ++ x22 :: p) = Some l.
Proof.
  revert l body fuel. induction n as [n IH] using lt_wf_ind. intros l body fuel H Hf.
  destruct (decide (l = [])) as [->|Hne].
  { assert (body = []) as -> by (destruct n; simpl in H; congruence).
    destruct fuel as [|f]; [simpl in Hf; lia|done]. }
  destruct (dump_string_loop_cases _ _ _ H Hne) as (n' & rest' & -> &
    [(c & r & -> & Hc & Hr & ->)|[(c & r & -> & Ha & Hc & Hr & ->)|
     (cp & count & Hcount & Hit & Hh & Hr & ->)]]); rewrite length_app in Hf || simpl in Hf.
  - destruct fuel as [|f]; [lia|]. rewrite <-app_assoc.
    destruct (escape_text_cases c Hc)
      as [(e & E & _ & Hu & He)|(h1 & h2 & h3 & h4 & E & _ & Hd & Hen & Hlt)];
      rewrite E in Hf |- *; simpl in Hf; cbn [app unescape].
    + change (Byte.eqb x5c x22) with false. change (Byte.eqb x5c x5c) with true. cbv iota.
      rewrite Hu, He. cbn [mbind option_bind]. by rewrite (IH n' ltac:(lia) _ _ f Hr) by lia.
    + change (Byte.eqb x5c x22) with false. change (Byte.eqb x5c x5c) with true.
      change (Byte.eqb x75 x75) with true. cbv iota.
      change (decode_unicode_escape (h1 :: h2 :: h3 :: h4 :: rest' ++ x22 :: p))
        with (decode_unicode_escape [h1; h2; h3; h4]). rewrite Hd. cbn [mbind option_bind].
      rewrite (proj2 (Z.leb_gt 55296 _)), (proj2 (Z.leb_gt 56320 _)) by lia. cbn [andb drop].
      rewrite Hen. cbn [mbind option_bind]. rewrite drop_0.
      by rewrite (IH n' ltac:(lia) _ _ f Hr) by lia.
  - destruct fuel as [|f]; [lia|]. cbn [app unescape]. unfold escaped in Hc.
    rewrite !orb_false_iff, !Z.eqb_neq, Z.ltb_ge in Hc. destruct_and!.
    rewrite (proj2 (byte_eqb_neq c x22)), (proj2 (byte_eqb_neq c x5c)) by (by intros ->).
    by rewrite (IH n' ltac:(lia) _ _ f Hr) by lia.
  - rewrite length_take, Nat.min_l in Hf by lia.
    replace fuel with (length (take count l) + (fuel - count))%nat by (rewrite length_take; lia).
    rewrite <-app_assoc, unescape_high by done.
    rewrite (IH n' ltac:(lia) _ _ _ Hr) by lia. cbn [mbind option_bind]. by rewrite take_drop.
Qed.

(** A dumped string is read back, whatever follows it. *)
Lemma lex_scan_string_dump flags v t rest s :
  dump_string v = Some t -> at_pos (t ++ rest) s ->
  lex_scan flags s = (TOKEN_STRING v, pos rest).
Proof.
  unfold dump_string. intros (body & Hb & [= <-])%bind_Some Hs. cbn [app] in Hs.
  rewrite (lex_scan_head flags x22 ((body ++ [x22]) ++ rest) s) by done.
  change (is_punct x22) with false. change (Byte.eqb x22 x22) with true. cbv iota.
  rewrite <-app_assoc. cbn [app]. unfold lex_scan_string.
  rewrite stream_size_pos.
  pose proof (scan_from_body _ _ _ (S (length (body ++ x22 :: rest))) [x22] rest Hb ltac:(len)) as Hscan.
  unfold scan_from in Hscan. destruct (lex_get_save [x22] (pos (body ++ x22 :: rest))) as [[c saved] s'].
  rewrite Hscan. cbn [app tail]. rewrite (unescape_body _ _ _ _ _ Hb); [done|]. simpl. rewrite length_app. simpl. lia.
Qed.

(** ** Values *)

(** The values [do_dump] writes and [json_loads] reads back. *)
Fixpoint wf_json (j : json) : Prop :=
  match j with
  | JNull | JTrue | JFalse => True
  | JInteger z => - 2 ^ 63 <= z < 2 ^ 63
  | JReal _ => False
  | JString s => no_nul s /\ utf8_check_string s = true
  | JArray l => (fix go l := match l with [] => True | x :: l' => wf_json x /\ go l' end) l
  | JObject l =>
      NoDup (map fst l) /\
      (fix go l := match l with
                   | [] => True
                   | (k, v) :: l' =>
                       (no_nul k /\ utf8_check_string k = true) /\ wf_json v /\ go l'
                   end) l
  end.

Fixpoint json_depth (j : json) : Z :=
  match j with
  | JArray l => 1 + (fix go l := match l with [] => 0 | x :: l' => Z.max (json_depth x) (go l') end) l
  | JObject l =>
      1 + (fix go (l : list (bytes * json)) :=
             match l with [] => 0 | (_, x) :: l' => Z.max (json_depth x) (go l') end) l
  | _ => 1
  end.

Definition wf_elements (l : list json) (depth : Z) : Prop :=
  Forall (fun j => wf_json j /\ json_depth j <= depth) l.

Definition wf_members (l : list (bytes * json)) (depth : Z) : Prop :=
  NoDup (map fst l) /\
  Forall (fun kv => (no_nul kv.1 /\ utf8_check_string kv.1 = true) /\
                    wf_json kv.2 /\ json_depth kv.2 <= depth) l.

Lemma json_depth_pos j : 1 <= json_depth j.
Proof.
  destruct j; simpl; try lia.
  - enough (forall l, 0 <= (fix go l := match l with [] => 0 | x :: l' => Z.max (json_depth x) (go l') end) l)
      by (specialize (H l); lia). clear. induction l as [|x l IH]; [lia|].
    apply Z.le_trans with (2 := Z.le_max_r _ _). exact IH.
  - enough (forall l, 0 <= (fix go (l : list (bytes * json)) :=
       match l with [] => 0 | (_, x) :: l' => Z.max (json_depth x) (go l') end) l)
      by (specialize (H l); lia). clear. induction l as [|[k x] l IH]; [lia|].
    apply Z.le_trans with (2 := Z.le_max_r _ _). exact IH.
Qed.

Lemma wf_array l d : wf_json (JArray l) -> json_depth (JArray l) <= d -> wf_elements l (d - 1).
Proof.
  unfold wf_elements. induction l as [|x l IH]; intros Hw Hd; [constructor|].
  cbn in Hw, Hd, IH. destruct Hw as [Hx Hl]. constructor; [split; [done|lia]|].
  apply IH; [exact Hl|]. clear -Hd. lia.
Qed.

Lemma wf_object l d : wf_json (JObject l) -> json_depth (JObject l) <= d -> wf_members l (d - 1).
Proof.
  unfold wf_members. intros [Hnd Hw] Hd. split; [done|]. clear Hnd.
  induction l as [|[k x] l IH]; [constructor|].
  cbn in Hw, Hd, IH. destruct Hw as (Hk & Hx & Hl). constructor; [cbn; split; [done|split; [done|lia]]|].
  apply IH; [exact Hl|]. clear -Hd. lia.
Qed.

(** A value that is well-formed and not deeper than [d]. *)
Definition json_ok (d : Z) (j : json) : Prop := wf_json j /\ json_depth j <= d.

Lemma json_ok_array d l : json_ok d (JArray l) <-> 1 <= d /\ Forall (json_ok (d - 1)) l.
Proof.
  split.
  - intros [Hw Hd]. pose proof (json_depth_pos (JArray l)). split; [lia|]. by apply wf_array.
  - intros [H1 Hl]. unfold json_ok. induction Hl as [|x l [Hx Hdx] Hl IH]; [split; [done|cbn; lia]|].
    destruct IH as [IHw IHd]. cbn in IHw, IHd |- *. split; [done|]. lia.
Qed.

Lemma json_ok_object d l :
  json_ok d (JObject l) <->
  1 <= d /\ NoDup (map fst l) /\
  Forall (fun kv => (no_nul kv.1 /\ utf8_check_string kv.1 = true) /\ json_ok (d - 1) kv.2) l.
Proof.
  split.
  - intros [Hw Hd]. pose proof (json_depth_pos (JObject l)). split; [lia|]. by apply wf_object.
  - intros (H1 & Hnd & Hl). split; [split; [done|]|]; clear Hnd.
    + induction Hl as [|[k x] l [Hk [Hx Hdx]] Hl IH]; done.
    + induction Hl as [|[k x] l [Hk [Hx Hdx]] Hl IH]; cbn in *; lia.
Qed.

(** ** Reading back what was dumped *)

Definition container (j : json) : Prop :=
  match j with JArray _ | JObject _ => True | _ => False end.

Definition delimited (rest : bytes) : Prop :=
  exists d r, rest = d :: r /\ delimiter d = true.

(** A value as it is read under the given flags. *)
Fixpoint as_read (flags : Z) (j : json) : json :=
  match j with
  | JInteger z =>
      if has_flag flags JSON_DECODE_INT_AS_REAL then JReal (print_int z) else JInteger z
  | JArray l => JArray (map (as_read flags) l)
  | JObject l => JObject (map (fun kv => (kv.1, as_read flags kv.2)) l)
  | _ => j
  end.

Lemma as_read_id flags j : has_flag flags JSON_DECODE_INT_AS_REAL = false -> as_read flags j = j.
Proof.
  intros Hf. induction j as [ | | |z|t|v|l IH|l IH] using json_ind'; cbn [as_read]; rewrite ?Hf; try done.
  - f_equal. induction IH as [|x l Hx _ IH]; [done|]. cbn. by rewrite Hx, IH.
  - f_equal. induction IH as [|[k x] l Hx _ IH]; [done|]. cbn in *. by rewrite Hx, IH.
Qed.

Section ReadBack.
Context (flags : Z).

(** The token at the head of a dumped value starts that value, and
    [parse_value] reads it and stops behind it. *)
Definition reads_back (j : json) : Prop :=
  forall t fuel depth rest s,
  wf_json j -> depth + json_depth j <= JSON_PARSER_MAX_DEPTH -> do_dump j = Some t ->
  (length t <= fuel)%nat -> container j \/ delimited rest -> at_pos (t ++ rest) s ->
  exists tok s1 s2, lex_scan flags s = (tok, s1) /\ is_char tok x5d = false /\
    parse_value fuel flags depth tok s1 = Some (as_read flags j, s2) /\ at_pos rest s2.

Lemma elements_read_back f depth n l body rest s arr :
  Forall reads_back l -> wf_elements l (JSON_PARSER_MAX_DEPTH - depth) -> l <> [] ->
  dump_elements do_dump l = Some body -> (length body <= f)%nat -> (length l <= n)%nat ->
  at_pos (body ++ x5d :: rest) s ->
  exists tok s1, lex_scan flags s = (tok, s1) /\ is_char tok x5d = false /\
    elements_loop (parse_value f flags depth) flags n arr tok s1 =
    Some (JArray (arr ++ map (as_read flags) l), pos rest).
Proof.
  intros HP. revert n body s arr. induction HP as [|x l Hx HP IH]; intros n body s arr Hwf Hne Hd Hf Hn Hs;
    [done|]. unfold wf_elements in Hwf. inversion_clear Hwf as [|?? [Hwx Hdx] Hwl].
  destruct n as [|n]; [simpl in Hn; lia|]. cbn [dump_elements] in Hd.
  apply bind_Some in Hd as (a & Ha & Hd).
  assert (exists tail, body = a ++ tail /\ delimited (tail ++ x5d :: rest) /\
     (l = [] /\ tail = [] \/ l <> [] /\ exists b, dump_elements do_dump l = Some b /\ tail = x2c :: b))
    as (tail & -> & Hdel & Hcase).
  { destruct l as [|y l'].
    - injection Hd as <-. exists []. rewrite app_nil_r. repeat split; [|by left]. by exists x5d, rest.
    - apply bind_Some in Hd as (b & Hb & [= <-]). exists (x2c :: b). repeat split.
      + by exists x2c, (b ++ x5d :: rest).
      + right. split; [done|]. by exists b. }
  rewrite length_app in Hf. rewrite <-app_assoc in Hs.
  destruct (Hx a f depth (tail ++ x5d :: rest) s) as (tok & s1 & s2 & Hlex & Hc & Hp & Hs2);
    [done|lia|done|lia|by right|done|].
  exists tok, s1. repeat split; [done..|]. cbn [elements_loop]. rewrite Hp. cbn [mbind option_bind].
  destruct Hcase as [[-> ->]|(Hl & b & Hb & ->)]; cbn [app] in Hs2.
  - rewrite (lex_scan_punct flags x5d rest s2) by done. done.
  - rewrite (lex_scan_punct flags x2c (b ++ x5d :: rest) s2) by done. cbn [is_char].
    change (Byte.eqb x2c x2c) with true. cbv iota. simpl in Hf, Hn.
    destruct (IH n b (pos (b ++ x5d :: rest)) (arr ++ [as_read flags x])) as (tok' & s1' & Hlex' & _ & He);
      [done|done|done|lia|lia|auto|].
    rewrite Hlex'. rewrite He. by rewrite <-app_assoc.
Qed.

Lemma hashtable_set_fresh {V} (l : list (bytes * V)) k v : k ∉ map fst l -> hashtable_set l k v = l ++ [(k, v)].
Proof.
  induction l as [|[k' v'] l IH]; cbn [hashtable_set map app]; intros H; [done|].
  assert (bytes_eqb k' k = false) as ->.
  { apply not_true_is_false. rewrite bytes_eqb_eq. intros ->. set_solver. }
  by rewrite IH by set_solver.
Qed.

Lemma existsb_key_fresh (l : list (bytes * json)) k :
  k ∉ map fst l -> existsb (fun kv => bytes_eqb kv.1 k) l = false.
Proof.
  intros H. apply not_true_is_false. rewrite existsb_exists. intros ([k' v] & Hin & E).
  apply bytes_eqb_eq in E as <-. apply H. apply list_elem_of_In, in_map_iff. by exists (k', v).
Qed.

Lemma members_read_back f depth n l body rest s obj :
  Forall (fun kv => reads_back kv.2) l ->
  wf_members l (JSON_PARSER_MAX_DEPTH - depth) -> NoDup (map fst obj ++ map fst l) -> l <> [] ->
  dump_members do_dump l = Some body -> (length body <= f)%nat -> (length l <= n)%nat ->
  at_pos (body ++ x7d :: rest) s ->
  exists tok s1, lex_scan flags s = (tok, s1) /\ is_char tok x7d = false /\
    members_loop (parse_value f flags depth) flags n obj tok s1 =
    Some (JObject (obj ++ map (fun kv => (kv.1, as_read flags kv.2)) l), pos rest).
Proof.
  intros HP. revert n body s obj. induction HP as [|[k x] l Hx HP IH];
    intros n body s obj Hwf Hnd Hne Hd Hf Hn Hs; [done|].
  unfold wf_members in Hwf. destruct Hwf as [_ Hwf].
  inversion_clear Hwf as [|?? [[Hk _] [Hwx Hdx]] Hwl]. cbn [fst snd] in *.
  destruct n as [|n]; [simpl in Hn; lia|]. cbn [dump_members] in Hd.
  apply bind_Some in Hd as (ks & Hks & (vs & Hvs & Hd)%bind_Some).
  assert (exists tail, body = ks ++ x3a :: vs ++ tail /\ delimited (tail ++ x7d :: rest) /\
     (l = [] /\ tail = [] \/ l <> [] /\ exists b, dump_members do_dump l = Some b /\ tail = x2c :: b))
    as (tail & -> & Hdel & Hcase).
  { destruct l as [|y l'].
    - injection Hd as <-. exists []. rewrite app_nil_r. repeat split; [|by left]. by exists x7d, rest.
    - apply bind_Some in Hd as (b & Hb & [= <-]). exists (x2c :: b). repeat split.
      + by exists x2c, (b ++ x7d :: rest).
      + right. split; [done|]. by exists b. }
  rewrite length_app in Hf. cbn [length] in Hf. rewrite length_app in Hf.
  rewrite <-app_assoc in Hs. cbn [app] in Hs. rewrite <-app_assoc in Hs.
  rewrite (lex_scan_string_dump flags k ks _ s Hks Hs).
  exists (TOKEN_STRING k), (pos (x3a :: vs ++ tail ++ x7d :: rest)). repeat split; [done..|].
  cbn [members_loop]. rewrite bool_decide_eq_false_2 by done.
  cbn [map fst] in Hnd. apply NoDup_app in Hnd as (Hn1 & Hn2 & Hn3).
  assert (k ∉ map fst obj) as Hfresh by (intros Hin; apply (Hn2 k Hin); set_solver).
  rewrite existsb_key_fresh, andb_false_r by done.
  rewrite (lex_scan_punct flags x3a (vs ++ tail ++ x7d :: rest)) by auto. cbn [is_char].
  change (Byte.eqb x3a x3a) with true. cbv iota.
  destruct (Hx vs f depth (tail ++ x7d :: rest) (pos (vs ++ tail ++ x7d :: rest)))
    as (tok & s1 & s2 & Hlex & _ & Hp & Hs2); [done|lia|done|lia|by right|auto|].
  rewrite Hlex, Hp. cbn [mbind option_bind]. rewrite hashtable_set_fresh by done.
  destruct Hcase as [[-> ->]|(Hl & b & Hb & ->)]; cbn [app] in Hs2.
  - by rewrite (lex_scan_punct flags x7d rest s2).
  - rewrite (lex_scan_punct flags x2c (b ++ x7d :: rest) s2) by done. cbn [is_char].
    change (Byte.eqb x2c x2c) with true. cbv iota. simpl in Hf, Hn.
    destruct (IH n b (pos (b ++ x7d :: rest)) (obj ++ [(k, as_read flags x)])) as (tok' & s1' & Hlex' & _ & He);
      [split; [by inversion Hn3|done]| |done|done|lia|lia|auto|].
    { rewrite map_app, <-app_assoc. by apply NoDup_app. }
    rewrite Hlex'. rewrite He. by rewrite <-app_assoc.
Qed.

Lemma length_dump_elements l body :
  dump_elements do_dump l = Some body -> (length l <= S (length body))%nat.
Proof.
  revert body. induction l as [|x l IH]; intros body; cbn [dump_elements]; [simpl; lia|].
  intros (a & _ & H)%bind_Some. destruct l as [|y l]; [simpl; lia|].
  apply bind_Some in H as (b & Hb & [= <-]). specialize (IH b Hb). rewrite !length_app. simpl in *. lia.
Qed.

Lemma length_dump_members l body :
  dump_members do_dump l = Some body -> (length l <= S (length body))%nat.
Proof.
  revert body. induction l as [|[k x] l IH]; intros body; cbn [dump_members]; [simpl; lia|].
  intros (ks & _ & (vs & _ & H)%bind_Some)%bind_Some. destruct l as [|y l]; [simpl; lia|].
  apply bind_Some in H as (b & Hb & [= <-]). specialize (IH b Hb). simpl in *. repeat (rewrite length_app; simpl). lia.
Qed.

Lemma literal_read_back j c w tok :
  do_dump j = Some (c :: w) -> ~ container j ->
  l_isalpha c = true -> Forall (fun c => l_isalpha c = true) w ->
  (if bytes_eqb (c :: w) (lit "true") then TOKEN_TRUE
   else if bytes_eqb (c :: w) (lit "false") then TOKEN_FALSE
   else if bytes_eqb (c :: w) (lit "null") then TOKEN_NULL else TOKEN_INVALID) = tok ->
  is_char tok x5d = false ->
  (forall f depth s, depth + 1 <= JSON_PARSER_MAX_DEPTH ->
     parse_value (S f) flags depth tok s = Some (as_read flags j, s)) ->
  reads_back j.
Proof.
  intros Hd Hnc Hc Hw Htok Hch Hpv t fuel depth rest s Hwf Hdep Ht Hf [?|(d & r & -> & Hdel)] Hs; [done|].
  rewrite Hd in Ht. injection Ht as <-. cbn [app] in Hs.
  rewrite (lex_scan_literal flags c w d r s Hc Hw Hdel Hs), Htok.
  pose proof (json_depth_pos j). destruct fuel as [|f]; [simpl in Hf; lia|].
  do 3 eexists. repeat split; [done|apply Hpv; lia|auto].
Qed.

Lemma parse_value_read_back j : reads_back j.
Proof.
  induction j as [ | | |z|t|v|l IH|l IH] using json_ind'.
  1-3: eapply literal_read_back; [reflexivity|tauto|reflexivity|by repeat constructor|reflexivity..|];
    intros f depth s Hd; cbn [parse_value];
    by rewrite (proj2 (Z.ltb_ge JSON_PARSER_MAX_DEPTH (depth + 1))) by lia.
  all: intros t' fuel depth rest s Hwf Hdep Ht Hf Hend Hs; cbn [do_dump] in Ht.
  - injection Ht as <-. destruct Hend as [?|(d & r & -> & Hdel)]; [done|].
    rewrite (lex_scan_integer flags z d r s Hwf Hdel Hs).
    destruct fuel as [|f].
    { exfalso. destruct (print_int z) eqn:E; [|simpl in Hf; lia]. revert E. unfold print_int.
      destruct (Z.ltb_spec z 0); [done|]. destruct (print_nat_head z) as (? & ? & -> & _); [lia|done]. }
    cbn [json_depth] in Hdep. do 3 eexists. split; [done|].
    unfold int_token. cbn [as_read parse_value].
    rewrite (proj2 (Z.ltb_ge JSON_PARSER_MAX_DEPTH (depth + 1))) by lia.
    destruct (has_flag flags JSON_DECODE_INT_AS_REAL); repeat split; auto.
  - done.
  - rewrite (lex_scan_string_dump flags v t' rest s Ht Hs).
    destruct fuel as [|f].
    { exfalso. unfold dump_string in Ht. apply bind_Some in Ht as (? & _ & [= <-]). simpl in Hf. lia. }
    do 3 eexists. repeat split; [|auto]. cbn [parse_value json_depth wf_json] in *.
    rewrite (proj2 (Z.ltb_ge JSON_PARSER_MAX_DEPTH (depth + 1))) by lia.
    rewrite (bool_decide_eq_false_2 (x00 ∈ v)) by (by apply Hwf). by rewrite andb_false_r.
  - apply bind_Some in Ht as (body & Hb & [= <-]). change (lit "[") with [x5b] in *.
    change (lit "]") with [x5d] in *. cbn [app] in Hs. rewrite <-app_assoc in Hs. cbn [app] in Hs.
    rewrite (lex_scan_punct flags x5b (body ++ x5d :: rest) s) by done.
    exists (TOKEN_CHAR x5b), (pos (body ++ x5d :: rest)), (pos rest). repeat split; [|auto].
    pose proof (json_depth_pos (JArray l)).
    assert (S (S (length body)) <= fuel)%nat by (revert Hf; simpl; rewrite length_app; simpl; lia).
    destruct fuel as [|f]; [lia|]. cbn [parse_value].
    rewrite (proj2 (Z.ltb_ge JSON_PARSER_MAX_DEPTH (depth + 1))) by lia.
    change (Byte.eqb x5b x7b) with false. change (Byte.eqb x5b x5b) with true. cbv iota.
    destruct (decide (l = [])) as [->|Hne].
    { cbn [dump_elements] in Hb. injection Hb as <-. cbn [app].
      by rewrite (lex_scan_punct flags x5d rest) by auto. }
    destruct (elements_read_back f (depth + 1) f l body rest (pos (body ++ x5d :: rest)) [])
      as (tok & s1 & Hlex & Hc & He); auto.
    { replace (JSON_PARSER_MAX_DEPTH - (depth + 1)) with (JSON_PARSER_MAX_DEPTH - depth - 1) by lia.
      apply wf_array; [done|lia]. }
    { lia. } { pose proof (length_dump_elements l body Hb). lia. }
    by rewrite Hlex, Hc, He.
  - apply bind_Some in Ht as (body & Hb & [= <-]). change (lit "{") with [x7b] in *.
    change (lit "}") with [x7d] in *. cbn [app] in Hs. rewrite <-app_assoc in Hs. cbn [app] in Hs.
    rewrite (lex_scan_punct flags x7b (body ++ x7d :: rest) s) by done.
    exists (TOKEN_CHAR x7b), (pos (body ++ x7d :: rest)), (pos rest). repeat split; [|auto].
    pose proof (json_depth_pos (JObject l)).
    assert (S (S (length body)) <= fuel)%nat by (revert Hf; simpl; rewrite length_app; simpl; lia).
    destruct fuel as [|f]; [lia|]. cbn [parse_value].
    rewrite (proj2 (Z.ltb_ge JSON_PARSER_MAX_DEPTH (depth + 1))) by lia.
    change (Byte.eqb x7b x7b) with true. cbv iota.
    destruct (decide (l = [])) as [->|Hne].
    { cbn [dump_members] in Hb. injection Hb as <-. cbn [app].
      by rewrite (lex_scan_punct flags x7d rest) by auto. }
    destruct (members_read_back f (depth + 1) f l body rest (pos (body ++ x7d :: rest)) [])
      as (tok & s1 & Hlex & Hc & He); auto.
    { replace (JSON_PARSER_MAX_DEPTH - (depth + 1)) with (JSON_PARSER_MAX_DEPTH - depth - 1) by lia.
      apply wf_object; [done|lia]. }
    { apply Hwf. } { lia. } { pose proof (length_dump_members l body Hb). lia. }
    by rewrite Hlex, Hc, He.
Qed.

End ReadBack.

(** ** Every well-formed value is dumped, without NUL *)

Lemma dump_string_loop_total n l :
  utf8_check_loop n l = true -> is_Some (dump_string_loop n l).
Proof.
  revert l. induction n as [|n IH]; intros [|c r]; try done; try (by eexists).
  cbn [utf8_check_loop dump_string_loop]. unfold utf8_iterate.
  destruct (utf8_check_first c =? 0)%nat eqn:E0; [done|].
  destruct (utf8_check_first c =? 1)%nat eqn:E1.
  - intros H. cbn [mbind option_bind]. destruct (IH _ H) as [x ->]. cbn [mbind option_bind].
    destruct (_ || _ || _); by eexists.
  - destruct (length (c :: r) <? utf8_check_first c)%nat; [done|].
    destruct (utf8_check_full _) as [v|]; [|done]. intros H. cbn [mbind option_bind].
    destruct (IH _ H) as [x ->]. cbn [mbind option_bind]. destruct (_ || _ || _); by eexists.
Qed.

Lemma dump_string_total s : utf8_check_string s = true -> is_Some (dump_string s).
Proof.
  intros H. unfold dump_string. destruct (dump_string_loop_total _ _ H) as [b ->]. by eexists.
Qed.

Lemma no_nul_app a b : no_nul (a ++ b) <-> no_nul a /\ no_nul b.
Proof. unfold no_nul. set_solver. Qed.

Lemma no_nul_Forall (P : byte -> Prop) l : Forall P l -> ~ P x00 -> no_nul l.
Proof. intros H Hn Hin. rewrite Forall_forall in H. by apply Hn, H. Qed.

Lemma dump_string_loop_no_nul n l body : dump_string_loop n l = Some body -> no_nul body.
Proof.
  revert l body. induction n as [n IH] using lt_wf_ind. intros l body H.
  destruct (decide (l = [])) as [->|Hne].
  { assert (body = []) as -> by (destruct n; simpl in H; congruence). unfold no_nul. set_solver. }
  destruct (dump_string_loop_cases _ _ _ H Hne) as (n' & rest' & -> &
    [(c & r & -> & Hc & Hr & ->)|[(c & r & -> & Ha & Hc & Hr & ->)|
     (cp & count & Hcount & Hit & Hh & Hr & ->)]]); apply IH in Hr; try lia.
  - apply no_nul_app. split; [|done].
    destruct (escape_text_cases c Hc) as [(e & -> & _ & _ & He)|(h1 & h2 & h3 & h4 & -> & Hh & _)].
    + apply (no_nul_Forall (fun c => c <> x00)); [|tauto]. repeat constructor; [done|]. by intros ->.
    + apply (no_nul_app [x5c; x75]). split; [by_decide|].
      apply (no_nul_Forall _ _ Hh). by intros [? _].
  - apply (no_nul_app [c]). split; [|done]. unfold no_nul. rewrite list_elem_of_singleton. by intros <-.
  - apply no_nul_app. split; [|done]. by apply (no_nul_Forall _ _ Hh).
Qed.

Lemma dump_string_no_nul s t : dump_string s = Some t -> no_nul t.
Proof.
  unfold dump_string. intros (b & Hb%dump_string_loop_no_nul & [= <-])%bind_Some.
  apply (no_nul_app [x22]). split; [by_decide|]. apply no_nul_app. split; [done|by_decide].
Qed.

Lemma print_int_no_nul z : no_nul (print_int z).
Proof.
  assert (forall n, 0 <= n -> no_nul (print_nat n)) as H.
  { intros n Hn. apply (no_nul_Forall _ _ (print_nat_nonneg_digits n Hn)). by vm_compute. }
  unfold print_int. destruct (Z.ltb_spec z 0); [|by apply H].
  apply (no_nul_app [x2d]). split; [by_decide|apply H; lia].
Qed.

Lemma do_dump_wf j : wf_json j -> exists t, do_dump j = Some t /\ no_nul t.
Proof.
  induction j as [ | | |z|t|v|l IH|l IH] using json_ind'; cbn [do_dump]; intros Hwf;
    try (eexists; split; [reflexivity|by_decide]).
  - eexists. split; [done|apply print_int_no_nul].
  - done.
  - destruct (dump_string_total v) as [t Ht]; [apply Hwf|]. exists t. by eauto using dump_string_no_nul.
  - apply (fun H => wf_array l _ H (Z.le_refl _)) in Hwf. revert Hwf.
    generalize (json_depth (JArray l) - 1). intros d Hwf. unfold wf_elements in Hwf.
    enough (exists body, dump_elements do_dump l = Some body /\ no_nul body) as (body & -> & Hn).
    { eexists. split; [done|]. apply no_nul_app. split; [by_decide|]. apply no_nul_app. split; [done|by_decide]. }
    induction IH as [|x l Hx HP IH]; [exists []; split; [done|by_decide]|].
    inversion_clear Hwf as [|?? [Hw _] Hwl]. destruct (Hx Hw) as (a & Ha & Hna).
    destruct (IH Hwl) as (b & Hb & Hnb). cbn [dump_elements]. rewrite Ha. cbn [mbind option_bind].
    destruct l as [|y l]; [by exists a|]. fold (dump_elements do_dump). rewrite Hb.
    eexists. split; [done|]. rewrite !no_nul_app. split; [done|]. split; [by_decide|done].
  - apply (fun H => wf_object l _ H (Z.le_refl _)) in Hwf. revert Hwf.
    generalize (json_depth (JObject l) - 1). intros d [_ Hwf].
    enough (exists body, dump_members do_dump l = Some body /\ no_nul body) as (body & -> & Hn).
    { eexists. split; [done|]. apply no_nul_app. split; [by_decide|]. apply no_nul_app. split; [done|by_decide]. }
    induction IH as [|[k x] l Hx HP IH]; [exists []; split; [done|by_decide]|].
    inversion_clear Hwf as [|?? [[_ Hk] [Hw _]] Hwl]. cbn [fst snd] in *.
    destruct (Hx Hw) as (a & Ha & Hna). destruct (dump_string_total k Hk) as [ks Hks].
    pose proof (dump_string_no_nul _ _ Hks). destruct (IH Hwl) as (b & Hb & Hnb).
    cbn [dump_members]. rewrite Hks, Ha. cbn [mbind option_bind].
    destruct l as [|y l].
    { eexists. split; [done|]. rewrite !no_nul_app. split; [done|]. split; [by_decide|done]. }
    fold (dump_members do_dump). rewrite Hb.
    eexists. split; [done|]. rewrite !no_nul_app. repeat split; try done; by_decide.
Qed.

Lemma parse_value_container fuel flags depth tok s j s' :
  parse_value fuel flags depth tok s = Some (j, s') -> container j ->
  is_char tok x5b || is_char tok x7b = true.
Proof.
  destruct fuel as [|f]; [done|]. cbn [parse_value]. intros Hp Hc.
  destruct (JSON_PARSER_MAX_DEPTH <? depth + 1); [done|].
  destruct tok; try done; try (by injection Hp as <- _).
  - cbn [is_char]. destruct (Byte.eqb c x7b); [apply orb_true_r|]. by destruct (Byte.eqb c x5b).
  - destruct (negb (has_flag flags JSON_ALLOW_NUL) && bool_decide (x00 ∈ s0)); [done|].
    by injection Hp as <- _.
Qed.

Lemma json_dumps_no_nul j t : wf_json j -> json_dumps j = Some t -> no_nul t.
Proof.
  intros Hwf Hd. destruct (do_dump_wf j Hwf) as (t' & Ht & Hn). by destruct j; try done; simplify_eq/=.
Qed.

Lemma utf8_check_ascii l : Forall (fun c => ascii c = true) l -> utf8_check_string l = true.
Proof.
  unfold utf8_check_string. induction 1 as [|c l Hc _ IH]; [done|]. cbn [length utf8_check_loop].
  apply utf8_check_first_ascii in Hc. by rewrite Hc.
Qed.

Lemma dump_load (j : json) (flags : Z) :
  container j -> wf_json j -> json_depth j <= JSON_PARSER_MAX_DEPTH ->
  exists t, json_dumps j = Some t /\ json_loads t flags = Some (as_read flags j).
Proof.
  intros Hc Hwf Hd. destruct (do_dump_wf j Hwf) as (t & Ht & Hn). exists t.
  split; [by destruct j|]. unfold json_loads, parse_json. rewrite cstr_id by done.
  destruct (parse_value_read_back flags j t (S (length t)) 0 [] (pos (t ++ [])))
    as (tok & s1 & s2 & Hlex & _ & Hp & Hs2); [done|lia|done|lia|by left|auto|].
  rewrite app_nil_r in Hlex. fold (pos t). rewrite stream_size_pos, Hlex, Hp. cbn [mbind option_bind].
  rewrite (parse_value_container _ _ _ _ _ _ _ Hp) by (by destruct j).
  rewrite andb_false_r. destruct (has_flag flags JSON_DISABLE_EOF_CHECK); [done|].
  destruct Hs2 as [->|(? & ? & ? & ?)]; [|done]. done.
Qed.

(** ** Properties *)

(** C32: every array or object of the replies and messages (64-bit integers,
    NUL-free UTF-8 strings and distinct keys, nested at most 2048 deep) is
    serialised, and [json_loads] reads the text back as the same value, whatever
    flags it is given, unless they ask for integers as reals. *)
Theorem json_roundtrip (j : json) (flags : Z) :
  container j -> wf_json j -> json_depth j <= JSON_PARSER_MAX_DEPTH ->
  has_flag flags JSON_DECODE_INT_AS_REAL = false ->
  exists t, json_dumps j = Some t /\ json_loads t flags = Some j.
Proof.
  intros Hc Hwf Hd Hf. destruct (dump_load j flags Hc Hwf Hd) as (t & ? & H).
  exists t. by rewrite H, as_read_id.
Qed.

Definition sample_json : json :=
  JObject [(lit "GET", JArray [JString (lit "a\b"); JInteger (-9223372036854775808); JNull]);
           (lit "k", JObject [(lit "x", JTrue)])].

Lemma json_roundtrip_witness :
  exists t, json_dumps sample_json = Some t /\ json_loads t 0 = Some sample_json.
Proof.
  apply json_roundtrip; [done| |by_decide|done].
  split; [by_decide|]. repeat split; by_decide || lia.
Defined.

End JsonLoad.
