(* ===== verification/JsonReply.v ===== *)
(** * JSON replies and WebSocket messages: src/formats/json.c

    How a Redis reply becomes a JSON value (with the special shapes of [INFO],
    [HGETALL], the stream and the geo commands), how it is printed, and how a
    JSON array received over a WebSocket becomes a command. *)
From S2P Require Import Prelude Types Json JsonLoad.

Local Open Scope Z_scope.

Module JsonReply.
Import Json JsonLoad.

(** ** The code *)

(** The text before and behind the first [c]: [strchr] on a C string. *)
Fixpoint split_char (c : byte) (l : bytes) : option (bytes * bytes) :=
  match l with
  | [] => None
  | x :: l' =>
      if Byte.eqb x c then Some ([], l') else '(a, b) ← split_char c l'; Some (x :: a, b)
  end.

(** The loop of [json_info_reply] at [p]; a turn consumes a colon, so the length
    of the text is enough fuel. *)
Fixpoint info_loop (fuel : nat) (p : bytes) (jroot : json) : json :=
  match fuel, p with
  | S f, _ :: _ =>
      match split_char x3a p with
      | None => jroot
      | Some (key, p) =>
          match split_char x0d p with
          | None => jroot
          | Some (val, p) =>
              let p := match p with c :: p' => if Byte.eqb c x0a then p' else p | [] => [] end in
              info_loop f p (json_object_set_new jroot key (json_string (Some val)))
          end
      end
  | _, _ => jroot
  end.

Definition json_info_reply (s : bytes) : json :=
  info_loop (S (strlen s)) (cstr s) (JObject []).

(** [json_expand_array] and the switch of its loop. *)
Fixpoint json_expand_element (e : redisReply) : option json :=
  match e with
  | REPLY_STATUS s | REPLY_STRING s => json_string (Some s)
  | REPLY_INTEGER z => Some (JInteger z)
  | REPLY_ARRAY l =>
      Some (fold_left (fun jlist e => json_array_append_new jlist (json_expand_element e)) l
              (JArray []))
  | _ => Some JNull
  end.

Definition json_expand_array (element : list redisReply) : json :=
  fold_left (fun jlist e => json_array_append_new jlist (json_expand_element e)) element (JArray []).

(** The loop of [json_array_to_keyvalue_reply]; [None] is its [NULL]. *)
Fixpoint keyvalue_loop (element : list redisReply) (jroot : json) : option json :=
  match element with
  | k :: v :: rest =>
      match k with
      | REPLY_STRING ks =>
          match v with
          | REPLY_NIL => keyvalue_loop rest (json_object_set_new jroot ks (Some JNull))
          | REPLY_STRING vs => keyvalue_loop rest (json_object_set_new jroot ks (json_string (Some vs)))
          | REPLY_INTEGER z => keyvalue_loop rest (json_object_set_new jroot ks (Some (JInteger z)))
          | REPLY_ARRAY l => keyvalue_loop rest (json_object_set_new jroot ks (Some (json_expand_array l)))
          | _ => None
          end
      | _ => None
      end
  | _ => Some jroot
  end.

Definition json_array_to_keyvalue_reply (element : list redisReply) : option json :=
  if (Z.of_nat (length element) mod 2 =? 0) then keyvalue_loop element (JObject []) else None.

Definition json_singlestream_list (element : list redisReply) : json :=
  fold_left (fun jlist e =>
    match e with
    | REPLY_ARRAY (REPLY_STRING id :: REPLY_ARRAY msg :: _) =>
        if (length id <? 1)%nat then jlist
        else if (length msg <? 2)%nat then jlist
        else
          let jmsg := json_object_set_new (JObject []) (lit "id") (json_string (Some id)) in
          let jsubmsg := default JNull (json_array_to_keyvalue_reply msg) in
          let jmsg := json_object_set_new jmsg (lit "msg") (Some jsubmsg) in
          json_array_append_new jlist (Some jmsg)
    | _ => jlist
    end) element (JArray []).

Definition json_xreadstream_list (element : list redisReply) : option json :=
  match element with
  | [] => None
  | _ =>
      Some (fold_left (fun jobj e =>
        match e with
        | REPLY_ARRAY (REPLY_STRING sid :: REPLY_ARRAY msglist :: _) =>
            if (length sid <? 1)%nat then jobj
            else json_object_set_new jobj sid (Some (json_singlestream_list msglist))
        | _ => jobj
        end) element (JObject []))
  end.

(** [json_object_set_new(j, key, json_string(r->str))] if [r] is a string. *)
Definition set_if_string (j : json) (key : bytes) (r : redisReply) : json :=
  match r with
  | REPLY_STRING s => json_object_set_new j key (json_string (Some s))
  | _ => j
  end.

Definition set_if_integer (j : json) (key : bytes) (r : redisReply) : json :=
  match r with
  | REPLY_INTEGER z => json_object_set_new j key (Some (JInteger z))
  | _ => j
  end.

(** The consumers of an [XPENDING] summary. *)
Definition xpending_owners (element : list redisReply) : json :=
  fold_left (fun jown e =>
    match e with
    | REPLY_ARRAY (REPLY_STRING own :: msgs :: _) =>
        set_if_integer (set_if_string jown own msgs) own msgs
    | _ => jown
    end) element (JObject []).

(** One line of an extended [XPENDING]. *)
Definition xpending_line (jlist : json) (e : redisReply) : json :=
  match e with
  | REPLY_ARRAY (e0 :: e1 :: e2 :: e3 :: _) =>
      let jobj := set_if_string (JObject []) (lit "id") e0 in
      let jobj := set_if_string jobj (lit "owner") e1 in
      let jobj := set_if_integer jobj (lit "elapsedtime") e2 in
      let jobj := set_if_integer jobj (lit "deliveries") e3 in
      json_array_append_new jlist (Some jobj)
  | _ => jlist
  end.

Definition json_xpending_list (element : list redisReply) : json :=
  match element with
  | REPLY_INTEGER n :: e1 :: e2 :: e3 :: _ =>
      let jobj := json_object_set_new (JObject []) (lit "msgs") (Some (JInteger n)) in
      let jobj := set_if_string jobj (lit "idmin") e1 in
      let jobj := set_if_string jobj (lit "idmax") e2 in
      match e3 with
      | REPLY_ARRAY owners =>
          json_object_set_new jobj (lit "msgsperconsumer") (Some (xpending_owners owners))
      | _ => jobj
      end
  | _ => fold_left xpending_line element (JArray [])
  end.

(** [r->str], [NULL] for a reply without text. *)
Definition reply_str (r : redisReply) : option bytes :=
  match r with
  | REPLY_STRING s | REPLY_STATUS s | REPLY_ERROR s => Some s
  | _ => None
  end.

(** One attribute of a place in [json_georadius_with_list]. *)
Definition geo_attribute (jobj : json) (e : redisReply) : json :=
  match e with
  | REPLY_INTEGER z => json_object_set_new jobj (lit "hash") (Some (JInteger z))
  | REPLY_STRING s => json_object_set_new jobj (lit "dist") (json_string (Some s))
  | REPLY_ARRAY [REPLY_STRING lon; REPLY_STRING lat] =>
      let jcoo := json_array_append_new (JArray []) (json_string (Some lon)) in
      let jcoo := json_array_append_new jcoo (json_string (Some lat)) in
      json_object_set_new jobj (lit "coords") (Some jcoo)
  | _ => jobj
  end.

Definition json_georadius_with_list (element : list redisReply) : json :=
  fold_left (fun jlist e =>
    match e with
    | REPLY_ARRAY (name :: attributes) =>
        let jobj := json_object_set_new (JObject []) (lit "name") (json_string (reply_str name)) in
        json_array_append_new jlist (Some (fold_left geo_attribute attributes jobj))
    | _ => jlist
    end) element (JArray []).

Definition first_is_array (element : list redisReply) : bool :=
  match element with REPLY_ARRAY _ :: _ => true | _ => false end.

(** The [REDIS_REPLY_ARRAY] case of [json_wrap_redis_reply]; [None] leaves the
    root empty. *)
Definition wrap_array (verb : bytes) (element : list redisReply) : option json :=
  if strcasecmp_eq verb (lit "HGETALL") then json_array_to_keyvalue_reply element
  else if strcasecmp_eq verb (lit "XRANGE") || strcasecmp_eq verb (lit "XREVRANGE") ||
          (strcasecmp_eq verb (lit "XCLAIM") && first_is_array element)
  then Some (json_singlestream_list element)
  else if strcasecmp_eq verb (lit "XREAD") || strcasecmp_eq verb (lit "XREADGROUP")
  then json_xreadstream_list element
  else if strcasecmp_eq verb (lit "XPENDING") then Some (json_xpending_list element)
  else if strncasecmp_eq 9 verb (lit "GEORADIUS") && first_is_array element
  then Some (json_georadius_with_list element)
  else Some (json_expand_array element).

Definition json_wrap_redis_reply (c : cmd) (r : redisReply) : json :=
  let verb := if cmd_count c =? 0 then [] else default [] (head (cmd_argv c)) in
  let jroot := JObject [] in
  match r with
  | REPLY_STATUS s | REPLY_ERROR s =>
      let jlist := json_array_append_new (JArray [])
        (Some (match r with REPLY_ERROR _ => JFalse | _ => JTrue end)) in
      let jlist := json_array_append_new jlist (json_string (Some s)) in
      json_object_set_new jroot verb (Some jlist)
  | REPLY_STRING s =>
      if strcasecmp_eq verb (lit "INFO")
      then json_object_set_new jroot verb (Some (json_info_reply s))
      else json_object_set_new jroot verb (json_string (Some s))
  | REPLY_INTEGER z => json_object_set_new jroot verb (Some (JInteger z))
  | REPLY_ARRAY element => json_object_set_new jroot verb (wrap_array verb element)
  | _ => json_object_set_new jroot verb (Some JNull)
  end.

(** [json_string_output]: the text, wrapped in a call when a callback is given. *)
Definition json_string_output (j : json) (jsonp : option bytes) : option bytes :=
  json_reply ← json_dumps j;
  match jsonp with
  | Some name => Some (cstr name ++ lit "(" ++ json_reply ++ lit ");" ++ [x0a])
  | None => Some json_reply
  end.

(** [json_ws_extract]: the argument vector of the command it builds. The second
    argument of [json_loads] is its flags; the code passes the payload size. *)
Definition ws_argument (j : json) : option bytes :=
  match j with
  | JString s => Some (cstr s)
  | JInteger z => Some (print_int (i32 z))
  | _ => None
  end.

Definition json_ws_extract (p : bytes) : option (list bytes) :=
  let sz := Z.of_nat (length p) in
  j ← json_loads p sz;
  match j with
  | JArray l =>
      match omap ws_argument l with
      | [] => None
      | argv => Some argv
      end
  | _ => None
  end.

Definition json_ws_error (http_status : Z) (msg : bytes) : option bytes :=
  let jroot := json_object_set_new (JObject []) (lit "error") (Some JTrue) in
  let jroot := json_object_set_new jroot (lit "message") (json_string (Some msg)) in
  let jroot := json_object_set_new jroot (lit "http_status") (Some (JInteger http_status)) in
  json_string_output jroot None.

(** ** The shape of the values *)

Lemma append_fold {A} (f : A -> option json) l acc :
  fold_left (fun jlist e => json_array_append_new jlist (f e)) l (JArray acc) =
  JArray (acc ++ omap f l).
Proof.
  revert acc. induction l as [|x l IH]; intros acc; cbn [fold_left omap list_omap]; [by rewrite app_nil_r|].
  destruct (f x) as [v|]; cbn [json_array_append_new]; [|by rewrite IH]. by rewrite IH, <-app_assoc.
Qed.

(** An array keeps exactly the elements that have a JSON form. *)
Lemma json_expand_array_omap l : json_expand_array l = JArray (omap json_expand_element l).
Proof. apply (append_fold json_expand_element l []). Qed.

Lemma json_expand_element_array l :
  json_expand_element (REPLY_ARRAY l) = Some (JArray (omap json_expand_element l)).
Proof. cbn [json_expand_element]. f_equal. apply (append_fold json_expand_element l []). Qed.

(** What a reply must be for its JSON to be: integers of 64 bits, as [long long]
    holds, and a bounded nesting. *)
Fixpoint reply_ok (r : redisReply) : Prop :=
  match r with
  | REPLY_INTEGER z => - 2 ^ 63 <= z < 2 ^ 63
  | REPLY_ARRAY l => (fix go l := match l with [] => True | x :: l' => reply_ok x /\ go l' end) l
  | _ => True
  end.

Fixpoint reply_depth (r : redisReply) : Z :=
  match r with
  | REPLY_ARRAY l =>
      1 + (fix go l := match l with [] => 0 | x :: l' => Z.max (reply_depth x) (go l') end) l
  | _ => 1
  end.

Definition good (d : Z) (r : redisReply) : Prop := reply_ok r /\ reply_depth r <= d.

Lemma reply_depth_pos r : 1 <= reply_depth r.
Proof.
  destruct r; simpl; try lia.
  enough (forall l, 0 <= (fix go l := match l with [] => 0 | x :: l' => Z.max (reply_depth x) (go l') end) l)
    by (specialize (H element); lia). clear. induction l as [|x l IH]; [lia|].
  apply Z.le_trans with (2 := Z.le_max_r _ _). exact IH.
Qed.

Lemma good_pos d r : good d r -> 1 <= d.
Proof. intros [_ H]. pose proof (reply_depth_pos r). lia. Qed.

Lemma good_array d l : good d (REPLY_ARRAY l) -> Forall (good (d - 1)) l.
Proof.
  unfold good. intros [Hw Hd]. induction l as [|x l IH]; [constructor|].
  cbn in Hw, Hd, IH. destruct Hw as [Hx Hl]. constructor; [split; [done|lia]|].
  apply IH; [exact Hl|]. clear -Hd. lia.
Qed.

Lemma good_mono d d' r : good d r -> d <= d' -> good d' r.
Proof. intros [? ?] ?. split; [done|lia]. Qed.

(** ** Well-formedness *)

Definition opt_ok (d : Z) (v : option json) : Prop := forall j, v = Some j -> json_ok d j.

Definition obj_ok (d : Z) (j : json) : Prop := json_ok d j /\ exists l, j = JObject l.
Definition arr_ok (d : Z) (j : json) : Prop := json_ok d j /\ exists l, j = JArray l.

Lemma json_ok_mono d d' j : json_ok d j -> d <= d' -> json_ok d' j.
Proof. intros [? ?] ?. split; [done|lia]. Qed.

Lemma json_string_ok d v : 1 <= d -> opt_ok d (json_string v).
Proof.
  intros Hd j. unfold json_string. destruct v as [v|]; [|done]. cbn [mbind option_bind].
  destruct (utf8_check_string (cstr v)) eqn:E; [|done]. intros [= <-].
  split; [split; [apply cstr_no_nul|done]|done].
Qed.

Lemma opt_ok_Some d j : json_ok d j -> opt_ok d (Some j).
Proof. by intros H ? [= <-]. Qed.

Lemma obj_ok_empty d : 1 <= d -> obj_ok d (JObject []).
Proof. intros H. split; [|by eexists]. apply json_ok_object. repeat split; [done|constructor..]. Qed.

Lemma arr_ok_empty d : 1 <= d -> arr_ok d (JArray []).
Proof. intros H. split; [|by eexists]. apply json_ok_array. split; [done|constructor]. Qed.

Lemma hashtable_set_keys {V} (l : list (bytes * V)) k v : map fst (hashtable_set l k v) =
  if bool_decide (k ∈ map fst l) then map fst l else map fst l ++ [k].
Proof.
  induction l as [|[k' v'] l IH]; [done|]. cbn [hashtable_set map fst].
  destruct (bytes_eqb k' k) eqn:E.
  - apply bytes_eqb_eq in E as ->. rewrite bool_decide_eq_true_2 by set_solver. done.
  - assert (k' <> k) by (intros ->; by rewrite (proj2 (bytes_eqb_eq k k) eq_refl) in E).
    cbn [map fst]. rewrite IH. case_bool_decide as H1.
    + rewrite bool_decide_eq_true_2 by set_solver. done.
    + rewrite bool_decide_eq_false_2 by set_solver. done.
Qed.

Lemma hashtable_set_Forall (P : bytes * json -> Prop) l k v :
  Forall P l -> P (k, v) -> Forall P (hashtable_set l k v).
Proof.
  intros Hl Hv. induction Hl as [|[k' v'] l Hx Hl IH]; [by repeat constructor|].
  cbn [hashtable_set]. destruct (bytes_eqb k' k) eqn:E; [|by constructor].
  apply bytes_eqb_eq in E as ->. by constructor.
Qed.

Lemma object_set_ok d j k v :
  obj_ok d j -> opt_ok (d - 1) v -> obj_ok d (json_object_set_new j k v).
Proof.
  intros [Hj [l ->]] Hv. unfold json_object_set_new.
  destruct (utf8_check_string (cstr k)) eqn:Ek; [|by split; [|eexists]].
  destruct v as [v|]; cbn [json_object_setn_new_nocheck]; [|by split; [|eexists]].
  split; [|by eexists]. apply json_ok_object in Hj as (H1 & Hnd & Hl). apply json_ok_object.
  split; [done|]. split.
  - rewrite hashtable_set_keys. case_bool_decide as Hin; [done|].
    apply NoDup_app. repeat split; [done|set_solver|apply NoDup_singleton].
  - apply hashtable_set_Forall; [done|]. split; [split; [apply cstr_no_nul|done]|by apply Hv].
Qed.

Lemma array_append_ok d j v :
  arr_ok d j -> opt_ok (d - 1) v -> arr_ok d (json_array_append_new j v).
Proof.
  intros [Hj [l ->]] Hv. destruct v as [v|]; cbn [json_array_append_new]; [|by split; [|eexists]].
  split; [|by eexists]. apply json_ok_array in Hj as [H1 Hl]. apply json_ok_array.
  split; [done|]. apply Forall_app_2; [done|]. apply Forall_singleton. by apply Hv.
Qed.

#[local] Hint Resolve object_set_ok array_append_ok json_string_ok opt_ok_Some : jok.
#[local] Hint Resolve obj_ok_empty arr_ok_empty : jok.

Lemma obj_json_ok d j : obj_ok d j -> json_ok d j.
Proof. by intros [? _]. Qed.
Lemma arr_json_ok d j : arr_ok d j -> json_ok d j.
Proof. by intros [? _]. Qed.
#[local] Hint Resolve obj_json_ok arr_json_ok : jok.
#[local] Hint Extern 1 (_ <= _)%Z => lia : jok.

(** A fold keeps an invariant of the accumulator. *)
Lemma fold_left_inv {A B} (P : A -> Prop) (Q : B -> Prop) (f : A -> B -> A) l a :
  P a -> Forall Q l -> (forall a b, P a -> Q b -> P (f a b)) -> P (fold_left f l a).
Proof.
  intros Ha Hl Hf. revert a Ha. induction Hl as [|b l Hb Hl IH]; intros a Ha; [done|]. cbn. auto.
Qed.

Lemma leaf_ok d z : 1 <= d -> - 2 ^ 63 <= z < 2 ^ 63 -> json_ok d (JInteger z).
Proof. intros. split; [done|done]. Qed.

Lemma null_ok d : 1 <= d -> json_ok d JNull /\ json_ok d JTrue /\ json_ok d JFalse.
Proof. intros. repeat split; done. Qed.

Lemma good_integer d z : good d (REPLY_INTEGER z) -> - 2 ^ 63 <= z < 2 ^ 63.
Proof. by intros [? _]. Qed.

#[local] Hint Resolve leaf_ok good_integer : jok.

Lemma omap_ok (P : redisReply -> Prop) (Q : json -> Prop) f l :
  Forall P l -> (forall x j, P x -> f x = Some j -> Q j) -> Forall Q (omap f l).
Proof.
  intros Hl Hf. induction Hl as [|x l Hx Hl IH]; [constructor|]. cbn [omap list_omap].
  destruct (f x) eqn:E; [|done]. constructor; [by eapply Hf|done].
Qed.

Lemma json_expand_element_ok e d : good d e -> opt_ok d (json_expand_element e).
Proof.
  revert d. induction e as [s|l IH|z| |s|s|z] using redisReply_ind'; intros d Hg;
    pose proof (good_pos _ _ Hg).
  1,5: by apply json_string_ok.
  2: apply opt_ok_Some, leaf_ok; [done|by eapply good_integer].
  2-4: apply opt_ok_Some; by apply null_ok.
  rewrite json_expand_element_array. apply opt_ok_Some, json_ok_array. split; [done|].
  apply good_array in Hg. eapply (omap_ok (fun e => good (d - 1) e /\
    (forall d, good d e -> opt_ok d (json_expand_element e)))).
  - by apply Forall_and.
  - intros x j [Hx Hi] E. by apply (Hi _ Hx).
Qed.

Section Builders.
Context (d : Z) (Hd : 0 <= d).

Lemma json_expand_array_ok l : Forall (good d) l -> arr_ok (d + 1) (json_expand_array l).
Proof using Hd.
  intros Hl. apply (fold_left_inv (arr_ok (d + 1)) (good d)); [auto with jok|done|].
  intros j e Hj He. apply array_append_ok; [done|].
  replace (d + 1 - 1) with d by lia. by apply json_expand_element_ok.
Qed.

Lemma json_info_reply_ok s : obj_ok (d + 2) (json_info_reply s).
Proof using Hd.
  unfold json_info_reply. generalize (S (strlen s)) as f, (cstr s) as p.
  assert (obj_ok (d + 2) (JObject [])) as Hj by auto with jok. revert Hj.
  generalize (JObject []) as j. intros j Hj f. revert j Hj.
  induction f as [|f IH]; intros j Hj p; [done|]. destruct p as [|c p]; [done|].
  cbn [info_loop]. destruct (split_char x3a (c :: p)) as [[key p1]|]; [|done].
  destruct (split_char x0d p1) as [[val p2]|]; [|done].
  apply IH. apply object_set_ok; auto with jok.
Qed.

Lemma keyvalue_loop_ok n l j j' :
  (length l <= n)%nat -> Forall (good d) l -> obj_ok (d + 2) j -> keyvalue_loop l j = Some j' -> obj_ok (d + 2) j'.
Proof using Hd.
  revert l j. induction n as [|n IH]; intros l j Hn Hl Hj; destruct l as [|k [|v l]];
    simpl in Hn; try lia; cbn [keyvalue_loop]; try (by intros [= <-]).
  inversion_clear Hl as [|?? Hk Hl1]. inversion_clear Hl1 as [|?? Hv Hl2].
  destruct k; try done. destruct v; try done; intros H; eapply IH; try exact H; try done; try lia;
    apply object_set_ok; auto with jok; [|eauto with jok|by apply opt_ok_Some, null_ok; lia].
  apply opt_ok_Some. apply good_array in Hv.
  apply json_ok_mono with (d + 1); [|lia]. apply arr_json_ok, json_expand_array_ok.
  eapply Forall_impl; [exact Hv|]. intros x Hx. by apply (good_mono (d - 1)); [|lia].
Qed.

Lemma json_keyvalue_ok l : Forall (good d) l -> opt_ok (d + 2) (json_array_to_keyvalue_reply l).
Proof using Hd.
  intros Hl j. unfold json_array_to_keyvalue_reply. destruct (_ =? 0); [|done].
  intros H. apply obj_json_ok. eapply keyvalue_loop_ok; [reflexivity|done| |done]. auto with jok.
Qed.

End Builders.

Lemma json_singlestream_ok d l :
  0 <= d -> Forall (good d) l -> arr_ok (d + 3) (json_singlestream_list l).
Proof.
  intros Hd Hl. apply (fold_left_inv (arr_ok (d + 3)) (good d)); [auto with jok|done|].
  intros j e Hj He. destruct e as [|[|[id| | | | | |] [|[|msg| | | | |] ?]]| | | | |]; try done.
  destruct (_ <? 1)%nat; [done|]. destruct (_ <? 2)%nat; [done|].
  apply good_array in He. inversion_clear He as [|?? _ He1]. inversion_clear He1 as [|?? Hm _].
  pose proof (good_pos _ _ Hm). apply good_array in Hm.
  apply array_append_ok; [done|]. apply opt_ok_Some, obj_json_ok.
  apply object_set_ok; [apply object_set_ok; auto with jok|]. apply opt_ok_Some.
  destruct (json_array_to_keyvalue_reply msg) as [kv|] eqn:E; [|apply null_ok; cbn; lia].
  cbn [default]. apply json_ok_mono with (d - 1 - 1 + 2); [|lia].
  eapply json_keyvalue_ok; [|exact Hm|done]. lia.
Qed.

Lemma json_xreadstream_ok d l :
  0 <= d -> Forall (good d) l -> opt_ok (d + 4) (json_xreadstream_list l).
Proof.
  intros Hd Hl j. destruct l as [|x l]; [done|]. unfold json_xreadstream_list.
  intros H%(inj Some). subst j. apply obj_json_ok. apply (fold_left_inv (obj_ok (d + 4)) (good d)); [auto with jok|done|].
  intros j e Hj He. destruct e as [|[|[sid| | | | | |] [|[|msg| | | | |] ?]]| | | | |]; try done.
  destruct (_ <? 1)%nat; [done|].
  apply good_array in He. inversion_clear He as [|?? _ He1]. inversion_clear He1 as [|?? Hm _].
  pose proof (good_pos _ _ Hm). apply good_array in Hm.
  apply object_set_ok; [done|]. apply opt_ok_Some.
  apply json_ok_mono with (d - 1 - 1 + 3); [|lia]. apply arr_json_ok, json_singlestream_ok; [lia|done].
Qed.

Lemma set_if_ok d e j k :
  2 <= d -> (exists d', good d' e) -> obj_ok d j ->
  obj_ok d (set_if_string j k e) /\ obj_ok d (set_if_integer j k e).
Proof.
  intros Hd [d' He] Hj. split; destruct e; try done; apply object_set_ok; auto with jok.
  apply opt_ok_Some, leaf_ok; [lia|by eapply good_integer].
Qed.

Lemma Forall_good d l : Forall (good d) l -> Forall (fun e => exists d', good d' e) l.
Proof. intros H. eapply Forall_impl; [exact H|]. intros x Hx. by exists d. Qed.

Lemma json_xpending_ok d l : 0 <= d -> Forall (good d) l -> json_ok (d + 4) (json_xpending_list l).
Proof.
  intros Hd Hl.
  assert (json_ok (d + 4) (fold_left xpending_line l (JArray []))) as Hlist.
  { apply arr_json_ok. apply (fold_left_inv (arr_ok (d + 4)) (good d)); [auto with jok|done|].
    intros j e Hj He. destruct e as [|[|e0 [|e1 [|e2 [|e3 ?]]]]| | | | |]; try done. cbn [xpending_line].
    apply good_array, Forall_good in He. decompose_Forall_hyps.
    apply array_append_ok; [done|]. apply opt_ok_Some, obj_json_ok.
    apply set_if_ok; [lia|eauto|]. apply set_if_ok; [lia|eauto|]. apply set_if_ok; [lia|eauto|].
    apply set_if_ok; [lia|eauto|]. auto with jok. }
  unfold json_xpending_list. destruct l as [|[| |n| | | |] [|e1 [|e2 [|e3 l]]]]; try exact Hlist.
  decompose_Forall_hyps.
  assert (obj_ok (d + 4) (set_if_string (set_if_string (json_object_set_new (JObject []) (lit "msgs")
            (Some (JInteger n))) (lit "idmin") e1) (lit "idmax") e2)) as Hobj.
  { apply set_if_ok; [lia|eauto|]. apply set_if_ok; [lia|eauto|].
    apply object_set_ok; [auto with jok|]. apply opt_ok_Some, leaf_ok; [lia|by eapply good_integer]. }
  destruct e3 as [|owners| | | | |]; try (by apply obj_json_ok).
  apply obj_json_ok, object_set_ok; [done|]. apply opt_ok_Some, obj_json_ok.
  apply (fold_left_inv (obj_ok (d + 4 - 1)) (good (d - 1))); [auto with jok|by apply good_array|].
  intros j e Hj He. destruct e as [|[|[own| | | | | |] [|msgs ?]]| | | | |]; try done.
  apply good_array, Forall_good in He. decompose_Forall_hyps.
  apply set_if_ok; [lia|eauto|]. apply set_if_ok; [lia|eauto|done].
Qed.

Lemma json_georadius_ok d l : 0 <= d -> Forall (good d) l -> arr_ok (d + 4) (json_georadius_with_list l).
Proof.
  intros Hd Hl. apply (fold_left_inv (arr_ok (d + 4)) (good d)); [auto with jok|done|].
  intros j e Hj He. destruct e as [|[|name attrs]| | | | |]; try done.
  apply good_array in He. inversion_clear He as [|?? _ Ha].
  apply array_append_ok; [done|]. apply opt_ok_Some, obj_json_ok.
  apply (fold_left_inv (obj_ok (d + 4 - 1)) (good (d - 1))); [|done|].
  - apply object_set_ok; auto with jok.
  - intros o a Ho Hga. destruct a as [s|[|[lon| | | | | |] [|[lat| | | | | |] [|? ?]]]|z| | | |]; try done.
    + apply object_set_ok; auto with jok.
    + cbn [geo_attribute]. apply object_set_ok; [done|].
      apply opt_ok_Some, arr_json_ok. apply array_append_ok; [apply array_append_ok|]; auto with jok.
    + apply object_set_ok; [done|]. apply opt_ok_Some, leaf_ok; [lia|by eapply good_integer].
Qed.

Lemma wrap_array_ok d verb l : 0 <= d -> Forall (good d) l -> opt_ok (d + 4) (wrap_array verb l).
Proof.
  intros Hd Hl. unfold wrap_array.
  destruct (strcasecmp_eq verb (lit "HGETALL")).
  { intros j Hj. apply json_ok_mono with (d + 2); [|lia]. by eapply json_keyvalue_ok. }
  destruct (_ || _ || _).
  { apply opt_ok_Some. apply json_ok_mono with (d + 3); [|lia]. by apply arr_json_ok, json_singlestream_ok. }
  destruct (_ || _); [by apply json_xreadstream_ok|].
  destruct (strcasecmp_eq verb (lit "XPENDING")); [by apply opt_ok_Some, json_xpending_ok|].
  destruct (_ && _); apply opt_ok_Some; [by apply arr_json_ok, json_georadius_ok|].
  apply json_ok_mono with (d + 1); [|lia]. by apply arr_json_ok, json_expand_array_ok.
Qed.

Lemma json_wrap_ok c r : reply_ok r -> obj_ok (reply_depth r + 5) (json_wrap_redis_reply c r).
Proof.
  intros Hr. assert (good (reply_depth r) r) as Hg by (split; [done|lia]).
  pose proof (reply_depth_pos r) as Hp. set (d := reply_depth r) in *.
  assert (obj_ok (d + 5) (JObject [])) as Hroot by auto with jok.
  destruct r; unfold json_wrap_redis_reply; cbv zeta.
  - destruct (strcasecmp_eq _ _); apply object_set_ok; auto with jok.
    apply opt_ok_Some. apply json_ok_mono with (d + 2); [|lia]. apply obj_json_ok, json_info_reply_ok. lia.
  - apply object_set_ok; [done|]. apply good_array in Hg.
    replace (d + 5 - 1) with (d - 1 + 4 + 1) by lia. intros j Hj.
    apply json_ok_mono with (d - 1 + 4); [|lia]. by eapply wrap_array_ok; [|exact Hg|exact Hj]; lia.
  - apply object_set_ok; [done|]. apply opt_ok_Some, leaf_ok; [lia|by eapply good_integer].
  - apply object_set_ok; [done|]. apply opt_ok_Some, null_ok. lia.
  - apply object_set_ok; [done|]. apply opt_ok_Some, arr_json_ok.
    apply array_append_ok; [apply array_append_ok|]; auto with jok.
    apply opt_ok_Some, null_ok. lia.
  - apply object_set_ok; [done|]. apply opt_ok_Some, arr_json_ok.
    apply array_append_ok; [apply array_append_ok|]; auto with jok.
    apply opt_ok_Some, null_ok. lia.
  - apply object_set_ok; [done|]. apply opt_ok_Some, null_ok. lia.
Qed.

(** ** Key-value replies *)

Definition text_ok (s : bytes) : Prop := no_nul s /\ utf8_check_string s = true.

Lemma json_string_text s : text_ok s -> json_string (Some s) = Some (JString s).
Proof. intros [Hn Hu]. unfold json_string. cbn [mbind option_bind]. by rewrite cstr_id, Hu. Qed.

Lemma object_set_fresh l k v :
  text_ok k -> k ∉ map fst l -> json_object_set_new (JObject l) k (Some v) = JObject (l ++ [(k, v)]).
Proof.
  intros [Hn Hu] Hk. unfold json_object_set_new. rewrite cstr_id, Hu by done.
  cbn [json_object_setn_new_nocheck]. by rewrite hashtable_set_fresh.
Qed.

Definition pair_replies (kvs : list (bytes * bytes)) : list redisReply :=
  flat_map (fun kv => [REPLY_STRING kv.1; REPLY_STRING kv.2]) kvs.

Lemma keyvalue_loop_pairs kvs acc :
  Forall (fun kv => text_ok kv.1 /\ text_ok kv.2) kvs ->
  NoDup (map fst acc ++ map fst kvs) ->
  keyvalue_loop (pair_replies kvs) (JObject acc) =
  Some (JObject (acc ++ map (fun kv => (kv.1, JString kv.2)) kvs)).
Proof.
  intros Hkv. revert acc. induction Hkv as [|[k v] kvs [Hk Hv] Hkv IH]; intros acc Hnd;
    cbn [pair_replies flat_map app keyvalue_loop fst snd] in *; [by rewrite app_nil_r|].
  rewrite json_string_text by done. cbn [map fst] in Hnd. apply NoDup_app in Hnd as (H1 & H2 & H3).
  rewrite object_set_fresh; [|done|intros Hin; apply (H2 k Hin); set_solver].
  fold (pair_replies kvs). rewrite IH; [by rewrite <-app_assoc|].
  rewrite map_app, <-app_assoc. by apply NoDup_app.
Qed.

Lemma length_pair_replies kvs : length (pair_replies kvs) = (2 * length kvs)%nat.
Proof. unfold pair_replies. induction kvs as [|kv kvs IH]; [done|]. cbn. rewrite IH. lia. Qed.

(** ** Properties *)

(** C27: whatever Redis answers (with the 64-bit integers of [long long] and a
    nesting below 2043 levels), and for every command with its own reply shape,
    the text sent to the client is JSON: it is printed, and parsing it gives the
    value that was built. A JSONP callback wraps that same text in a call. *)
Theorem json_reply_is_json (c : cmd) (r : redisReply) (jsonp : option bytes) :
  reply_ok r -> reply_depth r + 5 <= JSON_PARSER_MAX_DEPTH ->
  exists t,
    json_string_output (json_wrap_redis_reply c r) jsonp =
      Some (match jsonp with
            | Some f => cstr f ++ lit "(" ++ t ++ lit ");" ++ [x0a]
            | None => t
            end) /\
    json_loads t 0 = Some (json_wrap_redis_reply c r).
Proof.
  intros Hr Hd. destruct (json_wrap_ok c r Hr) as [[Hwf Hdep] [l Hl]].
  destruct (dump_load (json_wrap_redis_reply c r) 0) as (t & Ht & Hload);
    [by rewrite Hl|done|lia|].
  rewrite as_read_id in Hload by done. exists t. split; [|done].
  unfold json_string_output. rewrite Ht. by destruct jsonp.
Qed.

(** The array of a reply keeps the elements that have a JSON form and drops
    the strings that are not UTF-8: such a string makes the array shorter and
    moves the elements behind it. *)
Theorem json_array_drops_binary (l : list redisReply) :
  json_expand_array l = JArray (omap json_expand_element l) /\
  (Exists (fun e => exists s, e = REPLY_STRING s /\ utf8_check_string (cstr s) = false) l ->
   (length (omap json_expand_element l) < length l)%nat).
Proof.
  split; [apply json_expand_array_omap|].
  assert (forall l, (length (omap json_expand_element l) <= length l)%nat) as Hle.
  { clear l. intros l. induction l as [|x l IH]; [done|]. cbn [omap list_omap length].
    destruct (json_expand_element x); cbn [length]; lia. }
  induction 1 as [e l (s & -> & Hs)|e l _ IH]; cbn [omap list_omap length].
  - cbn [json_expand_element]. unfold json_string. cbn [mbind option_bind]. rewrite Hs.
    apply Nat.lt_succ_r, Hle.
  - destruct (json_expand_element e); cbn [length]; lia.
Qed.

(** The reply to [HGETALL] (in any letter case) becomes an object with one
    pair per field, in the order of the reply, for UTF-8 fields and values. *)
Theorem json_hgetall_object (c : cmd) (verb : bytes) (args : list bytes) (kvs : list (bytes * bytes)) :
  cmd_argv c = verb :: args -> cmd_count c <> 0 -> map tolower verb = lit "hgetall" ->
  Forall (fun kv => text_ok kv.1 /\ text_ok kv.2) kvs -> NoDup (map fst kvs) ->
  json_wrap_redis_reply c (REPLY_ARRAY (pair_replies kvs)) =
  JObject [(verb, JObject (map (fun kv => (kv.1, JString kv.2)) kvs))].
Proof.
  intros Hargv Hcount Hverb Hkvs Hnd. unfold json_wrap_redis_reply.
  rewrite (proj2 (Z.eqb_neq _ _) Hcount), Hargv.
  change (default [] (head (verb :: args))) with verb.
  assert (Forall (fun c => c <> x00 /\ (utf8_check_first c = 1)%nat) verb) as Hv.
  { apply Forall_forall. intros x Hx. assert (tolower x ∈ lit "hgetall") as Hin.
    { rewrite <-Hverb. by apply list_elem_of_In, in_map, list_elem_of_In. }
    assert (implb (existsb (Byte.eqb (tolower x)) (lit "hgetall"))
              (negb (Byte.eqb x x00) && (utf8_check_first x =? 1)%nat) = true) as E.
    { clear. revert x. apply forall_byte. vm_compute. reflexivity. }
    rewrite (proj2 (existsb_exists _ _)) in E
      by (exists (tolower x); split; [by apply list_elem_of_In|apply byte_eqb_refl]).
    cbn [implb] in E. bool_to_prop. split; [by apply byte_eqb_neq|done]. }
  assert (no_nul verb) as Hn.
  { intros Hin. rewrite Forall_forall in Hv. by destruct (Hv _ Hin). }
  assert (utf8_check_string verb = true) as Hu.
  { unfold utf8_check_string. clear -Hv. induction Hv as [|x l [_ Hx] Hl IH]; [done|].
    cbn [length utf8_check_loop]. rewrite Hx. cbn [Nat.eqb drop]. by rewrite drop_0. }
  assert (strcasecmp_eq verb (lit "HGETALL") = true) as Hc.
  { unfold strcasecmp_eq. rewrite cstr_id, Hverb by done. reflexivity. }
  unfold wrap_array. rewrite Hc. unfold json_array_to_keyvalue_reply.
  rewrite length_pair_replies, Nat2Z.inj_mul, Z.mul_comm, Z.mod_mul by lia.
  cbn [Z.eqb]. rewrite (keyvalue_loop_pairs kvs []) by done.
  by rewrite (object_set_fresh [] verb) by done || set_solver.
Qed.

(** What a WebSocket message may carry, and the argument a string gives. *)
Definition ws_arg_json (j : json) : Prop :=
  match j with
  | JString s => text_ok s
  | JInteger z => - 2 ^ 63 <= z < 2 ^ 63
  | _ => False
  end.

Definition string_argument (j : json) : option bytes :=
  match j with JString s => Some s | _ => None end.


(** ** Witnesses *)

Definition a_cmd (argv : list bytes) : cmd :=
  mk_cmd 7 (Z.of_nat (length argv)) argv None false None None None None true false false 1 0 None None None.

Lemma json_reply_is_json_witness :
  let r := REPLY_ARRAY [REPLY_STRING (lit "a"); REPLY_INTEGER (-3); REPLY_NIL] in
  let c := a_cmd [lit "MGET"; lit "a"] in
  exists t, json_string_output (json_wrap_redis_reply c r) None = Some t /\
            json_loads t 0 = Some (json_wrap_redis_reply c r).
Proof.
  apply (json_reply_is_json (a_cmd [lit "MGET"; lit "a"])
    (REPLY_ARRAY [REPLY_STRING (lit "a"); REPLY_INTEGER (-3); REPLY_NIL]) None);
    [by repeat split|by_decide].
Defined.

Lemma json_hgetall_object_witness :
  json_wrap_redis_reply (a_cmd [lit "hGetAll"; lit "h"]) (REPLY_ARRAY (pair_replies [(lit "f", lit "v")])) =
  JObject [(lit "hGetAll", JObject [(lit "f", JString (lit "v"))])].
Proof.
  apply (json_hgetall_object _ (lit "hGetAll") [lit "h"] [(lit "f", lit "v")]); done || by_decide.
Defined.


End JsonReply.
