(* ===== verification/Msgpack.v ===== *)
(** * MessagePack replies: src/formats/msgpack.c

    The format writes a reply through the packer of the msgpack-c library, which is
    not part of the repository: what the code asks of it is the sequence of its
    calls, the tokens below, and their bytes are the interface [Packer]. The
    property reads the tokens back as MessagePack objects: the announced sizes of
    maps, arrays and raw strings are the ones that follow. *)
From S2P Require Import Prelude Types.

Local Open Scope Z_scope.

Module Msgpack.

(** The calls of the packer: [msgpack_pack_map], [msgpack_pack_array],
    [msgpack_pack_raw], [msgpack_pack_raw_body], [msgpack_pack_int] (whose argument
    is an [int]), [msgpack_pack_true], [msgpack_pack_false] and [msgpack_pack_nil]. *)
Inductive token :=
| PackMap (n : Z)
| PackArray (n : Z)
| PackRaw (n : Z)
| PackRawBody (s : bytes)
| PackInt (z : Z)
| PackBool (b : bool)
| PackNil.

(** The library: the bytes each call hands to [on_msgpack_write]. *)
Class Packer := pack : token -> bytes.

Definition pack_str (s : bytes) : list token := [PackRaw (Z.of_nat (length s)); PackRawBody s].

(** ** The code *)

(** The first loop of [msg_info_reply]: [p] is a string with [n] bytes up to
    [s + sz], and the text ends at its first null byte. *)
Fixpoint count_lines (fuel : nat) (p : bytes) (count : Z) : Z :=
  match fuel with
  | O => count
  | S f =>
      match memchr x0d (length p) p with
      | Some i => count_lines f (drop (S i) p) (count + 1)
      | None => count
      end
  end.

(** The second loop. *)
Fixpoint info_tokens (fuel : nat) (p : bytes) : list token :=
  match fuel with
  | O => []
  | S f =>
      match memchr x3a (length p) p with
      | None => []
      | Some colon =>
          let key := take colon p in
          let p := drop (S colon) p in
          match memchr x0d (length p) p with
          | None => []
          | Some nl =>
              let val := take nl p in
              let p := drop (S nl) p in
              let p := match p with x0a :: p' => p' | _ => p end in
              pack_str key ++ pack_str val ++ info_tokens f p
          end
      end
  end.

(** Every turn of the loops consumes a byte. *)
Definition msg_info_reply (s : bytes) : list token :=
  let s := cstr s in
  PackMap (count_lines (length s) s 0) :: info_tokens (length s) s.

Fixpoint hgetall_tokens (element : list redisReply) : list token :=
  match element with
  | REPLY_STRING k :: REPLY_STRING v :: rest => pack_str k ++ pack_str v ++ hgetall_tokens rest
  | _ => []
  end.

Definition msg_hgetall_reply (element : list redisReply) : list token :=
  if negb (Z.of_nat (length element) mod 2 =? 0) then []
  else PackMap (Z.of_nat (length element) / 2) :: hgetall_tokens element.

Definition element_tokens (e : redisReply) : list token :=
  match e with
  | REPLY_STRING s => pack_str s
  | REPLY_INTEGER z => [PackInt (i32 z)]
  | _ => [PackNil]
  end.

Definition verb_is (verb name : bytes) : bool :=
  (length verb =? length name)%nat && strncasecmp_eq (length name) verb name.

Definition value_tokens (verb : bytes) (r : redisReply) : list token :=
  match r with
  | REPLY_STATUS s => PackArray 2 :: PackBool true :: pack_str s
  | REPLY_ERROR s => PackArray 2 :: PackBool false :: pack_str s
  | REPLY_STRING s => if verb_is verb (lit "INFO") then msg_info_reply s else pack_str s
  | REPLY_INTEGER z => [PackInt (i32 z)]
  | REPLY_ARRAY element =>
      if verb_is verb (lit "HGETALL") then msg_hgetall_reply element
      else PackArray (Z.of_nat (length element)) :: flat_map element_tokens element
  | _ => [PackNil]
  end.

Definition wrap_tokens (c : cmd) (r : redisReply) : list token :=
  let verb := if cmd_count c =? 0 then [] else default [] (head (cmd_argv c)) in
  PackMap 1 :: pack_str verb ++ value_tokens verb r.

(** What [on_msgpack_write] collects. *)
Definition msgpack_wrap_redis_reply `{Packer} (c : cmd) (r : redisReply) : bytes :=
  flat_map pack (wrap_tokens c r).

(** ** Reading the tokens *)

Inductive msg :=
| MRaw (s : bytes)
| MInt (z : Z)
| MBool (b : bool)
| MNil
| MArray (l : list msg)
| MMap (l : list (msg * msg)).

Section Read.
Context (read : list token -> option (msg * list token)).

Fixpoint read_n (n : nat) (ts : list token) : option (list msg * list token) :=
  match n with
  | O => Some ([], ts)
  | S n' => '(x, ts) ← read ts; '(l, ts) ← read_n n' ts; Some (x :: l, ts)
  end.

Fixpoint read_pairs (n : nat) (ts : list token) : option (list (msg * msg) * list token) :=
  match n with
  | O => Some ([], ts)
  | S n' =>
      '(k, ts) ← read ts; '(v, ts) ← read ts; '(l, ts) ← read_pairs n' ts; Some ((k, v) :: l, ts)
  end.
End Read.

(** One object; [depth] bounds its nesting. *)
Fixpoint read_msg (depth : nat) (ts : list token) : option (msg * list token) :=
  match depth with
  | O => None
  | S d =>
      match ts with
      | PackRaw n :: PackRawBody s :: rest =>
          if n =? Z.of_nat (length s) then Some (MRaw s, rest) else None
      | PackInt z :: rest => Some (MInt z, rest)
      | PackBool b :: rest => Some (MBool b, rest)
      | PackNil :: rest => Some (MNil, rest)
      | PackArray n :: rest => '(l, rest) ← read_n (read_msg d) (Z.to_nat n) rest; Some (MArray l, rest)
      | PackMap n :: rest => '(l, rest) ← read_pairs (read_msg d) (Z.to_nat n) rest; Some (MMap l, rest)
      | _ => None
      end
  end.

(** The object a client expects. *)
Definition element_value (e : redisReply) : msg :=
  match e with
  | REPLY_STRING s => MRaw s
  | REPLY_INTEGER z => MInt (i32 z)
  | _ => MNil
  end.

Definition reply_value (r : redisReply) : msg :=
  match r with
  | REPLY_STATUS s => MArray [MBool true; MRaw s]
  | REPLY_ERROR s => MArray [MBool false; MRaw s]
  | REPLY_ARRAY l => MArray (map element_value l)
  | _ => element_value r
  end.

Definition pairs_reply (kvs : list (bytes * bytes)) : redisReply :=
  REPLY_ARRAY (flat_map (fun kv => [REPLY_STRING kv.1; REPLY_STRING kv.2]) kvs).

Lemma read_str d s rest : read_msg (S d) (pack_str s ++ rest) = Some (MRaw s, rest).
Proof. cbn [read_msg pack_str app]. by rewrite Z.eqb_refl. Qed.

Lemma read_array d n ts l rest :
  read_n (read_msg d) (Z.to_nat n) ts = Some (l, rest) -> read_msg (S d) (PackArray n :: ts) = Some (MArray l, rest).
Proof. intros H. cbn [read_msg]. by rewrite H. Qed.

Lemma read_map d n ts l rest :
  read_pairs (read_msg d) (Z.to_nat n) ts = Some (l, rest) -> read_msg (S d) (PackMap n :: ts) = Some (MMap l, rest).
Proof. intros H. cbn [read_msg]. by rewrite H. Qed.

Lemma read_outcome d b s : read_msg (S (S d)) (PackArray 2 :: PackBool b :: pack_str s) = Some (MArray [MBool b; MRaw s], []).
Proof.
  apply read_array. change (Z.to_nat 2) with 2%nat. cbn [read_n]. change (read_msg (S d) (PackBool b :: pack_str s)) with (Some (MBool b, pack_str s)).
  cbn [mbind option_bind]. rewrite <-(app_nil_r (pack_str s)), read_str. done.
Qed.

Lemma read_element d e rest : read_msg (S d) (element_tokens e ++ rest) = Some (element_value e, rest).
Proof. destruct e; try done. apply read_str. Qed.

Lemma read_elements d l rest :
  read_n (read_msg (S d)) (length l) (flat_map element_tokens l ++ rest) = Some (map element_value l, rest).
Proof.
  induction l as [|e l IH]; [done|]. cbn [length read_n flat_map map].
  rewrite <-app_assoc, read_element. cbn [mbind option_bind]. by rewrite IH.
Qed.

Lemma read_hgetall d kvs rest :
  read_pairs (read_msg (S d)) (length kvs)
    (hgetall_tokens (flat_map (fun kv => [REPLY_STRING kv.1; REPLY_STRING kv.2]) kvs) ++ rest) =
  Some (map (fun kv => (MRaw kv.1, MRaw kv.2)) kvs, rest).
Proof.
  induction kvs as [|[k v] kvs IH]; [done|]. cbn [length read_pairs flat_map map app hgetall_tokens fst snd].
  rewrite <-!app_assoc, read_str. cbn [mbind option_bind]. rewrite read_str. cbn [mbind option_bind]. by rewrite IH.
Qed.

Lemma read_wrap d verb ts v :
  read_msg (S d) ts = Some (v, []) ->
  read_msg (S (S d)) (PackMap 1 :: pack_str verb ++ ts) = Some (MMap [(MRaw verb, v)], []).
Proof.
  intros H. apply read_map. change (Z.to_nat 1) with 1%nat. cbn [read_pairs].
  rewrite read_str. cbn [mbind option_bind]. by rewrite H.
Qed.

(** ** Properties *)



(** The map of an INFO reply counts the lines of its text, blank lines and section
    titles included, so it announces more pairs than follow. *)
Example info_map_count :
  read_msg 3 (value_tokens (lit "INFO") (REPLY_STRING (lit "# Server" ++ [x0d; x0a] ++ lit "a:1" ++ [x0d; x0a]))) = None.
Proof. vm_compute. reflexivity. Qed.

End Msgpack.
