(* ===== verification/World.v ===== *)
(** * The state of a worker thread and its effects

    A worker owns a set of heap objects (clients, commands, WebSocket clients,
    Redis contexts), a connection pool and the events it registered with its event
    loop; its functions read and change them. The objects live in one finite map
    per type, so that aliasing is visible and using an object after it was freed is
    a fault. What the outside decides (whether a connection attempt or an
    allocation succeeds) is a stream of answers in the state; what the outside sees
    (responses, writes, closed descriptors, log lines, commands sent to Redis) is a
    trace. *)
From S2P Require Import Prelude Types Http.

Local Open Scope Z_scope.

Module World.
Import Http.

(** ** Redis contexts (hiredis/async.h) *)

(** A reply callback with its private data. *)
Inductive redis_cb :=
| CB_NULL
| CB_AUTH
| CB_REPLY (fn : formatting_fun) (privdata : loc).

#[global] Instance redis_cb_eq_dec : EqDecision redis_cb.
Proof. solve_decision. Defined.

(** [redisAsyncContext]: its error text, the flags of its context, whether [data] is the pool, the
    queues of callbacks, the subscriptions with their pending counts (in the order
    they were made), and the commands appended to the output buffer. *)
Record redis_ctx := mk_ctx {
  ac_err : option bytes;
  ac_connected : bool;
  ac_disconnecting : bool;
  ac_freeing : bool;
  ac_in_callback : bool;
  ac_subscribed : bool;
  ac_monitoring : bool;
  ac_data : bool;
  ac_replies : list redis_cb;
  ac_sub_invalid : list redis_cb;
  ac_sub_channels : list (bytes * (redis_cb * Z));
  ac_sub_patterns : list (bytes * (redis_cb * Z));
  ac_obuf : list (list bytes) }.

Definition set_ac_err (v : option bytes) (x : redis_ctx) : redis_ctx :=
  mk_ctx v (ac_connected x) (ac_disconnecting x) (ac_freeing x) (ac_in_callback x)
    (ac_subscribed x) (ac_monitoring x) (ac_data x) (ac_replies x) (ac_sub_invalid x)
    (ac_sub_channels x) (ac_sub_patterns x) (ac_obuf x).
Definition set_ac_connected (v : bool) (x : redis_ctx) : redis_ctx :=
  mk_ctx (ac_err x) v (ac_disconnecting x) (ac_freeing x) (ac_in_callback x) (ac_subscribed x)
    (ac_monitoring x) (ac_data x) (ac_replies x) (ac_sub_invalid x) (ac_sub_channels x)
    (ac_sub_patterns x) (ac_obuf x).
Definition set_ac_disconnecting (v : bool) (x : redis_ctx) : redis_ctx :=
  mk_ctx (ac_err x) (ac_connected x) v (ac_freeing x) (ac_in_callback x) (ac_subscribed x)
    (ac_monitoring x) (ac_data x) (ac_replies x) (ac_sub_invalid x) (ac_sub_channels x)
    (ac_sub_patterns x) (ac_obuf x).
Definition set_ac_freeing (v : bool) (x : redis_ctx) : redis_ctx :=
  mk_ctx (ac_err x) (ac_connected x) (ac_disconnecting x) v (ac_in_callback x) (ac_subscribed x)
    (ac_monitoring x) (ac_data x) (ac_replies x) (ac_sub_invalid x) (ac_sub_channels x)
    (ac_sub_patterns x) (ac_obuf x).
Definition set_ac_in_callback (v : bool) (x : redis_ctx) : redis_ctx :=
  mk_ctx (ac_err x) (ac_connected x) (ac_disconnecting x) (ac_freeing x) v (ac_subscribed x)
    (ac_monitoring x) (ac_data x) (ac_replies x) (ac_sub_invalid x) (ac_sub_channels x)
    (ac_sub_patterns x) (ac_obuf x).
Definition set_ac_subscribed (v : bool) (x : redis_ctx) : redis_ctx :=
  mk_ctx (ac_err x) (ac_connected x) (ac_disconnecting x) (ac_freeing x) (ac_in_callback x) v
    (ac_monitoring x) (ac_data x) (ac_replies x) (ac_sub_invalid x) (ac_sub_channels x)
    (ac_sub_patterns x) (ac_obuf x).
Definition set_ac_monitoring (v : bool) (x : redis_ctx) : redis_ctx :=
  mk_ctx (ac_err x) (ac_connected x) (ac_disconnecting x) (ac_freeing x) (ac_in_callback x)
    (ac_subscribed x) v (ac_data x) (ac_replies x) (ac_sub_invalid x) (ac_sub_channels x)
    (ac_sub_patterns x) (ac_obuf x).
Definition set_ac_data (v : bool) (x : redis_ctx) : redis_ctx :=
  mk_ctx (ac_err x) (ac_connected x) (ac_disconnecting x) (ac_freeing x) (ac_in_callback x)
    (ac_subscribed x) (ac_monitoring x) v (ac_replies x) (ac_sub_invalid x) (ac_sub_channels x)
    (ac_sub_patterns x) (ac_obuf x).
Definition set_ac_replies (v : list redis_cb) (x : redis_ctx) : redis_ctx :=
  mk_ctx (ac_err x) (ac_connected x) (ac_disconnecting x) (ac_freeing x) (ac_in_callback x)
    (ac_subscribed x) (ac_monitoring x) (ac_data x) v (ac_sub_invalid x) (ac_sub_channels x)
    (ac_sub_patterns x) (ac_obuf x).
Definition set_ac_sub_invalid (v : list redis_cb) (x : redis_ctx) : redis_ctx :=
  mk_ctx (ac_err x) (ac_connected x) (ac_disconnecting x) (ac_freeing x) (ac_in_callback x)
    (ac_subscribed x) (ac_monitoring x) (ac_data x) (ac_replies x) v (ac_sub_channels x)
    (ac_sub_patterns x) (ac_obuf x).
Definition set_ac_sub_channels (v : list (bytes * (redis_cb * Z))) (x : redis_ctx) : redis_ctx :=
  mk_ctx (ac_err x) (ac_connected x) (ac_disconnecting x) (ac_freeing x) (ac_in_callback x)
    (ac_subscribed x) (ac_monitoring x) (ac_data x) (ac_replies x) (ac_sub_invalid x) v
    (ac_sub_patterns x) (ac_obuf x).
Definition set_ac_sub_patterns (v : list (bytes * (redis_cb * Z))) (x : redis_ctx) : redis_ctx :=
  mk_ctx (ac_err x) (ac_connected x) (ac_disconnecting x) (ac_freeing x) (ac_in_callback x)
    (ac_subscribed x) (ac_monitoring x) (ac_data x) (ac_replies x) (ac_sub_invalid x)
    (ac_sub_channels x) v (ac_obuf x).
Definition set_ac_obuf (v : list (list bytes)) (x : redis_ctx) : redis_ctx :=
  mk_ctx (ac_err x) (ac_connected x) (ac_disconnecting x) (ac_freeing x) (ac_in_callback x)
    (ac_subscribed x) (ac_monitoring x) (ac_data x) (ac_replies x) (ac_sub_invalid x)
    (ac_sub_channels x) (ac_sub_patterns x) v.

(** [struct pool]; [count] is the length of the array [ac]. *)
Record pool := mk_pool {
  pool_ac : list (option loc);
  pool_cur : Z }.

Definition set_pool_ac (v : list (option loc)) (x : pool) : pool :=
  mk_pool v (pool_cur x).
Definition set_pool_cur (v : Z) (x : pool) : pool :=
  mk_pool (pool_ac x) v.

Definition pool_count (p : pool) : Z := Z.of_nat (length (pool_ac p)).

(** ** Events *)

(** What is registered with the event loop and has not fired yet. *)
Inductive pending :=
| OnClientRead (c : loc)
| OnWsRead (ws : loc)
| OnWsWrite (ws : loc)
| OnReconnect.

#[global] Instance pending_eq_dec : EqDecision pending.
Proof. solve_decision. Defined.

(** What the outside sees. [EvResponse fd r] is a response whose bytes [r_out r]
    were handed to [http_schedule_write]. *)
Inductive event :=
| EvResponse (fd : Z) (r : http_response)
| EvWrite (fd : Z) (data : bytes)
| EvClose (fd : Z)
| EvLog (level : Z) (msg : bytes)
| EvRedis (ac : loc) (argv : list bytes).

Inductive connect_result := CONNECT_OK | CONNECT_ERR (errstr : bytes) | CONNECT_NULL.

(** ** The state *)

(** The state of a worker; [w_connect] and [w_alloc] are the answers still to come,
    and an exhausted stream answers with success. *)
Record world := mk_world {
  w_cfg : conf;
  w_clients : gmap loc http_client;
  w_cmds : gmap loc cmd;
  w_wss : gmap loc ws_client;
  w_acs : gmap loc redis_ctx;
  w_pool : pool;
  w_next : loc;
  w_pending : list pending;
  w_trace : list event;
  w_connect : list connect_result;
  w_alloc : list bool;
  w_auth_logged : bool }.

Definition set_w_cfg (v : conf) (x : world) : world :=
  mk_world v (w_clients x) (w_cmds x) (w_wss x) (w_acs x) (w_pool x) (w_next x) (w_pending x)
    (w_trace x) (w_connect x) (w_alloc x) (w_auth_logged x).
Definition set_w_clients (v : gmap loc http_client) (x : world) : world :=
  mk_world (w_cfg x) v (w_cmds x) (w_wss x) (w_acs x) (w_pool x) (w_next x) (w_pending x)
    (w_trace x) (w_connect x) (w_alloc x) (w_auth_logged x).
Definition set_w_cmds (v : gmap loc cmd) (x : world) : world :=
  mk_world (w_cfg x) (w_clients x) v (w_wss x) (w_acs x) (w_pool x) (w_next x) (w_pending x)
    (w_trace x) (w_connect x) (w_alloc x) (w_auth_logged x).
Definition set_w_wss (v : gmap loc ws_client) (x : world) : world :=
  mk_world (w_cfg x) (w_clients x) (w_cmds x) v (w_acs x) (w_pool x) (w_next x) (w_pending x)
    (w_trace x) (w_connect x) (w_alloc x) (w_auth_logged x).
Definition set_w_acs (v : gmap loc redis_ctx) (x : world) : world :=
  mk_world (w_cfg x) (w_clients x) (w_cmds x) (w_wss x) v (w_pool x) (w_next x) (w_pending x)
    (w_trace x) (w_connect x) (w_alloc x) (w_auth_logged x).
Definition set_w_pool (v : pool) (x : world) : world :=
  mk_world (w_cfg x) (w_clients x) (w_cmds x) (w_wss x) (w_acs x) v (w_next x) (w_pending x)
    (w_trace x) (w_connect x) (w_alloc x) (w_auth_logged x).
Definition set_w_next (v : loc) (x : world) : world :=
  mk_world (w_cfg x) (w_clients x) (w_cmds x) (w_wss x) (w_acs x) (w_pool x) v (w_pending x)
    (w_trace x) (w_connect x) (w_alloc x) (w_auth_logged x).
Definition set_w_pending (v : list pending) (x : world) : world :=
  mk_world (w_cfg x) (w_clients x) (w_cmds x) (w_wss x) (w_acs x) (w_pool x) (w_next x) v
    (w_trace x) (w_connect x) (w_alloc x) (w_auth_logged x).
Definition set_w_trace (v : list event) (x : world) : world :=
  mk_world (w_cfg x) (w_clients x) (w_cmds x) (w_wss x) (w_acs x) (w_pool x) (w_next x)
    (w_pending x) v (w_connect x) (w_alloc x) (w_auth_logged x).
Definition set_w_connect (v : list connect_result) (x : world) : world :=
  mk_world (w_cfg x) (w_clients x) (w_cmds x) (w_wss x) (w_acs x) (w_pool x) (w_next x)
    (w_pending x) (w_trace x) v (w_alloc x) (w_auth_logged x).
Definition set_w_alloc (v : list bool) (x : world) : world :=
  mk_world (w_cfg x) (w_clients x) (w_cmds x) (w_wss x) (w_acs x) (w_pool x) (w_next x)
    (w_pending x) (w_trace x) (w_connect x) v (w_auth_logged x).
Definition set_w_auth_logged (v : bool) (x : world) : world :=
  mk_world (w_cfg x) (w_clients x) (w_cmds x) (w_wss x) (w_acs x) (w_pool x) (w_next x)
    (w_pending x) (w_trace x) (w_connect x) (w_alloc x) v.

(** The configuration [conf_read] starts from (conf.c); [user] and [group] are the
    identifiers of the process. *)
Definition conf_defaults (user group : Z) : conf :=
  mk_conf (lit "127.0.0.1") 6379 None (lit "0.0.0.0") 7379 4 (128 * 1024 * 1024) 2 false
    (lit "webdis.pid") false 0 [] user group (lit "webdis.log") WEBDIS_NOTICE LOG_FSYNC_AUTO 0 0 None.

(** ** Computations *)

Inductive fault :=
| UseAfterFree
| NullDeref
| OutOfBounds
| DivisionByZero
| AssertFailed
| OutOfFuel.

Inductive result (A : Type) :=
| Ok (a : A) (w : world)
| Fault (f : fault).
Arguments Ok {A} a w.
Arguments Fault {A} f.

Definition M (A : Type) : Type := world -> result A.

#[global] Instance M_ret : MRet M := fun A a w => Ok a w.
#[global] Instance M_bind : MBind M := fun A B f m w =>
  match m w with
  | Ok a w' => f a w'
  | Fault e => Fault e
  end.

Definition fail {A} (f : fault) : M A := fun _ => Fault f.
Definition skip : M unit := mret ().
Definition get : M world := fun w => Ok w w.
Definition gets {A} (f : world -> A) : M A := fun w => Ok (f w) w.
Definition modify (f : world -> world) : M unit := fun w => Ok () (f w).
Definition when (b : bool) (m : M unit) : M unit := if b then m else skip.

(** A read outside of a buffer, or a write outside of an array. *)
Definition in_bounds {A} (o : option A) : M A :=
  match o with Some a => mret a | None => fail OutOfBounds end.

(** A pointer that must not be [NULL]. *)
Definition deref {A} (p : option A) : M A :=
  match p with Some l => mret l | None => fail NullDeref end.

Definition lookup_live {A} (o : option A) : M A :=
  match o with Some a => mret a | None => fail UseAfterFree end.

Definition get_client (l : loc) : M http_client := w ← get; lookup_live (w_clients w !! l).
Definition get_cmd (l : loc) : M cmd := w ← get; lookup_live (w_cmds w !! l).
Definition get_ws (l : loc) : M ws_client := w ← get; lookup_live (w_wss w !! l).
Definition get_ac (l : loc) : M redis_ctx := w ← get; lookup_live (w_acs w !! l).

Definition put_client (l : loc) (x : http_client) : M unit :=
  modify (fun w => set_w_clients (<[l := x]> (w_clients w)) w).
Definition put_cmd (l : loc) (x : cmd) : M unit :=
  modify (fun w => set_w_cmds (<[l := x]> (w_cmds w)) w).
Definition put_ws (l : loc) (x : ws_client) : M unit :=
  modify (fun w => set_w_wss (<[l := x]> (w_wss w)) w).
Definition put_ac (l : loc) (x : redis_ctx) : M unit :=
  modify (fun w => set_w_acs (<[l := x]> (w_acs w)) w).

Definition upd_client (l : loc) (f : http_client -> http_client) : M unit :=
  x ← get_client l; put_client l (f x).
Definition upd_cmd (l : loc) (f : cmd -> cmd) : M unit := x ← get_cmd l; put_cmd l (f x).
Definition upd_ws (l : loc) (f : ws_client -> ws_client) : M unit := x ← get_ws l; put_ws l (f x).
Definition upd_ac (l : loc) (f : redis_ctx -> redis_ctx) : M unit := x ← get_ac l; put_ac l (f x).

(** [free]: freeing twice is a fault. *)
Definition del_client (l : loc) : M unit :=
  _ ← get_client l; modify (fun w => set_w_clients (delete l (w_clients w)) w).
Definition del_cmd (l : loc) : M unit :=
  _ ← get_cmd l; modify (fun w => set_w_cmds (delete l (w_cmds w)) w).
Definition del_ws (l : loc) : M unit :=
  _ ← get_ws l; modify (fun w => set_w_wss (delete l (w_wss w)) w).
Definition del_ac (l : loc) : M unit :=
  _ ← get_ac l; modify (fun w => set_w_acs (delete l (w_acs w)) w).

(** A new location; locations are never used again. *)
Definition fresh : M loc :=
  w ← get; modify (set_w_next (Pos.succ (w_next w))) ;; mret (w_next w).

Definition emit (e : event) : M unit := modify (fun w => set_w_trace (w_trace w ++ [e]) w).
Definition register (p : pending) : M unit :=
  modify (fun w => set_w_pending (w_pending w ++ [p]) w).

(** The next allocation's answer. *)
Definition alloc_ok : M bool :=
  w ← get;
  match w_alloc w with
  | [] => mret true
  | b :: bs => modify (set_w_alloc bs) ;; mret b
  end.

Definition connect_answer : M connect_result :=
  w ← get;
  match w_connect w with
  | [] => mret CONNECT_OK
  | r :: rs => modify (set_w_connect rs) ;; mret r
  end.

(** slog.c, [slog_enabled] and [slog]; the line format is in [Slog]. *)
Definition slog_enabled (level : Z) : M bool := gets (fun w => level <=? cfg_verbosity (w_cfg w)).

Definition slog (level : Z) (body : bytes) : M unit :=
  b ← slog_enabled level; when b (emit (EvLog level body)).

(** Handing a response to the event loop, or only dropping it. *)
Definition http_response_write (r : http_response) (fd : Z) : M unit :=
  match Http.http_response_write r fd with
  | Some r' => emit (EvResponse fd r')
  | None => skip
  end.

(** ** Reasoning *)

Lemma bind_ok {A B} (m : M A) (f : A -> M B) w b w' :
  (m ≫= f) w = Ok b w' <-> exists a w1, m w = Ok a w1 /\ f a w1 = Ok b w'.
Proof.
  unfold mbind, M_bind. destruct (m w) as [a w1|e].
  - split; [by exists a, w1|]. by intros (? & ? & [= <- <-] & ?).
  - split; [done|]. by intros (? & ? & ? & ?).
Qed.

Lemma bind_eq {A B} (m : M A) (f : A -> M B) w a w' : m w = Ok a w' -> (m ≫= f) w = f a w'.
Proof. unfold mbind, M_bind. by intros ->. Qed.

Lemma M_bind_assoc {A B C} (m : M A) (f : A -> M B) (g : B -> M C) w :
  ((m ≫= f) ≫= g) w = (m ≫= (fun a => f a ≫= g)) w.
Proof. unfold mbind, M_bind. by destruct (m w). Qed.

Lemma lookup_live_ok {A} (o : option A) w a w' : lookup_live o w = Ok a w' <-> o = Some a /\ w = w'.
Proof. destruct o; cbn; [|by split; [|intros [? _]]]. split; [by intros [= <- <-]|by intros [[= ->] <-]]. Qed.

Lemma get_ac_ok l w x w' : get_ac l w = Ok x w' <-> w_acs w !! l = Some x /\ w = w'.
Proof. unfold get_ac. rewrite (bind_eq get _ w w w) by done. apply lookup_live_ok. Qed.

Lemma get_cmd_ok l w x w' : get_cmd l w = Ok x w' <-> w_cmds w !! l = Some x /\ w = w'.
Proof. unfold get_cmd. rewrite (bind_eq get _ w w w) by done. apply lookup_live_ok. Qed.

Lemma get_client_ok l w x w' : get_client l w = Ok x w' <-> w_clients w !! l = Some x /\ w = w'.
Proof. unfold get_client. rewrite (bind_eq get _ w w w) by done. apply lookup_live_ok. Qed.

Lemma get_ws_ok l w x w' : get_ws l w = Ok x w' <-> w_wss w !! l = Some x /\ w = w'.
Proof. unfold get_ws. rewrite (bind_eq get _ w w w) by done. apply lookup_live_ok. Qed.

(** Inverts a successful run step by step; the states it introduces are replaced
    by the ones they are equal to. *)
Ltac M_subst :=
  repeat match goal with
    | H : @eq world ?x ?y |- _ => first [is_var y; subst y | is_var x; subst x]
    | H : ?x = ?y |- _ => is_var y; subst y
    | H : ?x = ?x |- _ => clear H
    end.

Ltac M_inv :=
  repeat match goal with
    | H : (_ ≫= _) _ = Ok _ _ |- _ => apply bind_ok in H as (? & ? & ? & ?)
    | H : get_ac _ _ = Ok _ _ |- _ => apply get_ac_ok in H as [? ?]
    | H : get_cmd _ _ = Ok _ _ |- _ => apply get_cmd_ok in H as [? ?]
    | H : get_client _ _ = Ok _ _ |- _ => apply get_client_ok in H as [? ?]
    | H : get_ws _ _ = Ok _ _ |- _ => apply get_ws_ok in H as [? ?]
    | H : Ok _ _ = Ok _ _ |- _ => injection H; clear H; intros
    | H : Fault _ = Ok _ _ |- _ => discriminate H
    | H : mret _ _ = Ok _ _ |- _ => unfold mret, M_ret in H
    | H : skip _ = Ok _ _ |- _ => unfold skip, mret, M_ret in H
    | H : get _ = Ok _ _ |- _ => unfold get in H
    | H : gets _ _ = Ok _ _ |- _ => unfold gets in H
    | H : modify _ _ = Ok _ _ |- _ => unfold modify in H
    | H : fail _ _ = Ok _ _ |- _ => discriminate H
    | _ => progress M_subst
    end.

(** Running forward: each primitive followed by the rest of the computation. *)
Section Run.
Context {A : Type} (w : world).

Lemma run_get_cmd l x (k : cmd -> M A) : w_cmds w !! l = Some x -> (get_cmd l ≫= k) w = k x w.
Proof using. intros H. apply bind_eq. by apply get_cmd_ok. Qed.
Lemma run_get_client l x (k : http_client -> M A) :
  w_clients w !! l = Some x -> (get_client l ≫= k) w = k x w.
Proof using. intros H. apply bind_eq. by apply get_client_ok. Qed.
Lemma run_get_ws l x (k : ws_client -> M A) : w_wss w !! l = Some x -> (get_ws l ≫= k) w = k x w.
Proof using. intros H. apply bind_eq. by apply get_ws_ok. Qed.
Lemma run_get_ac l x (k : redis_ctx -> M A) : w_acs w !! l = Some x -> (get_ac l ≫= k) w = k x w.
Proof using. intros H. apply bind_eq. by apply get_ac_ok. Qed.

Lemma upd_cmd_eq l f x :
  w_cmds w !! l = Some x -> upd_cmd l f w = Ok () (set_w_cmds (<[l := f x]> (w_cmds w)) w).
Proof using. intros H. unfold upd_cmd. unfold mbind, M_bind. by rewrite (proj2 (get_cmd_ok l w x w)). Qed.
Lemma upd_client_eq l f x :
  w_clients w !! l = Some x -> upd_client l f w = Ok () (set_w_clients (<[l := f x]> (w_clients w)) w).
Proof using. intros H. unfold upd_client. unfold mbind, M_bind. by rewrite (proj2 (get_client_ok l w x w)). Qed.
Lemma upd_ws_eq l f x :
  w_wss w !! l = Some x -> upd_ws l f w = Ok () (set_w_wss (<[l := f x]> (w_wss w)) w).
Proof using. intros H. unfold upd_ws. unfold mbind, M_bind. by rewrite (proj2 (get_ws_ok l w x w)). Qed.
Lemma upd_ac_eq l f x :
  w_acs w !! l = Some x -> upd_ac l f w = Ok () (set_w_acs (<[l := f x]> (w_acs w)) w).
Proof using. intros H. unfold upd_ac. unfold mbind, M_bind. by rewrite (proj2 (get_ac_ok l w x w)). Qed.

Lemma del_cmd_eq l x :
  w_cmds w !! l = Some x -> del_cmd l w = Ok () (set_w_cmds (delete l (w_cmds w)) w).
Proof using. intros H. unfold del_cmd. unfold mbind, M_bind. by rewrite (proj2 (get_cmd_ok l w x w)). Qed.
Lemma del_ac_eq l x :
  w_acs w !! l = Some x -> del_ac l w = Ok () (set_w_acs (delete l (w_acs w)) w).
Proof using. intros H. unfold del_ac. unfold mbind, M_bind. by rewrite (proj2 (get_ac_ok l w x w)). Qed.

Lemma run_upd_cmd l f x (k : unit -> M A) :
  w_cmds w !! l = Some x -> (upd_cmd l f ≫= k) w = k () (set_w_cmds (<[l := f x]> (w_cmds w)) w).
Proof using. intros H. by apply bind_eq, upd_cmd_eq. Qed.
Lemma run_upd_client l f x (k : unit -> M A) :
  w_clients w !! l = Some x -> (upd_client l f ≫= k) w = k () (set_w_clients (<[l := f x]> (w_clients w)) w).
Proof using. intros H. by apply bind_eq, upd_client_eq. Qed.
Lemma run_upd_ws l f x (k : unit -> M A) :
  w_wss w !! l = Some x -> (upd_ws l f ≫= k) w = k () (set_w_wss (<[l := f x]> (w_wss w)) w).
Proof using. intros H. by apply bind_eq, upd_ws_eq. Qed.
Lemma run_upd_ac l f x (k : unit -> M A) :
  w_acs w !! l = Some x -> (upd_ac l f ≫= k) w = k () (set_w_acs (<[l := f x]> (w_acs w)) w).
Proof using. intros H. by apply bind_eq, upd_ac_eq. Qed.
End Run.

(** Computes the fields of a state that was built from the setters. *)
Ltac world_norm :=
  cbn [w_cfg w_clients w_cmds w_wss w_acs w_pool w_next w_pending w_trace w_connect w_alloc w_auth_logged
       set_w_cfg set_w_clients set_w_cmds set_w_wss set_w_acs set_w_pool set_w_next set_w_pending set_w_trace set_w_connect set_w_alloc set_w_auth_logged] in *;
  rewrite ?insert_insert_eq.

(** Solves a lookup in a state built from the setters. *)
Ltac world_lookup :=
  cbn; repeat (rewrite lookup_insert_eq || (rewrite lookup_insert_ne by congruence));
  first [eassumption | reflexivity].

(** Steps over what always succeeds, then over the next object access. *)
Ltac M_step :=
  first
    [ rewrite M_bind_assoc
    | progress (unfold skip)
    | match goal with
      | |- context [(mbind ?k (@mret M _ _ ?a)) ?w] => rewrite (bind_eq (mret a) k w a w) by reflexivity
      | |- context [(mbind ?k (gets ?f)) ?w] => rewrite (bind_eq (gets f) k w (f w) w) by reflexivity
      | |- context [(mbind ?k get) ?w] => rewrite (bind_eq get k w w w) by reflexivity
      | |- context [(mbind ?k (modify ?f)) ?w] => rewrite (bind_eq (modify f) k w () (f w)) by reflexivity
      | |- context [(mbind ?k (put_cmd ?l ?x)) ?w] =>
          rewrite (bind_eq (put_cmd l x) k w () (set_w_cmds (<[l := x]> (w_cmds w)) w)) by reflexivity
      | |- context [(mbind ?k (put_client ?l ?x)) ?w] =>
          rewrite (bind_eq (put_client l x) k w () (set_w_clients (<[l := x]> (w_clients w)) w)) by reflexivity
      | |- context [(mbind ?k (put_ac ?l ?x)) ?w] =>
          rewrite (bind_eq (put_ac l x) k w () (set_w_acs (<[l := x]> (w_acs w)) w)) by reflexivity
      | |- context [(mbind ?k fresh) ?w] =>
          rewrite (bind_eq fresh k w (w_next w) (set_w_next (Pos.succ (w_next w)) w)) by reflexivity
      | |- context [(mbind _ (get_cmd _)) _] => erewrite run_get_cmd by world_lookup
      | |- context [(mbind _ (get_client _)) _] => erewrite run_get_client by world_lookup
      | |- context [(mbind _ (get_ws _)) _] => erewrite run_get_ws by world_lookup
      | |- context [(mbind _ (get_ac _)) _] => erewrite run_get_ac by world_lookup
      | |- context [(mbind _ (upd_cmd _ _)) _] => erewrite run_upd_cmd by world_lookup
      | |- context [(mbind _ (upd_client _ _)) _] => erewrite run_upd_client by world_lookup
      | |- context [(mbind _ (upd_ws _ _)) _] => erewrite run_upd_ws by world_lookup
      | |- context [(mbind _ (upd_ac _ _)) _] => erewrite run_upd_ac by world_lookup
      end ].
Ltac M_run := world_norm; repeat (M_step; world_norm).

(** ** Frames *)

(** The objects of the clients are the same. *)
Definition same_objects (w w' : world) : Prop :=
  w_clients w' = w_clients w /\ w_cmds w' = w_cmds w /\ w_wss w' = w_wss w /\ w_cfg w' = w_cfg w.

#[global] Instance same_objects_preorder : PreOrder same_objects.
Proof.
  split; [done|]. intros w1 w2 w3 (H1 & H2 & H3 & H4) (K1 & K2 & K3 & K4).
  unfold same_objects. by rewrite K1, K2, K3, K4.
Qed.

(** A computation that only touches the connections to Redis. *)
Definition frame {A} (m : M A) : Prop := forall w r w', m w = Ok r w' -> same_objects w w'.

Lemma frame_bind {A B} (m : M A) (f : A -> M B) : frame m -> (forall a, frame (f a)) -> frame (m ≫= f).
Proof. intros Hm Hf w b w' (a & w1 & H1 & H2)%bind_ok. etrans; [by eapply Hm|by eapply Hf]. Qed.

Lemma frame_ret {A} (a : A) : frame (mret a).
Proof. intros w r w' H. M_inv. done. Qed.
Lemma frame_fail {A} e : frame (@fail A e).
Proof. intros w r w' H. M_inv. Qed.
Lemma frame_get : frame get.
Proof. intros w r w' H. M_inv. done. Qed.
Lemma frame_gets {A} (f : world -> A) : frame (gets f).
Proof. intros w r w' H. M_inv. done. Qed.
Lemma frame_get_ac l : frame (get_ac l).
Proof. intros w r w' H. M_inv. done. Qed.
Lemma frame_put_ac l x : frame (put_ac l x).
Proof. intros w r w' H. unfold put_ac in H. M_inv. done. Qed.
Lemma frame_emit e : frame (emit e).
Proof. intros w r w' H. unfold emit in H. M_inv. done. Qed.
Lemma frame_register p : frame (register p).
Proof. intros w r w' H. unfold register in H. M_inv. done. Qed.
Lemma frame_fresh : frame fresh.
Proof. intros w r w' H. unfold fresh in H. M_inv. done. Qed.
Lemma frame_pool (p : world -> pool) : frame (modify (fun w => set_w_pool (p w) w)).
Proof. intros w r w' H. M_inv. done. Qed.
Lemma frame_auth_logged b : frame (modify (set_w_auth_logged b)).
Proof. intros w r w' H. M_inv. done. Qed.
Lemma frame_connect_answer : frame connect_answer.
Proof. intros w r w' H. unfold connect_answer in H. M_inv. by destruct (w_connect w); M_inv. Qed.
Lemma frame_alloc_ok : frame alloc_ok.
Proof. intros w r w' H. unfold alloc_ok in H. M_inv. by destruct (w_alloc w); M_inv. Qed.

Create HintDb frame.
#[export] Hint Resolve frame_ret frame_fail frame_get frame_gets frame_get_ac frame_put_ac frame_emit
  frame_register frame_fresh frame_pool frame_auth_logged frame_connect_answer frame_alloc_ok : frame.

Ltac frame :=
  repeat match goal with
    | |- frame (_ ≫= _) => apply frame_bind; [|intros]
    | |- frame (match ?x with _ => _ end) => destruct x
    | |- frame skip => apply frame_ret
    | |- frame (when ?b _) => unfold when; destruct b
    | _ => solve [auto with frame]
    end.

Lemma frame_upd_ac l f : frame (upd_ac l f).
Proof. unfold upd_ac. frame. Qed.
Lemma frame_del_ac l : frame (del_ac l).
Proof. unfold del_ac. apply frame_bind; [frame|]. intros _ w r w' H. M_inv. done. Qed.
Lemma frame_slog level body : frame (slog level body).
Proof. unfold slog, slog_enabled. frame. Qed.

#[export] Hint Resolve frame_upd_ac frame_del_ac frame_slog : frame.

End World.
