(* ===== verification/Sds.v ===== *)
(** * Dynamic strings: hiredis/sds.c and hiredis/sds.h

    A string of hiredis is a pointer to the bytes behind a header of one of five sizes,
    which holds its length and, but for the smallest, the size of its buffer. A string is
    translated with its buffer: a write or read outside it is a fault. Fresh memory has
    any content ([junk]), and the allocator may refuse any size ([can]). *)
From S2P Require Import Prelude.

Local Open Scope Z_scope.

Module Sds.

(** ** Results *)

Inductive res (A : Type) :=
| Val (a : A)
| NoMemory
| Fault.
Arguments Val {A} a.
Arguments NoMemory {A}.
Arguments Fault {A}.

#[global] Instance res_ret : MRet res := fun A a => Val a.
#[global] Instance res_bind : MBind res := fun A B f m =>
  match m with
  | Val a => f a
  | NoMemory => NoMemory
  | Fault => Fault
  end.

(** ** Headers *)

Definition SDS_TYPE_5 : Z := 0.
Definition SDS_TYPE_8 : Z := 1.
Definition SDS_TYPE_16 : Z := 2.
Definition SDS_TYPE_32 : Z := 3.
Definition SDS_TYPE_64 : Z := 4.
Definition SDS_MAX_PREALLOC : Z := 1024 * 1024.
Definition SSIZE_MAX : Z := 2 ^ 63 - 1.

Definition sdsHdrSize (type : Z) : Z :=
  if type =? SDS_TYPE_5 then 1
  else if type =? SDS_TYPE_8 then 3
  else if type =? SDS_TYPE_16 then 5
  else if type =? SDS_TYPE_32 then 9
  else 17.

(** The bits of the length. *)
Definition type_bits (type : Z) : Z :=
  if type =? SDS_TYPE_5 then 5
  else if type =? SDS_TYPE_8 then 8
  else if type =? SDS_TYPE_16 then 16
  else if type =? SDS_TYPE_32 then 32
  else 64.

Definition sdsReqType (string_size : Z) : Z :=
  if string_size <? 32 then SDS_TYPE_5
  else if string_size <? 0xff then SDS_TYPE_8
  else if string_size <? 0xffff then SDS_TYPE_16
  else if string_size <? 0xffffffff then SDS_TYPE_32
  else SDS_TYPE_64.

(** [s_alloc] means nothing for the smallest header. *)
Record sds := mk_sds {
  s_type : Z;
  s_len : Z;
  s_alloc : Z;
  s_buf : bytes }.

Definition sdslen (s : sds) : Z := s_len s.

Definition sdsavail (s : sds) : Z := if s_type s =? SDS_TYPE_5 then 0 else u64 (s_alloc s - s_len s).

Definition sdsalloc (s : sds) : Z := if s_type s =? SDS_TYPE_5 then s_len s else s_alloc s.

Definition sdssetlen (newlen : Z) (s : sds) : sds :=
  mk_sds (s_type s) (wrap_u (type_bits (s_type s)) newlen) (s_alloc s) (s_buf s).

Definition sdsinclen (inc : Z) (s : sds) : sds :=
  mk_sds (s_type s) (wrap_u (type_bits (s_type s)) (s_len s + inc)) (s_alloc s) (s_buf s).

Definition sdssetalloc (newlen : Z) (s : sds) : sds :=
  if s_type s =? SDS_TYPE_5 then s
  else mk_sds (s_type s) (s_len s) (wrap_u (type_bits (s_type s)) newlen) (s_buf s).

Definition set_buf (buf : bytes) (s : sds) : sds := mk_sds (s_type s) (s_len s) (s_alloc s) buf.

(** ** Memory *)

Definition write (off : Z) (data buf : bytes) : res bytes :=
  if (0 <=? off) && (off + Z.of_nat (length data) <=? Z.of_nat (length buf))
  then Val (take (Z.to_nat off) buf ++ data ++ drop (Z.to_nat off + length data) buf)
  else Fault.

Definition read (off n : Z) (buf : bytes) : res bytes :=
  if (0 <=? off) && (0 <=? n) && (off + n <=? Z.of_nat (length buf))
  then Val (take (Z.to_nat n) (drop (Z.to_nat off) buf))
  else Fault.

(** [memcpy(s + off, data, length)] and [s[off] = c]. *)
Definition put (off : Z) (data : bytes) (s : sds) : res sds :=
  buf ← write off data (s_buf s); Val (set_buf buf s).

Definition content (s : sds) : bytes := take (Z.to_nat (s_len s)) (s_buf s).

Section Code.
Context (junk : nat -> byte) (can : Z -> bool).

Definition fresh (n : Z) : bytes := map junk (seq 0 (Z.to_nat n)).

(** ** Creation *)

Definition sdsnewlen (init : option bytes) (initlen : Z) : res sds :=
  let type := sdsReqType initlen in
  let type := if (type =? SDS_TYPE_5) && (initlen =? 0) then SDS_TYPE_8 else type in
  if negb (can (u64 (sdsHdrSize type + initlen + 1))) then NoMemory
  else
    let buf := match init with None => replicate (Z.to_nat (initlen + 1)) x00 | Some _ => fresh (initlen + 1) end in
    let s := sdssetalloc initlen (sdssetlen initlen (mk_sds type 0 0 buf)) in
    s ← match init with
        | Some t => if initlen =? 0 then Val s else t ← read 0 initlen t; put 0 t s
        | None => Val s
        end;
    put initlen [x00] s.

Definition sdsempty : res sds := sdsnewlen (Some []) 0.

Definition sdsnew (init : option bytes) : res sds :=
  sdsnewlen init (match init with None => 0 | Some t => Z.of_nat (strlen t) end).

Definition sdsdup (s : sds) : res sds := sdsnewlen (Some (s_buf s)) (sdslen s).

(** The length of a string up to its first null byte, an [int]. *)
Definition sdsupdatelen (s : sds) : sds := sdssetlen (u64 (i32 (Z.of_nat (strlen (s_buf s))))) s.

Definition sdsclear (s : sds) : res sds := put 0 [x00] (sdssetlen 0 s).

(** ** Growing *)

(** [realloc] keeps what fits of the old buffer. *)
Definition resize (n : Z) (buf : bytes) : bytes :=
  take (Z.to_nat n) buf ++ drop (length buf) (fresh n).

(** The buffer becomes one of [size] bytes behind a header of the given type. *)
Definition move (type len size : Z) (s : sds) : res sds :=
  let hdrlen := sdsHdrSize type in
  let total := u64 (hdrlen + size + 1) in
  if negb (can total) then NoMemory
  else
    s ← (if s_type s =? type then Val (set_buf (resize (total - hdrlen) (s_buf s)) s)
         else
           t ← read 0 (len + 1) (s_buf s);
           buf ← write 0 t (fresh (total - hdrlen));
           Val (sdssetlen len (mk_sds type 0 0 buf)));
    Val (sdssetalloc size s).

Definition sdsMakeRoomFor (addlen : Z) (s : sds) : res sds :=
  if addlen <=? sdsavail s then Val s
  else
    let len := sdslen s in
    let newlen := u64 (len + addlen) in
    let newlen := if newlen <? SDS_MAX_PREALLOC then newlen * 2 else u64 (newlen + SDS_MAX_PREALLOC) in
    let type := sdsReqType newlen in
    let type := if type =? SDS_TYPE_5 then SDS_TYPE_8 else type in
    move type len newlen s.

Definition sdsRemoveFreeSpace (s : sds) : res sds :=
  let len := sdslen s in move (sdsReqType len) len len s.

Definition sdsAllocSize (s : sds) : Z := sdsHdrSize (s_type s) + sdsalloc s + 1.

(** A failed assertion is a fault. *)
Definition sdsIncrLen (incr : Z) (s : sds) : res sds :=
  let len := s_len s in
  let fits :=
    if s_type s =? SDS_TYPE_5 then ((0 <? incr) && (len + incr <? 32)) || ((incr <? 0) && (- incr <=? len))
    else ((0 <=? incr) && (incr <=? s_alloc s - len)) || ((incr <? 0) && (- incr <=? len)) in
  if negb fits then Fault
  else let s := sdssetlen (len + incr) s in put (s_len s) [x00] s.

Definition sdsgrowzero (len : Z) (s : sds) : res sds :=
  let curlen := sdslen s in
  if len <=? curlen then Val s
  else
    s ← sdsMakeRoomFor (len - curlen) s;
    s ← put curlen (replicate (Z.to_nat (len - curlen + 1)) x00) s;
    Val (sdssetlen len s).

Definition sdscatlen (t : bytes) (s : sds) : res sds :=
  let curlen := sdslen s in
  let len := Z.of_nat (length t) in
  s ← sdsMakeRoomFor len s;
  s ← put curlen t s;
  put (curlen + len) [x00] (sdssetlen (curlen + len) s).

Definition sdscat (t : bytes) (s : sds) : res sds := sdscatlen (cstr t) s.
Definition sdscatsds (t s : sds) : res sds := sdscatlen (content t) s.

Definition sdscpylen (t : bytes) (s : sds) : res sds :=
  let len := Z.of_nat (length t) in
  s ← (if sdsalloc s <? len then sdsMakeRoomFor (u64 (len - sdslen s)) s else Val s);
  s ← put 0 t s;
  s ← put len [x00] s;
  Val (sdssetlen len s).

Definition sdscpy (t : bytes) (s : sds) : res sds := sdscpylen (cstr t) s.

(** ** Numbers *)

(** The digits from the last to the first; a 64-bit number has 20 at most. *)
Fixpoint reversed_digits (fuel : nat) (v : Z) : bytes :=
  match fuel with
  | O => []
  | S fuel => digit_char (v mod 10) :: (if v / 10 =? 0 then [] else reversed_digits fuel (v / 10))
  end.

Definition sdsull2str (v : Z) : bytes := reverse (reversed_digits 20 v).

Definition sdsll2str (value : Z) : bytes :=
  let v := if value <? 0 then u64 (- value) else value in
  reverse (reversed_digits 20 v ++ (if value <? 0 then [x2d] else [])).

Definition sdsfromlonglong (value : Z) : res sds :=
  let buf := sdsll2str value in sdsnewlen (Some buf) (Z.of_nat (length buf)).

(** ** [sdscatvprintf] *)

(** The search for a buffer in which [vsnprintf] has room for the whole text: the last
    byte but one is looked at. The buffer doubles, so that 32 turns are enough for texts
    of less than 2 GB. *)
Fixpoint vprintf_loop (fuel : nat) (buflen : Z) (text : bytes) : res unit :=
  match fuel with
  | O => Fault
  | S fuel =>
      match text !! Z.to_nat (buflen - 2) with
      | Some c => if Byte.eqb c x00 then Val ()
                  else if can (buflen * 2) then vprintf_loop fuel (buflen * 2) text else NoMemory
      | None => Val ()
      end
  end.

(** [text] is what [vsnprintf] makes of the format. *)
Definition sdscatvprintf (fmt text : bytes) (s : sds) : res sds :=
  let buflen := Z.of_nat (strlen fmt) * 2 in
  _ ← (if 1024 <? buflen then if can buflen then vprintf_loop 32 buflen text else NoMemory
       else vprintf_loop 32 1024 text);
  sdscat text s.

(** ** [sdscatfmt] *)

Inductive fmt_arg :=
| FString (t : bytes)
| FSds (t : bytes)
| FInt (v : Z)
| FLongLong (v : Z)
| FUnsigned (v : Z)
| FUnsignedLongLong (v : Z).

(** The text for a conversion, and the arguments left; [None] is a wrong argument. *)
Definition fmt_text (next : byte) (ap : list fmt_arg) : option (bytes * list fmt_arg) :=
  if Byte.eqb next "s" then match ap with FString t :: ap => Some (cstr t, ap) | _ => None end
  else if Byte.eqb next "S" then match ap with FSds t :: ap => Some (t, ap) | _ => None end
  else if Byte.eqb next "i" then match ap with FInt v :: ap => Some (sdsll2str v, ap) | _ => None end
  else if Byte.eqb next "I" then match ap with FLongLong v :: ap => Some (sdsll2str v, ap) | _ => None end
  else if Byte.eqb next "u" then match ap with FUnsigned v :: ap => Some (sdsull2str v, ap) | _ => None end
  else match ap with FUnsignedLongLong v :: ap => Some (sdsull2str v, ap) | _ => None end.

(** Text is copied to the position [i]. *)
Definition fmt_copy (t : bytes) (i : Z) (s : sds) : res sds :=
  let l := Z.of_nat (length t) in
  s ← (if sdsavail s <? l then sdsMakeRoomFor l s else Val s);
  s ← put i t s;
  Val (sdsinclen l s).

(** [skip] says that the byte was read with the percent sign before it. *)
Fixpoint catfmt_loop (skip : bool) (f : bytes) (ap : list fmt_arg) (i : Z) (s : sds) : res sds :=
  match f with
  | [] => put i [x00] s
  | c :: f' =>
      if skip then catfmt_loop false f' ap i s
      else
        s ← (if sdsavail s =? 0 then sdsMakeRoomFor 1 s else Val s);
        if Byte.eqb c "%" then
          match f' with
          | [] => Fault
          | next :: _ =>
              if bool_decide (next ∈ lit "sSiIuU") then
                match fmt_text next ap with
                | None => Fault
                | Some (t, ap) => s ← fmt_copy t i s; catfmt_loop true f' ap (i32 (i + Z.of_nat (length t))) s
                end
              else s ← put i [next] s; catfmt_loop true f' ap (i32 (i + 1)) (sdsinclen 1 s)
          end
        else s ← put i [c] s; catfmt_loop false f' ap (i32 (i + 1)) (sdsinclen 1 s)
  end.

Definition sdscatfmt (fmt : bytes) (ap : list fmt_arg) (s : sds) : res sds :=
  catfmt_loop false (cstr fmt) ap (i32 (sdslen s)) s.

End Code.

(** ** Cutting *)

(** [strchr] also finds the null byte at the end of the set. *)
Definition in_set (cset : bytes) (c : byte) : bool := bool_decide (c ∈ cstr cset) || Byte.eqb c x00.

Fixpoint leading (f : byte -> bool) (l : bytes) : nat :=
  match l with
  | c :: l' => if f c then S (leading f l') else 0
  | [] => 0
  end.

(** The last position behind [sp] whose byte is not in the set. *)
Fixpoint trim_end (f : byte -> bool) (l : bytes) (sp ep : nat) : nat :=
  match ep with
  | O => O
  | S ep' => if (sp <? ep)%nat && f (nth ep l x00) then trim_end f l sp ep' else ep
  end.

Definition sdstrim (cset : bytes) (s : sds) : res sds :=
  let l := content s in
  let sp := leading (in_set cset) l in
  let ep := trim_end (in_set cset) l sp (length l - 1) in
  let len := if bool_decide (l = []) || (ep <? sp)%nat then 0 else Z.of_nat (ep - sp) + 1 in
  t ← read (Z.of_nat sp) len (s_buf s);
  s ← put 0 t s;
  s ← put len [x00] s;
  Val (sdssetlen len s).

(** [false] is the result -1. *)
Definition sdsrange (start end_ : Z) (s : sds) : res (sds * bool) :=
  let len := sdslen s in
  if SSIZE_MAX <? len then Val (s, false)
  else if len =? 0 then Val (s, true)
  else
    let start := if start <? 0 then Z.max 0 (len + start) else start in
    let end_ := if end_ <? 0 then Z.max 0 (len + end_) else end_ in
    let newlen := if end_ <? start then 0 else end_ - start + 1 in
    let '(start, newlen) :=
      if negb (newlen =? 0) then
        if len <=? start then (start, 0)
        else if len <=? end_ then (start, if len - 1 <? start then 0 else len - 1 - start + 1)
        else (start, newlen)
      else (0, newlen) in
    s ← (if negb (start =? 0) && negb (newlen =? 0) then t ← read start newlen (s_buf s); put 0 t s else Val s);
    s ← put newlen [x00] s;
    Val (sdssetlen newlen s, true).

(** A loop over the first [int] bytes. *)
Definition map_bytes (f : byte -> byte) (n : Z) (s : sds) : res sds :=
  t ← read 0 (Z.max 0 n) (s_buf s); put 0 (map f t) s.

Definition sdstolower (s : sds) : res sds := map_bytes tolower (i32 (sdslen s)) s.
Definition sdstoupper (s : sds) : res sds := map_bytes toupper (i32 (sdslen s)) s.

(** The first match of [from] decides. *)
Fixpoint map_char (from to : bytes) (c : byte) : byte :=
  match from, to with
  | x :: from', y :: to' => if Byte.eqb c x then y else map_char from' to' c
  | _, _ => c
  end.

Definition sdsmapchars (from to : bytes) (s : sds) : res sds := map_bytes (map_char from to) (sdslen s) s.

(** ** Comparing and splitting *)

(** [memcmp], as the difference of the first bytes that differ. *)
Fixpoint memcmp (a b : bytes) : Z :=
  match a, b with
  | x :: a', y :: b' => if Byte.eqb x y then memcmp a' b' else Z_of_byte x - Z_of_byte y
  | _, _ => 0
  end.

Definition sdscmp (s1 s2 : sds) : Z :=
  let cmp := memcmp (content s1) (content s2) in
  if cmp =? 0 then i32 (sdslen s1 - sdslen s2) else cmp.

(** The loop over [s]: [skip] bytes of a separator are left, [cur] is the token so far
    (reversed). The last bytes, shorter than a separator, are not looked at. *)
Fixpoint split_loop (sep : bytes) (skip : nat) (s cur : bytes) : list bytes :=
  match s with
  | [] => [reverse cur]
  | c :: s' =>
      match skip with
      | S skip => split_loop sep skip s' cur
      | O =>
          if (length sep <=? length s)%nat && bytes_eqb (take (length sep) s) sep
          then reverse cur :: split_loop sep (length sep - 1) s' []
          else split_loop sep 0 s' (c :: cur)
      end
  end.

(** [None] is the null result; the tokens are given by their contents. *)
Definition sdssplitlen (s sep : bytes) : option (list bytes) :=
  if bool_decide (sep = []) then None
  else if bool_decide (s = []) then Some []
  else Some (split_loop sep 0 s []).

(** A string that is used again: a null pointer is followed. *)
Definition used (r : res sds) : res sds := match r with NoMemory => Fault | r => r end.

Section Made.
Context (junk : nat -> byte) (can : Z -> bool).

(** [argc] is the number of the strings left. *)
Fixpoint join_loop (sep : bytes) (argv : list bytes) (join : sds) : res sds :=
  match argv with
  | [] => Val join
  | [a] => sdscatlen junk can a join
  | a :: argv => join ← used (sdscatlen junk can a join); join ← used (sdscatlen junk can sep join); join_loop sep argv join
  end.

Definition sdsjoinsds (sep : bytes) (argv : list sds) : res sds :=
  join ← match argv with [] => sdsempty junk can | _ => used (sdsempty junk can) end;
  join_loop sep (map content argv) join.

(** On C strings. *)
Definition sdsjoin (sep : bytes) (argv : list bytes) : res sds :=
  join ← match argv with [] => sdsempty junk can | _ => used (sdsempty junk can) end;
  join_loop (cstr sep) (map cstr argv) join.

(** ** Quoting *)

Definition isprint (c : byte) : bool := let z := Z_of_byte c in (32 <=? z) && (z <=? 126).

(** The texts given to [sdscatprintf] are what it makes of ["\%c"], ["%c"] and
    ["\x%02x"]. *)
Definition repr_char (c : byte) (s : sds) : res sds :=
  if Byte.eqb c x5c || Byte.eqb c x22 then sdscatvprintf junk can (lit "\%c") [x5c; c] s
  else if Byte.eqb c x0a then sdscatlen junk can (lit "\n") s
  else if Byte.eqb c x0d then sdscatlen junk can (lit "\r") s
  else if Byte.eqb c x09 then sdscatlen junk can (lit "\t") s
  else if Byte.eqb c x07 then sdscatlen junk can (lit "\a") s
  else if Byte.eqb c x08 then sdscatlen junk can (lit "\b") s
  else if isprint c then sdscatvprintf junk can (lit "%c") [c] s
  else sdscatvprintf junk can (lit "\x%02x") (lit "\x" ++ [digit_char (Z_of_byte c / 16); digit_char (Z_of_byte c mod 16)]) s.

Fixpoint repr_loop (p : bytes) (s : sds) : res sds :=
  match p with
  | [] => Val s
  | c :: p => s ← used (repr_char c s); repr_loop p s
  end.

Definition sdscatrepr (p : bytes) (s : sds) : res sds :=
  s ← used (sdscatlen junk can [x22] s); s ← repr_loop p s; sdscatlen junk can [x22] s.

End Made.

Definition hex_digit_to_int (c : byte) : Z := default 0 (digit_val c).

Definition isspace (c : byte) : bool := let z := Z_of_byte c in (z =? 32) || ((9 <=? z) && (z <=? 13)).

(** The rest of a string, with the null byte behind its end. *)
Definition at_ (i : nat) (p : bytes) : byte := nth i p x00.

Inductive quotes := Bare | Quoted | SingleQuoted.

Inductive token :=
| Token (current rest : bytes)
| Unbalanced.

(** A closing quote is followed by a space or the end. *)
Definition closes (p : bytes) : bool := Byte.eqb (at_ 1 p) x00 || isspace (at_ 1 p).

Definition unescape (c : byte) : byte :=
  if Byte.eqb c "n" then x0a
  else if Byte.eqb c "r" then x0d
  else if Byte.eqb c "t" then x09
  else if Byte.eqb c "b" then x08
  else if Byte.eqb c "a" then x07
  else c.

(** The loop over a token; [skip] bytes belong to an escape that was read. *)
Fixpoint token_loop (skip : nat) (q : quotes) (p current : bytes) : token :=
  match p with
  | [] => match q with Bare => Token current [] | _ => Unbalanced end
  | c :: p' =>
      match skip with
      | S skip => token_loop skip q p' current
      | O =>
          match q with
          | Quoted =>
              if Byte.eqb c x5c && Byte.eqb (at_ 1 p) "x" && isxdigit (at_ 2 p) && isxdigit (at_ 3 p) then
                token_loop 3 q p' (current ++ [byte_of_Z (hex_digit_to_int (at_ 2 p) * 16 + hex_digit_to_int (at_ 3 p))])
              else if Byte.eqb c x5c && negb (Byte.eqb (at_ 1 p) x00) then
                token_loop 1 q p' (current ++ [unescape (at_ 1 p)])
              else if Byte.eqb c x22 then if closes p then Token current p' else Unbalanced
              else token_loop 0 q p' (current ++ [c])
          | SingleQuoted =>
              if Byte.eqb c x5c && Byte.eqb (at_ 1 p) x27 then token_loop 1 q p' (current ++ [x27])
              else if Byte.eqb c x27 then if closes p then Token current p' else Unbalanced
              else token_loop 0 q p' (current ++ [c])
          | Bare =>
              if bool_decide (c ∈ [x20; x0a; x0d; x09]) then Token current p'
              else if Byte.eqb c x22 then token_loop 0 Quoted p' current
              else if Byte.eqb c x27 then token_loop 0 SingleQuoted p' current
              else token_loop 0 Bare p' (current ++ [c])
          end
      end
  end.

Fixpoint skip_blanks (p : bytes) : bytes :=
  match p with
  | c :: p' => if isspace c then skip_blanks p' else p
  | [] => []
  end.

(** The loop over the line, with a turn for every token; a token uses at least one
    byte. *)
Fixpoint splitargs_loop (fuel : nat) (p : bytes) : option (list bytes) :=
  match fuel with
  | O => None
  | S fuel =>
      match skip_blanks p with
      | [] => Some []
      | p =>
          match token_loop 0 Bare p [] with
          | Token current rest => cons current <$> splitargs_loop fuel rest
          | Unbalanced => None
          end
      end
  end.

(** [None] is the null result for unbalanced quotes. *)
Definition sdssplitargs (line : bytes) : option (list bytes) :=
  let p := cstr line in splitargs_loop (S (length p)) p.

End Sds.
