(* ===== verification/SdsRefine.v ===== *)
(** * Dynamic strings are byte strings

    Every operation on a string of [Sds] keeps it well formed (the length and the size of
    the buffer fit the header, the text ends with a null byte inside the buffer) and does
    to its content what the same operation does to a list of bytes. *)
From S2P Require Import Prelude Sds.

Local Open Scope Z_scope.

Module SdsRefine.
Import Sds.

(** ** Well-formed strings *)

(** [c] is the byte behind the text, null but in the middle of some operations. *)
Record wf_at (c : byte) (s : sds) (l : bytes) : Prop := {
  wf_type : 0 <= s_type s <= 4;
  wf_len : s_len s = Z.of_nat (length l);
  wf_alloc : s_len s <= sdsalloc s < 2 ^ type_bits (s_type s);
  wf_room : sdsalloc s + 1 <= Z.of_nat (length (s_buf s));
  wf_text : exists rest, s_buf s = l ++ c :: rest }.
Arguments wf_type {c} s l.
Arguments wf_len {c} s l.
Arguments wf_alloc {c} s l.
Arguments wf_room {c} s l.
Arguments wf_text {c} s l.
Abbreviation wf := (wf_at x00).

Lemma wf_content s l : wf s l -> content s = l.
Proof. intros H. destruct (wf_text s l H) as [rest E]. unfold content. rewrite (wf_len s l H), Nat2Z.id, E. apply take_app_length. Qed.

Lemma type_cases t : 0 <= t <= 4 -> t = 0 \/ t = 1 \/ t = 2 \/ t = 3 \/ t = 4.
Proof. lia. Qed.

Lemma type_bits_pos t : 0 < type_bits t <= 64.
Proof. unfold type_bits. repeat case_match; lia. Qed.

Lemma wrap_len t n : 0 <= n < 2 ^ type_bits t -> wrap_u (type_bits t) n = n.
Proof. intros Hn. unfold wrap_u. by apply Z.mod_small. Qed.

Lemma reqType_bits n : 0 <= n < 2 ^ 64 -> 0 <= sdsReqType n <= 4 /\ n < 2 ^ type_bits (sdsReqType n).
Proof.
  intros Hn. unfold sdsReqType.
  destruct (Z.ltb_spec n 32); [split; [done|]; change (n < 2 ^ 5); lia|].
  destruct (Z.ltb_spec n 0xff); [split; [done|]; change (n < 2 ^ 8); lia|].
  destruct (Z.ltb_spec n 0xffff); [split; [done|]; change (n < 2 ^ 16); lia|].
  destruct (Z.ltb_spec n 0xffffffff); [split; [done|]; change (n < 2 ^ 32); lia|].
  split; [done|]. change (n < 2 ^ 64). lia.
Qed.

(** ** Writing *)

Lemma write_app off a d b :
  off = Z.of_nat (length a) -> (length d <= length b)%nat -> write off d (a ++ b) = Val (a ++ d ++ drop (length d) b).
Proof.
  intros -> Hd. unfold write. rewrite length_app, Nat2Z.id, (proj2 (Z.leb_le 0 _)), (proj2 (Z.leb_le _ _)) by lia.
  cbn [andb]. rewrite take_app_length. by rewrite drop_app_add.
Qed.

Lemma write_0 d b : (length d <= length b)%nat -> write 0 d b = Val (d ++ drop (length d) b).
Proof. intros Hd. by apply (write_app 0 [] d b). Qed.

Lemma read_app off n a d b :
  off = Z.of_nat (length a) -> n = Z.of_nat (length d) -> read off n (a ++ d ++ b) = Val d.
Proof.
  intros -> ->. unfold read. rewrite !length_app, (proj2 (Z.leb_le 0 _)), (proj2 (Z.leb_le 0 _)), (proj2 (Z.leb_le _ _)) by lia.
  cbn [andb]. by rewrite !Nat2Z.id, drop_app_length, take_app_length.
Qed.

Lemma put_app off a d b s :
  s_buf s = a ++ b -> off = Z.of_nat (length a) -> (length d <= length b)%nat ->
  put off d s = Val (set_buf (a ++ d ++ drop (length d) b) s).
Proof. intros E Ho Hd. unfold put. by rewrite E, write_app. Qed.

(** A new text in the buffer, with its length. *)
Lemma wf_set s l l' rest :
  wf s l -> Z.of_nat (length l') <= sdsalloc s -> length (l' ++ x00 :: rest) = length (s_buf s) ->
  wf (sdssetlen (Z.of_nat (length l')) (set_buf (l' ++ x00 :: rest) s)) l'.
Proof.
  intros H Ha Hl. pose proof (wf_alloc s l H) as Hb. pose proof (wf_room s l H) as Hr. unfold sdsalloc in *.
  assert (wrap_u (type_bits (s_type s)) (Z.of_nat (length l')) = Z.of_nat (length l')) as Ew by (apply wrap_len; lia).
  split; unfold sdsalloc; cbn [s_type s_len s_alloc s_buf sdssetlen set_buf]; rewrite ?Ew, ?Hl; try done.
  - apply H.
  - destruct (s_type s =? SDS_TYPE_5); lia.
  - destruct (s_type s =? SDS_TYPE_5); lia.
  - by exists rest.
Qed.

(** ** What the operations mean *)

(** The bytes without those of a set at both ends. *)
Definition strip_end (f : byte -> bool) (l : bytes) : bytes := reverse (drop (leading f (reverse l)) (reverse l)).
Definition strip (f : byte -> bool) (l : bytes) : bytes := strip_end f (drop (leading f l) l).

(** The bytes from [start] to [end_], which count from the end when negative. *)
Definition range (start end_ : Z) (l : bytes) : bytes :=
  let n := Z.of_nat (length l) in
  let from_end i := if i <? 0 then Z.max 0 (n + i) else i in
  let start := from_end start in
  let end_ := Z.min (n - 1) (from_end end_) in
  if end_ <? start then [] else take (Z.to_nat (end_ - start + 1)) (drop (Z.to_nat start) l).

(** The text of a format of [sdscatfmt]. *)
Fixpoint expand (f : bytes) (ap : list fmt_arg) : option bytes :=
  match f with
  | [] => Some []
  | c :: f' =>
      if Byte.eqb c "%" then
        match f' with
        | [] => None
        | next :: f'' =>
            if bool_decide (next ∈ lit "sSiIuU") then '(t, ap) ← fmt_text next ap; app t <$> expand f'' ap
            else cons next <$> expand f'' ap
        end
      else cons c <$> expand f' ap
  end.

Lemma leading_le f l : (leading f l <= length l)%nat.
Proof. induction l as [|c l IH]; cbn; [lia|]. destruct (f c); lia. Qed.

Lemma leading_head f l c m : drop (leading f l) l = c :: m -> f c = false.
Proof. induction l as [|x l IH]; cbn; [done|]. destruct (f x) eqn:E; [done|]. by intros [= <- _]. Qed.

Lemma strip_end_snoc f l c : strip_end f (l ++ [c]) = if f c then strip_end f l else l ++ [c].
Proof. unfold strip_end. rewrite reverse_snoc. cbn [leading]. destruct (f c); cbn [drop]; [done|]. by rewrite reverse_cons, reverse_involutive. Qed.

Lemma strip_end_length f l : (length (strip_end f l) <= length l)%nat.
Proof. unfold strip_end. rewrite length_reverse, length_drop, length_reverse. lia. Qed.

(** The scan from the end finds the last byte of the stripped text. *)
Lemma trim_end_spec f l sp c m k :
  drop sp l = c :: m -> f c = false -> (k < length (c :: m))%nat ->
  (sp <= trim_end f l sp (sp + k) <= sp + k)%nat /\
  take (trim_end f l sp (sp + k) - sp + 1) (c :: m) = strip_end f (take (k + 1) (c :: m)).
Proof.
  intros E Hc. induction k as [|k IH]; intros Hk.
  - rewrite Nat.add_0_r. assert (trim_end f l sp sp = sp) as Et by (destruct sp; cbn [trim_end]; [done|]; by rewrite Nat.ltb_irrefl).
    rewrite Et. split; [lia|]. replace (sp - sp + 1)%nat with 1%nat by lia.
    pose proof (strip_end_snoc f [] c) as Es. rewrite Hc in Es. cbn [app] in Es. exact (eq_sym Es).
  - destruct (lookup_lt_is_Some_2 (c :: m) (S k)) as [d Ed]; [done|].
    assert (nth (sp + S k) l x00 = d) as En.
    { apply nth_lookup_Some. rewrite <-E, lookup_drop in Ed. done. }
    replace (sp + S k)%nat with (S (sp + k)) in * by lia. cbn [trim_end]. rewrite En, (proj2 (Nat.ltb_lt _ _)) by lia. cbn [andb].
    replace (S k + 1)%nat with (S (k + 1)) by lia. rewrite (take_S_r _ (k + 1) d) by (by replace (k + 1)%nat with (S k) by lia).
    rewrite strip_end_snoc. destruct (f d).
    + destruct IH as [H1 H2]; [lia|]. split; [lia|done].
    + split; [lia|]. replace (S (sp + k) - sp + 1)%nat with (S (k + 1)) by lia.
      by rewrite (take_S_r _ (k + 1) d) by (by replace (k + 1)%nat with (S k) by lia).
Qed.

Section Proofs.
Context (junk : nat -> byte) (can : Z -> bool).

(** A result that is as expected, or for want of memory. *)
Definition gives {A} (r : res A) (P : A -> Prop) : Prop :=
  match r with
  | Val a => P a
  | NoMemory => exists n, can n = false
  | Fault => False
  end.

Lemma gives_bind {A B} (m : res A) (f : A -> res B) (P : A -> Prop) (Q : B -> Prop) :
  gives m P -> (forall a, P a -> gives (f a) Q) -> gives (m ≫= f) Q.
Proof. intros Hm Hf. by destruct m; [apply Hf| |]. Qed.

Lemma gives_impl {A} (m : res A) (P Q : A -> Prop) : gives m P -> (forall a, P a -> Q a) -> gives m Q.
Proof. intros Hm Hi. destruct m; [by apply Hi|done..]. Qed.

Lemma length_fresh n : length (fresh junk n) = Z.to_nat n.
Proof. unfold fresh. by rewrite length_map, length_seq. Qed.

Lemma resize_app (c : byte) n l rest :
  Z.of_nat (length l) < n -> exists rest', resize junk n (l ++ c :: rest) = l ++ c :: rest' /\
    length (l ++ c :: rest') = Z.to_nat n.
Proof.
  intros Hn. unfold resize. exists (take (Z.to_nat n - length l - 1) rest ++ drop (length (l ++ c :: rest)) (fresh junk n)).
  assert (take (Z.to_nat n) (l ++ c :: rest) = l ++ c :: take (Z.to_nat n - length l - 1) rest) as ->.
  { rewrite take_app_ge by lia. destruct (Z.to_nat n - length l)%nat as [|k] eqn:Ek; [lia|]. cbn [take Nat.sub]. by rewrite Nat.sub_0_r. }
  split; [by rewrite <-app_assoc|]. rewrite !length_app. cbn [length]. rewrite !length_app, length_drop, length_take, length_fresh.
  cbn [length]. lia.
Qed.

Lemma move_spec (c : byte) type size s l :
  wf_at c s l -> 0 <= type <= 4 -> Z.of_nat (length l) <= size < 2 ^ 63 -> size < 2 ^ type_bits type ->
  (type = SDS_TYPE_5 -> size = Z.of_nat (length l)) ->
  gives (move junk can type (s_len s) size s) (fun s' => wf_at c s' l /\ sdsalloc s' = size /\ s_type s' = type).
Proof.
  intros H Ht Hsz Hb H5. unfold move. assert (0 < sdsHdrSize type <= 17) as Hh by (unfold sdsHdrSize; repeat case_match; lia).
  rewrite (wrap_u_small 64) by lia. destruct (can _) eqn:Ec; cbn [negb gives]; [|by eexists].
  replace (sdsHdrSize type + size + 1 - sdsHdrSize type) with (size + 1) by lia.
  destruct (wf_text s l H) as [rest Er]. pose proof (wf_len s l H) as El. pose proof (wf_alloc s l H) as Ha.
  assert (wrap_u (type_bits type) size = size) as Ew by (apply wrap_len; lia).
  assert (forall buf al, 0 <= s_len s -> (exists rest', buf = l ++ c :: rest' /\ length buf = Z.to_nat (size + 1)) ->
    let s' := sdssetalloc size (mk_sds type (s_len s) al buf) in wf_at c s' l /\ sdsalloc s' = size /\ s_type s' = type) as Hw.
  { intros buf al _ (rest' & Eb & Hlb) s'. subst s'. unfold sdssetalloc. cbn [s_type s_len s_alloc s_buf]. destruct (Z.eqb_spec type SDS_TYPE_5) as [->|Hne].
    - rewrite H5 in * by done. unfold sdsalloc. cbn. rewrite El. split; [|done]. split; unfold sdsalloc; cbn; try lia; [done|by exists rest'].
    - unfold sdsalloc. cbn [s_type s_alloc]. rewrite (proj2 (Z.eqb_neq _ _)) by done. rewrite Ew. split; [|done].
      split; unfold sdsalloc; cbn [s_type s_len s_alloc s_buf]; rewrite ?(proj2 (Z.eqb_neq _ _)) by done; try lia. by exists rest'. }
  destruct (Z.eqb_spec (s_type s) type) as [Et|Hne]; cbn [mbind res_bind gives].
  - destruct (resize_app c (size + 1) l rest ltac:(lia)) as (rest' & E & Hl'). rewrite Er, E. unfold set_buf. rewrite Et.
    apply Hw; [lia|]. by exists rest'.
  - assert (read 0 (s_len s + 1) (s_buf s) = Val (l ++ [c])) as ->.
    { rewrite Er. change (l ++ c :: rest) with (l ++ [c] ++ rest). rewrite app_assoc.
      apply (read_app 0 _ [] (l ++ [c]) rest); [done|]. rewrite length_app. cbn [length]. lia. }
    cbn [mbind res_bind]. rewrite write_0 by (rewrite length_fresh, length_app; cbn [length]; lia).
    cbn [mbind res_bind gives app]. unfold sdssetlen. cbn [s_type s_alloc s_buf].
    rewrite wrap_len by lia. apply Hw; [lia|]. eexists. split; [by rewrite <-app_assoc|].
    rewrite length_app, length_drop, length_fresh, !length_app. cbn [length]. lia.
Qed.

Lemma makeRoom_spec (c : byte) addlen s l :
  wf_at c s l -> 0 <= addlen -> Z.of_nat (length l) + addlen < 2 ^ 61 ->
  gives (sdsMakeRoomFor junk can addlen s) (fun s' => wf_at c s' l /\ Z.of_nat (length l) + addlen <= sdsalloc s' /\
    (0 < addlen -> s_type s' <> SDS_TYPE_5)).
Proof.
  intros H Ha Hs. unfold sdsMakeRoomFor. pose proof (wf_len s l H) as El. pose proof (wf_alloc s l H) as Hal.
  pose proof (type_bits_pos (s_type s)) as Hb.
  destruct (Z.leb_spec addlen (sdsavail s)) as [Hle|Hlt].
  - cbn. split; [done|]. unfold sdsavail, sdsalloc in *. destruct (Z.eqb_spec (s_type s) SDS_TYPE_5); [lia|].
    assert (2 ^ type_bits (s_type s) <= 2 ^ 64) by (apply Z.pow_le_mono_r; lia). rewrite wrap_u_small in Hle by lia. split; [lia|done].
  - unfold sdslen. rewrite wrap_u_small by lia. set (n := s_len s + addlen) in *.
    set (newlen := if n <? SDS_MAX_PREALLOC then n * 2 else u64 (n + SDS_MAX_PREALLOC)).
    assert (n <= newlen < 2 ^ 62) as Hn.
    { unfold newlen, SDS_MAX_PREALLOC. destruct (Z.ltb_spec n (1024 * 1024)); [lia|]. rewrite wrap_u_small by lia. lia. }
    destruct (reqType_bits newlen ltac:(lia)) as [Ht Hq]. cbv zeta.
    set (type := if sdsReqType newlen =? SDS_TYPE_5 then SDS_TYPE_8 else sdsReqType newlen).
    assert (0 <= type <= 4 /\ type <> SDS_TYPE_5 /\ newlen < 2 ^ type_bits type) as (Ht' & H5 & Hb').
    { unfold type. destruct (Z.eqb_spec (sdsReqType newlen) SDS_TYPE_5) as [E|]; [|done]. split; [done|]. split; [done|].
      rewrite E in Hq. change (newlen < 2 ^ 5) in Hq. change (newlen < 2 ^ 8). lia. }
    eapply gives_impl; [apply (move_spec c); try done; lia|]. cbv beta. intros s' (Hw & Ea & Et). split; [done|]. subst n. split; [lia|]. intros _. by rewrite Et.
Qed.

(** The two orders in which the code ends a text: the length first, or the null byte. *)
Lemma end_text s l l' b n :
  wf s l -> Z.of_nat (length l') <= sdsalloc s -> length (l' ++ b) = length (s_buf s) -> b <> [] -> n = Z.of_nat (length l') ->
  gives (put n [x00] (sdssetlen n (set_buf (l' ++ b) s))) (fun s' => wf s' l') /\
  gives (s ← put n [x00] (set_buf (l' ++ b) s); Val (sdssetlen n s)) (fun s' => wf s' l').
Proof.
  intros H Ha Hl Hb ->. destruct b as [|c b]; [done|].
  assert (forall s0, s_buf s0 = l' ++ c :: b -> put (Z.of_nat (length l')) [x00] s0 = Val (set_buf (l' ++ x00 :: b) s0)) as Hp.
  { intros s0 E. rewrite (put_app _ l' [x00] (c :: b)) by (done || cbn; lia). done. }
  assert (wf (sdssetlen (Z.of_nat (length l')) (set_buf (l' ++ x00 :: b) s)) l') as Hw.
  { apply (wf_set s l); [done|done|]. rewrite <-Hl, !length_app. done. }
  rewrite !Hp by done. by split.
Qed.

(** The space behind a text that may grow by [n] bytes. *)
Lemma room_behind s l n :
  wf s l -> Z.of_nat (length l) + n <= sdsalloc s ->
  exists b, s_buf s = l ++ b /\ n + 1 <= Z.of_nat (length b) /\ length (l ++ b) = length (s_buf s).
Proof.
  intros H Ha. destruct (wf_text s l H) as [rest E]. exists (x00 :: rest). pose proof (wf_room s l H) as Hr. rewrite E in *.
  rewrite length_app in *. split; [done|]. split; [lia|done].
Qed.

Lemma drop_nonempty (n : nat) (b : bytes) : (n < length b)%nat -> drop n b <> [].
Proof. intros Hn E. apply (f_equal length) in E. rewrite length_drop in E. cbn in E. lia. Qed.

Lemma catlen_spec t s l :
  wf s l -> Z.of_nat (length l) + Z.of_nat (length t) < 2 ^ 61 -> gives (sdscatlen junk can t s) (fun s' => wf s' (l ++ t)).
Proof.
  intros H Hs. unfold sdscatlen, sdslen. rewrite (wf_len s l H). eapply gives_bind; [by eapply makeRoom_spec; [exact H|lia|]|].
  cbv beta. intros s1 (H1 & Ha & _). destruct (room_behind s1 l _ H1 Ha) as (b & Eb & Hb & Hl).
  rewrite (put_app _ l t b) by (done || lia). cbn [mbind res_bind].
  rewrite app_assoc. apply (end_text s1 l (l ++ t)); [done|rewrite length_app; lia| |apply drop_nonempty; lia|rewrite length_app; lia].
  rewrite <-Hl, !length_app, length_drop. lia.
Qed.

Lemma cpylen_spec t s l :
  wf s l -> Z.of_nat (length t) < 2 ^ 61 -> gives (sdscpylen junk can t s) (fun s' => wf s' t).
Proof.
  intros H Ht. unfold sdscpylen. pose proof (wf_alloc s l H) as Hal. pose proof (wf_len s l H) as El.
  apply (gives_bind _ _ (fun s' => wf s' l /\ Z.of_nat (length t) <= sdsalloc s')).
  - destruct (Z.ltb_spec (sdsalloc s) (Z.of_nat (length t))); [|by split].
    unfold sdslen. rewrite El, wrap_u_small by lia. eapply gives_impl; [apply (makeRoom_spec _ _ _ l H); lia|].
    cbv beta. intros s' (Hw & Ha & _). split; [done|lia].
  - intros s1 [H1 Ha]. pose proof (wf_room s1 l H1) as Hr. rewrite (put_app 0 [] t (s_buf s1)) by (done || lia). cbn [mbind res_bind app].
    apply (end_text s1 l t); [done|done| |apply drop_nonempty; lia|done]. rewrite length_app, length_drop. lia.
Qed.

Lemma growzero_spec n s l :
  wf s l -> 0 <= n < 2 ^ 61 ->
  gives (sdsgrowzero junk can n s) (fun s' => wf s' (l ++ replicate (Z.to_nat n - length l) x00)).
Proof.
  intros H Hn. unfold sdsgrowzero, sdslen. rewrite (wf_len s l H). destruct (Z.leb_spec n (Z.of_nat (length l))) as [Hle|Hlt].
  - replace (Z.to_nat n - length l)%nat with 0%nat by lia. cbn. by rewrite app_nil_r.
  - eapply gives_bind; [apply (makeRoom_spec _ _ _ l H); lia|]. cbv beta. intros s1 (H1 & Ha & _).
    destruct (room_behind s1 l _ H1 Ha) as (b & Eb & Hb & Hl).
    rewrite (put_app _ l (replicate (Z.to_nat (n - Z.of_nat (length l) + 1)) x00) b) by (done || (rewrite length_replicate; lia)).
    cbn [mbind res_bind gives]. rewrite length_replicate. set (k := (Z.to_nat n - length l)%nat).
    replace (Z.to_nat (n - Z.of_nat (length l) + 1)) with (k + 1)%nat by lia.
    rewrite replicate_add. cbn [replicate]. rewrite <-app_assoc, app_assoc. cbn [app].
    replace n with (Z.of_nat (length (l ++ replicate k x00))) at 1 by (rewrite length_app, length_replicate; lia).
    apply (wf_set s1 l); [done|rewrite length_app, length_replicate; lia|].
    rewrite <-Hl, !length_app, length_replicate. cbn [length]. rewrite length_drop. lia.
Qed.

Lemma clear_spec s l : wf s l -> gives (sdsclear s) (fun s' => wf s' []).
Proof.
  intros H. unfold sdsclear. pose proof (wf_alloc s l H) as Ha. pose proof (wf_len s l H) as El. pose proof (wf_room s l H) as Hr.
  assert (s = set_buf ([] ++ s_buf s) s) as -> by (by destruct s).
  apply (end_text s l []); [done|cbn; lia|done| |done]. intros E. rewrite E in Hr. cbn in Hr. lia.
Qed.

(** A text that is a part of the old one is moved to the start. *)
Lemma keep_spec s l l' n :
  wf s l -> (length l' <= length l)%nat -> n = Z.of_nat (length l') ->
  gives (s ← put 0 l' s; s ← put n [x00] s; Val (sdssetlen n s)) (fun s' => wf s' l').
Proof.
  intros H Hl ->. pose proof (wf_alloc s l H) as Ha. pose proof (wf_len s l H) as El. pose proof (wf_room s l H) as Hr.
  rewrite (put_app 0 [] l' (s_buf s)) by (done || lia). cbn [mbind res_bind app].
  apply (end_text s l l'); [done|lia| |apply drop_nonempty; lia|done]. rewrite length_app, length_drop. lia.
Qed.

Lemma newlen_spec t : Z.of_nat (length t) < 2 ^ 61 -> gives (sdsnewlen junk can (Some t) (Z.of_nat (length t))) (fun s => wf s t).
Proof.
  intros Ht. unfold sdsnewlen. cbv zeta. set (n := Z.of_nat (length t)) in *. destruct (reqType_bits n ltac:(lia)) as [Hr Hq].
  set (type := if (sdsReqType n =? SDS_TYPE_5) && (n =? 0) then SDS_TYPE_8 else sdsReqType n).
  assert (0 <= type <= 4 /\ n < 2 ^ type_bits type) as [Ht' Hb].
  { unfold type. destruct (Z.eqb_spec (sdsReqType n) SDS_TYPE_5), (Z.eqb_spec n 0) as [->|]; done. }
  destruct (can _) eqn:Ec; cbn [negb]; [|by eexists].
  set (s0 := sdssetalloc n (sdssetlen n (mk_sds type 0 0 (fresh junk (n + 1))))).
  assert (s_type s0 = type /\ s_len s0 = n /\ sdsalloc s0 = n /\ s_buf s0 = fresh junk (n + 1)) as (Es1 & Es2 & Es3 & Es4).
  { unfold s0, sdsalloc, sdssetalloc, sdssetlen. cbn [s_type s_len s_alloc s_buf].
    destruct (type =? SDS_TYPE_5) eqn:E; cbn [s_type s_len s_alloc s_buf]; rewrite E, !wrap_len by lia; done. }
  assert ((if n =? 0 then Val s0 else t ← read 0 n t; put 0 t s0) = Val (set_buf (t ++ drop (length t) (fresh junk (n + 1))) s0)) as ->.
  { destruct (Z.eqb_spec n 0) as [Ez|Hz].
    - assert (t = []) as -> by (apply length_zero_iff_nil; lia). cbn [app length drop]. rewrite <-Es4. by destruct s0.
    - pose proof (read_app 0 n [] t [] eq_refl eq_refl) as E. cbn [app] in E. rewrite app_nil_r in E. rewrite E. cbn [mbind res_bind].
      rewrite (put_app 0 [] t (fresh junk (n + 1))); [done|done|done|rewrite length_fresh; lia]. }
  cbn [mbind res_bind]. set (b := drop (length t) (fresh junk (n + 1))).
  assert (length b = 1%nat) as Hlb by (unfold b; rewrite length_drop, length_fresh; lia).
  destruct b as [|c [|]]; [done| |done]. rewrite (put_app n t [x00] [c]) by (done || cbn; lia). cbn [gives].
  split; unfold sdsalloc in *; cbn [s_type s_len s_alloc s_buf set_buf]; rewrite ?Es1, ?Es2 in *; rewrite ?Es3; try done; try lia.
  - rewrite !length_app. cbn [length]. lia.
  - by exists [].
Qed.

Lemma updatelen_spec s l : wf s l -> Z.of_nat (length l) < 2 ^ 31 -> wf (sdsupdatelen s) (cstr l).
Proof.
  intros H Hl. unfold sdsupdatelen. destruct (wf_text s l H) as [rest E].
  assert (exists b, s_buf s = cstr l ++ x00 :: b) as [b Eb].
  { rewrite E. clear. induction l as [|c l IH]; cbn; [by exists rest|]. destruct (Byte.eqb c x00) eqn:Ec.
    - apply byte_eqb_eq in Ec as ->. by eexists.
    - destruct IH as [b IH]. exists b. cbn. by rewrite IH. }
  assert (length (cstr l) <= length l)%nat as Hc by (apply prefix_length, cstr_prefix).
  assert (cstr (s_buf s) = cstr l) as Ecs.
  { rewrite Eb, cstr_app by apply cstr_no_nul. cbn. apply app_nil_r. }
  unfold strlen. rewrite Ecs, wrap_s_small, wrap_u_small by (change (2 ^ (32 - 1)) with (2 ^ 31); lia).
  pose proof (wf_alloc s l H). pose proof (wf_len s l H).
  assert (s = set_buf (cstr l ++ x00 :: b) s) as -> by (destruct s; cbn in *; by rewrite <-Eb).
  apply (wf_set s l); [done|lia|by rewrite <-Eb].
Qed.

Lemma map_bytes_spec f s l : wf s l -> gives (map_bytes f (Z.of_nat (length l)) s) (fun s' => wf s' (map f l)).
Proof.
  intros H. unfold map_bytes. destruct (wf_text s l H) as [rest E]. rewrite Z.max_r by lia.
  pose proof (read_app 0 (Z.of_nat (length l)) [] l (x00 :: rest) eq_refl eq_refl) as Er. cbn [app] in Er. rewrite E, Er. cbn [mbind res_bind].
  rewrite (put_app 0 [] (map f l) (l ++ x00 :: rest)) by (done || (rewrite length_map, length_app; lia)). cbn [gives app].
  rewrite length_map, drop_app_length. pose proof (wf_alloc s l H) as Ha. pose proof (wf_len s l H) as El.
  assert (set_buf (map f l ++ x00 :: rest) s = sdssetlen (Z.of_nat (length (map f l))) (set_buf (map f l ++ x00 :: rest) s)) as ->.
  { unfold sdssetlen, set_buf. cbn. rewrite length_map, wrap_len by lia. by rewrite El. }
  apply (wf_set s l); [done|rewrite length_map; lia|]. by rewrite E, !length_app, length_map.
Qed.

Lemma shrink_spec s l : wf s l -> Z.of_nat (length l) < 2 ^ 61 -> gives (sdsRemoveFreeSpace junk can s) (fun s' => wf s' l).
Proof.
  intros H Hl. unfold sdsRemoveFreeSpace, sdslen. cbv zeta. pose proof (wf_len s l H) as El.
  destruct (reqType_bits (s_len s) ltac:(lia)) as [Ht Hq]. eapply gives_impl; [apply (move_spec _ _ _ s l H); try done; lia|].
  by intros s' [? _].
Qed.

(** Room is made, bytes are written behind the text, and the length is adjusted. *)
Definition fill (room : Z) (data : bytes) (s : sds) : res sds :=
  let oldlen := sdslen s in
  s ← sdsMakeRoomFor junk can room s;
  s ← put oldlen data s;
  sdsIncrLen (Z.of_nat (length data)) s.

Lemma fill_spec room data s l :
  wf s l -> 0 < room -> Z.of_nat (length data) <= room -> Z.of_nat (length l) + room < 2 ^ 61 ->
  gives (fill room data s) (fun s' => wf s' (l ++ data)).
Proof.
  intros H Hr Hd Hs. unfold fill, sdslen. rewrite (wf_len s l H). eapply gives_bind; [by apply (makeRoom_spec _ _ _ l H); [lia|]|].
  cbv beta. intros s1 (H1 & Ha & H5). destruct (room_behind s1 l _ H1 Ha) as (b & Eb & Hb & Hl).
  pose proof (wf_len s1 l H1) as El. pose proof (wf_alloc s1 l H1) as Hal.
  rewrite (put_app _ l data b) by (done || lia). cbn [mbind res_bind]. unfold sdsIncrLen. cbn [s_type s_len s_alloc set_buf].
  unfold sdsalloc in Ha, Hal. rewrite (proj2 (Z.eqb_neq (s_type s1) SDS_TYPE_5)) in * by (by apply H5).
  rewrite (proj2 (Z.leb_le 0 _)), (proj2 (Z.leb_le (Z.of_nat (length data)) _)) by lia. cbn [andb orb negb].
  set (s2 := set_buf _ s1). cbn [sdssetlen s_len s_type set_buf s2]. rewrite wrap_len by lia. unfold s2. rewrite app_assoc.
  change (mk_sds (s_type (set_buf ?x s1)) ?n (s_alloc (set_buf ?x s1)) (s_buf (set_buf ?x s1))) with (mk_sds (s_type s1) n (s_alloc s1) x).
  pose proof (end_text s1 l (l ++ data) (drop (length data) b) (s_len s1 + Z.of_nat (length data))) as [He _].
  - done.
  - unfold sdsalloc. rewrite (proj2 (Z.eqb_neq (s_type s1) SDS_TYPE_5)) by (by apply H5). rewrite length_app. lia.
  - rewrite <-Hl, !length_app, length_drop. lia.
  - apply drop_nonempty. lia.
  - rewrite length_app. lia.
  - exact He.
Qed.

Lemma trim_spec cset s l : wf s l -> gives (sdstrim cset s) (fun s' => wf s' (strip (in_set cset) l)).
Proof.
  intros H. unfold sdstrim. rewrite (wf_content s l H). set (f := in_set cset). unfold strip.
  destruct (wf_text s l H) as [rest Er]. pose proof (leading_le f l) as Hle. set (sp := leading f l) in *.
  destruct (drop sp l) as [|c m] eqn:E.
  - assert (length l = sp) as Hl by (apply (f_equal length) in E; rewrite length_drop in E; cbn in E; lia).
    assert (bool_decide (l = []) || (trim_end f l sp (length l - 1) <? sp)%nat = true) as ->.
    { destruct l as [|x l]; [done|]. rewrite bool_decide_false by done. cbn [orb]. apply Nat.ltb_lt. rewrite Hl in *.
      assert (forall ep, (trim_end f (x :: l) sp ep <= ep)%nat) as Hep.
      { induction ep as [|ep IH]; cbn [trim_end]; [done|]. destruct (_ && _); lia. }
      specialize (Hep (sp - 1)%nat). cbn [length] in Hl. lia. }
    assert (read (Z.of_nat sp) 0 (s_buf s) = Val []) as ->.
    { rewrite Er. apply (read_app _ 0 l [] (x00 :: rest)); [by rewrite Hl|done]. }
    cbn [mbind res_bind]. apply (keep_spec s l []); [done|cbn; lia|done].
  - pose proof (leading_head f l c m E) as Hc. assert (l <> []) as Hne by (intros ->; by rewrite drop_nil in E).
    assert (length (c :: m) = length l - sp)%nat as Hlm by (by rewrite <-E, length_drop). cbn [length] in Hlm.
    destruct (trim_end_spec f l sp c m (length m) E Hc) as [Hep Et]; [cbn; lia|].
    replace (sp + length m)%nat with (length l - 1)%nat in * by lia. set (ep := trim_end f l sp (length l - 1)) in *.
    rewrite bool_decide_false, (proj2 (Nat.ltb_ge ep sp)) by (done || lia). cbn [orb].
    rewrite (take_ge (c :: m) (length m + 1)) in Et by (cbn [length]; lia). rewrite <-Et.
    assert (length (take (ep - sp + 1) (c :: m)) = ep - sp + 1)%nat as Hlen by (rewrite length_take; cbn [length]; lia).
    assert (read (Z.of_nat sp) (Z.of_nat (ep - sp) + 1) (s_buf s) = Val (take (ep - sp + 1) (c :: m))) as ->.
    { rewrite Er, <-(take_drop sp l), E, <-(take_drop (ep - sp + 1) (c :: m)) at 1. rewrite <-!app_assoc.
      apply read_app; [rewrite length_take; lia|rewrite Hlen; lia]. }
    cbn [mbind res_bind]. apply (keep_spec s l); [done|rewrite Hlen; lia|rewrite Hlen; lia].
Qed.

Lemma cut_spec n s l :
  wf s l -> 0 <= n <= Z.of_nat (length l) ->
  gives (s ← put n [x00] s; Val (sdssetlen n s)) (fun s' => wf s' (take (Z.to_nat n) l)).
Proof.
  intros H Hn. destruct (wf_text s l H) as [rest Er]. pose proof (wf_alloc s l H) as Ha. pose proof (wf_len s l H) as El.
  set (k := Z.to_nat n). assert (length (take k l) = k) as Hk by (rewrite length_take; lia).
  assert (s_buf s = take k l ++ drop k l ++ x00 :: rest) as Eb by (by rewrite Er, app_assoc, take_drop).
  assert (s = set_buf (take k l ++ drop k l ++ x00 :: rest) s) as -> by (rewrite <-Eb; by destruct s).
  apply (end_text s l (take k l)); [done|lia|by rewrite <-Eb|by destruct (drop k l)|lia].
Qed.

Lemma range_spec start end_ s l :
  wf s l -> Z.of_nat (length l) < 2 ^ 61 ->
  gives (sdsrange start end_ s) (fun r => r.2 = true /\ wf r.1 (range start end_ l)).
Proof.
  intros H Hl. unfold sdsrange, sdslen, SSIZE_MAX. rewrite (wf_len s l H). rewrite (proj2 (Z.ltb_ge _ _)) by lia.
  set (n := Z.of_nat (length l)) in *. destruct (Z.eqb_spec n 0) as [Hz|Hz].
  { assert (l = []) as -> by (apply length_zero_iff_nil; lia). cbn. split; [done|]. unfold range. cbn [length Z.of_nat].
    destruct (_ <? _); [done|]. by rewrite drop_nil, take_nil. }
  unfold range. fold n. set (a := if start <? 0 then Z.max 0 (n + start) else start).
  set (e := if end_ <? 0 then Z.max 0 (n + end_) else end_).
  assert (0 <= a /\ 0 <= e) as [Ha He] by (unfold a, e; destruct (Z.ltb_spec start 0), (Z.ltb_spec end_ 0); lia).
  clearbody a e.
  assert (exists a' k, (if negb ((if e <? a then 0 else e - a + 1) =? 0) then
        if n <=? a then (a, 0) else if n <=? e then (a, if n - 1 <? a then 0 else n - 1 - a + 1) else (a, if e <? a then 0 else e - a + 1)
      else (0, if e <? a then 0 else e - a + 1)) = (a', k) /\ 0 <= k /\ 0 <= a' /\ (k <> 0 -> a' + k <= n) /\
      (if Z.min (n - 1) e <? a then [] else take (Z.to_nat (Z.min (n - 1) e - a + 1)) (drop (Z.to_nat a) l)) =
      take (Z.to_nat k) (drop (Z.to_nat a') l)) as (a' & k & -> & Hk & Ha' & Hak & ->).
  { destruct (Z.ltb_spec e a) as [H1|H1]; [|rewrite (proj2 (Z.eqb_neq _ 0)) by lia]; cbn [negb Z.eqb].
    - exists 0, 0. split_and!; try done. by rewrite (proj2 (Z.ltb_lt _ _)) by lia.
    - destruct (Z.leb_spec n a) as [H2|H2].
      + exists a, 0. split_and!; try done. by rewrite (proj2 (Z.ltb_lt _ _)) by lia.
      + rewrite (proj2 (Z.ltb_ge (Z.min (n - 1) e) a)) by lia. destruct (Z.leb_spec n e) as [H3|H3].
        * rewrite (proj2 (Z.ltb_ge (n - 1) a)) by lia. eexists _, _. split; [done|]. split_and!; try lia. by rewrite Z.min_l by lia.
        * eexists _, _. split; [done|]. split_and!; try lia. by rewrite Z.min_r by lia. }
  assert (forall r : res sds, gives r (fun s' => wf s' (take (Z.to_nat k) (drop (Z.to_nat a') l))) ->
    gives (s ← r; Val (s, true)) (fun r => r.2 = true /\ wf r.1 (take (Z.to_nat k) (drop (Z.to_nat a') l)))) as Hpair.
  { intros r Hr. eapply gives_bind; [exact Hr|]. by intros s' Hs'. }
  destruct (Z.eqb_spec a' 0) as [->|Hna]; cbn [negb andb].
  - cbn [mbind res_bind]. pose proof (cut_spec k s l H) as Hc. cbn [Z.to_nat drop] in *.
    specialize (Hc ltac:(lia)). destruct (put k [x00] s); cbn [mbind res_bind gives] in *; done.
  - destruct (Z.eqb_spec k 0) as [->|Hnk]; cbn [negb].
    + cbn [mbind res_bind]. pose proof (cut_spec 0 s l H ltac:(lia)) as Hc. cbn [Z.to_nat take] in *.
      destruct (put 0 [x00] s); cbn [mbind res_bind gives] in *; done.
    + destruct (wf_text s l H) as [rest Er]. set (t := take (Z.to_nat k) (drop (Z.to_nat a') l)) in *.
      assert (length t = Z.to_nat k) as Ht by (unfold t; rewrite length_take, length_drop; lia).
      assert (read a' k (s_buf s) = Val t) as ->.
      { rewrite Er, <-(take_drop (Z.to_nat a') l), <-(take_drop (Z.to_nat k) (drop (Z.to_nat a') l)) at 1. fold t. rewrite <-!app_assoc.
        apply read_app; [rewrite length_take; lia|lia]. }
      cbn [mbind res_bind]. pose proof (keep_spec s l t k H ltac:(lia) ltac:(lia)) as Hk'.
      destruct (put 0 t s) as [s1| |]; cbn [mbind res_bind] in *; try done. destruct (put k [x00] s1); cbn [mbind res_bind gives] in *; done.
Qed.

(** *** Formats *)

Lemma vprintf_spec fuel buflen text :
  1024 <= buflen -> Z.of_nat (length text) + 2 <= buflen * 2 ^ Z.of_nat fuel -> gives (vprintf_loop can (S fuel) buflen text) (fun _ => True).
Proof.
  revert buflen. induction fuel as [|fuel IH]; intros buflen Hb Ht; cbn [vprintf_loop].
  - destruct (text !! Z.to_nat (buflen - 2)) as [c|] eqn:E; [|done]. destruct (Byte.eqb c x00); [done|].
    destruct (can (buflen * 2)) eqn:Ec; [|by exists (buflen * 2)].
    exfalso. apply lookup_lt_Some in E. change (2 ^ Z.of_nat 0) with 1 in Ht. cbn [vprintf_loop]. lia.
  - destruct (text !! Z.to_nat (buflen - 2)) as [c|]; [|done]. destruct (Byte.eqb c x00); [done|].
    destruct (can (buflen * 2)) eqn:Ec; [|by exists (buflen * 2)]. apply IH; [lia|].
    rewrite Nat2Z.inj_succ, Z.pow_succ_r in Ht by lia. lia.
Qed.

Lemma catvprintf_spec fmt text s l :
  wf s l -> Z.of_nat (length text) < 2 ^ 31 -> Z.of_nat (length l) < 2 ^ 31 ->
  gives (sdscatvprintf junk can fmt text s) (fun s' => wf s' (l ++ cstr text)).
Proof.
  intros H Ht Hl. assert (length (cstr text) <= length text)%nat as Hc by (apply prefix_length, cstr_prefix).
  unfold sdscatvprintf. apply (gives_bind _ _ (fun _ => True)); [|intros _ _; apply catlen_spec; [done|lia]].
  assert (forall b, 1024 <= b -> gives (vprintf_loop can 32 b text) (fun _ => True)) as Hv.
  { intros b Hb. apply vprintf_spec; [done|]. change (2 ^ Z.of_nat 31) with (2 ^ 31). lia. }
  destruct (Z.ltb_spec 1024 (Z.of_nat (strlen fmt) * 2)); [|by apply Hv].
  destruct (can _) eqn:Ec; [apply Hv; lia|by eexists].
Qed.

Lemma avail_room {c} s l n : wf_at c s l -> n <= sdsavail s -> 0 <= n -> Z.of_nat (length l) + n <= sdsalloc s.
Proof.
  intros H Hn H0. pose proof (wf_alloc s l H) as Ha. pose proof (wf_len s l H) as El. unfold sdsavail, sdsalloc in *.
  destruct (s_type s =? SDS_TYPE_5); [lia|]. pose proof (type_bits_pos (s_type s)).
  assert (2 ^ type_bits (s_type s) <= 2 ^ 64) by (apply Z.pow_le_mono_r; lia). rewrite wrap_u_small in Hn by lia. lia.
Qed.

(** Text is added where there is room for it. *)
Lemma add_spec {c} t s l :
  wf_at c s l -> Z.of_nat (length l) + Z.of_nat (length t) <= sdsalloc s ->
  gives (s ← put (Z.of_nat (length l)) t s; Val (sdsinclen (Z.of_nat (length t)) s)) (fun s' => exists c', wf_at c' s' (l ++ t)).
Proof.
  intros H Hr. destruct (wf_text s l H) as [rest E]. pose proof (wf_room s l H) as Hb. rewrite E, length_app in Hb. cbn [length] in Hb.
  rewrite (put_app _ l t (c :: rest)) by (done || (cbn [length]; lia)). cbn [mbind res_bind gives].
  pose proof (wf_alloc s l H) as Ha. pose proof (wf_len s l H) as El.
  destruct (drop (length t) (c :: rest)) as [|c' rest'] eqn:Ed.
  { apply (f_equal length) in Ed. rewrite length_drop in Ed. cbn [length] in Ed. lia. }
  exists c'. unfold sdsinclen, set_buf. cbn [s_type s_len s_alloc s_buf]. rewrite El, wrap_len by lia.
  unfold sdsalloc in *. split; unfold sdsalloc; cbn [s_type s_len s_alloc s_buf].
  - apply H.
  - rewrite length_app. lia.
  - destruct (s_type s =? SDS_TYPE_5); lia.
  - rewrite !length_app. apply (f_equal length) in Ed. rewrite length_drop in Ed. cbn [length] in *.
    destruct (s_type s =? SDS_TYPE_5); lia.
  - exists rest'. by rewrite <-app_assoc.
Qed.

Lemma fmt_copy_spec {c} t s l :
  wf_at c s l -> Z.of_nat (length l) + Z.of_nat (length t) < 2 ^ 61 ->
  gives (fmt_copy junk can t (Z.of_nat (length l)) s) (fun s' => exists c', wf_at c' s' (l ++ t)).
Proof.
  intros H Hs. unfold fmt_copy.
  apply (gives_bind _ _ (fun s' => wf_at c s' l /\ Z.of_nat (length l) + Z.of_nat (length t) <= sdsalloc s')).
  - destruct (Z.ltb_spec (sdsavail s) (Z.of_nat (length t))).
    + eapply gives_impl; [apply (makeRoom_spec c _ s l H); lia|]. cbv beta. tauto.
    + cbn. split; [done|]. apply (avail_room (c := c) s l); [done|done|lia].
  - intros s1 [H1 Hr]. by apply (add_spec (c := c)).
Qed.

Lemma room_for_one {c} s l :
  wf_at c s l -> Z.of_nat (length l) + 1 < 2 ^ 61 ->
  gives (if sdsavail s =? 0 then sdsMakeRoomFor junk can 1 s else Val s)
    (fun s' => wf_at c s' l /\ Z.of_nat (length l) + 1 <= sdsalloc s').
Proof.
  intros H Hs. destruct (Z.eqb_spec (sdsavail s) 0).
  - eapply gives_impl; [apply (makeRoom_spec c _ s l H); lia|]. cbv beta. tauto.
  - cbn. split; [done|]. apply (avail_room (c := c) s l); [done| |lia].
    assert (0 <= sdsavail s); [|lia]. unfold sdsavail. destruct (_ =? _); [done|]. unfold wrap_u. apply Z.mod_pos_bound. lia.
Qed.

Lemma catfmt_loop_spec f ap {c} s l t :
  wf_at c s l -> expand f ap = Some t -> Z.of_nat (length l) + Z.of_nat (length t) < 2 ^ 31 - 1 ->
  gives (catfmt_loop junk can false f ap (Z.of_nat (length l)) s) (fun s' => wf s' (l ++ t)).
Proof.
  remember (length f) as n eqn:Hn. revert f Hn ap c s l t.
  induction (lt_wf n) as [n _ IH]. intros f -> ap c s l t H Et Hs. destruct f as [|x f].
  - injection Et as <-. rewrite app_nil_r. cbn [catfmt_loop]. destruct (wf_text s l H) as [rest E].
    rewrite (put_app _ l [x00] (c :: rest)) by (done || (cbn [length]; lia)). cbn [gives]. pose proof (wf_room s l H) as Hr. rewrite E in Hr.
    destruct H as [? ? ? ? _]. split; try done; [|by exists rest]. cbn [s_buf set_buf].
    change (sdsalloc (set_buf _ s)) with (sdsalloc s). rewrite length_app in *. done.
  - cbn [catfmt_loop expand] in *.
    assert (forall y f' t', (length f' < length (x :: f))%nat -> expand f' ap = Some t' -> t = y :: t' -> forall s1, wf_at c s1 l ->
      Z.of_nat (length l) + 1 <= sdsalloc s1 ->
      gives (s ← put (Z.of_nat (length l)) [y] s1; catfmt_loop junk can false f' ap (i32 (Z.of_nat (length l) + 1)) (sdsinclen 1 s))
        (fun s' => wf s' (l ++ t))) as Hone.
    { intros y f' t' Hf Ee -> s1 H1 Hr. cbn [length] in Hs. pose proof (add_spec (c := c) [y] s1 l H1 Hr) as Ha.
      destruct (put (Z.of_nat (length l)) [y] s1) as [s2| |]; cbn [mbind res_bind gives] in *; try done.
      destruct Ha as [c' H2]. rewrite wrap_s_small by (change (2 ^ (32 - 1)) with (2 ^ 31); lia).
      replace (Z.of_nat (length l) + 1) with (Z.of_nat (length (l ++ [y]))) by (rewrite length_app; cbn [length]; lia).
      change (l ++ y :: t') with (l ++ [y] ++ t'). rewrite app_assoc. eapply (IH (length f')); [done|done|exact H2|done|].
      rewrite length_app. cbn [length]. lia. }
    destruct (Byte.eqb x "%").
    + destruct f as [|next f]; [done|]. destruct (bool_decide (next ∈ lit "sSiIuU")).
      * destruct (fmt_text next ap) as [[t1 ap1]|] eqn:Ef; [|done]. cbn [mbind option_bind] in Et.
        destruct (expand f ap1) as [t2|] eqn:Ee; [|done]. injection Et as <-. rewrite length_app in Hs.
        eapply gives_bind; [apply (room_for_one (c := c) s l H); lia|]. cbv beta. intros s1 [H1 _].
        eapply gives_bind; [apply (fmt_copy_spec (c := c)); [done|lia]|]. cbv beta. intros s2 [c' H2].
        rewrite wrap_s_small by (change (2 ^ (32 - 1)) with (2 ^ 31); lia).
        replace (Z.of_nat (length l) + Z.of_nat (length t1)) with (Z.of_nat (length (l ++ t1))) by (rewrite length_app; lia).
        rewrite app_assoc. eapply (IH (length f)); [cbn [length]; lia|done|exact H2|done|]. rewrite length_app. lia.
      * destruct (expand f ap) as [t2|] eqn:Ee; [|done]. injection Et as <-.
        eapply gives_bind; [apply (room_for_one (c := c) s l H); lia|]. cbv beta. intros s1 [H1 Hr].
        apply (Hone next f t2); try done. cbn [length]. lia.
    + destruct (expand f ap) as [t2|] eqn:Ee; [|done]. injection Et as <-.
      eapply gives_bind; [apply (room_for_one (c := c) s l H); lia|]. cbv beta. intros s1 [H1 Hr].
      apply (Hone x f t2); try done. cbn [length]. lia.
Qed.

Lemma catfmt_spec f ap s l t :
  wf s l -> expand (cstr f) ap = Some t -> Z.of_nat (length l) + Z.of_nat (length t) < 2 ^ 31 - 1 ->
  gives (sdscatfmt junk can f ap s) (fun s' => wf s' (l ++ t)).
Proof.
  intros H Et Hs. unfold sdscatfmt, sdslen. rewrite (wf_len s l H), wrap_s_small by (change (2 ^ (32 - 1)) with (2 ^ 31); lia).
  by eapply catfmt_loop_spec.
Qed.

End Proofs.

(** ** Sequences of operations *)

Inductive operation :=
| Cat (t : bytes)
| CatString (t : bytes)
| Cpy (t : bytes)
| CatFmt (fmt : bytes) (ap : list fmt_arg)
| CatPrintf (fmt text : bytes)
| GrowZero (n : Z)
| Fill (room : Z) (data : bytes)
| Range (start end_ : Z)
| Trim (cset : bytes)
| Clear
| UpdateLen
| ToLower
| ToUpper
| MapChars (from to : bytes)
| RemoveFreeSpace.

(** On a string; the allocator may answer otherwise at every operation. *)
Definition perform (junk : nat -> byte) (can : Z -> bool) (o : operation) (s : sds) : res sds :=
  match o with
  | Cat t => sdscatlen junk can t s
  | CatString t => sdscat junk can t s
  | Cpy t => sdscpylen junk can t s
  | CatFmt fmt ap => sdscatfmt junk can fmt ap s
  | CatPrintf fmt text => sdscatvprintf junk can fmt text s
  | GrowZero n => sdsgrowzero junk can n s
  | Fill room data => fill junk can room data s
  | Range start end_ => '(s, _) ← sdsrange start end_ s; Val s
  | Trim cset => sdstrim cset s
  | Clear => sdsclear s
  | UpdateLen => Val (sdsupdatelen s)
  | ToLower => sdstolower s
  | ToUpper => sdstoupper s
  | MapChars from to => sdsmapchars from to s
  | RemoveFreeSpace => sdsRemoveFreeSpace junk can s
  end.

(** On the bytes. *)
Definition meaning (o : operation) (l : bytes) : bytes :=
  match o with
  | Cat t => l ++ t
  | CatString t => l ++ cstr t
  | Cpy t => t
  | CatFmt fmt ap => l ++ default [] (expand (cstr fmt) ap)
  | CatPrintf _ text => l ++ cstr text
  | GrowZero n => l ++ replicate (Z.to_nat n - length l) x00
  | Fill _ data => l ++ data
  | Range start end_ => range start end_ l
  | Trim cset => strip (in_set cset) l
  | Clear => []
  | UpdateLen => cstr l
  | ToLower => map tolower l
  | ToUpper => map toupper l
  | MapChars from to => map (map_char from to) l
  | RemoveFreeSpace => l
  end.

(** The texts stay below 2 GB, formats have their arguments, and no more is written than
    there is room for. *)
Definition possible (o : operation) (l : bytes) : Prop :=
  Z.of_nat (length l) < 2 ^ 31 - 1 /\ Z.of_nat (length (meaning o l)) < 2 ^ 31 - 1 /\
  match o with
  | CatFmt fmt ap => is_Some (expand (cstr fmt) ap)
  | CatPrintf _ text => Z.of_nat (length text) < 2 ^ 31
  | GrowZero n => 0 <= n < 2 ^ 31 - 1
  | Fill room data => 0 < room < 2 ^ 31 /\ Z.of_nat (length data) <= room
  | _ => True
  end.

Fixpoint all_possible (ops : list operation) (l : bytes) : Prop :=
  match ops with
  | [] => True
  | o :: ops => possible o l /\ all_possible ops (meaning o l)
  end.

#[export] Instance possible_dec o l : Decision (possible o l).
Proof. unfold possible. destruct o; apply _. Defined.

#[export] Instance all_possible_dec ops l : Decision (all_possible ops l).
Proof. revert l. induction ops; intros l; cbn [all_possible]; apply _. Defined.

Fixpoint perform_all (junk : nat -> byte) (ops : list (operation * (Z -> bool))) (s : sds) : res sds :=
  match ops with
  | [] => Val s
  | (o, can) :: ops => s ← perform junk can o s; perform_all junk ops s
  end.

Lemma perform_spec junk can o s l :
  wf s l -> possible o l -> gives can (perform junk can o s) (fun s' => wf s' (meaning o l)).
Proof.
  intros H (Hl & Hm & Hp). destruct o; cbn [perform meaning] in *; rewrite ?length_app in Hm.
  - apply catlen_spec; [done|lia].
  - apply catlen_spec; [done|lia].
  - eapply cpylen_spec; [done|lia].
  - destruct Hp as [t Et]. rewrite Et in *. cbn [default id] in *. eapply catfmt_spec; [done|done|lia].
  - apply catvprintf_spec; [done|lia|lia].
  - apply growzero_spec; [done|lia].
  - apply fill_spec; [done|lia|lia|lia].
  - pose proof (range_spec can start end_ s l H ltac:(lia)) as Hr. destruct (sdsrange start end_ s) as [[s' b]| |]; cbn in *; tauto.
  - by apply trim_spec.
  - by eapply clear_spec.
  - cbn. apply updatelen_spec; [done|lia].
  - unfold sdstolower, sdslen. rewrite (wf_len s l H), wrap_s_small by (change (2 ^ (32 - 1)) with (2 ^ 31); lia). by apply map_bytes_spec.
  - unfold sdstoupper, sdslen. rewrite (wf_len s l H), wrap_s_small by (change (2 ^ (32 - 1)) with (2 ^ 31); lia). by apply map_bytes_spec.
  - unfold sdsmapchars, sdslen. rewrite (wf_len s l H). by apply map_bytes_spec.
  - apply shrink_spec; [done|lia].
Qed.

(** C22: the dynamic strings of hiredis behave as byte strings. Whatever is appended,
    copied, formatted, filled in, cut, trimmed or mapped, from a string made of any bytes,
    with whatever the memory holds and whenever the allocator refuses: no access leaves a
    buffer and no assertion fails; unless the allocator refuses, the string ends up with
    the bytes that the same operations make of a list, well formed (the length and the size
    of the buffer fit the header in use, and the text is followed by a null byte within the
    buffer), across every change of the header. *)
Theorem sds_refines (junk : nat -> byte) (init : bytes) (can : Z -> bool) (ops : list (operation * (Z -> bool))) :
  Z.of_nat (length init) < 2 ^ 31 - 1 -> all_possible ops.*1 init ->
  match s ← sdsnewlen junk can (Some init) (Z.of_nat (length init)); perform_all junk ops s with
  | Val s => let l := fold_left (fun l o => meaning o l) ops.*1 init in
      content s = l /\ sdslen s = Z.of_nat (length l) /\ sdslen s <= sdsalloc s < 2 ^ type_bits (s_type s) /\
      Z.of_nat (length l) < Z.of_nat (length (s_buf s)) /\ s_buf s !! length l = Some x00
  | NoMemory => exists c n, c ∈ can :: ops.*2 /\ c n = false
  | Fault => False
  end.
Proof.
  intros Hi Hops. pose proof (newlen_spec junk can init ltac:(lia)) as Hnew.
  destruct (sdsnewlen junk can (Some init) _) as [s| |]; cbn [gives mbind res_bind] in *; [|destruct Hnew as [n Hn]; exists can, n; by split; [left|]|done].
  revert s init Hi Hops Hnew. induction ops as [|[o c] ops IH]; intros s l Hl Hops Hw; cbn [perform_all fmap list_fmap fst snd all_possible fold_left] in *.
  - split; [by apply wf_content|]. split; [by apply (wf_len s l Hw)|]. split; [by apply (wf_alloc s l Hw)|].
    destruct (wf_text s l Hw) as [rest ->]. rewrite length_app. cbn [length]. split; [lia|]. by apply list_lookup_middle.
  - destruct Hops as [Ho Hops]. pose proof (perform_spec junk c o s l Hw Ho) as Hp.
    destruct (perform junk c o s) as [s1| |]; cbn [gives mbind res_bind] in *; [|destruct Hp as [n Hn]; exists c, n; split; [right; left|done]|done].
    assert (Z.of_nat (length (meaning o l)) < 2 ^ 31 - 1) as Hl1 by apply Ho. specialize (IH s1 _ Hl1 Hops Hp).
    destruct (perform_all junk ops s1) as [s2| |]; [exact IH| |done].
    destruct IH as (c' & n & [->|Hin]%elem_of_cons & Hn); [exists can|exists c']; exists n; (split; [|done]); [left|by right; right].
Qed.

Definition sample_operations : list (operation * (Z -> bool)) :=
  map (fun o => (o, fun _ => true))
    [Cat (lit "  Hello, "); CatString (lit "World  " ++ [x00] ++ lit "!"); Trim (lit " "); GrowZero 40; UpdateLen;
     CatFmt (lit ": %i%% of %s") [FInt (-42); FString (lit "it")]; Fill 100 (lit "..."); Range 0 (-2); ToUpper;
     MapChars (lit ",") (lit ";"); RemoveFreeSpace].

Lemma sds_refines_witness :
  match s ← sdsnewlen (fun _ => x2a) (fun _ => true) (Some (lit "> ")) 2; perform_all (fun _ => x2a) sample_operations s with
  | Val s => content s = lit ">   HELLO; WORLD: -42% OF IT.."
  | _ => False
  end.
Proof.
  pose proof (sds_refines (fun _ => x2a) (lit "> ") (fun _ => true) sample_operations) as H.
  specialize (H ltac:(done)). assert (all_possible sample_operations.*1 (lit "> ")) as Hp.
  { by_decide. }
  specialize (H Hp). change (Z.of_nat (length (lit "> "))) with 2 in H.
  destruct (s ← _; _) as [s| |]; [|destruct H as (c & n & Hc & Hn)|done].
  - destruct H as [-> _]. vm_compute. reflexivity.
  - exfalso. revert Hn. repeat (apply elem_of_cons in Hc as [->|Hc]; [done|]). by apply elem_of_nil in Hc.
Defined.

(** ** Quoting *)

(** What stands for a byte. *)
Definition repr_text (c : byte) : bytes :=
  if Byte.eqb c x5c || Byte.eqb c x22 then [x5c; c]
  else if Byte.eqb c x0a then lit "\n"
  else if Byte.eqb c x0d then lit "\r"
  else if Byte.eqb c x09 then lit "\t"
  else if Byte.eqb c x07 then lit "\a"
  else if Byte.eqb c x08 then lit "\b"
  else if isprint c then [c]
  else lit "\x" ++ [digit_char (Z_of_byte c / 16); digit_char (Z_of_byte c mod 16)].

Definition repr (p : bytes) : bytes := [x22] ++ concat (map repr_text p) ++ [x22].

Fixpoint joined (sep : bytes) (argv : list bytes) : bytes :=
  match argv with
  | [] => []
  | [a] => a
  | a :: argv => a ++ sep ++ joined sep argv
  end.

Lemma repr_text_no_nul c : no_nul (repr_text c).
Proof. apply (bool_decide_eq_true (no_nul (repr_text c))). revert c. apply forall_byte. vm_compute. reflexivity. Qed.

Lemma length_repr_text c : (length (repr_text c) <= 4)%nat.
Proof. by destruct c; vm_compute; lia. Qed.

(** With memory enough, the strings are built. *)
Section Enough.
Context (junk : nat -> byte).
Notation can := (fun _ : Z => true).

Lemma gives_used (r : res sds) (P : sds -> Prop) : gives can r P -> gives can (used r) P.
Proof. destruct r; cbn; try done. by intros [n Hn]. Qed.

Lemma join_loop_spec sep argv s l :
  wf s l -> Z.of_nat (length l) + Z.of_nat (length (joined sep argv)) < 2 ^ 31 - 1 ->
  gives can (join_loop junk can sep argv s) (fun s' => wf s' (l ++ joined sep argv)).
Proof.
  revert s l. induction argv as [|a argv IH]; intros s l H Hs.
  - cbn. by rewrite app_nil_r.
  - destruct argv as [|b argv]; [cbn [join_loop joined] in *; apply catlen_spec; [done|lia]|].
    change (joined sep (a :: b :: argv)) with (a ++ sep ++ joined sep (b :: argv)) in *. rewrite !length_app in Hs.
    cbn [join_loop]. eapply gives_bind; [apply gives_used, catlen_spec; [done|lia]|]. cbv beta. intros s1 H1.
    eapply gives_bind; [apply gives_used, catlen_spec; [exact H1|rewrite length_app; lia]|]. cbv beta. intros s2 H2.
    rewrite !app_assoc. apply IH; [done|]. rewrite !length_app. lia.
Qed.

Lemma repr_char_eq c s :
  repr_char junk can c s = sdscatlen junk can (repr_text c) s \/ exists f, repr_char junk can c s = sdscatvprintf junk can f (repr_text c) s.
Proof. unfold repr_char, repr_text. repeat case_match; eauto. Qed.

Lemma repr_char_spec c s l :
  wf s l -> Z.of_nat (length l) + 4 < 2 ^ 31 -> gives can (repr_char junk can c s) (fun s' => wf s' (l ++ repr_text c)).
Proof.
  intros H Hs. pose proof (length_repr_text c). destruct (repr_char_eq c s) as [->|[f ->]]; [apply catlen_spec; [done|lia]|].
  pose proof (catvprintf_spec junk can f (repr_text c) s l H ltac:(lia) ltac:(lia)) as Hv. by rewrite (cstr_id (repr_text c)) in Hv by apply repr_text_no_nul.
Qed.

Lemma repr_loop_spec p s l :
  wf s l -> Z.of_nat (length l) + Z.of_nat (4 * length p) < 2 ^ 31 ->
  gives can (repr_loop junk can p s) (fun s' => wf s' (l ++ concat (map repr_text p))).
Proof.
  revert s l. induction p as [|c p IH]; intros s l H Hs; cbn [repr_loop map concat length] in *; [by rewrite app_nil_r|].
  eapply gives_bind; [apply gives_used, repr_char_spec; [done|lia]|]. cbv beta. intros s1 H1. rewrite app_assoc.
  pose proof (length_repr_text c). apply IH; [done|]. rewrite length_app. lia.
Qed.

Lemma length_repr p : (length (concat (map repr_text p)) <= 4 * length p)%nat.
Proof. induction p as [|c p IH]; cbn [map concat length]; [lia|]. rewrite length_app. pose proof (length_repr_text c). lia. Qed.

Lemma catrepr_spec p s l :
  wf s l -> Z.of_nat (length l) + Z.of_nat (4 * length p) + 2 < 2 ^ 31 ->
  gives can (sdscatrepr junk can p s) (fun s' => wf s' (l ++ repr p)).
Proof.
  intros H Hs. pose proof (length_repr p). unfold sdscatrepr, repr.
  eapply gives_bind; [apply gives_used, catlen_spec; [done|cbn [length]; lia]|]. cbv beta. intros s1 H1.
  eapply gives_bind; [apply repr_loop_spec; [exact H1|rewrite length_app; cbn [length]; lia]|]. cbv beta. intros s2 H2.
  rewrite !app_assoc. apply catlen_spec; [done|]. rewrite !length_app. cbn [length]. lia.
Qed.

Lemma quoted_spec a :
  Z.of_nat (length a) < 2 ^ 28 -> exists s, (s ← sdsempty junk can; sdscatrepr junk can a s) = Val s /\ content s = repr a.
Proof.
  intros Ha. assert (gives can (s ← sdsempty junk can; sdscatrepr junk can a s) (fun s => wf s (repr a))) as H.
  { eapply gives_bind; [apply (newlen_spec junk can []); done|]. cbv beta. intros s Hs. apply (catrepr_spec a s []); [done|cbn [length]; lia]. }
  destruct (s ← _; _) as [s| |]; cbn [gives] in H; [|by destruct H|done]. exists s. split; [done|]. by apply wf_content.
Qed.

Lemma joinsds_spec sep argv :
  Z.of_nat (length (joined sep (map content argv))) < 2 ^ 31 - 1 ->
  exists s, sdsjoinsds junk can sep argv = Val s /\ wf s (joined sep (map content argv)).
Proof.
  intros Hs. assert (gives can (sdsjoinsds junk can sep argv) (fun s => wf s (joined sep (map content argv)))) as H.
  { unfold sdsjoinsds. eapply (gives_bind _ _ _ (fun s => wf s [])).
    - destruct argv; [|apply gives_used]; by apply (newlen_spec junk can []).
    - intros s H. apply (join_loop_spec sep (map content argv) s []); [done|cbn [length]; lia]. }
  destruct (sdsjoinsds junk can sep argv) as [s| |]; cbn [gives] in H; [|by destruct H|done]. by exists s.
Qed.

End Enough.

Lemma quoted_char c rest cur : token_loop 0 Quoted (repr_text c ++ rest) cur = token_loop 0 Quoted rest (cur ++ [c]).
Proof. destruct c; reflexivity. Qed.

Lemma repr_no_nul a : no_nul (repr a).
Proof.
  unfold no_nul, repr. rewrite !elem_of_app, !list_elem_of_singleton. intros [|[Hin|]]; [done| |done].
  induction a as [|c a IH]; cbn [map concat] in Hin; [by apply elem_of_nil in Hin|].
  apply elem_of_app in Hin as [Hin|]; [by apply (repr_text_no_nul c)|tauto].
Qed.

Lemma quoted_text a rest cur :
  token_loop 0 Quoted (concat (map repr_text a) ++ rest) cur = token_loop 0 Quoted rest (cur ++ a).
Proof.
  revert cur. induction a as [|c a IH]; intros cur; cbn [map concat app]; [by rewrite app_nil_r|].
  by rewrite <-app_assoc, quoted_char, IH, <-app_assoc.
Qed.

(** A quoted text at the end of the line or in front of a blank. *)
Lemma quoted_token a rest :
  head rest = None \/ head rest = Some x20 -> token_loop 0 Bare (repr a ++ rest) [] = Token a rest.
Proof.
  intros Hr. unfold repr. rewrite <-!app_assoc. change ([x22] ++ ?t) with (x22 :: t). cbn [token_loop].
  rewrite bool_decide_false by (by_decide). change (Byte.eqb x22 x22) with true. cbv iota. rewrite quoted_text. cbn [app token_loop].
  change (Byte.eqb x22 x5c) with false. cbn [andb]. change (Byte.eqb x22 x22) with true. cbv iota.
  assert (closes (x22 :: rest) = true) as ->; [|done]. destruct rest as [|c rest]; [done|]. destruct Hr as [|[= ->]]; done.
Qed.

Lemma repr_skip a rest : skip_blanks (repr a ++ rest) = repr a ++ rest.
Proof. done. Qed.

Lemma splitargs_spec args fuel :
  (length args < fuel)%nat -> splitargs_loop fuel (joined (lit " ") (map repr args)) = Some args.
Proof.
  revert fuel. induction args as [|a args IH]; intros [|fuel] Hf; cbn [length] in Hf; try lia; [done|]. cbn [splitargs_loop map].
  assert (exists rest, joined (lit " ") (repr a :: map repr args) = repr a ++ rest /\
    (head rest = None \/ head rest = Some x20) /\ splitargs_loop fuel rest = Some args) as (rest & E & Hr & Hs).
  { destruct args as [|b args].
    - exists []. rewrite app_nil_r. split; [done|]. split; [by left|]. apply (IH fuel). cbn [length]. lia.
    - exists (lit " " ++ joined (lit " ") (map repr (b :: args))). split; [done|]. split; [by right|].
      specialize (IH fuel ltac:(lia)). destruct fuel as [|fuel]; [lia|]. exact IH. }
  rewrite E, repr_skip. change (repr a ++ rest) with (x22 :: (concat (map repr_text a) ++ [x22]) ++ rest) at 1. cbv iota.
  change (x22 :: (concat (map repr_text a) ++ [x22]) ++ rest) with (repr a ++ rest).
  rewrite quoted_token by done. by rewrite Hs.
Qed.

Lemma length_joined args : (length args <= length (joined (lit " ") (map repr args)))%nat.
Proof.
  induction args as [|a [|b args] IH]; [done|cbn; lia|]. cbn [map] in *.
  change (joined (lit " ") (repr a :: ?l)) with (repr a ++ lit " " ++ joined (lit " ") l).
  rewrite !length_app. cbn [length] in *. change (length (lit " ")) with 1%nat. lia.
Qed.

Lemma joined_no_nul args : no_nul (joined (lit " ") (map repr args)).
Proof.
  unfold no_nul. induction args as [|a [|b args] IH]; [by intros ?%elem_of_nil|apply repr_no_nul|]. cbn [map] in *.
  change (joined (lit " ") (repr a :: ?l)) with (repr a ++ lit " " ++ joined (lit " ") l).
  rewrite !elem_of_app. intros [?|[?|?]]; [by apply (repr_no_nul a)| |done]. by apply list_elem_of_singleton in H.
Qed.

(** The arguments of a command line. Arguments of any bytes, each quoted by [sdscatrepr]
    and joined by [sdsjoinsds] with a space, are split by [sdssplitargs] into exactly these
    arguments again. *)
Theorem splitargs_repr (junk : nat -> byte) (args : list bytes) :
  Z.of_nat (length (joined (lit " ") (map repr args))) < 2 ^ 31 - 1 ->
  Forall (fun a => Z.of_nat (length a) < 2 ^ 28) args ->
  exists quoted line,
    Forall2 (fun a s => (s ← sdsempty junk (fun _ => true); sdscatrepr junk (fun _ => true) a s) = Val s) args quoted /\
    sdsjoinsds junk (fun _ => true) (lit " ") quoted = Val line /\ sdssplitargs (s_buf line) = Some args.
Proof.
  intros Hs Hargs.
  assert (exists quoted, Forall2 (fun a s => (s ← sdsempty junk (fun _ => true); sdscatrepr junk (fun _ => true) a s) = Val s) args quoted /\
    map content quoted = map repr args) as (quoted & Hq & Ec).
  { clear Hs. induction Hargs as [|a args Ha _ (quoted & IH1 & IH2)]; [by exists []|]. destruct (quoted_spec junk a Ha) as (s & Es & Hc).
    exists (s :: quoted). split; [by constructor|]. cbn [map]. by rewrite Hc, IH2. }
  destruct (joinsds_spec junk (lit " ") quoted) as (line & El & Hl); [by rewrite Ec|]. rewrite Ec in Hl.
  exists quoted, line. split; [done|]. split; [done|]. destruct (wf_text line _ Hl) as [rest ->].
  unfold sdssplitargs. rewrite cstr_app by apply joined_no_nul. cbn [cstr]. rewrite app_nil_r.
  apply splitargs_spec. pose proof (length_joined args). lia.
Qed.

(** Joining is undone by splitting, up to what the separator decides: the text is the
    tokens with the separator between them. *)
Lemma split_joined sep skip s cur :
  sep <> [] -> joined sep (split_loop sep skip s cur) = reverse cur ++ drop skip s /\ split_loop sep skip s cur <> [].
Proof.
  intros Hsep. revert skip cur. induction s as [|c s IH]; intros skip cur; cbn [split_loop].
  - rewrite drop_nil, app_nil_r. done.
  - destruct skip as [|skip]; [|apply IH]. destruct ((length sep <=? length (c :: s))%nat && _) eqn:E.
    + apply andb_true_iff in E as [Hl Heq]. apply bytes_eqb_eq in Heq. destruct (IH (length sep - 1)%nat []) as [Hj Hne].
      split; [|done]. destruct (split_loop sep (length sep - 1) s []) as [|t ts]; [done|].
      change (joined sep (reverse cur :: t :: ts)) with (reverse cur ++ sep ++ joined sep (t :: ts)). rewrite Hj. cbn [reverse rev_append app drop].
      f_equal. destruct sep as [|x sep]; [done|]. cbn [length take] in Heq. injection Heq as <- Heq. cbn [length app Nat.sub]. rewrite Nat.sub_0_r.
      f_equal. rewrite <-Heq at 1. by rewrite take_drop.
    + destruct (IH 0%nat (c :: cur)) as [Hj Hne]. split; [|done]. by rewrite Hj, reverse_cons, <-app_assoc.
Qed.

(** Splitting is undone by joining: for any text and any separator that is not empty,
    the tokens of [sdssplitlen] joined with the separator are the text again. *)
Theorem splitlen_joined (s sep : bytes) :
  sep <> [] -> s <> [] -> exists tokens, sdssplitlen s sep = Some tokens /\ joined sep tokens = s.
Proof.
  intros Hsep Hs. unfold sdssplitlen. rewrite !bool_decide_false by done. eexists. split; [done|].
  by apply (split_joined sep 0 s []).
Qed.

End SdsRefine.
