(* ===== verification/Dict.v ===== *)
(** * The dictionary of hiredis: hiredis/dict.c

    A hash table with chains, which an asynchronous context uses for the callbacks of its
    channels and patterns. The table of chains is a list of lists, an entry a pair of a
    key and a value; [None] is the value of an entry whose copy could not be allocated.
    The answers of the allocator are arguments. The abstract dictionary is a finite map. *)
From S2P Require Import Prelude.

Local Open Scope Z_scope.

Module Dict.

Definition DICT_HT_INITIAL_SIZE : Z := 4.
Definition LONG_MAX : Z := 2 ^ 63 - 1.

(** [dictGenHashFunction], on the key of [callbackHash]. *)
Definition dictGenHashFunction (buf : bytes) : Z :=
  fold_left (fun hash c => u32 (u32 (u32 (Z.shiftl hash 5) + hash) + Z_of_byte c)) buf 5381.

(** The allocations of an operation: the table, the entry and the copy of the value. *)
Record memory := mk_memory {
  mem_table : bool;
  mem_entry : bool;
  mem_value : bool }.

Definition enough_memory : memory := mk_memory true true true.

Section Code.
Context {V : Type}.

Abbreviation entry := (bytes * option V)%type.

Record dict := mk_dict {
  d_table : list (list entry);
  d_size : Z;
  d_sizemask : Z;
  d_used : Z }.

Definition dictCreate : dict := mk_dict [] 0 0 0.

(** The doubling from 4 ends within the 63 bits of a [long]. *)
Fixpoint next_power (fuel : nat) (i size : Z) : Z :=
  match fuel with
  | O => i
  | S fuel => if size <=? i then i else next_power fuel (i * 2) size
  end.

Definition _dictNextPower (size : Z) : Z :=
  if LONG_MAX <=? size then LONG_MAX else next_power 62 DICT_HT_INITIAL_SIZE size.

Definition chain (table : list (list entry)) (h : Z) : list entry := default [] (table !! Z.to_nat h).

(** An entry goes to the head of its chain. *)
Definition link (mask : Z) (table : list (list entry)) (he : entry) : list (list entry) :=
  let h := Z.land (dictGenHashFunction he.1) mask in
  <[Z.to_nat h := he :: chain table h]> table.

(** [dictExpand]: [None] is the failed assertion. The copy ends as soon as no entry is
    left. *)
Definition dictExpand (mem : memory) (ht : dict) (size : Z) : option (bool * dict) :=
  let realsize := _dictNextPower size in
  if size <? d_used ht then Some (false, ht)
  else if negb (mem_table mem) then Some (false, ht)
  else
    let (table, used) :=
      fold_left (fun '(table, used) slot =>
                   if 0 <? used then (fold_left (link (realsize - 1)) slot table, used - Z.of_nat (length slot))
                   else (table, used))
        (d_table ht) (replicate (Z.to_nat realsize) [], d_used ht) in
    if used =? 0 then Some (true, mk_dict table realsize (realsize - 1) (d_used ht)) else None.

Definition _dictExpandIfNeeded (mem : memory) (ht : dict) : option (bool * dict) :=
  if d_size ht =? 0 then dictExpand mem ht DICT_HT_INITIAL_SIZE
  else if d_used ht =? d_size ht then dictExpand mem ht (d_size ht * 2)
  else Some (true, ht).

(** The entry of a key in its chain. *)
Definition find_entry (key : bytes) : list entry -> option (option V) :=
  fix go l := match l with
              | [] => None
              | (k, v) :: l' => if bytes_eqb key k then Some v else go l'
              end.

(** The index of the chain of a new key, an [int]; [None] is -1. *)
Definition _dictKeyIndex (mem : memory) (ht : dict) (key : bytes) : option (option Z * dict) :=
  '(ok, ht) ← _dictExpandIfNeeded mem ht;
  if negb ok then Some (None, ht)
  else
    let h := Z.land (dictGenHashFunction key) (d_sizemask ht) in
    match find_entry key (chain (d_table ht) h) with
    | Some _ => Some (None, ht)
    | None => Some (if i32 h =? -1 then None else Some (i32 h), ht)
    end.

(** [dictSetHashVal] with [callbackValDup]. *)
Definition dup (mem : memory) (val : V) : option V := if mem_value mem then Some val else None.

(** A negative index leaves the table. *)
Definition dictAdd (mem : memory) (ht : dict) (key : bytes) (val : V) : option (bool * dict) :=
  '(index, ht) ← _dictKeyIndex mem ht key;
  match index with
  | None => Some (false, ht)
  | Some index =>
      if negb (mem_entry mem) then Some (false, ht)
      else if (index <? 0) || (Z.of_nat (length (d_table ht)) <=? index) then None
      else
        Some (true, mk_dict (<[Z.to_nat index := (key, dup mem val) :: chain (d_table ht) index]> (d_table ht))
                      (d_size ht) (d_sizemask ht) (d_used ht + 1))
  end.

Definition dictFind (ht : dict) (key : bytes) : option (option V) :=
  if d_size ht =? 0 then None
  else find_entry key (chain (d_table ht) (Z.land (dictGenHashFunction key) (d_sizemask ht))).

(** The entry that [dictFind] returns gets another value. *)
Definition set_entry (key : bytes) (val : option V) : list entry -> list entry :=
  fix go l := match l with
              | [] => []
              | (k, v) :: l' => if bytes_eqb key k then (k, val) :: l' else (k, v) :: go l'
              end.

Definition dictReplace (mem : memory) (ht : dict) (key : bytes) (val : V) : option (bool * dict) :=
  '(added, ht) ← dictAdd mem ht key val;
  if added : bool then Some (true, ht)
  else
    match dictFind ht key with
    | None => Some (false, ht)
    | Some _ =>
        let h := Z.land (dictGenHashFunction key) (d_sizemask ht) in
        Some (false, mk_dict (<[Z.to_nat h := set_entry key (dup mem val) (chain (d_table ht) h)]> (d_table ht))
                       (d_size ht) (d_sizemask ht) (d_used ht))
    end.

(** The chain without the first entry of the key. *)
Definition unlink (key : bytes) : list entry -> option (list entry) :=
  fix go l := match l with
              | [] => None
              | (k, v) :: l' => if bytes_eqb key k then Some l' else cons (k, v) <$> go l'
              end.

Definition dictDelete (ht : dict) (key : bytes) : bool * dict :=
  if d_size ht =? 0 then (false, ht)
  else
    let h := Z.land (dictGenHashFunction key) (d_sizemask ht) in
    match unlink key (chain (d_table ht) h) with
    | Some l => (true, mk_dict (<[Z.to_nat h := l]> (d_table ht)) (d_size ht) (d_sizemask ht) (d_used ht - 1))
    | None => (false, ht)
    end.

(** ** Iterators *)

(** [entry] and [nextEntry] point into a chain: they are the rest of it. *)
Record dictIterator := mk_iterator {
  it_index : Z;
  it_entry : list entry;
  it_next : list entry }.

Definition dictGetIterator : dictIterator := mk_iterator (-1) [] [].

(** The loop goes to the next chain at every turn but the first. *)
Fixpoint dictNext (fuel : nat) (ht : dict) (it : dictIterator) : option (option entry * dictIterator) :=
  match fuel with
  | O => None
  | S fuel =>
      match it_entry it with
      | [] =>
          let index := it_index it + 1 in
          if i32 (d_size ht) <=? index then Some (None, mk_iterator index [] (it_next it))
          else
            match chain (d_table ht) index with
            | e :: l => Some (Some e, mk_iterator index (e :: l) l)
            | [] => dictNext fuel ht (mk_iterator index [] (it_next it))
            end
      | _ =>
          match it_next it with
          | e :: l => Some (Some e, mk_iterator (it_index it) (e :: l) l)
          | [] => dictNext fuel ht (mk_iterator (it_index it) [] [])
          end
      end
  end.

(** A loop over an iterator, as the callers write it, with the entries it sees. *)
Fixpoint iterate (turns : nat) (ht : dict) (it : dictIterator) : option (list entry) :=
  match turns with
  | O => None
  | S turns =>
      '(e, it) ← dictNext (length (d_table ht) + 3) ht it;
      match e with
      | Some e => cons e <$> iterate turns ht it
      | None => Some []
      end
  end.

(** ** The abstract dictionary *)

Inductive operation :=
| Find (key : bytes)
| Replace (mem : memory) (key : bytes) (val : V)
| Delete (key : bytes).

(** What the caller gets: an entry's value, or whether the key was new or present. *)
Inductive answer :=
| Value (v : option (option V))
| Changed (b : bool).

Definition perform (o : operation) (ht : dict) : option (answer * dict) :=
  match o with
  | Find key => Some (Value (dictFind ht key), ht)
  | Replace mem key val => '(b, ht) ← dictReplace mem ht key val; Some (Changed b, ht)
  | Delete key => let (b, ht) := dictDelete ht key in Some (Changed b, ht)
  end.

Fixpoint perform_all (l : list operation) (ht : dict) : option (list answer * dict) :=
  match l with
  | [] => Some ([], ht)
  | o :: l => '(a, ht) ← perform o ht; '(r, ht) ← perform_all l ht; Some (a :: r, ht)
  end.

End Code.
Arguments dict : clear implicits.
Arguments dictIterator : clear implicits.
Arguments operation : clear implicits.
Arguments answer : clear implicits.

#[export] Instance byte_countable : Countable byte.
Proof. refine (inj_countable Byte.to_N Byte.of_N _). apply Byte.of_to_N. Defined.

Section Proofs.
Context {V : Type}.

Abbreviation entry := (bytes * option V)%type.
Abbreviation dict := (dict V).
Implicit Types (ht : dict) (table : list (list entry)).

(** A dictionary as a map; the operations on maps, which fail for want of memory only. *)
Inductive step : operation V -> gmap bytes (option V) -> answer V -> gmap bytes (option V) -> Prop :=
| step_find key m : step (Find key) m (Value (m !! key)) m
| step_update mem key val m :
    is_Some (m !! key) -> step (Replace mem key val) m (Changed false) (<[key := dup mem val]> m)
| step_add mem key val m :
    m !! key = None -> mem_entry mem = true -> step (Replace mem key val) m (Changed true) (<[key := dup mem val]> m)
| step_no_memory mem key val m :
    m !! key = None -> mem_table mem && mem_entry mem = false -> step (Replace mem key val) m (Changed false) m
| step_delete key m :
    step (Delete key) m (Changed (bool_decide (is_Some (m !! key)))) (delete key m).

Inductive steps : list (operation V) -> gmap bytes (option V) -> list (answer V) -> gmap bytes (option V) -> Prop :=
| steps_nil m : steps [] m [] m
| steps_cons o l m a m1 r m2 : step o m a m1 -> steps l m1 r m2 -> steps (o :: l) m (a :: r) m2.

(** ** The invariant *)

Definition entries (ht : dict) : list entry := concat (d_table ht).

(** Every entry is in the chain of its hash. *)
Definition placed (mask : Z) (table : list (list entry)) : Prop :=
  forall h l e, table !! h = Some l -> e ∈ l -> h = Z.to_nat (Z.land (dictGenHashFunction e.1) mask).

Record sound (ht : dict) : Prop := {
  so_length : Z.of_nat (length (d_table ht)) = d_size ht;
  so_size : d_size ht = 0 \/ exists k, 2 <= k <= 30 /\ d_size ht = 2 ^ k /\ d_sizemask ht = 2 ^ k - 1;
  so_used : d_used ht = Z.of_nat (length (entries ht));
  so_full : d_used ht <= d_size ht;
  so_placed : placed (d_sizemask ht) (d_table ht);
  so_keys : NoDup (entries ht).*1 }.

Definition abstract (ht : dict) : gmap bytes (option V) := list_to_map (entries ht).

Lemma land_mask h k : 0 <= k -> 0 <= Z.land h (2 ^ k - 1) < 2 ^ k.
Proof.
  intros Hk. replace (2 ^ k - 1) with (Z.ones k) by (rewrite Z.ones_equiv; lia).
  rewrite Z.land_ones by done. apply Z.mod_pos_bound. lia.
Qed.

(** ** Chains *)

Lemma bytes_eqb_refl k : bytes_eqb k k = true.
Proof. by apply bytes_eqb_eq. Qed.

Lemma find_entry_elem key v (l : list entry) : NoDup l.*1 -> find_entry key l = Some v <-> (key, v) ∈ l.
Proof.
  induction l as [|[k w] l IH]; cbn.
  - intros _. split; [done|]. by intros ?%elem_of_nil.
  - intros [Hk Hl]%NoDup_cons. rewrite elem_of_cons. destruct (bytes_eqb key k) eqn:E.
    + apply bytes_eqb_eq in E as <-. split; [by intros [= ->]; left|]. intros [[= ->]|Hin]; [done|].
      exfalso. apply Hk, list_elem_of_fmap. by exists (key, v).
    + rewrite IH by done. split; [by right|]. intros [[= -> ->]|]; [|done]. by rewrite bytes_eqb_refl in E.
Qed.

Lemma find_entry_none key (l : list entry) : find_entry key l = None <-> key ∉ l.*1.
Proof.
  induction l as [|[k w] l IH]; cbn; [by split; [intros _ ?%elem_of_nil|]|].
  rewrite not_elem_of_cons. destruct (bytes_eqb key k) eqn:E.
  - apply bytes_eqb_eq in E as ->. naive_solver.
  - rewrite IH. assert (key <> k) by (intros ->; by rewrite bytes_eqb_refl in E). naive_solver.
Qed.

Lemma unlink_spec key (l : list entry) :
  match unlink key l with
  | Some l' => exists v, l ≡ₚ (key, v) :: l'
  | None => key ∉ l.*1
  end.
Proof.
  induction l as [|[k w] l IH]; cbn; [by intros ?%elem_of_nil|]. destruct (bytes_eqb key k) eqn:E.
  - apply bytes_eqb_eq in E as ->. by exists w.
  - assert (key <> k) by (intros ->; by rewrite bytes_eqb_refl in E). destruct (unlink key l) as [l'|]; cbn.
    + destruct IH as [v IH]. exists v. rewrite IH. apply Permutation_swap.
    + by rewrite not_elem_of_cons.
Qed.

Lemma set_entry_spec key val (l : list entry) :
  key ∈ l.*1 -> exists v l', l ≡ₚ (key, v) :: l' /\ set_entry key val l ≡ₚ (key, val) :: l'.
Proof.
  induction l as [|[k w] l IH]; cbn; [by intros ?%elem_of_nil|]. rewrite elem_of_cons. destruct (bytes_eqb key k) eqn:E.
  - apply bytes_eqb_eq in E as ->. intros _. by exists w, l.
  - assert (key <> k) by (intros ->; by rewrite bytes_eqb_refl in E). intros [|Hin]; [done|].
    destruct (IH Hin) as (v & l' & E1 & E2). exists v, ((k, w) :: l'). rewrite E1 at 1. rewrite E2.
    split; apply Permutation_swap.
Qed.

(** ** Tables *)

Lemma concat_insert (table : list (list entry)) h l l' :
  table !! h = Some l -> exists rest, concat table ≡ₚ l ++ rest /\ concat (<[h := l']> table) ≡ₚ l' ++ rest.
Proof.
  intros Hl. exists (concat (take h table ++ drop (S h) table)).
  rewrite insert_take_drop by (by eapply lookup_lt_Some). rewrite <-(take_drop_middle table h l Hl) at 1.
  rewrite !concat_app. cbn [concat]. rewrite !app_assoc. split; (apply Permutation_app_tail, Permutation_app_comm).
Qed.

Lemma placed_insert mask (table : list (list entry)) h l :
  placed mask table -> (forall e, e ∈ l -> h = Z.to_nat (Z.land (dictGenHashFunction e.1) mask)) ->
  placed mask (<[h := l]> table).
Proof.
  intros Hp Hl h' l' e Hh He. rewrite list_lookup_insert in Hh. destruct (decide (_ /\ _)) as [[<- _]|_].
  - injection Hh as <-. by apply Hl.
  - by eapply Hp.
Qed.

Lemma chain_lookup ht h : Z.of_nat (length (d_table ht)) = d_size ht -> 0 <= h < d_size ht ->
  d_table ht !! Z.to_nat h = Some (chain (d_table ht) h).
Proof.
  intros Hl Hh. unfold chain. destruct (lookup_lt_is_Some_2 (d_table ht) (Z.to_nat h)) as [l ->]; [lia|done].
Qed.

Definition slot (ht : dict) (key : bytes) : Z := Z.land (dictGenHashFunction key) (d_sizemask ht).

Lemma slot_range ht key : sound ht -> d_size ht <> 0 -> 0 <= slot ht key < d_size ht /\ d_size ht <= 2 ^ 30.
Proof.
  intros Hs Hn. destruct (so_size ht Hs) as [?|(k & Hk & -> & Em)]; [done|]. unfold slot. rewrite Em.
  split; [apply land_mask; lia|]. apply Z.pow_le_mono_r; lia.
Qed.

Lemma slot_chain ht key : sound ht -> d_size ht <> 0 ->
  d_table ht !! Z.to_nat (slot ht key) = Some (chain (d_table ht) (slot ht key)).
Proof. intros Hs Hn. apply chain_lookup; [apply Hs|by apply slot_range]. Qed.

Lemma elem_of_entries ht e : e ∈ entries ht <-> exists l, e ∈ l /\ l ∈ d_table ht.
Proof. unfold entries. rewrite list_elem_of_In, in_concat. setoid_rewrite list_elem_of_In. naive_solver. Qed.

Lemma in_entries ht h l e : d_table ht !! h = Some l -> e ∈ l -> e ∈ entries ht.
Proof. intros Hl He. apply elem_of_entries. exists l. split; [done|by eapply list_elem_of_lookup_2]. Qed.

Lemma chain_keys ht h l : sound ht -> d_table ht !! h = Some l -> NoDup l.*1.
Proof.
  intros Hs Hl. destruct (concat_insert (d_table ht) h l [] Hl) as (rest & E & _). pose proof (so_keys ht Hs) as Hk.
  unfold entries in Hk. rewrite E, fmap_app in Hk. by apply NoDup_app in Hk as [? _].
Qed.

(** The chain of a key knows all there is to know. *)
Lemma chain_finds ht key : sound ht -> d_size ht <> 0 -> find_entry key (chain (d_table ht) (slot ht key)) = abstract ht !! key.
Proof.
  intros Hs Hn. pose proof (slot_chain ht key Hs Hn) as Hc. pose proof (chain_keys _ _ _ Hs Hc) as Hk.
  destruct (find_entry key _) as [v|] eqn:E; symmetry.
  - apply find_entry_elem in E; [|done]. apply elem_of_list_to_map; [apply Hs|by eapply in_entries].
  - apply find_entry_none in E. apply not_elem_of_list_to_map. intros ([k v] & Ek & Hin)%list_elem_of_fmap. cbn in Ek. subst k.
    apply elem_of_entries in Hin as (l & Hv & (h & Hl)%list_elem_of_lookup_1).
    pose proof (so_placed ht Hs h l _ Hl Hv) as Eh. cbn [fst] in Eh. fold (slot ht key) in Eh. subst h.
    rewrite Hc in Hl. injection Hl as <-. apply E, list_elem_of_fmap. by exists (key, v).
Qed.

Lemma empty_entries ht : sound ht -> d_size ht = 0 -> entries ht = [].
Proof. intros Hs Hz. pose proof (so_length ht Hs). unfold entries. destruct (d_table ht); [done|]. cbn [length] in *. lia. Qed.

Lemma dictFind_spec ht key : sound ht -> dictFind ht key = abstract ht !! key.
Proof.
  intros Hs. unfold dictFind. destruct (Z.eqb_spec (d_size ht) 0) as [Hz|Hn]; [|by apply chain_finds].
  unfold abstract. by rewrite empty_entries.
Qed.

(** ** Growing *)

Lemma link_spec k table e :
  0 <= k -> Z.of_nat (length table) = 2 ^ k -> placed (2 ^ k - 1) table ->
  let table' := link (2 ^ k - 1) table e in
  length table' = length table /\ placed (2 ^ k - 1) table' /\ concat table' ≡ₚ e :: concat table.
Proof.
  intros Hk Hl Hp table'. unfold table', link. set (h := Z.land _ _).
  pose proof (land_mask (dictGenHashFunction e.1) k Hk) as Hh. fold h in Hh.
  destruct (lookup_lt_is_Some_2 table (Z.to_nat h)) as [l El]; [lia|]. unfold chain. rewrite El. cbn [default].
  split; [apply length_insert|]. split.
  - apply placed_insert; [done|]. intros e' [->|He]%elem_of_cons; [done|]. by eapply Hp.
  - destruct (concat_insert table (Z.to_nat h) l (e :: l) El) as (rest & E1 & E2). by rewrite E1, E2.
Qed.

Lemma links_spec k l table :
  0 <= k -> Z.of_nat (length table) = 2 ^ k -> placed (2 ^ k - 1) table ->
  let table' := fold_left (link (2 ^ k - 1)) l table in
  length table' = length table /\ placed (2 ^ k - 1) table' /\ concat table' ≡ₚ l ++ concat table.
Proof.
  intros Hk. revert table. induction l as [|e l IH]; intros table Hl Hp; [done|]. cbn [fold_left].
  destruct (link_spec k table e Hk Hl Hp) as (L1 & P1 & E1).
  destruct (IH (link (2 ^ k - 1) table e)) as (L2 & P2 & E2); [by rewrite L1|done|].
  split; [by rewrite L2|]. split; [done|]. rewrite E2, E1. symmetry. apply Permutation_middle.
Qed.

Lemma copy_spec k slots table :
  0 <= k -> Z.of_nat (length table) = 2 ^ k -> placed (2 ^ k - 1) table ->
  exists table', fold_left (fun '(table, used) slot =>
      if 0 <? used then (fold_left (link (2 ^ k - 1)) slot table, used - Z.of_nat (length slot)) else (table, used))
      slots (table, Z.of_nat (length (concat slots))) = (table', 0) /\
    length table' = length table /\ placed (2 ^ k - 1) table' /\ concat table' ≡ₚ concat slots ++ concat table.
Proof.
  intros Hk. revert table. induction slots as [|l slots IH]; intros table Hl Hp; [by exists table|].
  cbn [concat fold_left]. rewrite length_app. destruct (Z.ltb_spec 0 (Z.of_nat (length l + length (concat slots)))).
  - destruct (links_spec k l table Hk Hl Hp) as (L1 & P1 & E1).
    destruct (IH (fold_left (link (2 ^ k - 1)) l table)) as (t & E & L2 & P2 & E2); [by rewrite L1|done|].
    replace (Z.of_nat (length l + length (concat slots)) - Z.of_nat (length l)) with (Z.of_nat (length (concat slots))) by lia.
    exists t. split; [done|]. split; [by rewrite L2|]. split; [done|]. rewrite E2, E1, !app_assoc.
    by apply Permutation_app_tail, Permutation_app_comm.
  - assert (l = [] /\ concat slots = []) as [-> Ec] by (split; apply length_zero_iff_nil; lia).
    destruct (IH table Hl Hp) as (t & E & R). exists t. by rewrite Ec in *.
Qed.

Lemma next_power_pow fuel i j : 0 <= i <= j -> j - i < Z.of_nat fuel -> next_power fuel (2 ^ i) (2 ^ j) = 2 ^ j.
Proof.
  revert i. induction fuel as [|fuel IH]; intros i Hi Hf; [lia|]. cbn [next_power].
  destruct (Z.leb_spec (2 ^ j) (2 ^ i)) as [Hle|Hlt].
  - destruct (Z.eq_dec i j) as [->|Hne]; [done|]. pose proof (Z.pow_lt_mono_r 2 i j). lia.
  - replace (2 ^ i * 2) with (2 ^ (i + 1)) by (rewrite Z.pow_add_r; lia).
    apply IH; [|lia]. destruct (Z.eq_dec i j) as [->|]; lia.
Qed.

Lemma nextPower_pow j : 2 <= j <= 31 -> _dictNextPower (2 ^ j) = 2 ^ j.
Proof.
  intros Hj. unfold _dictNextPower, LONG_MAX. pose proof (Z.pow_le_mono_r 2 j 31).
  rewrite (proj2 (Z.leb_gt _ _)) by lia. change DICT_HT_INITIAL_SIZE with (2 ^ 2). apply next_power_pow; lia.
Qed.

Lemma dictExpand_spec mem ht j :
  sound ht -> 2 <= j <= 30 -> d_used ht <= 2 ^ j ->
  exists ht', dictExpand mem ht (2 ^ j) = Some (mem_table mem, ht') /\ sound ht' /\ entries ht' ≡ₚ entries ht /\
    if mem_table mem then d_size ht' = 2 ^ j else ht' = ht.
Proof.
  intros Hs Hj Hu. unfold dictExpand. rewrite nextPower_pow by lia. rewrite (proj2 (Z.ltb_ge _ _)) by lia.
  destruct (mem_table mem); cbn [negb]; [|by exists ht].
  rewrite (so_used ht Hs). unfold entries.
  destruct (copy_spec j (d_table ht) (replicate (Z.to_nat (2 ^ j)) [])) as (t & E & L & P & Ep).
  - lia.
  - rewrite length_replicate. lia.
  - intros h l e Hl He. apply lookup_replicate in Hl as [-> _]. by apply elem_of_nil in He.
  - rewrite E. cbn [Z.eqb]. rewrite length_replicate in L.
    assert (concat (replicate (Z.to_nat (2 ^ j)) (@nil entry)) = []) as En.
    { clear. induction (Z.to_nat (2 ^ j)); [done|]. by cbn. }
    rewrite En, app_nil_r in Ep. eexists. split; [done|]. cbn [d_table d_size]. split; [|by split].
    split; cbn [d_table d_size d_sizemask d_used]; unfold entries; cbn [d_table].
    + lia.
    + right. by exists j.
    + by rewrite Ep.
    + pose proof (so_used ht Hs) as Eu. unfold entries in Eu. lia.
    + done.
    + rewrite Ep. apply Hs.
Qed.

(** Behind a step that may grow the table there is room for an entry, or no memory. *)
Lemma expandIfNeeded_spec mem ht :
  sound ht -> d_used ht < 2 ^ 30 ->
  exists b ht', _dictExpandIfNeeded mem ht = Some (b, ht') /\ sound ht' /\ entries ht' ≡ₚ entries ht /\
    (b = true -> d_size ht' <> 0 /\ d_used ht' < d_size ht') /\ (b = false -> mem_table mem = false).
Proof.
  intros Hs Hu. unfold _dictExpandIfNeeded. pose proof (so_full ht Hs) as Hf.
  assert (forall j, 2 <= j <= 30 -> d_used ht < 2 ^ j -> exists b ht', dictExpand mem ht (2 ^ j) = Some (b, ht') /\ sound ht' /\ entries ht' ≡ₚ entries ht /\
    (b = true -> d_size ht' <> 0 /\ d_used ht' < d_size ht') /\ (b = false -> mem_table mem = false)) as He.
  { intros j Hj Hl. destruct (dictExpand_spec mem ht j Hs Hj ltac:(lia)) as (ht' & E & Hs' & Ep & Hb).
    exists (mem_table mem), ht'. split; [done|]. split; [done|]. split; [done|]. split; [|done].
    intros Hm. rewrite Hm in Hb. rewrite Hb, (so_used ht' Hs'), Ep, <-(so_used ht Hs). lia. }
  destruct (Z.eqb_spec (d_size ht) 0) as [Hz|Hn].
  - change DICT_HT_INITIAL_SIZE with (2 ^ 2). apply He; lia.
  - destruct (so_size ht Hs) as [?|(k & Hk & Ek & Em)]; [done|]. destruct (Z.eqb_spec (d_used ht) (d_size ht)) as [Eu|Hne].
    + replace (d_size ht * 2) with (2 ^ (k + 1)) by (rewrite Ek, Z.pow_add_r; lia). assert (k < 30).
      { destruct (Z.lt_ge_cases k 30); [done|]. pose proof (Z.pow_le_mono_r 2 30 k). lia. }
      apply He; [lia|]. rewrite Z.pow_add_r by lia. lia.
    + exists true, ht. split; [done|]. split; [done|]. split; [done|]. split; [lia|done].
Qed.

(** ** The operations *)

Lemma abstract_perm ht ht' : sound ht -> entries ht' ≡ₚ entries ht -> abstract ht' = abstract ht.
Proof. intros Hs E. symmetry. apply list_to_map_proper; [apply Hs|by symmetry]. Qed.

(** A chain is replaced by one whose entries belong there. *)
Lemma sound_insert ht key l used :
  let table := <[Z.to_nat (slot ht key) := l]> (d_table ht) in
  let ht' := mk_dict table (d_size ht) (d_sizemask ht) used in
  sound ht -> d_size ht <> 0 -> used = Z.of_nat (length (concat table)) -> used <= d_size ht ->
  NoDup (concat table).*1 -> (forall e, e ∈ l -> e.1 = key \/ e ∈ chain (d_table ht) (slot ht key)) -> sound ht'.
Proof.
  intros table ht' Hs Hn Hu Hf Hk Hl. pose proof (slot_chain ht key Hs Hn) as Hc. split; cbn [d_table d_size d_sizemask d_used ht'].
  - unfold table. rewrite length_insert. apply Hs.
  - apply Hs.
  - done.
  - done.
  - apply placed_insert; [apply Hs|]. intros e He. destruct (Hl e He) as [->|Hin]; [done|]. by eapply (so_placed ht Hs).
  - done.
Qed.

Lemma dictAdd_spec mem ht key val :
  sound ht -> d_used ht < 2 ^ 30 ->
  exists b ht', dictAdd mem ht key val = Some (b, ht') /\ sound ht' /\
    if b : bool then abstract ht !! key = None /\ mem_entry mem = true /\ abstract ht' = <[key := dup mem val]> (abstract ht) /\
                   d_used ht' = d_used ht + 1
    else abstract ht' = abstract ht /\ d_used ht' = d_used ht /\ (is_Some (abstract ht !! key) \/ mem_table mem && mem_entry mem = false).
Proof.
  intros Hs Hu. unfold dictAdd, _dictKeyIndex.
  destruct (expandIfNeeded_spec mem ht Hs Hu) as (b & h1 & -> & Hs1 & Ep & Ht & Hf). cbn [mbind option_bind].
  pose proof (abstract_perm ht h1 Hs Ep) as Ea.
  assert (d_used h1 = d_used ht) as Eu by (by rewrite (so_used h1 Hs1), (so_used ht Hs), Ep).
  destruct b; cbn [negb]; [|exists false, h1; split_and!; try done; right; by rewrite Hf].
  destruct (Ht eq_refl) as [Hn Hroom]. destruct (slot_range h1 key Hs1 Hn) as [Hh Hsz]. fold (slot h1 key).
  rewrite (chain_finds h1 key Hs1 Hn), Ea. destruct (abstract ht !! key) as [v|] eqn:Ek; cbn [mbind option_bind].
  - exists false, h1. split_and!; try done. left. by eexists.
  - rewrite (wrap_s_small 32 (slot h1 key)) by (change (2 ^ (32 - 1)) with (2 ^ 31); lia).
    rewrite (proj2 (Z.eqb_neq _ (-1))) by lia. destruct (mem_entry mem) eqn:Em; cbn [negb].
    + rewrite (so_length h1 Hs1), (proj2 (Z.ltb_ge _ 0)), (proj2 (Z.leb_gt _ _)) by lia. cbn [orb].
      set (l := (key, dup mem val) :: chain (d_table h1) (slot h1 key)).
      destruct (concat_insert (d_table h1) (Z.to_nat (slot h1 key)) _ l (slot_chain h1 key Hs1 Hn)) as (rest & E1 & E2).
      assert (concat (<[Z.to_nat (slot h1 key) := l]> (d_table h1)) ≡ₚ (key, dup mem val) :: entries h1) as E3.
      { rewrite E2. unfold entries. rewrite E1. done. }
      assert (NoDup (concat (<[Z.to_nat (slot h1 key) := l]> (d_table h1))).*1) as Hk.
      { rewrite E3. cbn [fmap list_fmap fst]. apply NoDup_cons. split; [|apply Hs1].
        apply not_elem_of_list_to_map. fold (abstract h1). by rewrite Ea. }
      eexists true, _. split; [done|]. split; [|split_and!; try done].
      * apply sound_insert; try done; [by rewrite E3; cbn [length]; rewrite (so_used h1 Hs1); lia|lia|].
        intros e [->|He]%elem_of_cons; [by left|by right].
      * unfold abstract at 1. unfold entries at 1. cbn [d_table]. rewrite <-Ea.
        rewrite (list_to_map_proper _ ((key, dup mem val) :: entries h1)); [done|done|done].
      * cbn [d_used]. lia.
    + exists false, h1. split_and!; try done. right. apply andb_false_r.
Qed.

Lemma map_perm (l l' : list entry) : l ≡ₚ l' -> NoDup l'.*1 -> (list_to_map l : gmap bytes (option V)) = list_to_map l'.
Proof. intros E Hl. symmetry. by apply list_to_map_proper. Qed.

Lemma dictReplace_spec mem ht key val :
  sound ht -> d_used ht < 2 ^ 30 ->
  exists b ht', dictReplace mem ht key val = Some (b, ht') /\ sound ht' /\ d_used ht' <= d_used ht + 1 /\
    step (Replace mem key val) (abstract ht) (Changed b) (abstract ht').
Proof.
  intros Hs Hu. unfold dictReplace.
  destruct (dictAdd_spec mem ht key val Hs Hu) as ([|] & h1 & -> & Hs1 & Hb); cbn [mbind option_bind].
  - destruct Hb as (Hk & Hm & Ea & Eu). exists true, h1. split_and!; try done; [lia|]. rewrite Ea. by constructor.
  - destruct Hb as (Ea & Eu & Hor). rewrite (dictFind_spec h1 key Hs1). destruct (abstract h1 !! key) as [v|] eqn:Ek.
    + assert (d_size h1 <> 0) as Hn.
      { intros Hz. unfold abstract in Ek. by rewrite empty_entries in Ek. }
      fold (slot h1 key). set (l := set_entry key (dup mem val) (chain (d_table h1) (slot h1 key))).
      assert (key ∈ (chain (d_table h1) (slot h1 key)).*1) as Hin.
      { pose proof (chain_finds h1 key Hs1 Hn) as E. rewrite Ek in E. apply find_entry_elem in E.
        - apply list_elem_of_fmap. by exists (key, v).
        - by eapply chain_keys, slot_chain. }
      destruct (set_entry_spec key (dup mem val) _ Hin) as (v' & l' & E1 & E2). fold l in E2.
      destruct (concat_insert (d_table h1) _ _ l (slot_chain h1 key Hs1 Hn)) as (rest & E3 & E4).
      rewrite E1 in E3. apply (Permutation_app_tail rest) in E2 as E5. rewrite <-E4 in E5. clear E4. rename E5 into E4.
      cbn [app] in E3, E4. pose proof (so_keys h1 Hs1) as Hk. unfold entries in Hk.
      rewrite E3 in Hk. cbn [fmap list_fmap fst] in Hk.
      eexists false, _. split; [done|]. split; [|split; [cbn [d_used]; lia|]].
      * apply sound_insert; try done.
        -- rewrite E4, (so_used h1 Hs1). unfold entries. by rewrite E3.
        -- apply Hs1.
        -- by rewrite E4.
        -- intros e He. rewrite E2 in He. apply elem_of_cons in He as [->|He]; [by left|right]. rewrite E1. by right.
      * assert (abstract (mk_dict (<[Z.to_nat (slot h1 key) := l]> (d_table h1)) (d_size h1) (d_sizemask h1) (d_used h1)) =
                <[key := dup mem val]> (abstract ht)) as ->; [|apply step_update; rewrite <-Ea; by eexists].
        rewrite <-Ea. unfold abstract, entries. cbn [d_table].
        rewrite (map_perm _ _ E4 Hk), (map_perm _ _ E3 Hk). symmetry. cbn. apply insert_insert_eq.
    + exists false, h1. split_and!; try done; [lia|]. rewrite Ea in *. rewrite Ek in Hor.
      apply step_no_memory; [done|]. destruct Hor as [[? ?]|]; done.
Qed.

Lemma dictDelete_spec ht key :
  sound ht -> let (b, ht') := dictDelete ht key in
  sound ht' /\ d_used ht' <= d_used ht /\ step (Delete key) (abstract ht) (Changed b) (abstract ht').
Proof.
  intros Hs. unfold dictDelete.
  assert (abstract ht !! key = None -> step (Delete key) (abstract ht) (Changed false) (abstract ht)) as Hnone.
  { intros E. pose proof (step_delete key (abstract ht)) as H. rewrite E, delete_id in H by done. exact H. }
  destruct (Z.eqb_spec (d_size ht) 0) as [Hz|Hn].
  - split_and!; [done|lia|]. apply Hnone. unfold abstract. by rewrite empty_entries.
  - fold (slot ht key). pose proof (unlink_spec key (chain (d_table ht) (slot ht key))) as Hl.
    destruct (unlink key _) as [l|].
    + destruct Hl as [v E1]. destruct (concat_insert (d_table ht) _ _ l (slot_chain ht key Hs Hn)) as (rest & E3 & E4).
      rewrite E1 in E3. cbn [app] in E3. pose proof (so_keys ht Hs) as Hk. pose proof (so_used ht Hs) as Hu.
      unfold entries in Hk, Hu. rewrite E3 in Hk, Hu. cbn [fmap list_fmap fst length] in Hk, Hu. apply NoDup_cons in Hk as [Hk1 Hk].
      split; [|split; [cbn [d_used]; lia|]].
      * apply sound_insert; try done.
        -- rewrite E4. lia.
        -- pose proof (so_full ht Hs). lia.
        -- by rewrite E4.
        -- intros e He. right. rewrite E1. by right.
      * assert (abstract (mk_dict (<[Z.to_nat (slot ht key) := l]> (d_table ht)) (d_size ht) (d_sizemask ht) (d_used ht - 1)) =
                list_to_map (l ++ rest)) as ->.
        { unfold abstract, entries. cbn [d_table]. by rewrite (map_perm _ _ E4 Hk). }
        assert (abstract ht = <[key := v]> (list_to_map (l ++ rest))) as ->.
        { unfold abstract, entries. rewrite (map_perm _ _ E3); [done|]. by apply NoDup_cons. }
        pose proof (step_delete key (<[key := v]> (list_to_map (l ++ rest)))) as H.
        rewrite lookup_insert_eq, delete_insert_id in H by (by apply not_elem_of_list_to_map). exact H.
    + split_and!; [done|lia|]. apply Hnone. rewrite <-(chain_finds ht key Hs Hn). by apply find_entry_none.
Qed.

(** ** Iterators *)

(** The entries that an iterator has yet to see. *)
Definition to_come (ht : dict) (it : dictIterator V) : list entry :=
  (match it_entry it with [] => [] | _ => it_next it end) ++ concat (drop (Z.to_nat (it_index it + 1)) (d_table ht)).

Definition it_ok (ht : dict) (it : dictIterator V) : Prop := -1 <= it_index it <= d_size ht.

Lemma i32_size ht : sound ht -> i32 (d_size ht) = d_size ht.
Proof.
  intros Hs. apply wrap_s_small; [lia|]. change (2 ^ (32 - 1)) with (2 ^ 31).
  destruct (so_size ht Hs) as [->|(k & Hk & -> & _)]; [lia|]. pose proof (Z.pow_le_mono_r 2 k 30). pose proof (Z.pow_pos_nonneg 2 k). lia.
Qed.

Lemma dictNext_spec fuel ht it :
  sound ht -> it_ok ht it -> d_size ht - it_index it + 1 < Z.of_nat fuel ->
  match to_come ht it with
  | [] => exists it', dictNext fuel ht it = Some (None, it')
  | e :: l => exists it', dictNext fuel ht it = Some (Some e, it') /\ it_ok ht it' /\ to_come ht it' = l
  end.
Proof.
  intros Hs. unfold it_ok. pose proof (i32_size ht Hs) as E32. pose proof (so_length ht Hs) as Hl.
  assert (forall fuel i nx, -1 <= i <= d_size ht -> d_size ht - i < Z.of_nat fuel ->
    match concat (drop (Z.to_nat (i + 1)) (d_table ht)) with
    | [] => exists it', dictNext fuel ht (mk_iterator i [] nx) = Some (None, it')
    | e :: l => exists it', dictNext fuel ht (mk_iterator i [] nx) = Some (Some e, it') /\ -1 <= it_index it' <= d_size ht /\ to_come ht it' = l
    end) as Hscan.
  { clear fuel it. induction fuel as [|fuel IH]; intros i nx Hi Hf; [lia|]. cbn [dictNext it_entry it_index it_next]. rewrite E32.
    destruct (Z.leb_spec (d_size ht) (i + 1)) as [Hend|Hin].
    - rewrite drop_ge by lia. by eexists.
    - pose proof (chain_lookup ht (i + 1) Hl ltac:(lia)) as Hc. rewrite (drop_S _ _ _ Hc). cbn [concat].
      destruct (chain (d_table ht) (i + 1)) as [|e l]; cbn [app].
      + specialize (IH (i + 1) nx ltac:(lia) ltac:(lia)).
        replace (Z.to_nat (i + 1 + 1)) with (S (Z.to_nat (i + 1))) in IH by lia. exact IH.
      + eexists. split; [done|]. cbn [it_index]. split; [lia|]. unfold to_come. cbn [it_entry it_next it_index].
        by replace (Z.to_nat (i + 1 + 1)) with (S (Z.to_nat (i + 1))) by lia. }
  intros Hi Hf. destruct it as [i cur nx]. cbn [it_index] in *. unfold to_come at 1. cbn [it_index it_entry it_next].
  destruct cur as [|c cur]; cbn [app]; [by apply Hscan; [|lia]|].
  destruct fuel as [|fuel]; [lia|]. cbn [dictNext it_entry it_next it_index]. destruct nx as [|e l]; cbn [app].
  - apply Hscan; lia.
  - eexists. split; [done|]. by split.
Qed.

Lemma iterate_spec turns ht it :
  sound ht -> it_ok ht it -> (length (to_come ht it) < turns)%nat -> iterate turns ht it = Some (to_come ht it).
Proof.
  intros Hs. revert it. induction turns as [|turns IH]; intros it Hi Ht; [lia|]. cbn [iterate].
  pose proof (so_length ht Hs) as Hl. unfold it_ok in Hi.
  pose proof (dictNext_spec (length (d_table ht) + 3) ht it Hs Hi ltac:(lia)) as Hn.
  destruct (to_come ht it) as [|e l].
  - by destruct Hn as [it' ->].
  - destruct Hn as (it' & -> & Hi' & E). cbn [mbind option_bind length] in *. rewrite IH, E by (rewrite ?E; done || lia). done.
Qed.

Lemma perform_all_spec l ht :
  sound ht -> d_used ht + Z.of_nat (length l) < 2 ^ 30 ->
  exists r ht', perform_all l ht = Some (r, ht') /\ sound ht' /\ steps l (abstract ht) r (abstract ht').
Proof.
  revert ht. induction l as [|o l IH]; intros ht Hs Hu; cbn [perform_all length] in *.
  - exists [], ht. split_and!; try done. constructor.
  - assert (exists a h1, perform o ht = Some (a, h1) /\ sound h1 /\ d_used h1 <= d_used ht + 1 /\
      step o (abstract ht) a (abstract h1)) as (a & h1 & -> & Hs1 & Hu1 & Hstep).
    { destruct o as [key|mem key val|key]; cbn [perform].
      - eexists _, ht. split; [done|]. split; [done|]. split; [lia|]. rewrite (dictFind_spec ht key Hs). constructor.
      - destruct (dictReplace_spec mem ht key val Hs ltac:(lia)) as (b & h1 & -> & Hs1 & Hu1 & H). by exists (Changed b), h1.
      - pose proof (dictDelete_spec ht key Hs) as H. destruct (dictDelete ht key) as [b h1].
        exists (Changed b), h1. destruct H as (? & ? & ?). split_and!; try done. lia. }
    cbn [mbind option_bind]. destruct (IH h1 Hs1 ltac:(lia)) as (r & h2 & -> & Hs2 & Hsteps).
    exists (a :: r), h2. split_and!; try done. by econstructor.
Qed.

Lemma create_sound : sound (@dictCreate V).
Proof. split; cbn; try done; first [by left | constructor]. Qed.

(** C23: the hash table of hiredis is a finite map. Whatever lookups, replacements and
    deletions are made on a new dictionary, and whichever of its allocations fail, no
    assertion fails and no index leaves the table; every call answers as it would on a
    map, a replacement is lost only for want of memory, the counter is the number of
    keys, and an iterator sees every entry once. *)
Theorem dict_refines (l : list (operation V)) :
  Z.of_nat (length l) < 2 ^ 30 ->
  exists r ht m, perform_all l dictCreate = Some (r, ht) /\ steps l ∅ r m /\
    d_used ht = Z.of_nat (size m) /\
    exists seen, iterate (S (size m)) ht dictGetIterator = Some seen /\ seen ≡ₚ map_to_list m.
Proof.
  intros Hl. destruct (perform_all_spec l dictCreate create_sound) as (r & ht & E & Hs & Hr); [done|].
  exists r, ht, (abstract ht). split; [done|]. split; [done|].
  assert (map_to_list (abstract ht) ≡ₚ entries ht) as Ep by (apply map_to_list_to_map, Hs).
  assert (size (abstract ht) = length (entries ht)) as En by (by rewrite <-length_map_to_list, Ep).
  split; [by rewrite En, (so_used ht Hs)|]. exists (entries ht). split; [|done].
  assert (to_come ht dictGetIterator = entries ht) as Ec by done. rewrite iterate_spec; [by rewrite Ec|done| |rewrite Ec, En; lia].
  unfold it_ok. pose proof (so_length ht Hs). cbn. lia.
Qed.

End Proofs.

Definition sample_operations : list (operation Z) :=
  let key n := lit "channel:" ++ print_nat n in
  map (fun n => Replace enough_memory (key n) n) (seqZ 0 9) ++
  [Delete (key 3); Replace (mk_memory true false true) (key 3) 7; Find (key 4); Replace enough_memory (key 4) 44; Find (key 4); Find (key 3)].

Lemma dict_refines_witness :
  exists r ht m, perform_all sample_operations dictCreate = Some (r, ht) /\ steps sample_operations ∅ r m /\
    d_used ht = Z.of_nat (size m) /\ d_used ht = 8 /\ d_size ht = 16 /\
    drop 9 r = [Changed true; Changed false; Value (Some (Some 4)); Changed false; Value (Some (Some 44)); Value None].
Proof.
  destruct (dict_refines sample_operations) as (r & ht & m & E & Hs & Hu & _); [done|].
  exists r, ht, m. split; [done|]. split; [done|]. split; [done|]. vm_compute in E. injection E as <- <-. done.
Defined.

End Dict.
