(* ===== verification/Conf.v ===== *)
(** * The configuration file: src/conf.c

    [conf_read] starts from the defaults, loads a JSON object and lets each of its
    keys set a field; the access control lists are built here, with the credentials
    encoded the way a browser will send them and the network as an address and a mask.
    What the process finds around it (environment variables, users and groups) is the
    interface [Host]. Messages on the standard error are values of [diag]; the
    allocations of the file succeed, and the [HAVE_SSL] block is left out. *)
From S2P Require Import Prelude Types Base64 Acl Json JsonLoad World.

Local Open Scope Z_scope.

Module Conf.
Import Base64 Acl Json JsonLoad World.

(** ** The C library *)

Definition isspace (c : byte) : bool :=
  let z := Z_of_byte c in (z =? 32) || ((9 <=? z) && (z <=? 13)).

Fixpoint skip_spaces (s : bytes) : bytes :=
  match s with
  | c :: s' => if isspace c then skip_spaces s' else s
  | [] => []
  end.

(** The digits at the head of a string, in a base up to 16, and what follows. *)
Fixpoint span_base (b : Z) (s : bytes) : list Z * bytes :=
  match s with
  | c :: s' =>
      match digit_val c with
      | Some d => if d <? b then let (ds, r) := span_base b s' in (d :: ds, r) else ([], s)
      | None => ([], s)
      end
  | [] => ([], [])
  end.

(** [atoi]: [strtol] saturates at the range of a [long], and the result is cut to an
    [int]. *)
Definition atoi (s : bytes) : Z :=
  let s := skip_spaces (cstr s) in
  let (sign, s) :=
    match s with
    | c :: s' => if Byte.eqb c x2d then (-1, s') else if Byte.eqb c x2b then (1, s') else (1, s)
    | [] => (1, s)
    end in
  let v := sign * undigits 10 (span_base 10 s).1 in
  i32 (Z.max (- 2 ^ 63) (Z.min (2 ^ 63 - 1) v)).

(** The base of a number of an internet address, and its digits: [strtoul] in base 0. *)
Definition inet_base (s : bytes) : Z * bytes :=
  match s with
  | c :: s' =>
      if Byte.eqb c x30 then
        match s' with
        | x :: ((h :: _) as s'') => if Byte.eqb (tolower x) x78 && isxdigit h then (16, s'') else (8, s)
        | _ => (8, s)
        end
      else (10, s)
  | [] => (10, s)
  end.

Definition inet_number (s : bytes) : option (Z * bytes) :=
  match s with
  | c :: _ =>
      if negb (isdigit c) then None
      else
        let (b, s) := inet_base s in
        let (ds, r) := span_base b s in
        if 0xffffffff <? undigits b ds then None else Some (undigits b ds, r)
  | [] => None
  end.

(** The parts of an address, [acc] holding those already read and [left] how many may
    still follow this one: the last part fills what remains of the 32 bits. *)
Fixpoint inet_parts (left : nat) (acc : Z) (s : bytes) : option Z :=
  '(v, r) ← inet_number s;
  let last := if v <? 256 ^ (Z.of_nat left + 1) then Some (acc * 256 ^ (Z.of_nat left + 1) + v) else None in
  match r with
  | c :: r' =>
      if Byte.eqb c x2e then
        match left with
        | S left' => if 0xff <? v then None else inet_parts left' (acc * 256 + v) r'
        | O => None
        end
      else if isspace c then last else None
  | [] => last
  end.

(** [ntohl(inet_addr(s))]: [INADDR_NONE] when the text is no address. *)
Definition inet_addr (s : bytes) : Z := default 0xffffffff (inet_parts 3 0 (cstr s)).

(** ** What surrounds the process *)

Inductive lookup_result :=
| Found (id : Z)
| LookupFailed
| Unknown.

Class Host := {
  getenv : bytes -> option bytes;
  getpwnam : bytes -> lookup_result;
  getgrnam : bytes -> lookup_result;
  getuid : Z;
  getgid : Z }.

(** ** Messages and ends *)

Inductive auth_error := NotStringOrArray | NotTwoValues (n : nat) | NotStrings.

Inductive diag :=
| BadFile
| NoEnvVar (name : bytes)
| AuthError (e : auth_error)
| NoUser (name : bytes) (failed : bool)
| NoGroup (name : bytes) (failed : bool)
| BadLogFsync
| BadVerbosity (v : Z)
| UnknownHiredisKey (key : bytes)
| UnexpectedKey (key : bytes).

(** The end of the process, or of its defined behaviour. *)
Inductive stop :=
| ExitFailure
| NegativeShift
| HeapOverflow.

(** Computations write messages and may stop. *)
Definition C (A : Type) : Type := list diag * (stop + A).

#[global] Instance C_ret : MRet C := fun A a => ([], inr a).
#[global] Instance C_bind : MBind C := fun A B f m =>
  match m with
  | (d, inl e) => (d, inl e)
  | (d, inr a) => (d ++ (f a).1, (f a).2)
  end.

Definition say (d : diag) : C unit := ([d], inr ()).
Definition stop_with {A} (e : stop) : C A := ([], inl e).

(** ** conf.c *)

Section Code.
Context `{Host}.

Definition conf_str_allcaps (s : bytes) : bool := forallb (fun c => Byte.eqb c (toupper c)) s.

Definition conf_string_or_envvar (val : bytes) : C bytes :=
  let val := cstr val in
  match val with
  | c :: ((_ :: _) as name) =>
      if Byte.eqb c x24 && conf_str_allcaps name then
        match getenv name with
        | Some v => mret (cstr v)
        | None => say (NoEnvVar name);; mret val
        end
      else mret val
  | _ => mret val
  end.

Definition atoi_free (s : bytes) : Z := atoi s.
Definition is_true_free (s : bytes) : bool := strcasecmp_eq s (lit "true").

Definition conf_auth_legacy (password : bytes) : option auth := Some (mk_auth true None (Some password)).

Definition conf_auth_username_password (jarray : list json) : C (option auth) :=
  match jarray with
  | [JString u; JString p] =>
      username ← conf_string_or_envvar u;
      password ← conf_string_or_envvar p;
      mret (Some (mk_auth false (Some username) (Some password)))
  | [_; _] => say (AuthError NotStrings);; mret None
  | _ => say (AuthError (NotTwoValues (length jarray)));; mret None
  end.

(** The strings of an array; elements of other types are skipped. *)
Fixpoint acl_read_commands (jlist : list json) : C (list bytes) :=
  match jlist with
  | [] => mret []
  | JString s :: rest =>
      c ← conf_string_or_envvar s;
      cs ← acl_read_commands rest;
      mret (c :: cs)
  | _ :: rest => acl_read_commands rest
  end.

(** The value of a key; nothing for a value that is not an object. *)
Fixpoint hashtable_get {V} (l : list (bytes * V)) (key : bytes) : option V :=
  match l with
  | [] => None
  | (k, v) :: l' => if bytes_eqb k key then Some v else hashtable_get l' key
  end.

Definition json_object_get (j : json) (key : bytes) : option json :=
  match j with
  | JObject l => hashtable_get l key
  | _ => None
  end.

(** The network of a list; [mask_bits] is an [unsigned short], and a shift of a 32-bit
    integer by a negative amount is undefined. *)
Definition conf_parse_cidr (s : bytes) (a : acl) : C acl :=
  let '(ip, mask_bits) :=
    match memchr x2f (length s) s with
    | None => (s, 0)
    | Some p => (take p s, u16 (atoi (drop (p + 1) s)))
    end in
  if 32 <? mask_bits then stop_with NegativeShift
  else
    let mask := if mask_bits =? 0 then 0xffffffff else u32 (Z.shiftl 0xffffffff (32 - mask_bits)) in
    mret (set_acl_cidr_subnet (Z.land (inet_addr ip) mask)
            (set_acl_cidr_mask mask (set_acl_cidr_enabled true a))).

(** The credentials of a list, encoded; the buffer has [(plain_len + 8) * 8 / 6]
    bytes, and the encoder writes a line feed behind the last group. *)
Definition conf_parse_basic (plain : bytes) (a : acl) : C acl :=
  let plain_len := Z.of_nat (length plain) in
  let len := (plain_len + 8) * 8 / 6 in
  let (out, b64) := base64_encode_block plain base64_init_encodestate in
  if bool_decide (out = []) then stop_with ExitFailure
  else
    let end_ := base64_encode_blockend b64 in
    if len <? Z.of_nat (length (out ++ end_)) then stop_with HeapOverflow
    else
      let end_ := match memchr x0a (length end_) end_ with Some p => take p end_ | None => end_ end in
      mret (set_acl_http_basic_auth (Some (out ++ end_)) a).

Definition conf_parse_acl (j : json) : C acl :=
  let a := mk_acl false 0 0 None [] [] in
  a ← match json_object_get j (lit "ip") with
      | Some (JString s) => s ← conf_string_or_envvar s; conf_parse_cidr s a
      | _ => mret a
      end;
  a ← match json_object_get j (lit "http_basic_auth") with
      | Some (JString s) => plain ← conf_string_or_envvar s; conf_parse_basic plain a
      | _ => mret a
      end;
  a ← match json_object_get j (lit "enabled") with
      | Some (JArray l) => cs ← acl_read_commands l; mret (set_acl_enabled cs a)
      | _ => mret a
      end;
  match json_object_get j (lit "disabled") with
  | Some (JArray l) => cs ← acl_read_commands l; mret (set_acl_disabled cs a)
  | _ => mret a
  end.

Fixpoint conf_parse_acls (jtab : list json) : C (list acl) :=
  match jtab with
  | [] => mret []
  | val :: rest =>
      tmp ← conf_parse_acl val;
      next ← conf_parse_acls rest;
      mret (tmp :: next)
  end.

Fixpoint conf_parse_hiredis (conf : conf) (jhiredis : list (bytes * json)) : C Types.conf :=
  match jhiredis with
  | [] => mret conf
  | (key, v) :: rest =>
      conf ← (if strcmp_eq key (lit "keep_alive_sec") then
                match v with
                | JInteger n => mret (set_cfg_hiredis_keep_alive_sec (i32 n) conf)
                | _ => say (UnknownHiredisKey key);; mret conf
                end
              else say (UnknownHiredisKey key);; mret conf);
      conf_parse_hiredis conf rest
  end.

(** An option that is an integer or a string, perhaps the name of an environment
    variable, read as one. *)
Definition int_option (v : json) (set : Z -> conf -> conf) (other : C conf) (x : conf) : C conf :=
  match v with
  | JInteger n => mret (set n x)
  | JString s => t ← conf_string_or_envvar s; mret (set (atoi_free t) x)
  | _ => other
  end.

Definition bool_option (v : json) (set : bool -> conf -> conf) (other : C conf) (x : conf) : C conf :=
  match v with
  | JTrue => mret (set true x)
  | JFalse => mret (set false x)
  | JString s => t ← conf_string_or_envvar s; mret (set (is_true_free t) x)
  | _ => other
  end.

Definition string_option (v : json) (set : bytes -> conf -> conf) (other : C conf) (x : conf) : C conf :=
  match v with
  | JString s => t ← conf_string_or_envvar s; mret (set t x)
  | _ => other
  end.

(** The body of the loop over the keys. A key with a value of a type it does not take
    falls through to the last branch. *)
Definition conf_key (key : bytes) (v : json) (x : conf) : C conf :=
  let named k := strcmp_eq key (lit k) in
  let other := (say (UnexpectedKey key);; mret x) : C conf in
  if named "redis_host"%string then string_option v set_cfg_redis_host other x
  else if named "redis_port"%string then int_option v (fun n => set_cfg_redis_port (i32 n)) other x
  else if named "redis_auth"%string then
    match v with
    | JString s => t ← conf_string_or_envvar s; mret (set_cfg_redis_auth (conf_auth_legacy t) x)
    | JArray l => a ← conf_auth_username_password l; mret (set_cfg_redis_auth a x)
    | JNull => mret x
    | _ => say (AuthError NotStringOrArray);; mret x
    end
  else if named "http_host"%string then string_option v set_cfg_http_host other x
  else if named "http_port"%string then int_option v (fun n => set_cfg_http_port (i32 n)) other x
  else if named "http_max_request_size"%string then
    int_option v (fun n => set_cfg_http_max_request_size (u64 n)) other x
  else if named "threads"%string then int_option v (fun n => set_cfg_http_threads (i32 n)) other x
  else if named "acl"%string then
    match v with
    | JArray l => perms ← conf_parse_acls l; mret (set_cfg_perms perms x)
    | _ => other
    end
  else if named "user"%string then
    match v with
    | JString s =>
        username ← conf_string_or_envvar s;
        match getpwnam username with
        | Found u => mret (set_cfg_user u x)
        | LookupFailed => say (NoUser username true);; mret x
        | Unknown => say (NoUser username false);; mret x
        end
    | _ => other
    end
  else if named "group"%string then
    match v with
    | JString s =>
        groupname ← conf_string_or_envvar s;
        match getgrnam groupname with
        | Found g => mret (set_cfg_group g x)
        | LookupFailed => say (NoGroup groupname true);; mret x
        | Unknown => say (NoGroup groupname false);; mret x
        end
    | _ => other
    end
  else if named "logfile"%string then string_option v set_cfg_logfile other x
  else if named "log_fsync"%string then
    match v with
    | JString s =>
        if strcmp_eq s (lit "auto") then mret (set_cfg_log_fsync_mode LOG_FSYNC_AUTO x)
        else if strcmp_eq s (lit "all") then mret (set_cfg_log_fsync_mode LOG_FSYNC_ALL x)
        else say BadLogFsync;; mret x
    | JInteger n =>
        if 0 <? n then
          mret (set_cfg_log_fsync_period_millis (i32 n) (set_cfg_log_fsync_mode LOG_FSYNC_MILLIS x))
        else say BadLogFsync;; mret x
    | JNull => mret x
    | _ => say BadLogFsync;; mret x
    end
  else if named "verbosity"%string then
    match v with
    | JInteger n =>
        let tmp := i32 n in
        (if (tmp <? 0) || (WEBDIS_TRACE <? tmp) then say (BadVerbosity tmp) else mret ());;
        mret (set_cfg_verbosity
                (if tmp <? 0 then WEBDIS_ERROR else if WEBDIS_TRACE <? tmp then WEBDIS_TRACE else tmp) x)
    | _ => other
    end
  else if named "daemonize"%string then bool_option v set_cfg_daemonize other x
  else if named "pidfile"%string then string_option v set_cfg_pidfile other x
  else if named "websockets"%string then bool_option v set_cfg_websockets other x
  else if named "database"%string then int_option v (fun n => set_cfg_database (i32 n)) other x
  else if named "pool_size"%string then int_option v (fun n => set_cfg_pool_size_per_thread (i32 n)) other x
  else if named "default_root"%string then string_option v (fun s => set_cfg_default_root (Some s)) other x
  else if named "hiredis"%string then
    match v with
    | JObject l => conf_parse_hiredis x l
    | _ => other
    end
  else other.

Fixpoint conf_keys (l : list (bytes * json)) (x : conf) : C conf :=
  match l with
  | [] => mret x
  | (key, v) :: rest => x ← conf_key key v x; conf_keys rest x
  end.

(** [json_load_file(filename, 0, &error)]; [file] is the content, nothing when the
    file cannot be opened. *)
Definition json_load_file (file : option bytes) : option json :=
  text ← file; parse_json 0 (mk_stream [] text STREAM_STATE_OK).

Definition conf_read (file : option bytes) : C conf :=
  let conf := conf_defaults getuid getgid in
  match json_load_file file with
  | None => say BadFile;; mret conf
  | Some (JObject l) => conf_keys l conf
  | Some _ => mret conf
  end.

End Code.

(** ** Numbers and addresses *)

Lemma span_base_digits b ds rest :
  b <= 16 -> Forall (fun d => 0 <= d < b) ds ->
  (forall c, head rest = Some c -> digit_val c = None) ->
  span_base b (map digit_char ds ++ rest) = (ds, rest).
Proof.
  intros Hb Hds Hr. induction Hds as [|d ds Hd _ IH]; cbn [map app].
  - destruct rest as [|c rest]; [done|]. cbn [span_base]. by rewrite (Hr c).
  - cbn [span_base]. rewrite digit_val_char by lia. rewrite (proj2 (Z.ltb_lt _ _)) by lia. by rewrite IH.
Qed.

Lemma span_print_nat n rest :
  0 <= n -> (forall c, head rest = Some c -> digit_val c = None) ->
  span_base 10 (print_nat n ++ rest) = (digits 10 n, rest).
Proof. intros Hn Hr. apply span_base_digits; [lia|by apply digits_range|done]. Qed.

Lemma print_nat_cons n : 0 <= n -> exists c l, print_nat n = c :: l /\ isdigit c = true.
Proof.
  intros Hn. pose proof (print_nat_nonneg_digits n Hn) as H. pose proof (digits_nonempty 10 n) as Hne.
  unfold print_nat in *. destruct (digits 10 n) as [|d ds]; [done|]. cbn [map] in *.
  apply Forall_cons in H as [H _]. eauto.
Qed.

Lemma isdigit_plain c :
  isdigit c = true -> isspace c = false /\ c <> x2d /\ c <> x2b /\ c <> x2e /\ c <> x2f /\ c <> x24 /\ c <> x00.
Proof.
  intros H. assert (implb (isdigit c) (bool_decide (isspace c = false /\ c <> x2d /\ c <> x2b /\ c <> x2e /\
    c <> x2f /\ c <> x24 /\ c <> x00)) = true) as Hc.
  { clear H. revert c. apply forall_byte. vm_compute. reflexivity. }
  rewrite H in Hc. by apply bool_decide_eq_true in Hc.
Qed.

Lemma digits_not_in n c : 0 <= n -> isdigit c = false -> c ∉ print_nat n.
Proof.
  intros Hn Hc Hin. pose proof (print_nat_nonneg_digits n Hn) as H.
  rewrite Forall_forall in H. apply H in Hin. congruence.
Qed.

Lemma atoi_prefix n rest :
  0 <= n < 2 ^ 31 -> (forall c, head (cstr rest) = Some c -> digit_val c = None) -> atoi (print_nat n ++ rest) = n.
Proof.
  intros Hn Hr. unfold atoi. rewrite cstr_app by (apply digits_not_in; [lia|done]).
  destruct (print_nat_cons n) as (c & l & E & Hc); [lia|].
  destruct (isdigit_plain c Hc) as (Hs & Hm & Hp & _).
  assert (skip_spaces (print_nat n ++ cstr rest) = print_nat n ++ cstr rest) as -> by (rewrite E; cbn; by rewrite Hs).
  pose proof (span_print_nat n (cstr rest) ltac:(lia) Hr) as Hd. rewrite E in *. cbn [app] in *.
  apply byte_eqb_neq in Hm, Hp. rewrite Hm, Hp, Hd. cbn [fst].
  rewrite undigits_digits by lia. rewrite Z.mul_1_l, Z.max_r, Z.min_r by lia.
  apply wrap_s_small; lia.
Qed.

Lemma atoi_print n : 0 <= n < 2 ^ 31 -> atoi (print_nat n) = n.
Proof. intros Hn. rewrite <-(app_nil_r (print_nat n)). by apply atoi_prefix. Qed.

Lemma inet_number_print v rest :
  0 <= v <= 255 -> (forall c, head rest = Some c -> digit_val c = None /\ tolower c <> x78) ->
  inet_number (print_nat v ++ rest) = Some (v, rest).
Proof.
  intros Hv Hrest.
  assert (forall c, head rest = Some c -> digit_val c = None) as Hd by (intros c Hc; by apply Hrest).
  pose proof (span_print_nat v rest ltac:(lia) Hd) as Hs.
  destruct (Z.eq_dec v 0) as [->|Hne].
  { change (print_nat 0) with [x30] in *. cbn [app] in *.
    assert (inet_base (x30 :: rest) = (8, x30 :: rest)) as Eb.
    { unfold inet_base. cbn [Byte.eqb]. destruct rest as [|x [|h r]]; try done.
      destruct (Hrest x eq_refl) as [_ Hx]. apply byte_eqb_neq in Hx. by rewrite byte_eqb_refl, Hx. }
    unfold inet_number. rewrite Eb. change (isdigit x30) with true. cbn [negb].
    pose proof (span_base_digits 8 [0] rest ltac:(lia) ltac:(repeat constructor; lia) Hd) as E0.
    change (map digit_char [0] ++ rest) with (x30 :: rest) in E0. by rewrite E0. }
  destruct (digits_head v) as (d & ds & E & Hd0); [lia|].
  assert (isdigit (digit_char d) = true /\ Byte.eqb (digit_char d) x30 = false) as [H1 H2].
  { apply (bool_decide_eq_true (isdigit (digit_char d) = true /\ Byte.eqb (digit_char d) x30 = false)).
    pose proof (forall_below 10 (fun d => bool_decide (d = 0) || bool_decide
      (isdigit (digit_char d) = true /\ Byte.eqb (digit_char d) x30 = false)) eq_refl d ltac:(lia)) as Hb0.
    cbv beta in Hb0. rewrite bool_decide_eq_false_2 in Hb0 by lia. done. }
  unfold inet_number, inet_base. unfold print_nat in *. rewrite E in *. cbn [map app] in *.
  rewrite H1, H2. cbn [negb]. rewrite Hs. rewrite <-E, undigits_digits by lia.
  by rewrite (proj2 (Z.ltb_ge _ _)) by lia.
Qed.

Lemma inet_part v left acc rest :
  0 <= v <= 255 ->
  inet_parts (S left) acc (print_nat v ++ x2e :: rest) = inet_parts left (acc * 256 + v) rest.
Proof.
  intros Hv. cbn [inet_parts]. rewrite inet_number_print; [|lia|by intros c [= <-]].
  cbn [mbind option_bind]. by rewrite (proj2 (Z.ltb_ge 255 v)) by lia.
Qed.

Lemma inet_last v acc : 0 <= v <= 255 -> inet_parts 0 acc (print_nat v) = Some (acc * 256 + v).
Proof.
  intros Hv. rewrite <-(app_nil_r (print_nat v)). cbn [inet_parts]. rewrite inet_number_print; [|lia|done].
  cbn [mbind option_bind]. change (256 ^ (Z.of_nat 0 + 1)) with 256. by rewrite (proj2 (Z.ltb_lt v 256)) by lia.
Qed.

(** ** Networks *)

Record network := mk_network {
  net_a : Z;
  net_b : Z;
  net_c : Z;
  net_d : Z;
  net_bits : Z }.

Definition network_ok (n : network) : Prop :=
  Forall (fun v => 0 <= v <= 255) [net_a n; net_b n; net_c n; net_d n] /\ 1 <= net_bits n <= 32.

Definition address_text (n : network) : bytes :=
  print_nat (net_a n) ++ x2e :: print_nat (net_b n) ++ x2e :: print_nat (net_c n) ++ x2e :: print_nat (net_d n).

Definition network_text (n : network) : bytes := address_text n ++ x2f :: print_nat (net_bits n).

Definition network_address (n : network) : Z :=
  ((net_a n * 256 + net_b n) * 256 + net_c n) * 256 + net_d n.

(** The first [net_bits] bits of an address are those of the network. *)
Definition in_network (n : network) (ip : Z) : Prop :=
  Z.shiftr ip (32 - net_bits n) = Z.shiftr (network_address n) (32 - net_bits n).

Definition network_mask (n : network) : Z := u32 (Z.shiftl 0xffffffff (32 - net_bits n)).

Lemma address_no c n :
  network_ok n -> isdigit c = false -> c <> x2e -> c ∉ address_text n.
Proof.
  intros [Hf _] Hd He. rewrite !Forall_cons in Hf. destruct Hf as (? & ? & ? & ? & _).
  unfold address_text. repeat rewrite ?elem_of_app, ?elem_of_cons. intros Hin.
  destruct_or? Hin; try done; by apply (digits_not_in _ c) in Hin; try lia.
Qed.

Lemma inet_addr_text n : network_ok n -> inet_addr (address_text n) = network_address n.
Proof.
  intros Hn. unfold inet_addr. rewrite cstr_id by (by apply address_no).
  destruct Hn as [Hf _]. rewrite !Forall_cons in Hf. destruct Hf as (? & ? & ? & ? & _).
  unfold address_text. rewrite !inet_part, inet_last by done. cbn [default from_option]. unfold network_address. done.
Qed.

Lemma conf_parse_cidr_text n a :
  network_ok n ->
  conf_parse_cidr (network_text n) a =
  mret (set_acl_cidr_subnet (Z.land (network_address n) (network_mask n))
          (set_acl_cidr_mask (network_mask n) (set_acl_cidr_enabled true a))).
Proof.
  intros Hn. unfold conf_parse_cidr, network_text at 1 2.
  rewrite memchr_app_here; [|by apply address_no|rewrite length_app; cbn; lia].
  unfold network_text. rewrite take_app_length, drop_app_ge, (Nat.add_comm _ 1), Nat.add_sub by lia.
  change (drop 1 (x2f :: ?l)) with l.
  pose proof Hn as [_ Hb]. rewrite atoi_print by lia. rewrite wrap_u_small by lia.
  rewrite (proj2 (Z.ltb_ge _ _)), (proj2 (Z.eqb_neq _ _)) by lia. by rewrite inet_addr_text.
Qed.

Lemma mask_ones k : 0 <= k <= 32 -> u32 (Z.shiftl 0xffffffff k) = Z.shiftl (Z.ones (32 - k)) k.
Proof.
  intros Hk. change 0xffffffff with (Z.ones 32). unfold wrap_u. apply Z.bits_inj'. intros i Hi.
  rewrite <-Z.land_ones, Z.land_spec by lia.
  destruct (Z.lt_ge_cases i k); [by rewrite !Z.shiftl_spec_low by lia|].
  rewrite !Z.shiftl_spec by lia.
  destruct (Z.lt_ge_cases i 32); [by rewrite !Z.ones_spec_low by lia|].
  by rewrite (Z.ones_spec_high 32 i), andb_false_r, Z.ones_spec_high by lia.
Qed.

Lemma land_mask_shift ip k :
  0 <= k <= 32 -> 0 <= ip < 2 ^ 32 ->
  Z.land ip (u32 (Z.shiftl 0xffffffff k)) = Z.shiftl (Z.shiftr ip k) k.
Proof.
  intros Hk Hip. rewrite mask_ones by done. apply Z.bits_inj'. intros i Hi. rewrite Z.land_spec.
  destruct (Z.lt_ge_cases i k); [by rewrite !Z.shiftl_spec_low, andb_false_r by lia|].
  rewrite !Z.shiftl_spec, Z.shiftr_spec by lia. replace (i - k + k) with i by lia.
  destruct (Z.lt_ge_cases i 32); [by rewrite Z.ones_spec_low, andb_true_r by lia|].
  rewrite Z.ones_spec_high, andb_false_r by lia. symmetry.
  destruct (Z.eq_dec ip 0) as [->|]; [apply Z.bits_0|].
  apply Z.bits_above_log2; [lia|]. assert (Z.log2 ip < 32) by (apply Z.log2_lt_pow2; lia). lia.
Qed.

Lemma shiftl_inj k a b : 0 <= k -> Z.shiftl a k = Z.shiftl b k <-> a = b.
Proof.
  intros Hk. rewrite !Z.shiftl_mul_pow2 by done. split; [|by intros ->].
  apply Z.mul_cancel_r. pose proof (Z.pow_pos_nonneg 2 k). lia.
Qed.

Lemma network_address_range n : network_ok n -> 0 <= network_address n < 2 ^ 32.
Proof.
  intros [Hf _]. rewrite !Forall_cons in Hf. unfold network_address. lia.
Qed.

(** The test of [acl_match_client] on the mask of a network. *)
Lemma network_mask_spec n ip :
  network_ok n -> 0 <= ip < 2 ^ 32 ->
  (Z.land ip (network_mask n) =? Z.land (Z.land (network_address n) (network_mask n)) (network_mask n)) = true <->
  in_network n ip.
Proof.
  intros Hn Hip. rewrite Z.eqb_eq, <-Z.land_assoc, Z.land_diag. pose proof Hn as [_ Hb].
  unfold network_mask, in_network. rewrite !land_mask_shift by (try apply network_address_range; done || lia).
  apply shiftl_inj. lia.
Qed.

(** ** Rules *)

(** A string of the file that stands for itself. *)
Definition literal (s : bytes) : Prop := no_nul s /\ head s <> Some x24.

Section Rules.
Context `{Host}.

Lemma literal_value s : literal s -> conf_string_or_envvar s = mret s.
Proof using.
  intros [Hn Hh]. unfold conf_string_or_envvar. rewrite cstr_id by done.
  destruct s as [|c [|d s]]; try done. assert (c <> x24) as Hc by (intros ->; done).
  apply byte_eqb_neq in Hc. by rewrite Hc.
Qed.

Lemma literal_commands cs : Forall literal cs -> acl_read_commands (map JString cs) = mret cs.
Proof using.
  induction 1 as [|c cs Hc _ IH]; [done|]. cbn [map acl_read_commands].
  by rewrite (literal_value c Hc), IH.
Qed.

(** Credentials shorter than a line of the encoder. *)
Definition credentials_ok (plain : bytes) : Prop :=
  literal plain /\ plain <> [] /\ Z.of_nat (length plain) < 3072.

Lemma encode_block_nonempty c l st : (base64_encode_block (c :: l) st).1 <> [].
Proof using.
  cbn [base64_encode_block]. repeat case_match; done.
Qed.

Lemma blockend_line st : exists e, base64_encode_blockend st = e ++ [x0a] /\ x0a ∉ e.
Proof using.
  unfold base64_encode_blockend. eexists. split; [done|].
  assert (forall v, base64_encode_value v <> x0a) as Hv.
  { intros v. unfold base64_encode_value. destruct (Z.lt_ge_cases v 0); [by destruct v|].
    by apply encode_value_nl. }
  pose proof (Hv (Base64.result st)) as Hr.
  destruct (step st); rewrite ?elem_of_cons, ?elem_of_nil; intros Hin; destruct_or? Hin; done.
Qed.

Lemma conf_parse_basic_plain plain a :
  credentials_ok plain -> conf_parse_basic plain a = mret (set_acl_http_basic_auth (Some (b64 plain)) a).
Proof using.
  intros (_ & Hne & Hl). unfold conf_parse_basic. pose proof (one_line plain Hl) as H1.
  pose proof (length_b64 plain) as H2.
  assert ((base64_encode_block plain base64_init_encodestate).1 <> []) as H3
    by (destruct plain; [done|apply encode_block_nonempty]).
  destruct (base64_encode_block plain _) as [out st]. cbn [fst] in H3.
  rewrite bool_decide_eq_false_2 by done. rewrite H1, length_app. cbn [length].
  rewrite (proj2 (Z.ltb_ge _ _)).
  - destruct (blockend_line st) as (e & E & He). rewrite E in *. rewrite app_assoc in H1.
    apply app_inj_tail in H1 as [<- _].
    rewrite memchr_app_here by (rewrite ?length_app; cbn; lia || done). by rewrite take_app_length.
  - rewrite Nat2Z.inj_add, H2. cbn. Z.div_mod_to_equations. lia.
Qed.

Record rule := mk_rule {
  rule_network : option network;
  rule_credentials : option bytes;
  rule_enabled : list bytes;
  rule_disabled : list bytes }.

Definition rule_ok (r : rule) : Prop :=
  from_option network_ok True (rule_network r) /\ from_option credentials_ok True (rule_credentials r) /\
  Forall literal (rule_enabled r) /\ Forall literal (rule_disabled r).

Definition rule_json (r : rule) : json :=
  JObject (from_option (fun n => [(lit "ip", JString (network_text n))]) [] (rule_network r) ++
           from_option (fun p => [(lit "http_basic_auth", JString p)]) [] (rule_credentials r) ++
           [(lit "enabled", JArray (map JString (rule_enabled r)));
            (lit "disabled", JArray (map JString (rule_disabled r)))]).

(** The list of the running server. *)
Definition rule_acl (r : rule) : acl :=
  mk_acl (bool_decide (is_Some (rule_network r)))
    (from_option (fun n => Z.land (network_address n) (network_mask n)) 0 (rule_network r))
    (from_option network_mask 0 (rule_network r))
    (b64 <$> rule_credentials r) (rule_enabled r) (rule_disabled r).

Lemma network_literal n : network_ok n -> literal (network_text n).
Proof using.
  intros Hn. unfold network_text. split.
  - apply no_nul_app. split; [by apply address_no|]. apply not_elem_of_cons. split; [done|].
    apply digits_not_in; [destruct Hn; lia|done].
  - destruct Hn as [Hf _]. rewrite !Forall_cons in Hf. unfold address_text.
    destruct (print_nat_cons (net_a n)) as (c & l & -> & Hc); [lia|]. intros [= ->].
    by vm_compute in Hc.
Qed.

Lemma rule_keys r :
  json_object_get (rule_json r) (lit "ip") = JString ∘ network_text <$> rule_network r /\
  json_object_get (rule_json r) (lit "http_basic_auth") = JString <$> rule_credentials r /\
  json_object_get (rule_json r) (lit "enabled") = Some (JArray (map JString (rule_enabled r))) /\
  json_object_get (rule_json r) (lit "disabled") = Some (JArray (map JString (rule_disabled r))).
Proof using. destruct r as [[n|] [p|] en dis]; repeat split; reflexivity. Qed.

Lemma conf_parse_acl_rule r : rule_ok r -> conf_parse_acl (rule_json r) = mret (rule_acl r).
Proof using.
  intros (Hn & Hc & He & Hd). unfold conf_parse_acl.
  destruct (rule_keys r) as (-> & -> & -> & ->). rewrite !literal_commands by done. unfold rule_acl.
  destruct (rule_network r) as [n|], (rule_credentials r) as [p|]; cbn [from_option fmap option_fmap option_map compose] in *;
    rewrite ?(literal_value _ (network_literal _ Hn)), ?(literal_value _ (proj1 Hc));
    cbn [mbind C_bind mret C_ret app fst snd];
    rewrite ?conf_parse_cidr_text by done; cbn [mbind C_bind mret C_ret app fst snd];
    rewrite ?conf_parse_basic_plain by done; reflexivity.
Qed.

Lemma conf_parse_acls_rules rs :
  Forall rule_ok rs -> conf_parse_acls (map rule_json rs) = mret (map rule_acl rs).
Proof using.
  induction 1 as [|r rs Hr _ IH]; [done|]. cbn [map conf_parse_acls].
  by rewrite (conf_parse_acl_rule r Hr), IH.
Qed.

(** Whether a header carries the credentials: [Basic], in any case, and their code. *)
Definition presents (client : http_client) (plain : bytes) : Prop :=
  exists v, client_get_header client (lit "Authorization") = Some v /\
    strncasecmp_eq 6 v (lit "Basic ") = true /\ cstr (drop 6 v) = b64 plain.

Lemma some_all {A} (x : option A) (P : A -> Prop) : (forall a, x = Some a -> P a) <-> from_option P True x.
Proof using. destruct x; cbn; naive_solver. Qed.


Definition office : rule :=
  mk_rule (Some (mk_network 192 168 10 0 24)) (Some (lit "user:password")) [lit "DEBUG"] [].

Definition office_client : http_client :=
  set_hc_headers [mk_req_header (lit "authorization") (Some (lit "basic dXNlcjpwYXNzd29yZA=="))] 
    (mk_client 5 0 (mk_parser 0 0 0 0 false) [] 0 LAST_CB_NONE false false false false 0 false
       None [] None None None None None None None None).

(** ** A configuration file *)

(** The documented options of a server. *)
Record settings := mk_settings {
  st_redis_host : bytes;
  st_redis_port : Z;
  st_redis_auth : option (option bytes * bytes);
  st_http_host : bytes;
  st_http_port : Z;
  st_http_max_request_size : Z;
  st_threads : Z;
  st_pool_size : Z;
  st_daemonize : bool;
  st_websockets : bool;
  st_database : Z;
  st_verbosity : Z;
  st_default_root : option bytes;
  st_acl : list rule }.

Definition JBool (b : bool) : json := if b then JTrue else JFalse.

Definition auth_json (a : option bytes * bytes) : json :=
  match a with
  | (None, p) => JString p
  | (Some u, p) => JArray [JString u; JString p]
  end.

Definition settings_keys (s : settings) : list (bytes * json) :=
  [(lit "redis_host", JString (st_redis_host s)); (lit "redis_port", JInteger (st_redis_port s))] ++
    from_option (fun a => [(lit "redis_auth", auth_json a)]) [] (st_redis_auth s) ++
    [(lit "http_host", JString (st_http_host s)); (lit "http_port", JInteger (st_http_port s));
     (lit "http_max_request_size", JInteger (st_http_max_request_size s));
     (lit "threads", JInteger (st_threads s)); (lit "pool_size", JInteger (st_pool_size s));
     (lit "daemonize", JBool (st_daemonize s)); (lit "websockets", JBool (st_websockets s));
     (lit "database", JInteger (st_database s)); (lit "verbosity", JInteger (st_verbosity s));
     (lit "acl", JArray (map rule_json (st_acl s)))] ++
    from_option (fun r => [(lit "default_root", JString r)]) [] (st_default_root s).

Definition settings_json (s : settings) : json := JObject (settings_keys s).

Definition settings_conf (s : settings) : conf :=
  mk_conf (st_redis_host s) (st_redis_port s)
    ((fun a => mk_auth (bool_decide (a.1 = None)) a.1 (Some a.2)) <$> st_redis_auth s)
    (st_http_host s) (st_http_port s) (st_threads s) (st_http_max_request_size s) (st_pool_size s)
    (st_daemonize s) (lit "webdis.pid") (st_websockets s) (st_database s) (map rule_acl (st_acl s))
    getuid getgid (lit "webdis.log") (st_verbosity s) LOG_FSYNC_AUTO 0 0 (st_default_root s).

(** Strings are UTF-8 and stand for themselves, numbers fit their fields. *)
Definition text_ok (s : bytes) : Prop := literal s /\ utf8_check_string s = true.
Definition int_ok (z : Z) : Prop := - 2 ^ 31 <= z < 2 ^ 31.

Definition rule_text_ok (r : rule) : Prop :=
  rule_ok r /\ from_option text_ok True (rule_credentials r) /\
  Forall text_ok (rule_enabled r) /\ Forall text_ok (rule_disabled r).

Definition settings_ok (s : settings) : Prop :=
  text_ok (st_redis_host s) /\ text_ok (st_http_host s) /\
  from_option (fun a : option bytes * bytes => from_option text_ok True a.1 /\ text_ok a.2) True (st_redis_auth s) /\
  from_option text_ok True (st_default_root s) /\
  Forall int_ok [st_redis_port s; st_http_port s; st_threads s; st_pool_size s; st_database s] /\
  0 <= st_http_max_request_size s < 2 ^ 63 /\ 0 <= st_verbosity s <= WEBDIS_TRACE /\
  Forall rule_text_ok (st_acl s).

#[export] Instance from_option_dec {A} (P : A -> Prop) `{!forall a, Decision (P a)} x :
  Decision (from_option P True x).
Proof. destruct x; apply _. Defined.
#[export] Instance literal_dec v : Decision (literal v).
Proof. unfold literal. apply _. Defined.
#[export] Instance text_ok_dec v : Decision (text_ok v).
Proof. unfold text_ok. apply _. Defined.
#[export] Instance rule_text_ok_dec r : Decision (rule_text_ok r).
Proof. unfold rule_text_ok, rule_ok, network_ok, credentials_ok. apply _. Defined.
#[export] Instance settings_ok_dec s : Decision (settings_ok s).
Proof. unfold settings_ok, int_ok. apply _. Defined.

Lemma C_ret_bind {A B} (a : A) (f : A -> C B) : (mret a ≫= f : C B) = f a.
Proof using. unfold mbind, C_bind, mret, C_ret. by destruct (f a). Qed.

Lemma key_step k v rest x x' y :
  conf_key k v x = mret x' -> conf_keys rest x' = y -> conf_keys ((k, v) :: rest) x = y.
Proof using. intros E <-. cbn [conf_keys]. by rewrite E, C_ret_bind. Qed.

Lemma string_step k v (set : bytes -> conf -> conf) rest x y :
  literal v -> conf_key k (JString v) x = (t ← conf_string_or_envvar v; mret (set t x)) ->
  conf_keys rest (set v x) = y -> conf_keys ((k, JString v) :: rest) x = y.
Proof using. intros Hv E. apply key_step. by rewrite E, literal_value, C_ret_bind. Qed.

Lemma int_step k n (set : Z -> conf -> conf) rest x y :
  int_ok n -> conf_key k (JInteger n) x = mret (set (i32 n) x) ->
  conf_keys rest (set n x) = y -> conf_keys ((k, JInteger n) :: rest) x = y.
Proof using. intros Hn E. apply key_step. rewrite E, wrap_s_small; [done|lia|done]. Qed.

Lemma bool_step k b (set : bool -> conf -> conf) rest x y :
  conf_key k JTrue x = mret (set true x) -> conf_key k JFalse x = mret (set false x) ->
  conf_keys rest (set b x) = y -> conf_keys ((k, JBool b) :: rest) x = y.
Proof using. intros Ht Hf. apply key_step. by destruct b. Qed.

Lemma auth_step s rest x y :
  from_option (fun a : option bytes * bytes => from_option text_ok True a.1 /\ text_ok a.2) True (st_redis_auth s) ->
  cfg_redis_auth x = None -> conf_keys rest (set_cfg_redis_auth (cfg_redis_auth (settings_conf s)) x) = y ->
  conf_keys (from_option (fun a => [(lit "redis_auth", auth_json a)]) [] (st_redis_auth s) ++ rest) x = y.
Proof using.
  intros Ha Hx <-. unfold settings_conf. destruct (st_redis_auth s) as [[[u|] p]|]; cbn [from_option fst snd] in *.
  - destruct Ha as [[Hu _] [Hp _]]. eapply key_step; [|done].
    transitivity (a ← conf_auth_username_password [JString u; JString p]; mret (set_cfg_redis_auth a x)); [reflexivity|].
    cbn [conf_auth_username_password]. by rewrite !literal_value.
  - destruct Ha as [_ [Hp _]]. by eapply (string_step _ _ (fun t => set_cfg_redis_auth (conf_auth_legacy t))).
  - destruct x. by cbn in Hx; subst.
Qed.

Lemma root_step s x y :
  from_option text_ok True (st_default_root s) -> cfg_default_root x = None ->
  set_cfg_default_root (st_default_root s) x = y ->
  conf_keys (from_option (fun r => [(lit "default_root", JString r)]) [] (st_default_root s)) x = mret y.
Proof using.
  intros Hr Hx <-. destruct (st_default_root s) as [r|]; cbn [from_option] in *.
  - destruct Hr as [Hr _]. by eapply (string_step _ _ (fun t => set_cfg_default_root (Some t))).
  - destruct x. by cbn in Hx; subst.
Qed.

Lemma verbosity_key n x :
  0 <= n <= WEBDIS_TRACE -> conf_key (lit "verbosity") (JInteger n) x = mret (set_cfg_verbosity n x).
Proof using.
  intros Hn. assert (i32 n = n) as E by (apply wrap_s_small; unfold WEBDIS_TRACE in *; lia).
  transitivity ((if (i32 n <? 0) || (WEBDIS_TRACE <? i32 n) then say (BadVerbosity (i32 n)) else mret ());;
    mret (set_cfg_verbosity
      (if i32 n <? 0 then WEBDIS_ERROR else if WEBDIS_TRACE <? i32 n then WEBDIS_TRACE else i32 n) x) : C conf);
    [reflexivity|].
  by rewrite E, (proj2 (Z.ltb_ge n 0)), (proj2 (Z.ltb_ge _ n)) by lia.
Qed.

Lemma acl_key rs x :
  Forall rule_text_ok rs ->
  conf_key (lit "acl") (JArray (map rule_json rs)) x = mret (set_cfg_perms (map rule_acl rs) x).
Proof using.
  intros Hrs. transitivity (perms ← conf_parse_acls (map rule_json rs); mret (set_cfg_perms perms x)); [reflexivity|].
  rewrite conf_parse_acls_rules; [done|]. eapply Forall_impl; [exact Hrs|]. by intros r [? _].
Qed.

(** The keys of the file set every field, and nothing else. *)
Lemma settings_read s :
  settings_ok s -> conf_keys (settings_keys s) (conf_defaults getuid getgid) = mret (settings_conf s).
Proof using.
  intros ([Hh _] & [Hhh _] & Ha & Hr & Hi & Hm & Hv & Hacl). rewrite !Forall_cons in Hi.
  destruct Hi as (? & ? & ? & ? & ? & _).
  eapply (string_step _ _ set_cfg_redis_host); [done|reflexivity|].
  eapply (int_step _ _ set_cfg_redis_port); [done|reflexivity|].
  apply (auth_step s); [done|done|].
  eapply (string_step _ _ set_cfg_http_host); [done|reflexivity|].
  eapply (int_step _ _ set_cfg_http_port); [done|reflexivity|].
  eapply (key_step _ (JInteger _)); [reflexivity|].
  eapply (int_step _ _ set_cfg_http_threads); [done|reflexivity|].
  eapply (int_step _ _ set_cfg_pool_size_per_thread); [done|reflexivity|].
  eapply (bool_step _ _ set_cfg_daemonize); [reflexivity..|].
  eapply (bool_step _ _ set_cfg_websockets); [reflexivity..|].
  eapply (int_step _ _ set_cfg_database); [done|reflexivity|].
  eapply key_step; [by apply verbosity_key|]. eapply key_step; [by apply acl_key|].
  apply root_step; [done|done|]. unfold settings_conf. unfold conf_defaults.
  rewrite wrap_u_small by lia. reflexivity.
Qed.

Lemma json_ok_string d v : 1 <= d -> text_ok v -> json_ok d (JString v).
Proof using. intros Hd [[Hn _] Hu]. by split. Qed.

Lemma json_ok_strings d l : 2 <= d -> Forall text_ok l -> json_ok d (JArray (map JString l)).
Proof using.
  intros Hd Hl. apply json_ok_array. split; [lia|]. apply Forall_map. eapply Forall_impl; [exact Hl|].
  intros v Hv. apply json_ok_string; [lia|done].
Qed.

Lemma json_ok_int d n : 1 <= d -> - 2 ^ 63 <= n < 2 ^ 63 -> json_ok d (JInteger n).
Proof using. by split. Qed.

Lemma json_ok_bool d b : 1 <= d -> json_ok d (JBool b).
Proof using. by destruct b; split. Qed.

Lemma network_text_ok n : network_ok n -> text_ok (network_text n).
Proof using.
  intros Hn. split; [by apply network_literal|]. apply utf8_check_ascii.
  assert (forall v, 0 <= v -> Forall (fun c => ascii c = true) (print_nat v)) as Hd.
  { intros v Hv. eapply Forall_impl; [by apply print_nat_nonneg_digits|]. intros c. apply isdigit_ascii. }
  destruct Hn as [Hf Hb]. rewrite !Forall_cons in Hf. unfold network_text, address_text.
  repeat first [apply Forall_app_2 | apply Forall_cons_2; [done|]]; apply Hd; lia.
Qed.

Lemma rule_wf r : rule_text_ok r -> json_ok 3 (rule_json r).
Proof using.
  intros ((Hn & _) & Hc & He & Hd). unfold rule_json. apply json_ok_object. split; [lia|].
  destruct (rule_network r) as [n|], (rule_credentials r) as [p|]; cbn [from_option app] in *;
    (split; [by_decide|]); repeat apply Forall_cons_2; try apply Forall_nil_2; (split; [by_decide|]); cbn [snd];
    first [apply json_ok_strings; [lia|done] | apply json_ok_string; [lia|by try apply network_text_ok]].
Qed.

Lemma settings_wf s : settings_ok s -> json_ok 5 (settings_json s).
Proof using.
  intros (Hh & Hhh & Ha & Hr & Hi & Hm & Hv & Hacl). rewrite !Forall_cons in Hi. unfold int_ok, WEBDIS_TRACE in *.
  assert (json_ok 4 (JArray (map rule_json (st_acl s)))) as Hrules.
  { apply json_ok_array. split; [lia|]. apply Forall_map. eapply Forall_impl; [exact Hacl|]. apply rule_wf. }
  assert (forall a : option bytes * bytes, from_option text_ok True a.1 /\ text_ok a.2 -> json_ok 4 (auth_json a)) as Hauth.
  { intros [[u|] p]; cbn; intros [? ?]; [|apply json_ok_string; [lia|done]].
    apply (json_ok_strings 4 [u; p]); [lia|]. repeat (apply Forall_cons_2; [done|]). apply Forall_nil_2. }
  unfold settings_json, settings_keys. apply json_ok_object. split; [lia|].
  destruct (st_redis_auth s) as [a|], (st_default_root s) as [r|]; cbn [from_option app] in *;
    (split; [by_decide|]); repeat apply Forall_cons_2; try apply Forall_nil_2; (split; [by_decide|]); cbn [snd];
    first [apply json_ok_bool; lia | apply json_ok_int; lia | apply json_ok_string; [lia|done] | done | by apply Hauth].
Qed.

(** C16: a configuration file written from a list of options, as JSON text, is read
    back as the configuration with these options and the defaults for the rest,
    without a message. *)
Theorem conf_read_settings (s : settings) :
  settings_ok s ->
  exists t, json_dumps (settings_json s) = Some t /\ conf_read (Some t) = ([], inr (settings_conf s)).
Proof using.
  intros Hs. destruct (settings_wf s Hs) as [Hw Hd].
  destruct (dump_load (settings_json s) 0) as (t & Ht & Hl); [done|done|unfold JSON_PARSER_MAX_DEPTH; lia|].
  exists t. split; [done|]. rewrite as_read_id in Hl by done. unfold json_loads in Hl.
  rewrite cstr_id in Hl by (by eapply json_dumps_no_nul). unfold conf_read, json_load_file.
  cbn [mbind option_bind]. rewrite Hl. exact (settings_read s Hs).
Qed.

Definition sample_settings : settings :=
  mk_settings (lit "redis.internal") 6380 (Some (Some (lit "webdis"), lit "secret")) (lit "0.0.0.0") 8080 1024 2 3
    true false 7 4 None [office; mk_rule None None [lit "GET"] [lit "*"]].

(** ** What the file does not say *)

(** A network of no bits gets the mask of a single address, and one of more than 32
    bits shifts by a negative amount. *)
Example cidr_zero_bits :
  (conf_parse_acl (JObject [(lit "ip", JString (lit "0.0.0.0/0"))])).2 =
    inr (mk_acl true 0 0xffffffff None [] []) /\
  (conf_parse_acl (JObject [(lit "ip", JString (lit "10.0.0.0/33"))])).2 = inl NegativeShift.
Proof using. vm_compute. done. Qed.

(** An address that cannot be read is the broadcast address. *)
Example cidr_no_address :
  (conf_parse_acl (JObject [(lit "ip", JString (lit "localhost"))])).2 =
    inr (mk_acl true 0xffffffff 0xffffffff None [] []).
Proof using. vm_compute. done. Qed.

End Rules.

(** ** A host *)

(** Without environment variables, users and groups. *)
#[local] Instance bare_host : Host := {|
  getenv := fun _ => None; getpwnam := fun _ => Unknown; getgrnam := fun _ => Unknown; getuid := 1000; getgid := 1000 |}.


Lemma conf_read_settings_witness :
  exists t, json_dumps (settings_json sample_settings) = Some t /\
    conf_read (Some t) = ([], inr (settings_conf sample_settings)).
Proof. apply conf_read_settings. by_decide. Defined.

End Conf.
