(* ===== verification/Hashtable.v ===== *)
(** * The hash tables of jansson: hashtable.c and lookup3.h

    The members of a JSON object. A pair of a key and a value is a node of two circular
    doubly linked lists, whose heads are in the table: [ordered_list] keeps the order in
    which the keys were added, in [list] the pairs of a bucket stand next to each other,
    and a bucket points to the first and the last of them. The links are pointers in a
    memory, so that a dangling or uninitialised one is a fault ([None]). The other files
    take an object as the list of its members ([Json.hashtable_set],
    [Conf.hashtable_get]); the theorem is that the tables behave like these lists. *)
From S2P Require Import Prelude Types Json Conf.

Local Open Scope Z_scope.

Module Hashtable.
Import Json.

(** ** The hash function (lookup3.h) *)

Definition rot (x k : Z) : Z := Z.lor (u32 (Z.shiftl x k)) (Z.shiftr x (32 - k)).

Definition mix_step (k : Z) (a b c : Z) : Z * Z * Z :=
  let a := u32 (a - c) in
  let a := Z.lxor a (rot c k) in
  (a, b, u32 (c + b)).

Definition mix (a b c : Z) : Z * Z * Z :=
  let '(a, b, c) := mix_step 4 a b c in
  let '(b, c, a) := mix_step 6 b c a in
  let '(c, a, b) := mix_step 8 c a b in
  let '(a, b, c) := mix_step 16 a b c in
  let '(b, c, a) := mix_step 19 b c a in
  let '(c, a, b) := mix_step 4 c a b in
  (a, b, c).

Definition final_step (k : Z) (x y : Z) : Z := u32 (Z.lxor x y - rot y k).

Definition final (a b c : Z) : Z :=
  let c := final_step 14 c b in
  let a := final_step 11 a c in
  let b := final_step 25 b a in
  let c := final_step 16 c b in
  let a := final_step 4 a c in
  let b := final_step 14 b a in
  final_step 24 c b.

Definition Z_at (l : bytes) (i : nat) : Z := Z_of_byte (nth i l x00).

(** A word of the key, of which [l] is left. Where words can be read, a key that is aligned
    to 4 bytes is read by words, the last of which is masked ([beyond] is what the memory
    holds behind the key), or, for the tools that watch the memory, read byte by byte; a
    key that is aligned to 2 bytes is read by halves; all others are read byte by byte. *)
Definition word4 (beyond : bytes) (l : bytes) : Z :=
  let k := le_value (take 4 (l ++ beyond)) in
  match length l with
  | O => 0
  | 1%nat => Z.land k 0xff
  | 2%nat => Z.land k 0xffff
  | 3%nat => Z.land k 0xffffff
  | _ => k
  end.

Definition half (l : bytes) (i : nat) : Z := le_value (take 2 (drop (2 * i) l)).

Definition word2 (l : bytes) : Z :=
  match length l with
  | O => 0
  | 1%nat => Z_at l 0
  | 2%nat => half l 0
  | 3%nat => Z.shiftl (Z_at l 2) 16 + half l 0
  | _ => half l 0 + Z.shiftl (half l 1) 16
  end.

Definition word1 (l : bytes) : Z :=
  match length l with
  | O => 0
  | 1%nat => Z_at l 0
  | 2%nat => Z.shiftl (Z_at l 1) 8 + Z_at l 0
  | 3%nat => Z.shiftl (Z_at l 2) 16 + Z.shiftl (Z_at l 1) 8 + Z_at l 0
  | _ => Z_at l 0 + Z.shiftl (Z_at l 1) 8 + Z.shiftl (Z_at l 2) 16 + Z.shiftl (Z_at l 3) 24
  end.

Definition word4_bytes (l : bytes) : Z := if (4 <=? length l)%nat then le_value (take 4 l) else word1 l.

(** The loop over the blocks of 12 bytes, and the last block. *)
Fixpoint hash_loop (word : bytes -> Z) (fuel : nat) (k : bytes) (a b c : Z) : Z :=
  let a' := u32 (a + word k) in
  let b' := u32 (b + word (drop 4 k)) in
  let c' := u32 (c + word (drop 8 k)) in
  match fuel with
  | O => c
  | S fuel =>
      if (12 <? length k)%nat then
        let '(a, b, c) := mix a' b' c' in hash_loop word fuel (drop 12 k) a b c
      else match k with [] => c | _ => final a' b' c' end
  end.

(** The constants of the build. *)
Record build := mk_build { HASH_LITTLE_ENDIAN : bool; NO_MASKING_TRICK : bool }.

(** Where a key is: its address, and what the memory holds behind it. *)
Record place := mk_place { pl_address : Z; pl_beyond : bytes }.

Definition hashlittle (cfg : build) (p : place) (key : bytes) (initval : Z) : Z :=
  let a := u32 (0xdeadbeef + u32 (Z.of_nat (length key)) + initval) in
  let word :=
    if HASH_LITTLE_ENDIAN cfg && (Z.land (pl_address p) 3 =? 0) then
      if NO_MASKING_TRICK cfg then word4_bytes else word4 (pl_beyond p)
    else if HASH_LITTLE_ENDIAN cfg && (Z.land (pl_address p) 1 =? 0) then word2
    else word1 in
  hash_loop word (S (length key)) key a a a.

(** ** The lists *)

(** A node: a pair, or the head of the list. *)
Abbreviation node := (option positive).
Abbreviation Head := (@None positive).

Record links := mk_links {
  l_next : gmap node node;
  l_prev : gmap node node }.

Definition list_init (list : node) (m : links) : links :=
  mk_links (<[list := list]> (l_next m)) (<[list := list]> (l_prev m)).

Definition list_insert (list nd : node) (m : links) : option links :=
  let m := mk_links (<[nd := list]> (l_next m)) (l_prev m) in
  p ← l_prev m !! list;
  let m := mk_links (l_next m) (<[nd := p]> (l_prev m)) in
  p ← l_prev m !! list;
  let m := mk_links (<[p := nd]> (l_next m)) (l_prev m) in
  Some (mk_links (l_next m) (<[list := nd]> (l_prev m))).

Definition list_remove (list : node) (m : links) : option links :=
  p ← l_prev m !! list;
  n ← l_next m !! list;
  let m := mk_links (<[p := n]> (l_next m)) (l_prev m) in
  n ← l_next m !! list;
  p ← l_prev m !! list;
  Some (mk_links (l_next m) (<[n := p]> (l_prev m))).

(** [free]. *)
Definition forget (list : node) (m : links) : links := mk_links (delete list (l_next m)) (delete list (l_prev m)).

(** ** The tables *)

Record pair_t (V : Type) := mk_pair {
  pr_hash : Z;
  pr_key : bytes;
  pr_value : V }.
Arguments mk_pair {V}.
Arguments pr_hash {V}.
Arguments pr_key {V}.
Arguments pr_value {V}.

(** The tables are used for the members of an object and for the set of the containers
    on the way to a value, so the type of the values is left open. A bucket is its first
    and last node; [ht_fresh] is the next address. *)
Record hashtable_t (V : Type) := mk_hashtable {
  ht_size : Z;
  ht_order : Z;
  ht_buckets : list (node * node);
  ht_list : links;
  ht_ordered : links;
  ht_pairs : gmap positive (pair_t V);
  ht_fresh : positive }.
Arguments mk_hashtable {V}.
Arguments ht_size {V}.
Arguments ht_order {V}.
Arguments ht_buckets {V}.
Arguments ht_list {V}.
Arguments ht_ordered {V}.
Arguments ht_pairs {V}.
Arguments ht_fresh {V}.

Definition INITIAL_HASHTABLE_ORDER : Z := 3.

Definition hashsize (n : Z) : Z := Z.shiftl 1 n.
Definition hashmask (n : Z) : Z := hashsize n - 1.

Definition no_links : links := mk_links ∅ ∅.

Definition empty_buckets (order : Z) : list (node * node) := replicate (Z.to_nat (hashsize order)) (Head, Head).

Definition bucket_is_empty (bucket : node * node) : bool :=
  bool_decide (bucket.1 = Head) && bool_decide (bucket.1 = bucket.2).

Section Code.
Context {V : Type} (cfg : build) (hashtable_seed : Z).

Definition hash_str (at_ : place) (key : bytes) : Z := hashlittle cfg at_ key hashtable_seed.

Definition hashtable_init : hashtable_t V :=
  mk_hashtable 0 INITIAL_HASHTABLE_ORDER (empty_buckets INITIAL_HASHTABLE_ORDER)
    (list_init Head no_links) (list_init Head no_links) ∅ 1.

(** The buckets and the list behind the insertion of a node into the bucket [index]. *)
Definition insert_to_bucket (index : Z) (nd : node) (buckets : list (node * node)) (m : links)
  : option (list (node * node) * links) :=
  bucket ← buckets !! Z.to_nat index;
  if bucket_is_empty bucket then
    m ← list_insert Head nd m;
    Some (<[Z.to_nat index := (nd, nd)]> buckets, m)
  else
    m ← list_insert bucket.1 nd m;
    Some (<[Z.to_nat index := (nd, bucket.2)]> buckets, m).

(** From [list] on to [last]; the pairs bound the turns. *)
Fixpoint find_loop (fuel : nat) (pairs : gmap positive (pair_t V)) (m : links) (list last : node) (key : bytes) (hash : Z)
  : option (option positive) :=
  match fuel with
  | O => None
  | S fuel =>
      i ← list;
      p ← pairs !! i;
      if (pr_hash p =? hash) && bytes_eqb (pr_key p) key then Some (Some i)
      else if bool_decide (list = last) then Some None
      else n ← l_next m !! list; find_loop fuel pairs m n last key hash
  end.

Definition hashtable_find_pair (h : hashtable_t V) (bucket : node * node) (key : bytes) (hash : Z) : option (option positive) :=
  if bucket_is_empty bucket then Some None
  else find_loop (S (size (ht_pairs h))) (ht_pairs h) (ht_list h) bucket.1 bucket.2 key hash.

Definition bucket_of (h : hashtable_t V) (hash : Z) : option (node * node) :=
  ht_buckets h !! Z.to_nat (Z.land hash (hashmask (ht_order h))).

(** The loop of [hashtable_do_rehash]. *)
Fixpoint rehash_loop (fuel : nat) (pairs : gmap positive (pair_t V)) (new_size : Z) (cur : node)
    (buckets : list (node * node)) (m : links) : option (list (node * node) * links) :=
  match cur with
  | None => Some (buckets, m)
  | Some i =>
      match fuel with
      | O => None
      | S fuel =>
          next ← l_next m !! cur;
          p ← pairs !! i;
          '(buckets, m) ← insert_to_bucket (Z.modulo (pr_hash p) new_size) cur buckets m;
          rehash_loop fuel pairs new_size next buckets m
      end
  end.

(** [ok] is the answer of the allocator; the result is whether the call succeeded. *)
Definition hashtable_do_rehash (ok : bool) (h : hashtable_t V) : option (bool * hashtable_t V) :=
  let new_order := ht_order h + 1 in
  let new_size := hashsize new_order in
  if negb ok then Some (false, h)
  else
    list ← l_next (ht_list h) !! Head;
    '(buckets, m) ← rehash_loop (S (size (ht_pairs h))) (ht_pairs h) new_size list (empty_buckets new_order)
      (list_init Head (ht_list h));
    Some (true, mk_hashtable (ht_size h) new_order buckets m (ht_ordered h) (ht_pairs h) (ht_fresh h)).

(** What the allocator answers: for the buckets and for a pair (which is also refused for
    a key whose length overflows the size of the pair). *)
Record memory := mk_memory { mem_buckets : bool; mem_pair : bool }.

Definition set_value (i : positive) (value : V) (h : hashtable_t V) : option (hashtable_t V) :=
  p ← ht_pairs h !! i;
  Some (mk_hashtable (ht_size h) (ht_order h) (ht_buckets h) (ht_list h) (ht_ordered h)
          (<[i := mk_pair (pr_hash p) (pr_key p) value]> (ht_pairs h)) (ht_fresh h)).

(** A new pair, in both lists. *)
Definition add_pair (index hash : Z) (key : bytes) (value : V) (h : hashtable_t V) : option (hashtable_t V) :=
  let i := ht_fresh h in
  let m := list_init (Some i) (ht_list h) in
  let o := list_init (Some i) (ht_ordered h) in
  '(buckets, m) ← insert_to_bucket index (Some i) (ht_buckets h) m;
  o ← list_insert Head (Some i) o;
  Some (mk_hashtable (ht_size h + 1) (ht_order h) buckets m o (<[i := mk_pair hash key value]> (ht_pairs h)) (Pos.succ i)).

(** The result is whether the call succeeded. *)
Definition hashtable_set (mem : memory) (at_ : place) (key : bytes) (value : V) (h : hashtable_t V) : option (bool * hashtable_t V) :=
  '(ok, h) ← (if hashsize (ht_order h) <=? ht_size h then hashtable_do_rehash (mem_buckets mem) h else Some (true, h));
  if negb ok then Some (false, h)
  else
    let hash := hash_str at_ key in
    let index := Z.land hash (hashmask (ht_order h)) in
    bucket ← ht_buckets h !! Z.to_nat index;
    pair ← hashtable_find_pair h bucket key hash;
    match pair with
    | Some i => h ← set_value i value h; Some (true, h)
    | None => if negb (mem_pair mem) then Some (false, h) else h ← add_pair index hash key value h; Some (true, h)
    end.

Definition find_key (at_ : place) (key : bytes) (h : hashtable_t V) : option (option positive) :=
  let hash := hash_str at_ key in
  bucket ← bucket_of h hash;
  hashtable_find_pair h bucket key hash.

Definition hashtable_get (at_ : place) (key : bytes) (h : hashtable_t V) : option (option V) :=
  pair ← find_key at_ key h;
  match pair with
  | None => Some None
  | Some i => p ← ht_pairs h !! i; Some (Some (pr_value p))
  end.

(** The ends of the bucket of a pair that is about to leave the list. *)
Definition leave_bucket (nd : node) (bucket : node * node) (m : links) : option (node * node) :=
  if bool_decide (nd = bucket.1) && bool_decide (nd = bucket.2) then Some (Head, Head)
  else if bool_decide (nd = bucket.1) then n ← l_next m !! nd; Some (n, bucket.2)
  else if bool_decide (nd = bucket.2) then p ← l_prev m !! nd; Some (bucket.1, p)
  else Some bucket.

(** [hashtable_do_del]; the result is whether the key was there. *)
Definition hashtable_del (at_ : place) (key : bytes) (h : hashtable_t V) : option (bool * hashtable_t V) :=
  let hash := hash_str at_ key in
  let index := Z.to_nat (Z.land hash (hashmask (ht_order h))) in
  bucket ← ht_buckets h !! index;
  pair ← hashtable_find_pair h bucket key hash;
  match pair with
  | None => Some (false, h)
  | Some i =>
      let nd := Some i in
      bucket ← leave_bucket nd bucket (ht_list h);
      m ← list_remove nd (ht_list h);
      o ← list_remove nd (ht_ordered h);
      Some (true, mk_hashtable (ht_size h - 1) (ht_order h) (<[index := bucket]> (ht_buckets h)) (forget nd m) (forget nd o)
                    (delete i (ht_pairs h)) (ht_fresh h))
  end.

(** The loop of [hashtable_do_clear], which frees the pairs. *)
Fixpoint clear_loop (fuel : nat) (m : links) (list : node) (pairs : gmap positive (pair_t V)) : option (gmap positive (pair_t V)) :=
  match list with
  | None => Some pairs
  | Some i =>
      match fuel with
      | O => None
      | S fuel =>
          next ← l_next m !! list;
          _ ← pairs !! i;
          clear_loop fuel (forget list m) next (delete i pairs)
      end
  end.

Definition hashtable_do_clear (h : hashtable_t V) : option (gmap positive (pair_t V)) :=
  list ← l_next (ht_list h) !! Head;
  clear_loop (S (size (ht_pairs h))) (ht_list h) list (ht_pairs h).

Definition hashtable_clear (h : hashtable_t V) : option (hashtable_t V) :=
  pairs ← hashtable_do_clear h;
  Some (mk_hashtable 0 (ht_order h) (empty_buckets (ht_order h)) (list_init Head no_links) (list_init Head no_links)
          pairs (ht_fresh h)).

(** The result is the pairs that stay allocated. *)
Definition hashtable_close (h : hashtable_t V) : option (gmap positive (pair_t V)) := hashtable_do_clear h.

(** Iterators are nodes of the ordered list; [None] is the end. *)
Definition hashtable_iter_next (h : hashtable_t V) (iter : node) : option node := l_next (ht_ordered h) !! iter.

Definition hashtable_iter (h : hashtable_t V) : option node := hashtable_iter_next h Head.

Definition hashtable_iter_at (at_ : place) (key : bytes) (h : hashtable_t V) : option node := find_key at_ key h.

Definition hashtable_iter_key (h : hashtable_t V) (iter : positive) : option bytes := pr_key <$> ht_pairs h !! iter.
Definition hashtable_iter_value (h : hashtable_t V) (iter : positive) : option V := pr_value <$> ht_pairs h !! iter.
Definition hashtable_iter_set (iter : positive) (value : V) (h : hashtable_t V) : option (hashtable_t V) := set_value iter value h.

(** The members that an iterator comes to. *)
Fixpoint iterate (fuel : nat) (h : hashtable_t V) (iter : node) : option (list (bytes * V)) :=
  match iter with
  | None => Some []
  | Some i =>
      match fuel with
      | O => None
      | S fuel =>
          key ← hashtable_iter_key h i;
          value ← hashtable_iter_value h i;
          next ← hashtable_iter_next h iter;
          cons (key, value) <$> iterate fuel h next
      end
  end.

(** ** Sequences of operations *)

Inductive operation :=
| Set_ (mem : memory) (at_ : place) (key : bytes) (value : V)
| Get (at_ : place) (key : bytes)
| Del (at_ : place) (key : bytes)
| Clear
| Iter_set (at_ : place) (key : bytes) (value : V)
| Members.

Inductive answer :=
| Done (b : bool)
| Value (v : option V)
| Listed (l : list (bytes * V)).

Definition perform (o : operation) (h : hashtable_t V) : option (answer * hashtable_t V) :=
  match o with
  | Set_ mem at_ key value => '(b, h) ← hashtable_set mem at_ key value h; Some (Done b, h)
  | Get at_ key => v ← hashtable_get at_ key h; Some (Value v, h)
  | Del at_ key => '(b, h) ← hashtable_del at_ key h; Some (Done b, h)
  | Clear => h ← hashtable_clear h; Some (Done true, h)
  | Iter_set at_ key value =>
      iter ← hashtable_iter_at at_ key h;
      match iter with
      | None => Some (Done false, h)
      | Some i => h ← hashtable_iter_set i value h; Some (Done true, h)
      end
  | Members => iter ← hashtable_iter h; l ← iterate (S (size (ht_pairs h))) h iter; Some (Listed l, h)
  end.

Fixpoint perform_all (l : list operation) (h : hashtable_t V) : option (list answer * hashtable_t V) :=
  match l with
  | [] => Some ([], h)
  | o :: l => '(a, h) ← perform o h; '(r, h) ← perform_all l h; Some (a :: r, h)
  end.

End Code.

Arguments operation : clear implicits.
Arguments answer : clear implicits.

End Hashtable.
