(* ===== verification/HashtableRefine.v ===== *)
(** * The hash tables of jansson are the lists of their members

    First the hash function, which reads a key in three ways that must agree; then the
    circular lists, as the sequences of their nodes; then the buckets, as segments of one
    of them; and the operations. *)
From S2P Require Import Prelude Types Json JsonLoad Conf Hashtable.

Local Open Scope Z_scope.

Module HashtableRefine.
Import Json Hashtable.

(** ** The hash of a key *)

Lemma land_hashmask x n : 0 <= n -> Z.land x (2 ^ n - 1) = x mod 2 ^ n.
Proof. intros Hn. rewrite <-Z.land_ones by done. by rewrite Z.ones_equiv, Z.sub_1_r. Qed.

Lemma le_value_prefix a b : Z.land (le_value (a ++ b)) (2 ^ (8 * Z.of_nat (length a)) - 1) = le_value a.
Proof.
  rewrite land_hashmask by lia. rewrite le_value_app. pose proof (le_value_range a) as Hr.
  assert (256 ^ Z.of_nat (length a) = 2 ^ (8 * Z.of_nat (length a))) as E by (by rewrite Z.pow_mul_r by lia). rewrite E in *.
  rewrite (Z.mul_comm _ (le_value b)), Z_mod_plus_full. by apply Z.mod_small.
Qed.

Lemma word4_value beyond l : word4 beyond l = le_value (take 4 l).
Proof.
  unfold word4. cbv zeta.
  assert (forall n, (length l <= n)%nat -> exists r, take n (l ++ beyond) = l ++ r) as Hr.
  { intros n Hn. exists (take (n - length l) beyond). by rewrite take_app, take_ge. }
  destruct l as [|a [|b [|c [|d l]]]]; cbn [length]; try done.
  - destruct (Hr 4%nat) as [r ->]; [cbn [length]; lia|]. exact (le_value_prefix [a] r).
  - destruct (Hr 4%nat) as [r ->]; [cbn [length]; lia|]. exact (le_value_prefix [a; b] r).
  - destruct (Hr 4%nat) as [r ->]; [cbn [length]; lia|]. exact (le_value_prefix [a; b; c] r).
Qed.

Lemma word2_value l : word2 l = le_value (take 4 l).
Proof.
  unfold word2, half, Z_at. destruct l as [|a [|b [|c [|d l]]]]; cbn [length]; try done; cbn -[Z.shiftl Z.mul];
    rewrite ?Z.shiftl_mul_pow2, ?take_0 by lia; cbn [le_value]; lia.
Qed.

Lemma word1_value l : word1 l = le_value (take 4 l).
Proof.
  unfold word1, Z_at. destruct l as [|a [|b [|c [|d l]]]]; cbn [length]; try done; cbn -[Z.shiftl Z.mul];
    rewrite ?Z.shiftl_mul_pow2, ?take_0 by lia; cbn [le_value]; lia.
Qed.

Lemma word4_bytes_value l : word4_bytes l = le_value (take 4 l).
Proof. unfold word4_bytes. destruct (_ <=? _)%nat; [done|]. apply word1_value. Qed.

Lemma hash_loop_ext word word' fuel k a b c :
  (forall l, word l = word' l) -> hash_loop word fuel k a b c = hash_loop word' fuel k a b c.
Proof.
  intros Hw. revert k a b c. induction fuel as [|fuel IH]; intros k a b c; cbn [hash_loop]; [done|]. rewrite !Hw.
  destruct (_ <? _)%nat; [|done]. destruct (mix _ _ _) as [[a' b'] c']. apply IH.
Qed.

(** The hash does not depend on the build nor on where the key is. *)
Lemma hashlittle_place cfg cfg' p p' key seed : hashlittle cfg p key seed = hashlittle cfg' p' key seed.
Proof.
  unfold hashlittle. apply hash_loop_ext. intros l.
  transitivity (le_value (take 4 l)); repeat case_match; rewrite ?word4_value, ?word4_bytes_value, ?word2_value, ?word1_value; done.
Qed.

(** The words of the paper of the hash function. *)
Example hashlittle_score : hashlittle (mk_build true false) (mk_place 4 (lit "!?")) (lit "Four score and seven years ago") 0 = 0x17770551.
Proof. vm_compute. reflexivity. Qed.

(** ** The circular lists *)

(** At every cut of the sequence the links lead from one side to the other; the empty
    sides stand for the head. *)
Definition chain (m : links) (s : list positive) : Prop :=
  forall a b, s = a ++ b -> l_next m !! last a = Some (head b) /\ l_prev m !! head b = Some (last a).

Lemma chain_init m : chain (list_init Head m) [].
Proof. intros a b [-> ->]%symmetry%app_eq_nil. split; apply lookup_insert_eq. Qed.

(** The links of other nodes do not matter. *)
Lemma chain_same m m' s :
  (forall n : node, (forall i, n = Some i -> i ∈ s) -> l_next m' !! n = l_next m !! n /\ l_prev m' !! n = l_prev m !! n) ->
  chain m s -> chain m' s.
Proof.
  intros Hm Hc a b E. destruct (Hc a b E) as [H1 H2].
  destruct (Hm (last a)) as [-> _]; [intros i Hi%last_Some_elem_of; rewrite E; apply elem_of_app; by left|].
  destruct (Hm (head b)) as [_ ->]; [intros i Hi%head_Some_elem_of; rewrite E; apply elem_of_app; by right|]. done.
Qed.

Lemma last_app_ne {A} (a b : list A) : b <> [] -> last (a ++ b) = last b.
Proof. intros Hb. rewrite last_app. destruct (last b) eqn:E; [done|]. by apply last_None in E. Qed.

Lemma head_app_ne {A} (a b : list A) : a <> [] -> head (a ++ b) = head a.
Proof. by destruct a. Qed.

(** The nodes at a cut are not those at another. *)
Lemma last_ne (a b : list positive) : NoDup (a ++ b) -> b <> [] -> last a <> last (a ++ b).
Proof.
  intros Hd Hb E. rewrite last_app_ne in E by done. apply NoDup_app in Hd as (_ & Hd & _).
  destruct (last b) as [i|] eqn:Eb; [|by apply last_None in Eb].
  apply (Hd i); by apply last_Some_elem_of.
Qed.

Lemma head_ne (a b : list positive) : NoDup (a ++ b) -> a <> [] -> head b <> head (a ++ b).
Proof.
  intros Hd Ha E. destruct a as [|i a]; [done|]. cbn [app head] in E. apply head_Some_elem_of in E.
  apply NoDup_cons in Hd as [Hi _]. apply Hi, elem_of_app. by right.
Qed.

Lemma last_absent (a : list positive) x : x ∉ a -> last a <> Some x.
Proof. intros Hx E. by apply Hx, last_Some_elem_of. Qed.

Lemma head_absent (a : list positive) x : x ∉ a -> head a <> Some x.
Proof. intros Hx E. by apply Hx, head_Some_elem_of. Qed.

Definition inserted (a b : list positive) (x : positive) (m : links) : links :=
  mk_links (<[last a := Some x]> (<[Some x := head b]> (l_next m))) (<[head b := Some x]> (<[Some x := last a]> (l_prev m))).

Lemma list_insert_eq m a b x :
  chain m (a ++ b) -> x ∉ a ++ b -> list_insert (head b) (Some x) m = Some (inserted a b x m).
Proof.
  intros Hc [Ha Hb]%not_elem_of_app. destruct (Hc a b eq_refl) as [_ H]. unfold list_insert. cbn [l_prev l_next]. rewrite H. cbn [mbind option_bind].
  rewrite lookup_insert_ne by (intros E; symmetry in E; by apply (head_absent b x)). by rewrite H.
Qed.

Lemma chain_inserted m a b x :
  chain m (a ++ b) -> NoDup (a ++ b) -> x ∉ a ++ b -> chain (inserted a b x m) (a ++ x :: b).
Proof.
  intros Hc Hd Hx. assert (Hx' := Hx). apply not_elem_of_app in Hx' as [Hxa Hxb].
  assert (forall k t, t <> [] -> NoDup (k ++ t) -> last k <> last (k ++ t)) as Hl by (intros; by apply last_ne).
  intros t1 t2 E. unfold inserted. cbn [l_next l_prev]. apply app_eq_inv in E as [(k & -> & E)|(k & -> & E)].
  - destruct k as [|y k]; cbn [app] in E; subst.
    + rewrite app_nil_r in *. cbn [head]. rewrite lookup_insert_eq. split; [done|].
      rewrite lookup_insert_ne, lookup_insert_eq by (by apply head_absent). done.
    + destruct (Hc t1 ((y :: k) ++ b)) as [H1 H2]; [by rewrite <-app_assoc|]. cbn [app head] in *.
      rewrite <-app_assoc in Hd. cbn [app] in Hd. rewrite not_elem_of_app, not_elem_of_cons in Hxa. split.
      * rewrite !lookup_insert_ne; [done|apply not_eq_sym, last_absent; tauto|].
        apply not_eq_sym, Hl; [done|]. rewrite app_comm_cons, app_assoc in Hd. by apply NoDup_app in Hd as [? _].
      * rewrite !lookup_insert_ne; [done|intros [= ->]; tauto|]. intros E%head_Some_elem_of.
        apply NoDup_app in Hd as (_ & _ & Hd). apply NoDup_cons in Hd as [Hy _]. apply Hy, elem_of_app. by right.
  - destruct k as [|z k]; cbn [app] in E; [subst t2; rewrite app_nil_r; cbn [head]; rewrite lookup_insert_eq; split; [done|];
      by rewrite lookup_insert_ne, lookup_insert_eq by (by apply head_absent)|]. injection E as <- ->.
    rewrite (last_app_ne a) by done. destruct k as [|y k].
    + cbn [last app]. rewrite lookup_insert_ne, lookup_insert_eq by (by apply last_absent). split; [done|]. apply lookup_insert_eq.
    + destruct (Hc (a ++ y :: k) t2) as [H1 H2]; [by rewrite <-app_assoc|]. rewrite (last_app_ne a) in H1, H2 by done.
      change (last (x :: y :: k)) with (last (y :: k)). rewrite not_elem_of_app in Hxb. split.
      * rewrite !lookup_insert_ne; [done|apply not_eq_sym, last_absent; tauto|].
        rewrite app_assoc in Hd. apply NoDup_app in Hd as [Hd _]. rewrite <-(last_app_ne a (y :: k)) by done. by apply Hl.
      * rewrite !lookup_insert_ne; [done|apply not_eq_sym, head_absent; tauto|].
        apply not_eq_sym, head_ne; [|done]. by apply NoDup_app in Hd as (_ & _ & ?).
Qed.

Definition removed (a b : list positive) (m : links) : links :=
  mk_links (<[last a := head b]> (l_next m)) (<[head b := last a]> (l_prev m)).

Lemma chain_around m a b x :
  chain m (a ++ x :: b) -> l_prev m !! Some x = Some (last a) /\ l_next m !! Some x = Some (head b).
Proof.
  intros Hc. destruct (Hc a (x :: b) eq_refl) as [_ H1]. destruct (Hc (a ++ [x]) b) as [H2 _]; [by rewrite <-app_assoc|].
  by rewrite last_snoc in H2.
Qed.

Lemma list_remove_eq m a b x :
  chain m (a ++ x :: b) -> x ∉ a -> list_remove (Some x) m = Some (removed a b m).
Proof.
  intros [H1 H2]%chain_around Hx. unfold list_remove. rewrite H1, H2. cbn [mbind option_bind l_next l_prev].
  rewrite lookup_insert_ne by (by apply last_absent). by rewrite H1, H2.
Qed.

Lemma chain_removed m a b x : chain m (a ++ x :: b) -> NoDup (a ++ b) -> chain (removed a b m) (a ++ b).
Proof.
  intros Hc Hd t1 t2 E. unfold removed. cbn [l_next l_prev]. apply app_eq_inv in E as [(k & -> & E)|(k & -> & E)].
  - destruct k as [|y k]; cbn [app] in E; subst t2; [rewrite app_nil_r, !lookup_insert_eq; done|].
    destruct (Hc t1 ((y :: k) ++ x :: b)) as [H1 H2]; [by rewrite <-app_assoc|]. cbn [app head] in *.
    rewrite <-app_assoc in Hd. split.
    + rewrite lookup_insert_ne; [done|]. apply not_eq_sym, last_ne; [|done]. rewrite app_assoc in Hd. by apply NoDup_app in Hd as [? _].
    + rewrite lookup_insert_ne; [done|]. apply NoDup_app in Hd as (_ & _ & Hd). by apply (head_ne (y :: k) b).
  - destruct k as [|y k]; [subst; rewrite app_nil_r, !lookup_insert_eq; done|]. subst b.
    destruct (Hc (a ++ x :: y :: k) t2) as [H1 H2]; [by rewrite <-app_assoc|]. rewrite last_app_ne in H1, H2 |- * by done.
    change (last (x :: y :: k)) with (last (y :: k)) in *. split.
    + rewrite lookup_insert_ne; [done|]. rewrite <-(last_app_ne a (y :: k)) by done. apply last_ne; [|done].
      rewrite app_assoc in Hd. by apply NoDup_app in Hd as [? _].
    + rewrite lookup_insert_ne; [done|]. apply not_eq_sym, head_ne; [|done]. by apply NoDup_app in Hd as (_ & _ & ?).
Qed.

Lemma chain_forget m s x : x ∉ s -> chain m s -> chain (forget (Some x) m) s.
Proof.
  intros Hx. apply chain_same. intros n Hn. cbn. rewrite !lookup_delete_ne by (intros <-; by apply Hx, Hn). done.
Qed.

Lemma chain_list_init m s x : x ∉ s -> chain m s -> chain (list_init (Some x) m) s.
Proof.
  intros Hx. apply chain_same. intros n Hn. cbn. rewrite !lookup_insert_ne by (intros <-; by apply Hx, Hn). done.
Qed.

(** The nodes [r] follow one another, up to the head. *)
Definition walk (m : links) (r : list positive) : Prop :=
  forall a y b, r = a ++ y :: b -> l_next m !! Some y = Some (head b).

Lemma chain_walk m s : chain m s -> walk m s.
Proof. intros Hc a y b ->. by destruct (chain_around _ _ _ _ Hc). Qed.

Lemma walk_cons m x r : walk m (x :: r) -> l_next m !! Some x = Some (head r) /\ walk m r.
Proof. intros Hw. split; [by apply (Hw [])|]. intros a y b ->. by apply (Hw (x :: a)). Qed.

(** ** The buckets *)

Section Buckets.
Context (index : positive -> Z).

(** The nodes of the bucket [b] are a segment of the sequence; [bk] are its ends. *)
Definition bucket_ok (s : list positive) (b : Z) (bk : node * node) : Prop :=
  exists s1 seg s2, s = s1 ++ seg ++ s2 /\ Forall (fun i => index i <> b) (s1 ++ s2) /\ Forall (fun i => index i = b) seg /\
    bk = (head seg, last seg).

Lemma bucket_ok_insert a c b bk x :
  bucket_ok (a ++ c) b bk -> (forall y, head c = Some y -> index y <> b) -> index x <> b -> bucket_ok (a ++ x :: c) b bk.
Proof using.
  intros (s1 & seg & s2 & E & Ho & Hs & ->) Hc Hx. apply Forall_app in Ho as [Ho1 Ho2].
  apply app_eq_inv in E as [(k & -> & E)|(k & -> & E)].
  - apply app_eq_inv in E as [(k' & -> & ->)|(k' & -> & ->)].
    + destruct k' as [|y k']; [|exfalso; apply Forall_app in Hs as [_ Hs]; apply Forall_cons in Hs as [Hy _]; by apply (Hc y)].
      rewrite app_nil_r in *. exists s1, k, (x :: s2). rewrite <-app_assoc. split; [done|]. split; [|done].
      apply Forall_app. split; [done|]. by constructor.
    + exists s1, seg, (k' ++ x :: c). rewrite <-!app_assoc. split; [done|]. split; [|done].
      apply Forall_app in Ho2 as [Hk Hc2]. repeat (apply Forall_app; split); try done. by constructor.
  - subst c. exists (a ++ x :: k), seg, s2. rewrite <-app_assoc. split; [done|]. split; [|done].
    apply Forall_app in Ho1 as [Ha Hk]. repeat (apply Forall_app; split); try done. by constructor.
Qed.

(** A node joins its bucket in front of it, or opens it at the end of the list. *)
Lemma bucket_ok_join s1 seg s2 b x :
  Forall (fun i => index i <> b) (s1 ++ s2) -> Forall (fun i => index i = b) seg -> index x = b ->
  bucket_ok (s1 ++ x :: seg ++ s2) b (Some x, last (x :: seg)).
Proof using. intros Ho Hs Hx. exists s1, (x :: seg), s2. split; [done|]. split; [done|]. split; [by constructor|done]. Qed.

(** A node of another bucket leaves. *)
Lemma bucket_ok_leave a c b bk x : bucket_ok (a ++ x :: c) b bk -> index x <> b -> bucket_ok (a ++ c) b bk.
Proof using.
  intros (s1 & seg & s2 & E & Ho & Hs & ->) Hx. apply Forall_app in Ho as [Ho1 Ho2].
  apply app_eq_inv in E as [(k & -> & E)|(k & -> & E)].
  - symmetry in E. apply app_eq_inv in E as [(k' & -> & E)|(k' & -> & E)].
    + exists s1, seg, (k' ++ c). rewrite <-!app_assoc. split; [done|]. split; [|done]. subst s2.
      apply Forall_app in Ho2 as [Hk Hc]. apply Forall_cons in Hc as [_ Hc]. repeat (apply Forall_app; split); done.
    + destruct k' as [|y k']; cbn [app] in E.
      * subst s2. apply Forall_cons in Ho2 as [_ Hc]. rewrite app_nil_r in *. exists s1, k, c. rewrite <-app_assoc.
        split; [done|]. split; [by apply Forall_app|done].
      * injection E as <- ->. apply Forall_app in Hs as [_ Hs]. by apply Forall_cons in Hs as [? _].
  - destruct k as [|y k]; cbn [app] in E.
    + destruct seg as [|y seg]; cbn [app] in E.
      * subst s2. apply Forall_cons in Ho2 as [_ Hc]. rewrite app_nil_r in *. exists a, [], c. split; [done|]. split; [by apply Forall_app|done].
      * injection E as <- _. by apply Forall_cons in Hs as [? _].
    + injection E as <- ->. apply Forall_app in Ho1 as [Ha Hk]. apply Forall_cons in Hk as [_ Hk].
      exists (a ++ k), seg, s2. rewrite <-app_assoc. split; [done|]. split; [|done]. repeat (apply Forall_app; split); done.
Qed.

Definition buckets_ok (s : list positive) (bs : list (node * node)) : Prop :=
  forall n bk, bs !! n = Some bk -> bucket_ok s (Z.of_nat n) bk.

Lemma bucket_empty (seg : list positive) : bucket_is_empty (head seg, last seg) = bool_decide (seg = []).
Proof using. destruct seg as [|i seg]; [done|]. unfold bucket_is_empty. cbn [fst head]. by rewrite (bool_decide_false (Some i = None)), (bool_decide_false (i :: seg = [])) by done. Qed.

(** Where the links of no other node have changed. *)
Definition apart (s : list positive) (m m' : links) : Prop :=
  forall y, y ∉ s -> l_next m' !! Some y = l_next m !! Some y.

Lemma inserted_apart a b x m s : a ++ x :: b ≡ₚ s -> apart s m (inserted a b x m).
Proof using.
  intros Hp y Hy. rewrite <-Hp, not_elem_of_app, not_elem_of_cons in Hy. destruct Hy as (Ha & Hx & Hb). cbn.
  rewrite !lookup_insert_ne; [done|congruence|by apply last_absent].
Qed.

Lemma insert_to_bucket_spec m s bs x :
  chain m s -> NoDup s -> x ∉ s -> buckets_ok s bs -> 0 <= index x < Z.of_nat (length bs) ->
  exists bs' m' s', insert_to_bucket (index x) (Some x) bs m = Some (bs', m') /\ chain m' s' /\ s' ≡ₚ x :: s /\
    buckets_ok s' bs' /\ length bs' = length bs /\ apart (x :: s) m m'.
Proof using.
  intros Hc Hd Hx Hb Hi. destruct (lookup_lt_is_Some_2 bs (Z.to_nat (index x))) as [bk Ebk]; [lia|].
  destruct (Hb _ _ Ebk) as (s1 & seg & s2 & -> & Ho & Hs & ->). rewrite Z2Nat.id in Ho, Hs by lia.
  unfold insert_to_bucket. rewrite Ebk. cbn [mbind option_bind]. rewrite bucket_empty.
  assert (forall a c bk', s1 ++ seg ++ s2 = a ++ c -> (forall y, head c = Some y -> index y = index x) ->
    bucket_ok (a ++ x :: c) (index x) bk' -> buckets_ok (a ++ x :: c) (<[Z.to_nat (index x) := bk']> bs)) as Hbs.
  { intros a c bk' E Hh Hok n bk0 Hn. destruct (decide (n = Z.to_nat (index x))) as [->|Hne].
    - rewrite list_lookup_insert_eq in Hn by lia. injection Hn as <-. by rewrite Z2Nat.id by lia.
    - rewrite list_lookup_insert_ne in Hn by done. apply Hb in Hn. rewrite E in Hn.
      apply bucket_ok_insert; [done|intros y Hy; rewrite (Hh y Hy); lia|lia]. }
  destruct seg as [|y seg].
  - rewrite bool_decide_true by done. cbn [app] in *.
    pose proof (list_insert_eq m (s1 ++ s2) [] x) as E. rewrite app_nil_r in E. change (head []) with Head in E. rewrite E by done.
    cbn [mbind option_bind]. eexists _, _, ((s1 ++ s2) ++ [x]). split; [done|].
    split; [apply chain_inserted; by rewrite app_nil_r|]. split; [by rewrite Permutation_app_comm|].
    split; [apply Hbs; [by rewrite app_nil_r|done|]|].
    + pose proof (bucket_ok_join (s1 ++ s2) [] [] (index x) x) as Hj. rewrite app_nil_r in Hj. by apply Hj.
    + split; [by rewrite length_insert|]. apply inserted_apart. by rewrite Permutation_app_comm.
  - rewrite bool_decide_false by done. cbn [fst snd].
    change (head (y :: seg)) with (head ((y :: seg) ++ s2)). rewrite (list_insert_eq m s1) by done. cbn [mbind option_bind].
    eexists _, _, (s1 ++ x :: (y :: seg) ++ s2). split; [done|]. split; [by apply chain_inserted|].
    split; [symmetry; apply Permutation_middle|]. split; [apply Hbs; [done| |]|].
    + intros z [= <-]. by apply Forall_cons in Hs as [? _].
    + by apply (bucket_ok_join s1 (y :: seg) s2).
    + split; [by rewrite length_insert|]. apply inserted_apart. symmetry. apply Permutation_middle.
Qed.

(** A node leaves its own bucket. *)
Lemma bucket_ok_out s1 g1 g2 s2 b x :
  Forall (fun i => index i <> b) (s1 ++ s2) -> Forall (fun i => index i = b) (g1 ++ x :: g2) ->
  bucket_ok (s1 ++ (g1 ++ g2) ++ s2) b (head (g1 ++ g2), last (g1 ++ g2)).
Proof using.
  intros Ho Hs. exists s1, (g1 ++ g2), s2. split; [done|]. split; [done|]. split; [|done].
  apply Forall_app in Hs as [H1 H2]. apply Forall_cons in H2 as [_ H2]. by apply Forall_app.
Qed.

End Buckets.

Lemma bucket_ok_ext index index' s b bk :
  (forall i, i ∈ s -> index' i = index i) -> bucket_ok index s b bk -> bucket_ok index' s b bk.
Proof.
  intros He (s1 & seg & s2 & -> & Ho & Hs & ->). exists s1, seg, s2. split; [done|]. rewrite Forall_forall in Ho, Hs.
  split; [|split; [|done]]; apply Forall_forall; intros i Hi.
  - rewrite He; [by apply Ho|]. rewrite !elem_of_app in *. tauto.
  - rewrite He; [by apply Hs|]. rewrite !elem_of_app. tauto.
Qed.

(** ** Looking for a key *)

Definition matches {V} (pairs : gmap positive (pair_t V)) (key : bytes) (hash : Z) (i : positive) : Prop :=
  exists p, pairs !! i = Some p /\ pr_hash p = hash /\ pr_key p = key.

Lemma find_loop_spec {V} (pairs : gmap positive (pair_t V)) m s1 g t s2 fuel key hash :
  chain m (s1 ++ (g ++ t) ++ s2) -> NoDup (s1 ++ (g ++ t) ++ s2) -> t <> [] -> Forall (fun i => is_Some (pairs !! i)) t ->
  (length t <= fuel)%nat ->
  exists r, find_loop fuel pairs m (head t) (last (g ++ t)) key hash = Some r /\
    match r with
    | Some i => i ∈ t /\ matches pairs key hash i
    | None => forall i, i ∈ t -> ~ matches pairs key hash i
    end.
Proof.
  intros Hc Hd. revert g Hc Hd fuel. induction t as [|x t IH]; intros g Hc Hd fuel Hne Hp Hf; [done|].
  apply Forall_cons in Hp as [[p Ep] Hp]. destruct fuel as [|fuel]; cbn [length] in Hf; [lia|].
  cbn [find_loop head mbind option_bind]. rewrite Ep. cbn [mbind option_bind].
  destruct (Z.eqb_spec (pr_hash p) hash) as [Eh|Nh]; cbn [andb]; [destruct (bytes_eqb (pr_key p) key) eqn:Ek|].
  1: { exists (Some x). split; [done|]. split; [left|]. apply bytes_eqb_eq in Ek. by exists p. }
  all: assert (~ matches pairs key hash x) as Hx
    by (intros (p' & Ep' & Eh' & Ek'); rewrite Ep in Ep'; injection Ep' as <-; first [done | by rewrite Ek', (proj2 (bytes_eqb_eq key key) eq_refl) in Ek]).
  all: destruct t as [|y t];
    [rewrite last_snoc, bool_decide_true by done; exists None; split; [done|]; intros i Hi; apply elem_of_cons in Hi as [->|Hi]; [done|by apply elem_of_nil in Hi]|].
  all: assert (l_next m !! Some x = Some (Some y)) as En
    by (replace (s1 ++ (g ++ x :: y :: t) ++ s2) with ((s1 ++ g) ++ x :: (y :: t) ++ s2) in Hc by (by rewrite <-!app_assoc);
        by destruct (chain_around _ _ _ _ Hc)).
  all: assert (Some x <> last (g ++ x :: y :: t)) as Hl
    by (rewrite last_app_ne by done; change (last (x :: y :: t)) with (last (y :: t)); apply not_eq_sym, last_absent;
        apply NoDup_app in Hd as (_ & _ & Hd); apply NoDup_app in Hd as (Hd & _ & _); apply NoDup_app in Hd as (_ & _ & Hd);
        by apply NoDup_cons in Hd as [? _]).
  all: rewrite bool_decide_false, En by done; cbn [mbind option_bind].
  all: destruct (IH (g ++ [x])) with (fuel := fuel) as (r & E & Hr);
    [by rewrite <-(app_assoc g)|by rewrite <-(app_assoc g)|done|done|cbn [length] in *; lia|].
  all: rewrite <-(app_assoc g) in E; cbn [app head] in E; rewrite E; exists r; split; [done|]; destruct r as [i|]; [destruct Hr; split; [by right|done]|].
  all: intros i Hi; apply elem_of_cons in Hi as [->|Hi]; [done|by apply Hr].
Qed.

(** ** Growing *)

Section Rehash.
Context {V : Type} (index : positive -> Z) (pairs : gmap positive (pair_t V)) (new_size : Z).

Lemma rehash_loop_spec r s m bs fuel :
  chain m s -> NoDup (s ++ r) -> buckets_ok index s bs ->
  walk m r ->
  (forall i, i ∈ r -> exists p, pairs !! i = Some p /\ pr_hash p mod new_size = index i /\ 0 <= index i < Z.of_nat (length bs)) ->
  (length r < fuel)%nat ->
  exists bs' m' s', rehash_loop fuel pairs new_size (head r) bs m = Some (bs', m') /\ chain m' s' /\ s' ≡ₚ s ++ r /\
    buckets_ok index s' bs' /\ length bs' = length bs.
Proof using.
  revert s m bs fuel. induction r as [|x r IH]; intros s m bs fuel Hc Hd Hb Hw Hp Hf.
  - exists bs, m, s. rewrite app_nil_r. destruct fuel; by split_and!.
  - destruct fuel as [|fuel]; cbn [length] in Hf; [lia|]. cbn [rehash_loop head].
    rewrite (Hw [] x r eq_refl). cbn [mbind option_bind]. destruct (Hp x) as (p & Ep & Eh & Hi); [left|]. rewrite Ep. cbn [mbind option_bind]. rewrite Eh.
    assert (NoDup (x :: s ++ r)) as Hd' by (by rewrite Permutation_middle).
    apply NoDup_cons in Hd' as [Hx Hsr]. rewrite not_elem_of_app in Hx. destruct Hx as [Hxs Hxr].
    destruct (insert_to_bucket_spec index m s bs x) as (bs1 & m1 & s1 & -> & Hc1 & Hp1 & Hb1 & Hl1 & Ha1);
      [done|by apply NoDup_app in Hsr as [? _]|done|done|done|]. cbn [mbind option_bind].
    destruct (IH s1 m1 bs1 fuel) as (bs2 & m2 & s2 & -> & Hc2 & Hp2 & Hb2 & Hl2); [done| |done| | |lia|].
    + rewrite Hp1. cbn. by rewrite <-Permutation_middle in Hd.
    + intros a y b ->. rewrite Ha1; [by apply (Hw (x :: a))|]. rewrite not_elem_of_cons. split; [set_solver|].
      apply NoDup_app in Hsr as (_ & Hsr & _). intros Hy. apply (Hsr y Hy). set_solver.
    + intros i Hi'. rewrite Hl1. apply Hp. by right.
    + exists bs2, m2, s2. split; [done|]. split; [done|]. split; [rewrite Hp2, Hp1; cbn; apply Permutation_middle|].
      split; [done|congruence].
Qed.

End Rehash.

(** ** The tables *)

Section Table.
Context {V : Type} (cfg : build) (seed : Z).

Definition key_hash (key : bytes) : Z := hash_str cfg seed (mk_place 1 []) key.

Lemma hash_str_eq at_ key : hash_str cfg seed at_ key = key_hash key.
Proof using. apply hashlittle_place. Qed.

Definition pair_of (kv : bytes * V) : pair_t V := mk_pair (key_hash kv.1) kv.1 kv.2.

Definition slot (pairs : gmap positive (pair_t V)) (order : Z) (i : positive) : Z :=
  match pairs !! i with
  | Some p => Z.land (pr_hash p) (hashmask order)
  | None => -1
  end.

Lemma hashsize_pow n : hashsize n = 2 ^ n.
Proof using. unfold hashsize. by rewrite Z.shiftl_1_l. Qed.

Lemma hashmask_mod x n : 0 <= n -> Z.land x (hashmask n) = x mod 2 ^ n.
Proof using. intros Hn. unfold hashmask. rewrite hashsize_pow. by apply land_hashmask. Qed.

Lemma table_slot_range x n : 0 <= n -> 0 <= Z.land x (hashmask n) < hashsize n.
Proof using. intros Hn. rewrite hashmask_mod, hashsize_pow by done. apply Z.mod_pos_bound. lia. Qed.

(** A table: the sequences of its two lists, and its members in the order of the first. *)
Record table (h : hashtable_t V) (os ls : list positive) (al : list (bytes * V)) : Prop := {
  tb_ordered : chain (ht_ordered h) os;
  tb_list : chain (ht_list h) ls;
  tb_perm : ls ≡ₚ os;
  tb_nodup : NoDup os;
  tb_members : Forall2 (fun i kv => ht_pairs h !! i = Some (pair_of kv)) os al;
  tb_dom : forall i, is_Some (ht_pairs h !! i) -> i ∈ os;
  tb_keys : NoDup al.*1;
  tb_size : ht_size h = Z.of_nat (length os);
  tb_order : 0 <= ht_order h;
  tb_buckets : buckets_ok (slot (ht_pairs h) (ht_order h)) ls (ht_buckets h);
  tb_length : Z.of_nat (length (ht_buckets h)) = hashsize (ht_order h);
  tb_fresh : forall i, i ∈ os -> (i < ht_fresh h)%positive }.

Lemma table_fuel h os ls al : table h os ls al -> (length ls <= size (ht_pairs h))%nat.
Proof using.
  intros H. rewrite (tb_perm _ _ _ _ H). rewrite <-size_dom. rewrite <-(size_list_to_set (C := gset positive) os) by apply H.
  apply subseteq_size. intros i Hi. apply elem_of_list_to_set in Hi. apply elem_of_dom.
  apply list_elem_of_lookup_1 in Hi as [k Hk]. destruct (Forall2_lookup_l _ _ _ _ _ (tb_members _ _ _ _ H) Hk) as (kv & _ & E). by eexists.
Qed.

Lemma table_nodup h os ls al : table h os ls al -> NoDup ls.
Proof using. intros H. rewrite (tb_perm _ _ _ _ H). apply H. Qed.

Lemma table_pair h os ls al i :
  table h os ls al -> i ∈ os -> exists k kv, os !! k = Some i /\ al !! k = Some kv /\ ht_pairs h !! i = Some (pair_of kv).
Proof using.
  intros H Hi. apply list_elem_of_lookup_1 in Hi as [k Hk].
  destruct (Forall2_lookup_l _ _ _ _ _ (tb_members _ _ _ _ H) Hk) as (kv & Ekv & E). by exists k, kv.
Qed.

Lemma empty_buckets_ok index order : buckets_ok index [] (empty_buckets order).
Proof using.
  intros n bk [-> _]%lookup_replicate. by exists [], [], [].
Qed.

Lemma length_empty_buckets order : Z.of_nat (length (empty_buckets order)) = Z.max 0 (hashsize order).
Proof using. unfold empty_buckets. rewrite length_replicate. lia. Qed.

Lemma init_table : table hashtable_init [] [] [].
Proof using.
  split; try done; try apply chain_init; try (by constructor).
  - by intros i [p Hp].
  - apply empty_buckets_ok.
  - by intros i ?%elem_of_nil.
Qed.

(** *** Looking up *)

Lemma find_spec h os ls al key :
  table h os ls al ->
  exists bk r, ht_buckets h !! Z.to_nat (Z.land (key_hash key) (hashmask (ht_order h))) = Some bk /\
    hashtable_find_pair h bk key (key_hash key) = Some r /\
    match r with
    | Some i => exists k v, os !! k = Some i /\ al !! k = Some (key, v)
    | None => key ∉ al.*1
    end.
Proof using.
  intros H. pose proof (table_slot_range (key_hash key) _ (tb_order _ _ _ _ H)) as Hr. pose proof (tb_length _ _ _ _ H) as Hl.
  set (b := Z.land (key_hash key) _) in *.
  destruct (lookup_lt_is_Some_2 (ht_buckets h) (Z.to_nat b)) as [bk Ebk]; [lia|]. exists bk.
  destruct (tb_buckets _ _ _ _ H _ _ Ebk) as (s1 & seg & s2 & Els & Ho & Hs & ->). rewrite Z2Nat.id in Ho, Hs by lia.
  assert (forall k v, al !! k = Some (key, v) -> exists i, os !! k = Some i /\ i ∈ seg /\ matches (ht_pairs h) key (key_hash key) i) as Hin.
  { intros k v Hk. destruct (Forall2_lookup_r _ _ _ _ _ (tb_members _ _ _ _ H) Hk) as (i & Hi & Ei). exists i. split; [done|].
    split; [|by exists (pair_of (key, v))]. assert (i ∈ ls) as Hil by (rewrite (tb_perm _ _ _ _ H); by eapply list_elem_of_lookup_2).
    assert (slot (ht_pairs h) (ht_order h) i = b) as Eb by (unfold slot; by rewrite Ei).
    rewrite Els in Hil. rewrite !elem_of_app in Hil. destruct Hil as [Hi1|[Hi1|Hi1]]; [|done|]; exfalso;
      rewrite Forall_forall in Ho; apply (Ho i); by rewrite ?elem_of_app; auto. }
  assert ((forall i, i ∈ seg -> ~ matches (ht_pairs h) key (key_hash key) i) -> key ∉ al.*1) as Hnone.
  { intros Hr' ([k' v] & E & (k & Hk)%list_elem_of_lookup_1)%list_elem_of_fmap. cbn [fst] in *. subst k'.
    destruct (Hin k v Hk) as (i & _ & Hi & Hm). by apply (Hr' i). }
  unfold hashtable_find_pair. rewrite bucket_empty. destruct (decide (seg = [])) as [->|Hne].
  - rewrite bool_decide_true by done. exists None. split; [done|]. split; [done|]. apply Hnone. by intros i ?%elem_of_nil.
  - rewrite bool_decide_false by done. pose proof (table_nodup _ _ _ _ H) as Hd. pose proof (tb_list _ _ _ _ H) as Hc. rewrite Els in Hd, Hc.
    assert (Forall (fun i => is_Some (ht_pairs h !! i)) seg) as Hp.
    { apply Forall_forall. intros i Hi. destruct (table_pair h os ls al i H) as (k & kv & _ & _ & E); [|by eexists].
      rewrite <-(tb_perm _ _ _ _ H), Els, !elem_of_app. auto. }
    destruct (find_loop_spec (ht_pairs h) (ht_list h) s1 [] seg s2 (S (size (ht_pairs h))) key (key_hash key)) as (r & E & Hr'); [done..| |].
    { pose proof (table_fuel _ _ _ _ H) as Hf. rewrite Els, !length_app in Hf. lia. }
    exists r. split; [done|]. split; [exact E|]. destruct r as [i|].
    + destruct Hr' as [Hi (p & Ep & _ & Ek)]. destruct (table_pair h os ls al i H) as (k & [k' v] & Hk1 & Hk2 & E3).
      { rewrite <-(tb_perm _ _ _ _ H), Els, !elem_of_app. auto. }
      exists k, v. rewrite Ep in E3. injection E3 as ->. cbn in Ek. by subst k'.
    + by apply Hnone.
Qed.

(** *** Lists of members *)

Lemma set_existing (al : list (bytes * V)) k key v value :
  NoDup al.*1 -> al !! k = Some (key, v) -> Json.hashtable_set al key value = <[k := (key, value)]> al.
Proof using.
  revert k. induction al as [|[k' v'] al IH]; intros k Hd Hk; [done|]. cbn [Json.hashtable_set fmap list_fmap fst] in *.
  apply NoDup_cons in Hd as [Hn Hd]. destruct k as [|k].
  - injection Hk as -> ->. by rewrite (proj2 (bytes_eqb_eq key key) eq_refl).
  - cbn in Hk. destruct (bytes_eqb k' key) eqn:E; [|cbn; by rewrite (IH k)].
    apply bytes_eqb_eq in E as ->. exfalso. apply Hn, list_elem_of_fmap. exists (key, v). split; [done|]. by eapply list_elem_of_lookup_2.
Qed.

Lemma get_existing (al : list (bytes * V)) k key v : NoDup al.*1 -> al !! k = Some (key, v) -> Conf.hashtable_get al key = Some v.
Proof using.
  revert k. induction al as [|[k' v'] al IH]; intros k Hd Hk; [done|]. cbn [Conf.hashtable_get fmap list_fmap fst] in *.
  apply NoDup_cons in Hd as [Hn Hd]. destruct k as [|k].
  - injection Hk as -> ->. by rewrite (proj2 (bytes_eqb_eq key key) eq_refl).
  - cbn in Hk. destruct (bytes_eqb k' key) eqn:E; [|by apply (IH k)].
    apply bytes_eqb_eq in E as ->. exfalso. apply Hn, list_elem_of_fmap. exists (key, v). split; [done|]. by eapply list_elem_of_lookup_2.
Qed.

Lemma get_missing (al : list (bytes * V)) key : key ∉ al.*1 -> Conf.hashtable_get al key = None.
Proof using.
  induction al as [|[k v] al IH]; [done|]. cbn [fmap list_fmap fst Conf.hashtable_get]. intros [Hk Ha]%not_elem_of_cons.
  destruct (bytes_eqb k key) eqn:E; [apply bytes_eqb_eq in E; congruence|]. by apply IH.
Qed.

Lemma filter_missing (al : list (bytes * V)) key : key ∉ al.*1 -> filter (fun kv => kv.1 <> key) al = al.
Proof using.
  induction al as [|[k v] al IH]; [done|]. cbn [fmap list_fmap fst]. intros [Hk Ha]%not_elem_of_cons.
  rewrite filter_cons_True by (cbn; congruence). by rewrite IH.
Qed.

Lemma filter_existing (a b : list (bytes * V)) key v :
  NoDup (a ++ (key, v) :: b).*1 -> filter (fun kv => kv.1 <> key) (a ++ (key, v) :: b) = a ++ b.
Proof using.
  intros Hd. rewrite fmap_app in Hd. cbn [fmap list_fmap fst] in Hd. apply NoDup_app in Hd as (_ & Ha & Hb). apply NoDup_cons in Hb as [Hb _].
  rewrite filter_app, filter_cons_False by (cbn; congruence). rewrite !filter_missing; [done|done|].
  intros Hk. apply (Ha key Hk). left.
Qed.

(** *** The operations *)

Lemma rehash_spec ok h os ls al :
  table h os ls al -> exists h' ls', hashtable_do_rehash ok h = Some (ok, h') /\ table h' os ls' al.
Proof using.
  intros H. unfold hashtable_do_rehash. destruct ok; cbn [negb]; [|by exists h, ls].
  destruct (tb_list _ _ _ _ H [] ls eq_refl) as [En _]. cbn [last] in En. rewrite En. cbn [mbind option_bind].
  pose proof (tb_order _ _ _ _ H) as Ho. pose proof (table_fuel _ _ _ _ H) as Hf.
  assert (0 < hashsize (ht_order h + 1)) as Hsz by (rewrite hashsize_pow; lia).
  pose proof (length_empty_buckets (ht_order h + 1)) as Hle.
  destruct (rehash_loop_spec (slot (ht_pairs h) (ht_order h + 1)) (ht_pairs h) (hashsize (ht_order h + 1)) ls []
    (list_init Head (ht_list h)) (empty_buckets (ht_order h + 1)) (S (size (ht_pairs h)))) as (bs & m & s & -> & Hc & Hp & Hb & Hl).
  - apply chain_init.
  - by apply (table_nodup _ _ _ _ H).
  - apply empty_buckets_ok.
  - intros a y b E. cbn. rewrite lookup_insert_ne by done. pose proof (tb_list _ _ _ _ H) as Hc. rewrite E in Hc. by destruct (chain_around _ _ _ _ Hc).
  - intros i Hi. rewrite (tb_perm _ _ _ _ H) in Hi. destruct (table_pair _ _ _ _ _ H Hi) as (k & kv & _ & _ & Ep). exists (pair_of kv).
    unfold slot. rewrite Ep. split; [done|]. rewrite hashmask_mod, hashsize_pow by lia. split; [done|].
    rewrite Hle, hashsize_pow in *. rewrite Z.max_r by lia. apply Z.mod_pos_bound. lia.
  - lia.
  - cbn [mbind option_bind]. eexists _, s. split; [done|]. cbn in Hp.
    split; try apply H; cbn; try done; [by rewrite Hp, (tb_perm _ _ _ _ H)|lia|]. rewrite Hl, Hle. lia.
Qed.

Lemma slot_set_value pairs order i p value :
  pairs !! i = Some p -> forall j, slot (<[i := mk_pair (pr_hash p) (pr_key p) value]> pairs) order j = slot pairs order j.
Proof using.
  intros Hp j. unfold slot. destruct (decide (i = j)) as [->|]; [by rewrite lookup_insert_eq, Hp|by rewrite lookup_insert_ne].
Qed.

Lemma set_value_spec h os ls al k i key v value :
  table h os ls al -> os !! k = Some i -> al !! k = Some (key, v) ->
  exists h', set_value i value h = Some h' /\ table h' os ls (Json.hashtable_set al key value).
Proof using.
  intros H Hi Hk. pose proof (Forall2_lookup_lr _ _ _ _ _ _ (tb_members _ _ _ _ H) Hi Hk) as Ep. cbn in Ep.
  unfold set_value. rewrite Ep. cbn [mbind option_bind]. eexists. split; [done|].
  rewrite (set_existing al k key v) by (done || apply H).
  split; cbn; try apply H.
  - apply Forall2_same_length_lookup. rewrite length_insert. split; [apply (Forall2_length _ _ _ (tb_members _ _ _ _ H))|].
    intros n j kv Hj Hkv. destruct (decide (n = k)) as [->|Hne].
    + rewrite Hi in Hj. injection Hj as <-. rewrite list_lookup_insert_eq in Hkv by (by eapply lookup_lt_Some). injection Hkv as <-.
      by rewrite lookup_insert_eq.
    + rewrite list_lookup_insert_ne in Hkv by done. rewrite lookup_insert_ne.
      * by apply (Forall2_lookup_lr _ _ _ _ _ _ (tb_members _ _ _ _ H) Hj Hkv).
      * intros ->. by apply Hne, (NoDup_lookup os n k j (tb_nodup _ _ _ _ H)).
  - intros j Hj. destruct (decide (i = j)) as [->|]; [by eapply list_elem_of_lookup_2|]. rewrite lookup_insert_ne in Hj by done. by apply (tb_dom _ _ _ _ H).
  - rewrite list_fmap_insert. cbn [fst]. rewrite list_insert_id; [apply H|]. by rewrite list_lookup_fmap, Hk.
  - intros n bk Hn. eapply bucket_ok_ext; [|by apply (tb_buckets _ _ _ _ H)]. intros j _.
    by apply (slot_set_value (ht_pairs h) (ht_order h) i (pair_of (key, v)) value).
Qed.

Lemma members_same (pairs pairs' : gmap positive (pair_t V)) os al :
  (forall i, i ∈ os -> pairs' !! i = pairs !! i) ->
  Forall2 (fun i kv => pairs !! i = Some (pair_of kv)) os al -> Forall2 (fun i kv => pairs' !! i = Some (pair_of kv)) os al.
Proof using.
  intros Hs Hm. induction Hm as [|i kv os al Hi Hm IH]; constructor; [rewrite Hs; [done|left]|].
  apply IH. intros j Hj. apply Hs. by right.
Qed.

Lemma add_pair_spec h os ls al key value :
  table h os ls al -> key ∉ al.*1 ->
  exists h' os' ls', add_pair (Z.land (key_hash key) (hashmask (ht_order h))) (key_hash key) key value h = Some h' /\
    table h' os' ls' (Json.hashtable_set al key value).
Proof using.
  intros H Hk. unfold add_pair. cbv zeta. set (i := ht_fresh h). set (pairs := <[i := _]> _).
  assert (i ∉ os) as Hio by (intros Hi; pose proof (tb_fresh _ _ _ _ H i Hi); lia).
  assert (i ∉ ls) as Hil by (by rewrite (tb_perm _ _ _ _ H)).
  assert (slot pairs (ht_order h) i = Z.land (key_hash key) (hashmask (ht_order h))) as Ei by (unfold slot, pairs; by rewrite lookup_insert_eq).
  destruct (insert_to_bucket_spec (slot pairs (ht_order h)) (list_init (Some i) (ht_list h)) ls (ht_buckets h) i)
    as (bs & m & ls' & E & Hc & Hp & Hb & Hl & _).
  - apply chain_list_init; [done|apply H].
  - by apply (table_nodup _ _ _ _ H).
  - done.
  - intros n bk Hn. eapply bucket_ok_ext; [|by apply (tb_buckets _ _ _ _ H)]. intros j Hj. unfold slot, pairs.
    by rewrite lookup_insert_ne by (intros ->; done).
  - rewrite Ei, (tb_length _ _ _ _ H). apply table_slot_range, H.
  - rewrite Ei in E. rewrite E. cbn [mbind option_bind].
    pose proof (list_insert_eq (list_init (Some i) (ht_ordered h)) os [] i) as Eo. rewrite app_nil_r in Eo.
    assert (chain (list_init (Some i) (ht_ordered h)) os) as Hco by (apply chain_list_init; [done|apply H]).
    change (head []) with Head in Eo. rewrite Eo by done. cbn [mbind option_bind]. eexists _, (os ++ [i]), ls'. split; [done|].
    rewrite JsonLoad.hashtable_set_fresh by done. split; cbn; try apply H; try done.
    + apply chain_inserted; rewrite ?app_nil_r; [done|apply H|done].
    + rewrite Hp, (tb_perm _ _ _ _ H). apply Permutation_cons_append.
    + rewrite <-Permutation_cons_append. constructor; [done|apply H].
    + apply Forall2_app; [|constructor; [by apply lookup_insert_eq|done]].
      apply (members_same (ht_pairs h)); [|apply H]. intros j Hj. unfold pairs. by rewrite lookup_insert_ne by (intros <-; done).
    + intros j Hj. rewrite elem_of_app, list_elem_of_singleton. destruct (decide (j = i)) as [->|]; [by right|left].
      unfold pairs in Hj. rewrite lookup_insert_ne in Hj by done. by apply (tb_dom _ _ _ _ H).
    + rewrite fmap_app. cbn [fmap list_fmap fst]. rewrite <-Permutation_cons_append. constructor; [done|apply H].
    + rewrite length_app, (tb_size _ _ _ _ H). cbn. lia.
    + by rewrite Hl, (tb_length _ _ _ _ H).
    + intros j [Hj| ->%list_elem_of_singleton]%elem_of_app; [pose proof (tb_fresh _ _ _ _ H j Hj)|]; lia.
Qed.

Lemma set_spec mem at_ key value h os ls al :
  table h os ls al ->
  exists b h' os' ls', hashtable_set cfg seed mem at_ key value h = Some (b, h') /\
    table h' os' ls' (if b then Json.hashtable_set al key value else al) /\
    (b = false -> mem_buckets mem && mem_pair mem = false).
Proof using.
  intros H. unfold hashtable_set.
  assert (exists ok h1 ls1, (if hashsize (ht_order h) <=? ht_size h then hashtable_do_rehash (mem_buckets mem) h else Some (true, h)) = Some (ok, h1) /\
    table h1 os ls1 al /\ (ok = false -> mem_buckets mem = false)) as (ok & h1 & ls1 & -> & H1 & Hok).
  { destruct (_ <=? _); [|by exists true, h, ls]. destruct (rehash_spec (mem_buckets mem) _ _ _ _ H) as (h1 & ls1 & E & H1).
    by exists (mem_buckets mem), h1, ls1. }
  cbn [mbind option_bind]. destruct ok; cbn [negb]; [|exists false, h1, os, ls1; split_and!; [done..|intros _; by rewrite Hok]].
  rewrite hash_str_eq. destruct (find_spec _ _ _ _ key H1) as (bk & r & -> & E & Hr). cbn [mbind option_bind]. rewrite E. cbn [mbind option_bind].
  destruct r as [i|].
  - destruct Hr as (k & v & Hi & Hk). destruct (set_value_spec _ _ _ _ _ _ _ _ value H1 Hi Hk) as (h2 & -> & H2).
    by exists true, h2, os, ls1.
  - destruct (mem_pair mem) eqn:Ep; cbn [negb]; [|exists false, h1, os, ls1; split_and!; [done..|intros _; apply andb_false_r]].
    destruct (add_pair_spec _ _ _ _ key value H1 Hr) as (h2 & os2 & ls2 & -> & H2). by exists true, h2, os2, ls2.
Qed.

Lemma get_spec at_ key h os ls al : table h os ls al -> hashtable_get cfg seed at_ key h = Some (Conf.hashtable_get al key).
Proof using.
  intros H. unfold hashtable_get, find_key, bucket_of. rewrite hash_str_eq. destruct (find_spec _ _ _ _ key H) as (bk & r & -> & E & Hr).
  cbn [mbind option_bind]. rewrite E. cbn [mbind option_bind]. destruct r as [i|]; [|by rewrite get_missing].
  destruct Hr as (k & v & Hi & Hk). pose proof (Forall2_lookup_lr _ _ _ _ _ _ (tb_members _ _ _ _ H) Hi Hk) as Ep. cbn in Ep. rewrite Ep.
  cbn [mbind option_bind]. by rewrite (get_existing al k key v) by (done || apply H).
Qed.

Lemma leave_bucket_eq m s1 g1 x g2 s2 :
  chain m (s1 ++ (g1 ++ x :: g2) ++ s2) -> NoDup (g1 ++ x :: g2) ->
  leave_bucket (Some x) (head (g1 ++ x :: g2), last (g1 ++ x :: g2)) m = Some (head (g1 ++ g2), last (g1 ++ g2)).
Proof using.
  intros Hc Hd. replace (s1 ++ (g1 ++ x :: g2) ++ s2) with ((s1 ++ g1) ++ x :: g2 ++ s2) in Hc by (by rewrite <-!app_assoc).
  apply chain_around in Hc as [Ep En]. apply NoDup_app in Hd as (_ & Hg & Hd). apply NoDup_cons in Hd as [Hx _].
  assert (x ∉ g1) as Hx1 by (intros Hi; apply (Hg x Hi); left). unfold leave_bucket. cbn [fst snd].
  destruct g1 as [|y g1]; destruct g2 as [|z g2 _] using rev_ind; cbn [app head].
  - rewrite !bool_decide_true by done. done.
  - rewrite !app_comm_cons, last_snoc. rewrite bool_decide_true, bool_decide_false by (done || set_solver). cbn [andb].
    rewrite En. cbn [mbind option_bind]. rewrite last_snoc, head_app_ne by (by destruct g2). done.
  - rewrite app_nil_r, app_comm_cons, last_snoc, bool_decide_false by (done || set_solver). cbn [andb].
    rewrite bool_decide_true by done. rewrite Ep. cbn [mbind option_bind]. by rewrite last_app_ne by done.
  - rewrite bool_decide_false by (done || set_solver). cbn [andb].
    rewrite !app_comm_cons, !app_assoc, !last_snoc, bool_decide_false by (done || set_solver). done.
Qed.

Lemma slot_delete pairs order i j : j <> i -> slot (delete i pairs) order j = slot pairs order j.
Proof using. intros Hj. unfold slot. by rewrite lookup_delete_ne. Qed.

(** The pair [i] of the key leaves the table. *)
Lemma del_found h o1 i o2 ls a1 key v a2 bk :
  table h (o1 ++ i :: o2) ls (a1 ++ (key, v) :: a2) -> length o1 = length a1 ->
  ht_buckets h !! Z.to_nat (Z.land (key_hash key) (hashmask (ht_order h))) = Some bk ->
  exists bk' m o ls', leave_bucket (Some i) bk (ht_list h) = Some bk' /\ list_remove (Some i) (ht_list h) = Some m /\
    list_remove (Some i) (ht_ordered h) = Some o /\
    table (mk_hashtable (ht_size h - 1) (ht_order h)
             (<[Z.to_nat (Z.land (key_hash key) (hashmask (ht_order h))) := bk']> (ht_buckets h))
             (forget (Some i) m) (forget (Some i) o) (delete i (ht_pairs h)) (ht_fresh h)) (o1 ++ o2) ls' (a1 ++ a2).
Proof using.
  intros H Hlen Hbk. pose proof (table_slot_range (key_hash key) _ (tb_order _ _ _ _ H)) as Hr. pose proof (tb_length _ _ _ _ H) as Hl.
  pose proof (tb_members _ _ _ _ H) as Hm. apply Forall2_app_inv in Hm as [Hm1 Hm2]; [|done]. apply Forall2_cons in Hm2 as [Ei Hm2].
  set (b := Z.land (key_hash key) _) in *. assert (slot (ht_pairs h) (ht_order h) i = b) as Eb by (unfold slot; by rewrite Ei).
  destruct (tb_buckets _ _ _ _ H _ _ Hbk) as (s1 & seg & s2 & Els & Ho & Hs & ->). rewrite Z2Nat.id in Ho, Hs by lia.
  assert (i ∈ seg) as Hi.
  { assert (i ∈ ls) as Hil by (rewrite (tb_perm _ _ _ _ H), elem_of_app; right; left).
    rewrite Els, !elem_of_app in Hil. rewrite Forall_forall in Ho. destruct Hil as [Hi|[Hi|Hi]]; [|done|];
      exfalso; apply (Ho i); [|done| |done]; rewrite elem_of_app; auto. }
  apply list_elem_of_split in Hi as (g1 & g2 & ->).
  pose proof (table_nodup _ _ _ _ H) as Hd. pose proof (tb_list _ _ _ _ H) as Hc. pose proof (tb_perm _ _ _ _ H) as Hp.
  pose proof (tb_nodup _ _ _ _ H) as Hdo. pose proof (tb_ordered _ _ _ _ H) as Hco.
  subst ls. assert (NoDup (g1 ++ i :: g2)) as Hdg.
  { apply NoDup_app in Hd as (_ & _ & Hd). by apply NoDup_app in Hd as [? _]. }
  assert (s1 ++ (g1 ++ i :: g2) ++ s2 = (s1 ++ g1) ++ i :: g2 ++ s2) as E1 by (by rewrite <-!app_assoc).
  assert (s1 ++ (g1 ++ g2) ++ s2 = (s1 ++ g1) ++ g2 ++ s2) as E2 by (by rewrite <-!app_assoc).
  eexists _, _, _, (s1 ++ (g1 ++ g2) ++ s2). split; [by apply (leave_bucket_eq _ s1 _ _ _ s2)|].
  pose proof (tb_buckets _ _ _ _ H) as Hb. rewrite E1 in Hc, Hd, Hp, Hb. rewrite <-!Permutation_middle in Hp. apply Permutation_cons_inv in Hp.
  rewrite <-Permutation_middle in Hd, Hdo. apply NoDup_cons in Hd as [Hil Hd]. apply NoDup_cons in Hdo as [Hio Hdo].
  split; [apply list_remove_eq; [done|]; rewrite not_elem_of_app in Hil; tauto|].
  split; [apply list_remove_eq; [done|]; rewrite not_elem_of_app in Hio; tauto|].
  rewrite E2. split; cbn; try done; try apply H.
  - apply chain_forget; [done|]. by eapply chain_removed.
  - apply chain_forget; [done|]. by eapply chain_removed.
  - apply (members_same (ht_pairs h)); [|by apply Forall2_app]. intros j Hj. rewrite lookup_delete_ne; [done|]. by intros <-.
  - intros j Hj. assert (j <> i) as Hne by (intros ->; rewrite lookup_delete_eq in Hj; by destruct Hj).
    rewrite lookup_delete_ne in Hj by done. apply (tb_dom _ _ _ _ H) in Hj. rewrite elem_of_app, elem_of_cons in Hj. rewrite elem_of_app. tauto.
  - pose proof (tb_keys _ _ _ _ H) as Hk. rewrite fmap_app in *. cbn [fmap list_fmap fst] in Hk.
    rewrite <-Permutation_middle in Hk. by apply NoDup_cons in Hk as [_ ?].
  - rewrite (tb_size _ _ _ _ H), !length_app. cbn [length]. lia.
  - intros n bk' Hn. eapply bucket_ok_ext; [intros j Hj; apply slot_delete; by intros ->|]. destruct (decide (n = Z.to_nat b)) as [->|Hne].
    + rewrite list_lookup_insert_eq in Hn by lia. injection Hn as <-. rewrite Z2Nat.id, <-E2 by lia. by eapply bucket_ok_out.
    + rewrite list_lookup_insert_ne in Hn by done. eapply bucket_ok_leave; [by apply Hb|]. lia.
  - by rewrite length_insert.
  - intros j Hj. apply (tb_fresh _ _ _ _ H). rewrite elem_of_app in *. rewrite elem_of_cons. tauto.
Qed.

Lemma del_spec at_ key h os ls al :
  table h os ls al ->
  exists h' os' ls', hashtable_del cfg seed at_ key h = Some (bool_decide (key ∈ al.*1), h') /\
    table h' os' ls' (filter (fun kv => kv.1 <> key) al).
Proof using.
  intros H. unfold hashtable_del. rewrite hash_str_eq. destruct (find_spec _ _ _ _ key H) as (bk & r & Eb & E & Hr). rewrite Eb.
  cbn [mbind option_bind]. rewrite E. cbn [mbind option_bind]. destruct r as [i|].
  - destruct Hr as (k & v & Hi & Hk). pose proof (Forall2_length _ _ _ (tb_members _ _ _ _ H)) as Hl.
    rewrite <-(take_drop_middle _ _ _ Hi), <-(take_drop_middle _ _ _ Hk) in H. rewrite <-(take_drop_middle _ _ _ Hk).
    destruct (del_found _ _ _ _ _ _ _ _ _ bk H) as (bk' & m & o & ls' & -> & -> & -> & H'); [rewrite !length_take; lia|done|].
    cbn [mbind option_bind]. eexists _, _, ls'. split; [|rewrite (filter_existing _ _ key v); [done|apply H]].
    rewrite bool_decide_true; [done|]. rewrite fmap_app. apply elem_of_app. right. left.
  - exists h, os, ls. rewrite bool_decide_false, filter_missing by done. done.
Qed.

(** *** All the members *)

Lemma clear_loop_spec r m (pairs : gmap positive (pair_t V)) fuel :
  walk m r -> NoDup r -> (forall i, i ∈ r -> is_Some (pairs !! i)) -> (length r < fuel)%nat ->
  exists pairs', clear_loop fuel m (head r) pairs = Some pairs' /\ forall i, is_Some (pairs' !! i) -> is_Some (pairs !! i) /\ i ∉ r.
Proof using.
  revert m pairs fuel. induction r as [|x r IH]; intros m pairs fuel Hw Hd Hp Hf.
  - exists pairs. split; [by destruct fuel|]. intros i Hi. split; [done|]. apply not_elem_of_nil.
  - destruct fuel as [|fuel]; cbn [length] in Hf; [lia|]. cbn [clear_loop head]. apply walk_cons in Hw as [-> Hw].
    destruct (Hp x) as [p Ep]; [left|]. rewrite Ep. cbn [mbind option_bind]. apply NoDup_cons in Hd as [Hx Hd].
    destruct (IH (forget (Some x) m) (delete x pairs) fuel) as (pairs' & E & Hp'); [|done| |lia|].
    + intros a y b ->. cbn. rewrite lookup_delete_ne; [by apply (Hw a)|]. set_solver.
    + intros i Hi. rewrite lookup_delete_ne by (intros ->; done). apply Hp. by right.
    + exists pairs'. split; [done|]. intros i Hi. destruct (Hp' i Hi) as [H1 H2]. destruct (decide (i = x)) as [->|Hne].
      * rewrite lookup_delete_eq in H1. by destruct H1.
      * rewrite lookup_delete_ne in H1 by done. split; [done|]. by apply not_elem_of_cons.
Qed.

Lemma do_clear_spec h os ls al : table h os ls al -> hashtable_do_clear h = Some ∅.
Proof using.
  intros H. unfold hashtable_do_clear. destruct (tb_list _ _ _ _ H [] ls eq_refl) as [En _]. cbn [last] in En. rewrite En. cbn [mbind option_bind].
  destruct (clear_loop_spec ls (ht_list h) (ht_pairs h) (S (size (ht_pairs h)))) as (pairs & E & Hp).
  - apply chain_walk, H.
  - by apply (table_nodup _ _ _ _ H).
  - intros i Hi. rewrite (tb_perm _ _ _ _ H) in Hi. destruct (table_pair _ _ _ _ _ H Hi) as (k & kv & _ & _ & Ei). by eexists.
  - pose proof (table_fuel _ _ _ _ H). lia.
  - rewrite E. f_equal. apply map_empty. intros i. apply eq_None_not_Some. intros [Hi Hn]%Hp. apply Hn.
    rewrite (tb_perm _ _ _ _ H). by apply (tb_dom _ _ _ _ H).
Qed.

Lemma table_clear_spec h os ls al : table h os ls al -> exists h', hashtable_clear h = Some h' /\ table h' [] [] [].
Proof using.
  intros H. unfold hashtable_clear. rewrite (do_clear_spec _ _ _ _ H). cbn [mbind option_bind]. eexists. split; [done|].
  split; cbn; try done; try apply chain_init; try (by constructor); try apply H.
  - by intros i [p Hp].
  - apply empty_buckets_ok.
  - rewrite length_empty_buckets, <-(tb_length _ _ _ _ H). lia.
  - by intros i ?%elem_of_nil.
Qed.

Lemma table_iterate_spec h r al fuel :
  walk (ht_ordered h) r -> Forall2 (fun i kv => ht_pairs h !! i = Some (pair_of kv)) r al -> (length r < fuel)%nat ->
  iterate fuel h (head r) = Some al.
Proof using.
  intros Hw Hm. revert fuel. induction Hm as [|i [k v] r al Hi Hm IH]; intros fuel Hf; [by destruct fuel|].
  destruct fuel as [|fuel]; cbn [length] in Hf; [lia|]. apply walk_cons in Hw as [En Hw]. cbn [iterate head].
  unfold hashtable_iter_key, hashtable_iter_value, hashtable_iter_next. rewrite Hi. cbn [fmap option_fmap option_map mbind option_bind].
  rewrite En. cbn [mbind option_bind]. by rewrite IH by (done || lia).
Qed.

Lemma members_spec h os ls al :
  table h os ls al -> (iter ← hashtable_iter h; iterate (S (size (ht_pairs h))) h iter) = Some al.
Proof using.
  intros H. unfold hashtable_iter, hashtable_iter_next. destruct (tb_ordered _ _ _ _ H [] os eq_refl) as [En _]. cbn [last] in En.
  rewrite En. cbn [mbind option_bind]. apply table_iterate_spec; [apply chain_walk, H|apply H|].
  pose proof (table_fuel _ _ _ _ H) as Hf. rewrite (tb_perm _ _ _ _ H) in Hf. lia.
Qed.

Lemma iter_set_spec at_ key value h os ls al :
  table h os ls al ->
  exists h', perform cfg seed (Iter_set at_ key value) h = Some (Done (bool_decide (key ∈ al.*1)), h') /\
    table h' os ls (if bool_decide (key ∈ al.*1) then Json.hashtable_set al key value else al).
Proof using.
  intros H. cbn [perform]. unfold hashtable_iter_at, find_key, bucket_of. rewrite hash_str_eq.
  destruct (find_spec _ _ _ _ key H) as (bk & r & -> & E & Hr). cbn [mbind option_bind]. rewrite E. cbn [mbind option_bind].
  destruct r as [i|].
  - destruct Hr as (k & v & Hi & Hk). destruct (set_value_spec _ _ _ _ _ _ _ _ value H Hi Hk) as (h' & Es & H').
    unfold hashtable_iter_set. rewrite Es. cbn [mbind option_bind]. exists h'. rewrite bool_decide_true; [done|].
    apply list_elem_of_fmap. exists (key, v). split; [done|]. by eapply list_elem_of_lookup_2.
  - exists h. by rewrite bool_decide_false.
Qed.

(** *** Sequences of operations *)

(** What the operations do to the list of the members. Memory can only be refused to
    [hashtable_set], which then leaves the members as they were. *)
Inductive step (m : list (bytes * V)) : operation V -> answer V -> list (bytes * V) -> Prop :=
| step_set mem at_ key value : step m (Set_ mem at_ key value) (Done true) (Json.hashtable_set m key value)
| step_refused mem at_ key value :
    mem_buckets mem && mem_pair mem = false -> step m (Set_ mem at_ key value) (Done false) m
| step_get at_ key : step m (Get at_ key) (Value (Conf.hashtable_get m key)) m
| step_del at_ key : step m (Del at_ key) (Done (bool_decide (key ∈ m.*1))) (filter (fun kv => kv.1 <> key) m)
| step_clear : step m Clear (Done true) []
| step_iter_set at_ key value :
    key ∈ m.*1 -> step m (Iter_set at_ key value) (Done true) (Json.hashtable_set m key value)
| step_no_iter at_ key value : key ∉ m.*1 -> step m (Iter_set at_ key value) (Done false) m
| step_members : step m Members (Listed m) m.

Inductive steps : list (bytes * V) -> list (operation V) -> list (answer V) -> list (bytes * V) -> Prop :=
| steps_nil m : steps m [] [] m
| steps_cons m m' m'' o l a r : step m o a m' -> steps m' l r m'' -> steps m (o :: l) (a :: r) m''.

Lemma table_perform_spec o h os ls al :
  table h os ls al -> exists a h' os' ls' al', perform cfg seed o h = Some (a, h') /\ step al o a al' /\ table h' os' ls' al'.
Proof using.
  intros H. destruct o as [mem at_ key value|at_ key|at_ key| |at_ key value|].
  - cbn [perform]. destruct (set_spec mem at_ key value _ _ _ _ H) as (b & h' & os' & ls' & -> & H' & Hb). cbn [mbind option_bind].
    eexists _, h', os', ls', _. split; [done|]. split; [|done]. destruct b; [constructor|by constructor; apply Hb].
  - cbn [perform]. rewrite (get_spec at_ key _ _ _ _ H). cbn [mbind option_bind]. eexists _, h, os, ls, al. split; [done|]. by split; [constructor|].
  - cbn [perform]. destruct (del_spec at_ key _ _ _ _ H) as (h' & os' & ls' & -> & H'). cbn [mbind option_bind].
    eexists _, h', os', ls', _. split; [done|]. by split; [constructor|].
  - cbn [perform]. destruct (table_clear_spec _ _ _ _ H) as (h' & -> & H'). cbn [mbind option_bind].
    eexists _, h', [], [], []. split; [done|]. by split; [constructor|].
  - destruct (iter_set_spec at_ key value _ _ _ _ H) as (h' & -> & H'). eexists _, h', os, ls, _. split; [done|]. split; [|done].
    case_bool_decide; by constructor.
  - cbn [perform]. pose proof (members_spec _ _ _ _ H) as E. destruct (hashtable_iter h) as [iter|]; [|done]. cbn [mbind option_bind] in *.
    rewrite E. cbn [mbind option_bind]. eexists _, h, os, ls, al. split; [done|]. by split; [constructor|].
Qed.

Lemma table_perform_all_spec l h os ls al :
  table h os ls al ->
  exists r h' os' ls' al', perform_all cfg seed l h = Some (r, h') /\ steps al l r al' /\ table h' os' ls' al'.
Proof using.
  revert h os ls al. induction l as [|o l IH]; intros h os ls al H.
  - eexists _, h, os, ls, al. split; [done|]. by split; [constructor|].
  - cbn [perform_all]. destruct (table_perform_spec o _ _ _ _ H) as (a & h1 & os1 & ls1 & al1 & -> & Ha & H1). cbn [mbind option_bind].
    destruct (IH _ _ _ _ H1) as (r & h2 & os2 & ls2 & al2 & -> & Hr & H2). cbn [mbind option_bind].
    eexists _, h2, os2, ls2, al2. split; [done|]. split; [by econstructor|done].
Qed.

End Table.

(** C24: The hash tables of JSON objects are the lists of their members: whatever the build
    and the seed of the hash function and wherever the keys are, any sequence of sets, lookups,
    deletions, clearings, replacements through an iterator and iterations on a new table
    comes to its end without following a dangling or uninitialised link, and the answers
    are those of the list of the members in the order in which they were added, also over
    the growing of the table and when memory is refused; the table counts its members,
    whose keys are all different, and no pair of it stays allocated once it is closed. *)
Theorem hashtable_refines {V : Type} (cfg : build) (seed : Z) (l : list (operation V)) :
  exists r h m, perform_all cfg seed l hashtable_init = Some (r, h) /\ steps [] l r m /\
    ht_size h = Z.of_nat (length m) /\ NoDup m.*1 /\ hashtable_close h = Some ∅.
Proof.
  destruct (table_perform_all_spec cfg seed l _ _ _ _ (init_table cfg seed)) as (r & h & os & ls & al & E & Hs & H).
  exists r, h, al. split_and!; [done|done| |apply H|by eapply do_clear_spec]. rewrite (tb_size _ _ _ _ _ _ H). f_equal. by eapply Forall2_length, H.
Qed.

(** Nine members make a table grow from eight buckets to sixteen. *)
Example nine_members :
  let set n := Set_ (mk_memory true true) (mk_place 8 []) [n] (n) in
  let keys := [x61; x62; x63; x64; x65; x66; x67; x68; x69] in
  (fun '(r, h) => (last r, ht_order h)) <$> perform_all (mk_build true false) 1 (map set keys ++ [Del (mk_place 3 []) [x64]; Members]) hashtable_init
  = Some (Some (Listed (map (fun n => ([n], n)) [x61; x62; x63; x65; x66; x67; x68; x69])), 4).
Proof. vm_compute. reflexivity. Qed.

End HashtableRefine.
