(* ===== verification/Value.v ===== *)
(** * The values of jansson: value.c

    Where the other files take a JSON value as a tree ([Json.json]), the code builds it from
    objects in memory that count the references to them: a container owns a reference to each
    of its values, a function called [..._new] takes over the reference it is given, and
    the last reference to go frees an object and gives up the references it owned. Here are
    the cells and the functions on them. An array has its table with room to grow, where
    an entry that was not written is [None]; an object has the list of its members, which is
    what its hash table is ([HashtableRefine.hashtable_refines]), and the order of the
    table, that decides when it allocates. The monad fails ([None]) at an access to memory
    that is freed, not written or out of bounds, and when fuel runs out.

    A reference count does not reach the largest [size_t], which marks the three constants:
    every reference is a pointer in memory. The table of a deleted object is run through
    in the order of its members and not of its buckets. *)
From S2P Require Import Prelude Types Json Conf.

Local Open Scope Z_scope.

Module Value.

(** ** Memory *)

(** A [json_t *]; the constants are static objects. *)
Inductive ptr := NULL | the_true | the_false | the_null | At (l : positive).

#[global] Instance ptr_eq_dec : EqDecision ptr.
Proof. solve_decision. Defined.

Record json_array_t := mk_array {
  a_entries : nat;
  a_table : list (option ptr) }.

Record json_object_t := mk_object {
  o_members : list (bytes * ptr);
  o_order : Z }.

Inductive body :=
| JSON_OBJECT (o : json_object_t)
| JSON_ARRAY (a : json_array_t)
| JSON_STRING (value : bytes)
| JSON_INTEGER (value : Z)
| JSON_REAL (value : bytes).

Record json_t := mk_json {
  refcount : Z;
  contents : body }.

(** [h_alloc] holds the answers of the next allocations, which succeed when there is none. *)
Record heap := mk_heap {
  h_cells : gmap positive json_t;
  h_fresh : positive;
  h_alloc : list bool }.

Definition M (A : Type) : Type := heap -> option (A * heap).

#[global] Instance M_ret : MRet M := fun A a h => Some (a, h).
#[global] Instance M_bind : MBind M := fun A B f m h =>
  match m h with
  | Some (a, h') => f a h'
  | None => None
  end.

(** What must be there. *)
Definition there {A} (o : option A) : M A := fun h => a ← o; Some (a, h).

Definition set_cells (cells : gmap positive json_t) (h : heap) : heap := mk_heap cells (h_fresh h) (h_alloc h).

Definition read (l : positive) : M json_t := fun h => c ← h_cells h !! l; Some (c, h).

Definition write (l : positive) (c : json_t) : M unit := fun h =>
  _ ← h_cells h !! l; Some ((), set_cells (<[l := c]> (h_cells h)) h).

Definition jsonp_free (l : positive) : M unit := fun h =>
  _ ← h_cells h !! l; Some ((), set_cells (delete l (h_cells h)) h).

Definition alloc_ok : M bool := fun h =>
  match h_alloc h with
  | [] => Some (true, h)
  | b :: bs => Some (b, mk_heap (h_cells h) (h_fresh h) bs)
  end.

(** [json_init] on a new object. *)
Definition json_init (b : body) : M ptr := fun h =>
  Some (At (h_fresh h), mk_heap (<[h_fresh h := mk_json 1 b]> (h_cells h)) (Pos.succ (h_fresh h)) (h_alloc h)).

Definition put_contents (l : positive) (b : body) : M unit := c ← read l; write l (mk_json (refcount c) b).

(** The loops over the entries of an array and the values of an object. *)
Fixpoint for_each {A} (l : list A) (f : A -> M unit) : M unit :=
  match l with
  | [] => mret ()
  | a :: l => f a ;; for_each l f
  end.

(** ** References *)

Definition json_incref (p : ptr) : M ptr :=
  match p with
  | At l => c ← read l; write l (mk_json (refcount c + 1) (contents c)) ;; mret p
  | _ => mret p
  end.

Definition array_at (l : positive) : M json_array_t :=
  c ← read l;
  match contents c with
  | JSON_ARRAY a => mret a
  | _ => there None
  end.

Definition object_at (l : positive) : M json_object_t :=
  c ← read l;
  match contents c with
  | JSON_OBJECT o => mret o
  | _ => there None
  end.

(** [array->table[i]]. *)
Definition entry (l : positive) (i : nat) : M ptr := a ← array_at l; there (mjoin (a_table a !! i)).

Section Delete.
Context (decref : ptr -> M unit).

Definition decref_entries (l : positive) (entries : nat) : M unit :=
  for_each (seq 0 entries) (fun i => p ← entry l i; decref p).

Definition json_delete_array (l : positive) (a : json_array_t) : M unit :=
  decref_entries l (a_entries a) ;; jsonp_free l.

Definition hashtable_do_clear (o : json_object_t) : M unit := for_each (o_members o) (fun kv => decref kv.2).

Definition json_delete_object (l : positive) (o : json_object_t) : M unit := hashtable_do_clear o ;; jsonp_free l.

Definition json_delete (l : positive) : M unit :=
  c ← read l;
  match contents c with
  | JSON_OBJECT o => json_delete_object l o
  | JSON_ARRAY a => json_delete_array l a
  | JSON_STRING _ | JSON_INTEGER _ | JSON_REAL _ => jsonp_free l
  end.

End Delete.

(** A value within a value within a value: as deep as there are cells. *)
Fixpoint decref_ (fuel : nat) (p : ptr) : M unit :=
  match fuel with
  | O => there None
  | S fuel =>
      match p with
      | At l =>
          c ← read l;
          write l (mk_json (refcount c - 1) (contents c)) ;;
          if refcount c - 1 =? 0 then json_delete (decref_ fuel) l else mret ()
      | _ => mret ()
      end
  end.

Definition json_decref (p : ptr) : M unit := fun h => decref_ (S (size (h_cells h))) p h.

(** The callers that give up a reference and report an error. *)
Definition refuse (value : ptr) : M bool := json_decref value ;; mret false.

(** The macros [json_is_array] and [json_is_object], with what they tell. *)
Definition is_array (p : ptr) : M (option (positive * json_array_t)) :=
  match p with
  | At l => c ← read l; mret match contents c with JSON_ARRAY a => Some (l, a) | _ => None end
  | _ => mret None
  end.

Definition is_object (p : ptr) : M (option (positive * json_object_t)) :=
  match p with
  | At l => c ← read l; mret match contents c with JSON_OBJECT o => Some (l, o) | _ => None end
  | _ => mret None
  end.

(** ** Strings and numbers *)

Definition string_create (value : option bytes) (own : bool) : M ptr :=
  match value with
  | None => mret NULL
  | Some v =>
      ok ← (if own then mret true else alloc_ok);
      if negb ok then mret NULL
      else ok ← alloc_ok; if negb ok then mret NULL else json_init (JSON_STRING v)
  end.

Definition json_stringn_nocheck (value : option bytes) : M ptr := string_create value false.
Definition json_string_nocheck (value : option bytes) : M ptr := string_create (cstr <$> value) false.

Definition json_stringn (value : option bytes) : M ptr :=
  match value with
  | Some v => if Json.utf8_check_string v then json_stringn_nocheck value else mret NULL
  | None => mret NULL
  end.

Definition json_string (value : option bytes) : M ptr := json_stringn (cstr <$> value).

Definition json_integer (value : Z) : M ptr := ok ← alloc_ok; if negb ok then mret NULL else json_init (JSON_INTEGER value).

(** Reals are kept as their texts; [finite] tells whether the number is one. *)
Definition json_real (finite : bool) (value : bytes) : M ptr :=
  if negb finite then mret NULL else ok ← alloc_ok; if negb ok then mret NULL else json_init (JSON_REAL value).

Definition contents_of (p : ptr) : M (option body) :=
  match p with
  | At l => c ← read l; mret (Some (contents c))
  | _ => mret None
  end.

Definition json_string_value (p : ptr) : M (option bytes) :=
  b ← contents_of p; mret match b with Some (JSON_STRING v) => Some v | _ => None end.

Definition json_integer_value (p : ptr) : M Z :=
  b ← contents_of p; mret match b with Some (JSON_INTEGER v) => v | _ => 0 end.

Definition json_string_setn_nocheck (p : ptr) (value : bytes) : M bool :=
  b ← contents_of p;
  match p, b with
  | At l, Some (JSON_STRING _) =>
      ok ← alloc_ok;
      if negb ok then mret false else put_contents l (JSON_STRING value) ;; mret true
  | _, _ => mret false
  end.

Definition json_string_setn (p : ptr) (value : bytes) : M bool :=
  if Json.utf8_check_string value then json_string_setn_nocheck p value else mret false.

Definition json_integer_set (p : ptr) (value : Z) : M bool :=
  b ← contents_of p;
  match p, b with
  | At l, Some (JSON_INTEGER _) => put_contents l (JSON_INTEGER value) ;; mret true
  | _, _ => mret false
  end.

(** ** Arrays *)

Definition json_array : M ptr :=
  ok ← alloc_ok;
  if negb ok then mret NULL
  else
    ok ← alloc_ok;
    if negb ok then mret NULL else json_init (JSON_ARRAY (mk_array 0 (replicate 8 None))).

Definition json_array_size (p : ptr) : M nat :=
  a ← is_array p; mret match a with Some (_, a) => a_entries a | None => 0%nat end.

Definition json_array_get (p : ptr) (index : nat) : M ptr :=
  a ← is_array p;
  match a with
  | None => mret NULL
  | Some (l, a) => if (a_entries a <=? index)%nat then mret NULL else entry l index
  end.

(** [array->table[index] = value]. *)
Definition set_entry (l : positive) (index : nat) (value : ptr) : M unit :=
  a ← array_at l;
  _ ← there (a_table a !! index);
  put_contents l (JSON_ARRAY (mk_array (a_entries a) (<[index := Some value]> (a_table a)))).

Definition set_entries (l : positive) (entries : nat) : M unit :=
  a ← array_at l; put_contents l (JSON_ARRAY (mk_array entries (a_table a))).

Definition set_table (l : positive) (table : list (option ptr)) : M unit :=
  a ← array_at l; put_contents l (JSON_ARRAY (mk_array (a_entries a) table)).

Definition json_array_set_new (p : ptr) (index : nat) (value : ptr) : M bool :=
  if bool_decide (value = NULL) then mret false
  else
    a ← is_array p;
    match a with
    | None => refuse value
    | Some (l, a) =>
        if bool_decide (p = value) then refuse value
        else if (a_entries a <=? index)%nat then refuse value
        else
          old ← entry l index;
          json_decref old ;;
          set_entry l index value ;;
          mret true
    end.

(** The copy of [count] entries; a copy out of bounds fails. *)
Definition array_copy (dest : list (option ptr)) (dpos : nat) (src : list (option ptr)) (spos count : nat)
  : option (list (option ptr)) :=
  if (dpos + count <=? length dest)%nat && (spos + count <=? length src)%nat then
    Some (take dpos dest ++ take count (drop spos src) ++ drop (dpos + count) dest)
  else None.

Definition array_move (l : positive) (dest src count : nat) : M unit :=
  a ← array_at l;
  table ← there (array_copy (a_table a) dest (a_table a) src count);
  set_table l table.

(** [Some old_table] when the array has a new table, that was not copied into. *)
Inductive grown :=
| No_memory
| Table
| Old_table (table : list (option ptr)).

Definition json_array_grow (l : positive) (amount : nat) (copy : bool) : M grown :=
  a ← array_at l;
  let size := length (a_table a) in
  if (a_entries a + amount <=? size)%nat then mret Table
  else
    let old_table := a_table a in
    let new_size := Nat.max (size + amount) (size * 2) in
    ok ← alloc_ok;
    if negb ok then mret No_memory
    else
      set_table l (replicate new_size None) ;;
      if copy then
        table ← there (array_copy (replicate new_size None) 0 old_table 0 (a_entries a));
        set_table l table ;;
        mret Table
      else mret (Old_table old_table).

Definition json_array_append_new (p : ptr) (value : ptr) : M bool :=
  if bool_decide (value = NULL) then mret false
  else
    a ← is_array p;
    match a with
    | None => refuse value
    | Some (l, a) =>
        if bool_decide (p = value) then refuse value
        else
          g ← json_array_grow l 1 true;
          match g with
          | No_memory => refuse value
          | _ =>
              a ← array_at l;
              set_entry l (a_entries a) value ;;
              set_entries l (S (a_entries a)) ;;
              mret true
          end
    end.

Definition json_array_append (p value : ptr) : M bool := v ← json_incref value; json_array_append_new p v.

(** The entries from [index] on move up by one, into the new table if there is one. *)
Definition open_gap (l : positive) (index : nat) (g : grown) (a : json_array_t) : M unit :=
  match g with
  | Old_table old_table =>
      table ← there (array_copy (a_table a) 0 old_table 0 index);
      table ← there (array_copy table (index + 1) old_table index (a_entries a - index));
      set_table l table
  | _ => array_move l (index + 1) index (a_entries a - index)
  end.

Definition json_array_insert_new (p : ptr) (index : nat) (value : ptr) : M bool :=
  if bool_decide (value = NULL) then mret false
  else
    a ← is_array p;
    match a with
    | None => refuse value
    | Some (l, a) =>
        if bool_decide (p = value) then refuse value
        else if (a_entries a <? index)%nat then refuse value
        else
          g ← json_array_grow l 1 false;
          match g with
          | No_memory => refuse value
          | _ =>
              a ← array_at l;
              open_gap l index g a ;;
              set_entry l index value ;;
              set_entries l (S (a_entries a)) ;;
              mret true
          end
    end.

Definition json_array_remove (p : ptr) (index : nat) : M bool :=
  a ← is_array p;
  match a with
  | None => mret false
  | Some (l, a) =>
      if (a_entries a <=? index)%nat then mret false
      else
        old ← entry l index;
        json_decref old ;;
        (if (index <? a_entries a - 1)%nat then array_move l index (index + 1) (a_entries a - index - 1) else mret ()) ;;
        set_entries l (a_entries a - 1) ;;
        mret true
  end.

Definition json_array_clear (p : ptr) : M bool :=
  a ← is_array p;
  match a with
  | None => mret false
  | Some (l, a) => decref_entries json_decref l (a_entries a) ;; set_entries l 0 ;; mret true
  end.

Definition json_array_extend (p other : ptr) : M bool :=
  a ← is_array p;
  b ← is_array other;
  match a, b with
  | Some (l, a), Some (k, b) =>
      g ← json_array_grow l (a_entries b) true;
      match g with
      | No_memory => mret false
      | _ =>
          for_each (seq 0 (a_entries b)) (fun i => v ← entry k i; json_incref v ;; mret ()) ;;
          a ← array_at l;
          b ← array_at k;
          table ← there (array_copy (a_table a) (a_entries a) (a_table b) 0 (a_entries b));
          set_table l table ;;
          set_entries l (a_entries a + a_entries b) ;;
          mret true
      end
  | _, _ => mret false
  end.

(** ** Objects *)

Definition json_object : M ptr :=
  ok ← alloc_ok;
  if negb ok then mret NULL
  else
    ok ← alloc_ok;
    if negb ok then mret NULL else json_init (JSON_OBJECT (mk_object [] 3)).

Definition json_object_size (p : ptr) : M nat :=
  o ← is_object p; mret match o with Some (_, o) => length (o_members o) | None => 0%nat end.

Definition json_object_getn (p : ptr) (key : bytes) : M ptr :=
  o ← is_object p;
  mret match o with Some (_, o) => default NULL (Conf.hashtable_get (o_members o) key) | None => NULL end.

Definition json_object_get (p : ptr) (key : bytes) : M ptr := json_object_getn p (cstr key).

(** [hashtable_set]: the table grows when it has as many members as buckets. *)
Definition hashtable_set (l : positive) (key : bytes) (value : ptr) : M bool :=
  o ← object_at l;
  let full := 2 ^ o_order o <=? Z.of_nat (length (o_members o)) in
  ok ← (if full then alloc_ok else mret true);
  if negb ok then mret false
  else
    let order := if full then o_order o + 1 else o_order o in
    put_contents l (JSON_OBJECT (mk_object (o_members o) order)) ;;
    match Conf.hashtable_get (o_members o) key with
    | Some old =>
        json_decref old ;;
        o ← object_at l;
        put_contents l (JSON_OBJECT (mk_object (Json.hashtable_set (o_members o) key value) (o_order o))) ;;
        mret true
    | None =>
        ok ← alloc_ok;
        if negb ok then mret false
        else
          put_contents l (JSON_OBJECT (mk_object (o_members o ++ [(key, value)]) order)) ;;
          mret true
    end.

Definition json_object_setn_new_nocheck (p : ptr) (key : bytes) (value : ptr) : M bool :=
  if bool_decide (value = NULL) then mret false
  else
    o ← is_object p;
    match o with
    | None => refuse value
    | Some (l, _) =>
        if bool_decide (p = value) then refuse value
        else ok ← hashtable_set l key value; if negb ok then refuse value else mret true
    end.

Definition json_object_set_new_nocheck (p : ptr) (key : bytes) (value : ptr) : M bool :=
  json_object_setn_new_nocheck p (cstr key) value.

Definition json_object_setn_new (p : ptr) (key : bytes) (value : ptr) : M bool :=
  if Json.utf8_check_string key then json_object_setn_new_nocheck p key value else refuse value.

Definition json_object_set_new (p : ptr) (key : bytes) (value : ptr) : M bool := json_object_setn_new p (cstr key) value.

Definition json_object_set_nocheck (p : ptr) (key : bytes) (value : ptr) : M bool :=
  v ← json_incref value; json_object_set_new_nocheck p key v.

Definition json_object_setn_nocheck (p : ptr) (key : bytes) (value : ptr) : M bool :=
  v ← json_incref value; json_object_setn_new_nocheck p key v.

(** [hashtable_del]. *)
Definition json_object_deln (p : ptr) (key : bytes) : M bool :=
  o ← is_object p;
  match o with
  | None => mret false
  | Some (l, o) =>
      match Conf.hashtable_get (o_members o) key with
      | None => mret false
      | Some old =>
          put_contents l (JSON_OBJECT (mk_object (filter (fun kv => kv.1 <> key) (o_members o)) (o_order o))) ;;
          json_decref old ;;
          mret true
      end
  end.

Definition json_object_del (p : ptr) (key : bytes) : M bool := json_object_deln p (cstr key).

Definition json_object_clear (p : ptr) : M bool :=
  o ← is_object p;
  match o with
  | None => mret false
  | Some (l, o) =>
      hashtable_do_clear json_decref o ;;
      put_contents l (JSON_OBJECT (mk_object [] (o_order o))) ;;
      mret true
  end.

(** [json_object_foreach]: the members from the position [n] on, read as the loop comes to
    them; the loop ends early with [false]. *)
Fixpoint json_object_foreach (fuel : nat) (l : positive) (n : nat) (f : bytes -> ptr -> M bool) : M bool :=
  o ← object_at l;
  match o_members o !! n with
  | None => mret true
  | Some (key, value) =>
      match fuel with
      | O => there None
      | S fuel => ok ← f key value; if negb ok then mret false else json_object_foreach fuel l (S n) f
      end
  end.

(** A key with a NUL byte can make another one, without. *)
Definition foreach (l : positive) (f : bytes -> ptr -> M bool) : M bool :=
  o ← object_at l; json_object_foreach (2 * length (o_members o)) l 0 f.

Definition for_objects (p other : ptr) (f : bytes -> ptr -> M bool) : M bool :=
  a ← is_object p;
  b ← is_object other;
  match a, b with
  | Some _, Some (k, _) => foreach k f
  | _, _ => mret false
  end.

Definition json_object_update (p other : ptr) : M bool :=
  for_objects p other (fun key value => json_object_set_nocheck p key value).

Definition json_object_update_existing (p other : ptr) : M bool :=
  for_objects p other (fun key value =>
    v ← json_object_getn p key;
    (if bool_decide (v = NULL) then mret () else json_object_setn_nocheck p key value ;; mret ()) ;;
    mret true).

Definition json_object_update_missing (p other : ptr) : M bool :=
  for_objects p other (fun key value =>
    v ← json_object_get p key;
    (if bool_decide (v = NULL) then json_object_set_nocheck p key value ;; mret () else mret ()) ;;
    mret true).

(** ** Copies *)

Definition json_string_copy (value : bytes) : M ptr := json_stringn_nocheck (Some value).

Definition json_array_copy (p : ptr) : M ptr :=
  result ← json_array;
  if bool_decide (result = NULL) then mret NULL
  else
    size ← json_array_size p;
    for_each (seq 0 size) (fun i => v ← json_array_get p i; json_array_append result v ;; mret ()) ;;
    mret result.

Definition json_object_copy (l : positive) : M ptr :=
  result ← json_object;
  if bool_decide (result = NULL) then mret NULL
  else
    foreach l (fun key value => json_object_set_nocheck result key value ;; mret true) ;;
    mret result.

Definition json_copy (p : ptr) : M ptr :=
  match p with
  | At l =>
      c ← read l;
      match contents c with
      | JSON_OBJECT _ => json_object_copy l
      | JSON_ARRAY _ => json_array_copy p
      | JSON_STRING v => json_string_copy v
      | JSON_INTEGER v => json_integer v
      | JSON_REAL v => json_real true v
      end
  | _ => mret p
  end.

(** The containers on the way to a value, as their addresses (the code prints these and
    keeps the texts in a table, whose allocations are one answer). *)
Definition jsonp_loop_check (parents : gset positive) (l : positive) : M (option (gset positive)) :=
  if bool_decide (l ∈ parents) then mret None
  else ok ← alloc_ok; mret (if ok : bool then Some ({[l]} ∪ parents) else None).

(** A loop that stops at the first failure. *)
Fixpoint while_ok {A} (l : list A) (f : A -> M bool) : M bool :=
  match l with
  | [] => mret true
  | a :: l => ok ← f a; if negb ok then mret false else while_ok l f
  end.

Section DeepCopy.
Context (copy : ptr -> gset positive -> M ptr).

(** The result, or [NULL] with the part of it given up. *)
Definition copied (result : ptr) (ok : bool) : M ptr :=
  if ok then mret result else json_decref result ;; mret NULL.

Definition json_array_deep_copy (l : positive) (parents : gset positive) : M ptr :=
  p ← jsonp_loop_check parents l;
  match p with
  | None => mret NULL
  | Some parents =>
      result ← json_array;
      if bool_decide (result = NULL) then mret NULL
      else
        size ← json_array_size (At l);
        ok ← while_ok (seq 0 size) (fun i => v ← json_array_get (At l) i; v ← copy v parents; json_array_append_new result v);
        copied result ok
  end.

Definition json_object_deep_copy (l : positive) (parents : gset positive) : M ptr :=
  p ← jsonp_loop_check parents l;
  match p with
  | None => mret NULL
  | Some parents =>
      result ← json_object;
      if bool_decide (result = NULL) then mret NULL
      else
        ok ← foreach l (fun key value => v ← copy value parents; json_object_set_new_nocheck result key v);
        copied result ok
  end.

End DeepCopy.

Fixpoint do_deep_copy (fuel : nat) (p : ptr) (parents : gset positive) : M ptr :=
  match fuel with
  | O => there None
  | S fuel =>
      match p with
      | At l =>
          c ← read l;
          match contents c with
          | JSON_OBJECT _ => json_object_deep_copy (do_deep_copy fuel) l parents
          | JSON_ARRAY _ => json_array_deep_copy (do_deep_copy fuel) l parents
          | JSON_STRING v => json_string_copy v
          | JSON_INTEGER v => json_integer v
          | JSON_REAL v => json_real true v
          end
      | _ => mret p
      end
  end.

(** A way down meets a cell at most once. *)
Definition json_deep_copy (p : ptr) : M ptr := fun h =>
  (ok ← alloc_ok; if negb ok then mret NULL else do_deep_copy (S (S (size (h_cells h)))) p ∅) h.

(** ** The program that uses the values *)

(** It holds references in variables, and a variable that was given away holds [NULL]. *)
Inductive operation :=
| New_array
| New_object
| New_string (value : bytes)
| New_stringn (value : bytes)
| New_integer (value : Z)
| New_real (finite : bool) (value : bytes)
| New_constant (b : option bool)
| Incref (i : nat)
| Decref (i : nat)
| Array_get (i index : nat)
| Array_set_new (i index j : nat)
| Array_append_new (i j : nat)
| Array_insert_new (i index j : nat)
| Array_remove (i index : nat)
| Array_clear (i : nat)
| Array_extend (i j : nat)
| Object_get (i : nat) (key : bytes)
| Object_set_new (i : nat) (key : bytes) (j : nat)
| Object_setn_new (i : nat) (key : bytes) (j : nat)
| Object_del (i : nat) (key : bytes)
| Object_clear (i : nat)
| Object_update (i j : nat)
| Object_update_existing (i j : nat)
| Object_update_missing (i j : nat)
| Copy (i : nat)
| Deep_copy (i : nat)
| String_setn (i : nat) (value : bytes)
| Integer_set (i : nat) (value : Z)
| Array_size (i : nat)
| Object_size (i : nat)
| String_value (i : nat)
| Integer_value (i : nat).

(** A new variable, or a result. *)
Inductive answer :=
| Holds (p : ptr)
| Returned (ok : bool)
| Size (n : nat)
| Text (v : option bytes)
| Number (z : Z).

Definition var (i : nat) (env : list ptr) : ptr := default NULL (env !! i).

Definition constant (b : option bool) : ptr :=
  match b with
  | Some true => the_true
  | Some false => the_false
  | None => the_null
  end.

(** A call that makes a reference, that takes one over, and that does neither. *)
Definition push (env : list ptr) (m : M ptr) : M (answer * list ptr) := p ← m; mret (Holds p, env ++ [p]).
Definition give (j : nat) (env : list ptr) (m : ptr -> M bool) : M (answer * list ptr) :=
  ok ← m (var j env); mret (Returned ok, <[j := NULL]> env).
Definition call {A} (env : list ptr) (a : A -> answer) (m : M A) : M (answer * list ptr) := r ← m; mret (a r, env).

Definition perform (o : operation) (env : list ptr) : M (answer * list ptr) :=
  match o with
  | New_array => push env json_array
  | New_object => push env json_object
  | New_string v => push env (json_string (Some v))
  | New_stringn v => push env (json_stringn (Some v))
  | New_integer z => push env (json_integer z)
  | New_real finite v => push env (json_real finite v)
  | New_constant b => push env (mret (constant b))
  | Incref i => push env (json_incref (var i env))
  | Decref i => give i env (fun p => json_decref p ;; mret true)
  | Array_get i index => push env (p ← json_array_get (var i env) index; json_incref p)
  | Array_set_new i index j => give j env (json_array_set_new (var i env) index)
  | Array_append_new i j => give j env (json_array_append_new (var i env))
  | Array_insert_new i index j => give j env (json_array_insert_new (var i env) index)
  | Array_remove i index => call env Returned (json_array_remove (var i env) index)
  | Array_clear i => call env Returned (json_array_clear (var i env))
  | Array_extend i j => call env Returned (json_array_extend (var i env) (var j env))
  | Object_get i key => push env (p ← json_object_get (var i env) key; json_incref p)
  | Object_set_new i key j => give j env (json_object_set_new (var i env) key)
  | Object_setn_new i key j => give j env (json_object_setn_new (var i env) key)
  | Object_del i key => call env Returned (json_object_del (var i env) key)
  | Object_clear i => call env Returned (json_object_clear (var i env))
  | Object_update i j => call env Returned (json_object_update (var i env) (var j env))
  | Object_update_existing i j => call env Returned (json_object_update_existing (var i env) (var j env))
  | Object_update_missing i j => call env Returned (json_object_update_missing (var i env) (var j env))
  | Copy i => push env (json_copy (var i env))
  | Deep_copy i => push env (json_deep_copy (var i env))
  | String_setn i v => call env Returned (json_string_setn (var i env) v)
  | Integer_set i z => call env Returned (json_integer_set (var i env) z)
  | Array_size i => call env Size (json_array_size (var i env))
  | Object_size i => call env Size (json_object_size (var i env))
  | String_value i => call env Text (json_string_value (var i env))
  | Integer_value i => call env Number (json_integer_value (var i env))
  end.

Fixpoint perform_all (l : list operation) (env : list ptr) : M (list answer * list ptr) :=
  match l with
  | [] => mret ([], env)
  | o :: l => '(a, env) ← perform o env; '(r, env) ← perform_all l env; mret (a :: r, env)
  end.

Definition empty_heap (alloc : list bool) : heap := mk_heap ∅ 1 alloc.

End Value.
