(* ===== verification/ValueRefine.v ===== *)
(** * Counting references is collecting garbage

    The values of [Value] behave like those of a store that frees nothing, has no counts and
    keeps arrays and objects as lists: first the counts and what giving up a reference
    does, then every function against its effect on the store, then programs. *)
From S2P Require Import Prelude Types Json JsonLoad Conf Value.

Local Open Scope Z_scope.

Module ValueRefine.
Import Value.

(** ** The store *)

Inductive value :=
| VObject (members : list (bytes * ptr))
| VArray (entries : list ptr)
| VString (v : bytes)
| VInteger (v : Z)
| VReal (v : bytes).

Abbreviation store := (gmap positive value).

(** The references a value owns. *)
Definition vrefs (v : value) : list ptr :=
  match v with
  | VObject m => m.*2
  | VArray l => l
  | _ => []
  end.

(** What a cell holds. *)
Inductive shows : body -> value -> Prop :=
| shows_object m order : NoDup m.*1 -> Forall (fun p => p <> NULL) m.*2 -> shows (JSON_OBJECT (mk_object m order)) (VObject m)
| shows_array l room : Forall (fun p => p <> NULL) l -> shows (JSON_ARRAY (mk_array (length l) (map Some l ++ room))) (VArray l)
| shows_string v : shows (JSON_STRING v) (VString v)
| shows_integer v : shows (JSON_INTEGER v) (VInteger v)
| shows_real v : shows (JSON_REAL v) (VReal v).

(** ** Runs *)

Definition wp {A} (m : M A) (Q : A -> heap -> Prop) (h : heap) : Prop :=
  match m h with
  | Some (a, h') => Q a h'
  | None => False
  end.

Lemma wp_bind {A B} (m : M A) (f : A -> M B) Q h : wp m (fun a => wp (f a) Q) h -> wp (m ≫= f) Q h.
Proof. unfold wp, mbind, M_bind. by destruct (m h) as [[a h']|]. Qed.

Lemma wp_mono {A} (m : M A) (P Q : A -> heap -> Prop) h : wp m P h -> (forall a h', P a h' -> Q a h') -> wp m Q h.
Proof. unfold wp. destruct (m h) as [[a h']|]; auto. Qed.

Lemma wp_ret {A} (a : A) (Q : A -> heap -> Prop) h : Q a h -> wp (mret a) Q h.
Proof. done. Qed.

Lemma wp_read l (Q : json_t -> heap -> Prop) h c : h_cells h !! l = Some c -> Q c h -> wp (read l) Q h.
Proof. unfold wp, read. by intros ->. Qed.

Lemma wp_write l c c' (Q : unit -> heap -> Prop) h :
  h_cells h !! l = Some c -> Q () (set_cells (<[l := c']> (h_cells h)) h) -> wp (write l c') Q h.
Proof. unfold wp, write. by intros ->. Qed.

Lemma wp_free l c (Q : unit -> heap -> Prop) h :
  h_cells h !! l = Some c -> Q () (set_cells (delete l (h_cells h)) h) -> wp (jsonp_free l) Q h.
Proof. unfold wp, jsonp_free. by intros ->. Qed.

(** ** Counts *)

Definition occ (l : positive) (ps : list ptr) : nat := length (filter (fun p => p = At l) ps).

Definition held (l : positive) (live : store) : nat := map_fold (fun _ v n => (occ l (vrefs v) + n)%nat) 0%nat live.

Definition uses (l : positive) (live : store) (own : list ptr) : nat := (occ l own + held l live)%nat.

Lemma occ_nil l : occ l [] = 0%nat.
Proof. done. Qed.

Lemma occ_cons l p ps : occ l (p :: ps) = ((if decide (p = At l) then 1 else 0) + occ l ps)%nat.
Proof. unfold occ. rewrite filter_cons. by case_decide. Qed.

Lemma occ_app l ps qs : occ l (ps ++ qs) = (occ l ps + occ l qs)%nat.
Proof. unfold occ. by rewrite filter_app, length_app. Qed.

Lemma occ_perm l ps qs : ps ≡ₚ qs -> occ l ps = occ l qs.
Proof. unfold occ. by intros ->. Qed.

Lemma occ_pos l ps : (0 < occ l ps)%nat <-> At l ∈ ps.
Proof.
  unfold occ. split.
  - destruct (filter _ ps) as [|p r] eqn:E; cbn; [lia|]. intros _. assert (p ∈ filter (fun p => p = At l) ps) as Hp by (rewrite E; left).
    apply list_elem_of_filter in Hp as [-> Hp]. done.
  - intros Hp. destruct (filter (fun p => p = At l) ps) as [|q r] eqn:E; cbn; [|lia].
    assert (At l ∈ filter (fun p => p = At l) ps) as H by (by apply list_elem_of_filter). rewrite E in H. by apply elem_of_nil in H.
Qed.

Lemma held_insert l k v live : live !! k = None -> held l (<[k := v]> live) = (occ l (vrefs v) + held l live)%nat.
Proof. intros Hk. unfold held. rewrite map_fold_insert_L; [done|intros; lia|done]. Qed.

Lemma held_delete l k v live : live !! k = Some v -> held l live = (occ l (vrefs v) + held l (delete k live))%nat.
Proof. intros Hk. rewrite <-(insert_delete_id live k v Hk) at 1. apply held_insert, lookup_delete_eq. Qed.

Lemma held_replace l k v v' live :
  live !! k = Some v -> (held l (<[k := v']> live) + occ l (vrefs v) = held l live + occ l (vrefs v'))%nat.
Proof.
  intros Hk. rewrite <-insert_delete_eq, held_insert by apply lookup_delete_eq. rewrite (held_delete l k v live Hk). lia.
Qed.

Lemma held_pos l k v live : live !! k = Some v -> At l ∈ vrefs v -> (0 < held l live)%nat.
Proof. intros Hk Hl%occ_pos. rewrite (held_delete l k v live Hk). lia. Qed.

Create HintDb occ.
#[export] Hint Rewrite occ_nil occ_cons occ_app : occ.

Section Refine.
(** Whether an allocation is ever refused. *)
Context (lacking : Prop).

(** The cells of [live] are counted right, [own] being the references held outside of them;
    those of [X], which are being worked on, need not hold what they own. A cell that is not
    in [live] is on its way to be freed. *)
Record good (X : gset positive) (live : store) (own : list ptr) (h : heap) : Prop := {
  g_cell : forall l v, live !! l = Some v ->
    exists c, h_cells h !! l = Some c /\ refcount c = Z.of_nat (uses l live own) /\ (l ∉ X -> shows (contents c) v);
  g_live : forall l, is_Some (live !! l) <-> (0 < uses l live own)%nat;
  g_fresh : forall l c, h_cells h !! l = Some c -> (l < h_fresh h)%positive;
  g_alloc : false ∈ h_alloc h -> lacking }.

Lemma good_uses X live own own' h : (forall l, occ l own = occ l own') -> good X live own h -> good X live own' h.
Proof using.
  intros Ho [Hc Hl Hf Ha]. assert (forall l, uses l live own = uses l live own') as Hu by (intros l; unfold uses; by rewrite Ho).
  split; [|intros l; rewrite <-Hu; apply Hl|done|done]. intros l v Hv. rewrite <-Hu. by apply Hc.
Qed.

Lemma good_perm X live own own' h : own ≡ₚ own' -> good X live own h -> good X live own' h.
Proof using. intros Hp. apply good_uses. intros l. by apply occ_perm. Qed.

Lemma good_const X live p own h : (forall l, p <> At l) -> good X live (p :: own) h <-> good X live own h.
Proof using.
  intros Hp. split; apply good_uses; intros l; rewrite occ_cons, decide_False; auto.
Qed.

Lemma good_subset X Y live own h : X ⊆ Y -> good X live own h -> good Y live own h.
Proof using.
  intros HX [Hc Hl Hf Ha]. split; [|done..]. intros l v Hv. destruct (Hc l v Hv) as (c & E & Hr & Hs). exists c. split_and!; [done..|].
  intros Hn. apply Hs. set_solver.
Qed.

Lemma good_own X live own h l : good X live own h -> At l ∈ own -> is_Some (live !! l).
Proof using. intros H Hl%occ_pos. apply (g_live _ _ _ _ H). unfold uses. lia. Qed.

Lemma good_ref X live own h k v l : good X live own h -> live !! k = Some v -> At l ∈ vrefs v -> is_Some (live !! l).
Proof using. intros H Hk Hl. apply (g_live _ _ _ _ H). unfold uses. pose proof (held_pos l k v live Hk Hl). lia. Qed.

Lemma good_size X live own h : good X live own h -> (size live <= size (h_cells h))%nat.
Proof using.
  intros H. rewrite <-!size_dom. apply subseteq_size. intros l [v Hv]%elem_of_dom.
  destruct (g_cell _ _ _ _ H l v Hv) as (c & E & _). apply elem_of_dom. by eexists.
Qed.

(** References move between a cell and the outside. *)
Lemma good_retarget X live own own' h l v v' :
  good X live own h -> live !! l = Some v ->
  (forall k, occ k (vrefs v) + occ k own = occ k (vrefs v') + occ k own')%nat ->
  good ({[l]} ∪ X) (<[l := v']> live) own' h.
Proof using.
  intros [Hc Hl Hf Ha] Hv Ho.
  assert (forall k, uses k (<[l := v']> live) own' = uses k live own) as Hu.
  { intros k. unfold uses. pose proof (held_replace k l v v' live Hv). specialize (Ho k). lia. }
  split; [| |done|done].
  - intros k w Hk. rewrite Hu. destruct (decide (k = l)) as [->|Hne].
    + destruct (Hc l v Hv) as (c & E & Hr & Hs). exists c. split_and!; [done..|set_solver].
    + rewrite lookup_insert_ne in Hk by done. destruct (Hc k w Hk) as (c & E & Hr & Hs). exists c. split_and!; [done..|].
      intros Hn. apply Hs. set_solver.
  - intros k. rewrite Hu, <-Hl. destruct (decide (k = l)) as [->|Hne].
    + rewrite lookup_insert_eq, Hv. done.
    + by rewrite lookup_insert_ne.
Qed.

(** A cell is written. *)
Lemma good_settle X live own h l v c b :
  good ({[l]} ∪ X) live own h -> live !! l = Some v -> h_cells h !! l = Some c -> shows b v ->
  good X live own (set_cells (<[l := mk_json (refcount c) b]> (h_cells h)) h).
Proof using.
  intros [Hc Hl Hf Ha] Hv El Hb. split; cbn; [|done| |done].
  - intros k w Hk. destruct (Hc k w Hk) as (c' & E & Hr & Hs). destruct (decide (k = l)) as [->|Hne].
    + rewrite lookup_insert_eq. eexists. split; [done|]. cbn. assert (c' = c) as -> by congruence. split; [done|]. congruence.
    + rewrite lookup_insert_ne by done. exists c'. split_and!; [done..|]. intros Hn. apply Hs. set_solver.
  - intros k c' Hk. destruct (decide (k = l)) as [->|Hne]; [by eapply Hf|]. rewrite lookup_insert_ne in Hk by done. by eapply Hf.
Qed.

(** What giving up references leaves as it was. *)
Record evolves (live live' : store) (h h' : heap) : Prop := {
  e_live : live' ⊆ live;
  e_fresh : h_fresh h' = h_fresh h;
  e_alloc : h_alloc h' = h_alloc h;
  e_kept : forall l, is_Some (live' !! l) -> contents <$> h_cells h' !! l = contents <$> h_cells h !! l;
  e_apart : forall l, live !! l = None -> h_cells h' !! l = h_cells h !! l }.

Lemma evolves_refl live h : evolves live live h h.
Proof using. by split. Qed.

Lemma evolves_trans live live1 live2 h h1 h2 :
  evolves live live1 h h1 -> evolves live1 live2 h1 h2 -> evolves live live2 h h2.
Proof using.
  intros [A1 A2 A3 A4 A5] [B1 B2 B3 B4 B5]. split; [by transitivity live1|congruence|congruence| |].
  - intros l Hl. rewrite B4 by done. apply A4. destruct Hl as [v Hl]. exists v. by eapply lookup_weaken.
  - intros l Hl. rewrite B5; [by apply A5|]. by eapply lookup_weaken_None.
Qed.

(** A cell that stays: it is freed already, or held. *)
Definition stays (live : store) (own : list ptr) (l : positive) : Prop := live !! l = None \/ At l ∈ own.

Lemma stays_contents X live live' own h h' l :
  evolves live live' h h' -> good X live' own h' -> stays live own l -> contents <$> h_cells h' !! l = contents <$> h_cells h !! l.
Proof using.
  intros He Hg [Hl|Hl]; [by rewrite (e_apart _ _ _ _ He)|]. apply (e_kept _ _ _ _ He). by eapply good_own.
Qed.

Lemma stays_evolves live live' own h h' l : evolves live live' h h' -> stays live own l -> stays live' own l.
Proof using. intros He [Hl|Hl]; [left|by right]. eapply lookup_weaken_None; [done|apply He]. Qed.

(** *** Giving up references *)

Definition releases (d : ptr -> M unit) (n : nat) : Prop := forall X live p own h,
  good X live (p :: own) h -> (forall l, l ∈ X -> At l ∈ own) -> (size live < n)%nat ->
  wp (d p) (fun _ h' => exists live', good X live' own h' /\ evolves live live' h h') h.

Lemma evolves_size live live' h h' : evolves live live' h h' -> (size live' <= size live)%nat.
Proof using. intros He. rewrite <-!size_dom. apply subseteq_size, subseteq_dom, He. Qed.

Lemma for_each_releases {A} d n (L : list A) (f : A -> M unit) (g : A -> ptr) X live own h :
  releases d n -> good X live (map g L ++ own) h -> (forall l, l ∈ X -> At l ∈ own) -> (size live < n)%nat ->
  (forall a live' own' h', a ∈ L -> evolves live live' h h' -> good X live' (own' ++ own) h' -> f a h' = d (g a) h') ->
  wp (for_each L f) (fun _ h' => exists live', good X live' own h' /\ evolves live live' h h') h.
Proof using.
  intros Hd. revert live h. induction L as [|a L IH]; intros live h Hg HX Hn Hf.
  - apply wp_ret. exists live. split; [done|]. apply evolves_refl.
  - cbn [for_each]. apply wp_bind. unfold wp.
    rewrite (Hf a live (map g (a :: L)) h) by (done || left || apply evolves_refl).
    assert (wp (d (g a)) (fun _ h' => exists live', good X live' (map g L ++ own) h' /\ evolves live live' h h') h) as H1.
    { apply Hd; [done| |done]. intros l Hl. apply elem_of_app. right. by apply HX. }
    unfold wp in H1. destruct (d (g a) h) as [[[] h1]|]; [|done]. destruct H1 as (live1 & Hg1 & He1).
    fold (wp (for_each L f) (fun _ h' => exists live', good X live' own h' /\ evolves live live' h h') h1).
    eapply wp_mono; [apply (IH live1); [done|done| |]|].
    + pose proof (evolves_size _ _ _ _ He1). lia.
    + intros b live' own' h' Hb He Hg'. eapply (Hf b); [by right|by eapply evolves_trans|done].
    + intros _ h' (live' & Hg' & He'). exists live'. split; [done|]. by eapply evolves_trans.
Qed.

(** The entries of an array that stays. *)
Lemma entry_eq l h a i p :
  contents <$> h_cells h !! l = Some (JSON_ARRAY a) -> a_table a !! i = Some (Some p) -> entry l i h = Some (p, h).
Proof using.
  intros Hc Hi. apply fmap_Some in Hc as (c & Hc & E). unfold entry, array_at, read, mbind, M_bind. cbn. rewrite Hc. cbn.
  rewrite <-E. cbn. by rewrite Hi.
Qed.

Lemma decref_entries_spec d n X live own h l els room :
  releases d n -> good X live (els ++ own) h -> (forall k, k ∈ X -> At k ∈ own) -> (size live < n)%nat -> stays live own l ->
  contents <$> h_cells h !! l = Some (JSON_ARRAY (mk_array (length els) (map Some els ++ room))) ->
  wp (decref_entries d l (length els)) (fun _ h' => exists live', good X live' own h' /\ evolves live live' h h') h.
Proof using.
  intros Hd Hg HX Hn Hl Hc. unfold decref_entries. eapply (for_each_releases d n _ _ (fun i => nth i els NULL)); [done| |done|done|].
  - replace (map _ (seq 0 (length els))) with els; [done|]. apply list_eq. intros i. rewrite list_lookup_fmap.
    destruct (decide (i < length els)%nat) as [Hi|Hi].
    + rewrite lookup_seq_lt by done. cbn. destruct (lookup_lt_is_Some_2 els i Hi) as [p Hp]. by rewrite Hp, (nth_lookup_Some _ _ _ _ Hp).
    + rewrite lookup_seq_ge, lookup_ge_None_2 by lia. done.
  - intros i live' own' h' Hi He Hg'. apply elem_of_seq in Hi as [_ Hi]. cbn in Hi. destruct (lookup_lt_is_Some_2 els i Hi) as [p Hp].
    unfold mbind, M_bind. erewrite entry_eq; [by rewrite (nth_lookup_Some _ _ _ _ Hp)| |].
    + erewrite stays_contents; [exact Hc|exact He|exact Hg'|]. destruct Hl as [Hl|Hl]; [by left|right; apply elem_of_app; by right].
    + cbn. rewrite lookup_app_l by (by rewrite length_map). by rewrite list_lookup_fmap, Hp.
Qed.

Lemma delete_spec d n X live own h l c v :
  releases d n -> good X live (vrefs v ++ own) h -> (forall k, k ∈ X -> At k ∈ own) -> (size live < n)%nat -> live !! l = None ->
  h_cells h !! l = Some c -> shows (contents c) v ->
  wp (json_delete d l) (fun _ h' => exists live', good X live' own h' /\ live' ⊆ live /\ h_fresh h' = h_fresh h /\ h_alloc h' = h_alloc h /\
    (forall k, is_Some (live' !! k) -> contents <$> h_cells h' !! k = contents <$> h_cells h !! k) /\
    (forall k, live !! k = None -> k <> l -> h_cells h' !! k = h_cells h !! k)) h.
Proof using.
  intros Hd Hg HX Hn Hl Hc Hs.
  assert (forall live' h', good X live' own h' -> evolves live live' h h' ->
    wp (jsonp_free l) (fun _ h' => exists live', good X live' own h' /\ live' ⊆ live /\ h_fresh h' = h_fresh h /\ h_alloc h' = h_alloc h /\
    (forall k, is_Some (live' !! k) -> contents <$> h_cells h' !! k = contents <$> h_cells h !! k) /\
    (forall k, live !! k = None -> k <> l -> h_cells h' !! k = h_cells h !! k)) h') as Hfree.
  { intros live' h' Hg' He. eapply wp_free; [rewrite (e_apart _ _ _ _ He) by done; exact Hc|]. exists live'. cbn.
    assert (forall k, is_Some (live' !! k) -> k <> l) as Hne.
    { intros k Hk ->. rewrite (lookup_weaken_None live' live l) in Hk; [by destruct Hk|done|apply He]. }
    split_and!; [|apply He|apply He|apply He| |].
    - destruct Hg' as [Gc Gl Gf Ga]. split; cbn; [|done| |done].
      + intros k w Hk. destruct (Gc k w Hk) as (c' & E & Hr & Hs'). exists c'. rewrite lookup_delete_ne; [done|]. apply not_eq_sym, Hne. by eexists.
      + intros k c' Hk. apply lookup_delete_Some in Hk as [_ Hk]. by eapply Gf.
    - intros k Hk. rewrite lookup_delete_ne by (apply not_eq_sym; auto). by apply (e_kept _ _ _ _ He).
    - intros k Hk Hkl. rewrite lookup_delete_ne by done. by apply (e_apart _ _ _ _ He). }
  unfold json_delete. apply wp_bind. eapply wp_read; [done|]. destruct c as [rc b]. cbn [contents refcount] in *.
  destruct Hs as [m order Hk Hm|els room Hm|s|z|t]; try (by apply (Hfree live); [|apply evolves_refl]).
  - apply wp_bind. eapply wp_mono; [by eapply (for_each_releases d n _ _ snd)|].
    intros _ h' (live' & Hg' & He). by apply (Hfree live').
  - apply wp_bind. eapply wp_mono; [eapply (decref_entries_spec d n X live own); try done; [by left|by rewrite Hc]|].
    intros _ h' (live' & Hg' & He). by apply (Hfree live').
Qed.

Lemma decref_spec n : releases (decref_ n) n.
Proof using.
  induction n as [|n IH]; intros X live p own h Hg HX Hn; [lia|]. cbn [decref_].
  destruct p as [| | | |l]; try (apply wp_ret; exists live; split; [by refine (proj1 (good_const _ _ _ _ _ _) Hg)|apply evolves_refl]).
  destruct (good_own _ _ _ _ l Hg ltac:(left)) as [v Hv]. destruct (g_cell _ _ _ _ Hg l v Hv) as (c & Hc & Hr & Hs).
  apply wp_bind. eapply wp_read; [done|]. apply wp_bind. eapply wp_write; [done|].
  assert (forall k, uses k live (At l :: own) = ((if decide (k = l) then 1 else 0) + uses k live own)%nat) as Hu.
  { intros k. unfold uses. rewrite occ_cons. destruct (decide (k = l)) as [->|Hne]; [by rewrite decide_True|rewrite decide_False by congruence; lia]. }
  pose proof (Hu l) as Hul. rewrite decide_True in Hul by done. set (h1 := set_cells _ h).
  assert (forall k, k <> l -> h_cells h1 !! k = h_cells h !! k) as Hne by (intros k Hk; cbn; by rewrite lookup_insert_ne).
  destruct (Z.eqb_spec (refcount c - 1) 0) as [E|E].
  - assert (uses l live own = 0%nat) as H0 by lia. assert (l ∉ X) as HlX.
    { intros Hl%HX%occ_pos. unfold uses in H0. lia. }
    assert (good X (delete l live) (vrefs v ++ own) h1) as Hg1.
    { destruct Hg as [Gc Gl Gf Ga]. assert (forall k, uses k (delete l live) (vrefs v ++ own) = uses k live own) as Hu1.
      { intros k. unfold uses. rewrite occ_app, (held_delete k l v live Hv). lia. }
      split; cbn; [| | |done].
      - intros k w [Hkl Hk]%lookup_delete_Some. destruct (Gc k w Hk) as (c' & E' & Hr' & Hs'). exists c'. rewrite lookup_insert_ne by done.
        rewrite Hu1. rewrite Hu, decide_False in Hr' by done. done.
      - intros k. rewrite Hu1. destruct (decide (k = l)) as [->|Hkl].
        + rewrite lookup_delete_eq, H0. split; [by intros []|lia].
        + rewrite lookup_delete_ne, Gl, Hu, decide_False by done. done.
      - intros k c' Hk. destruct (decide (k = l)) as [->|Hkl]; [by eapply Gf|]. rewrite lookup_insert_ne in Hk by done. by eapply Gf. }
    eapply wp_mono; [eapply (delete_spec _ n); [done|done|done| |apply lookup_delete_eq|cbn; apply lookup_insert_eq|cbn; by apply Hs]|].
    + rewrite <-(insert_delete_id live l v Hv), map_size_insert_None in Hn by apply lookup_delete_eq. lia.
    + intros _ h' (live' & Hg' & HL & Hfr & Hal & Hke & Hap). exists live'. split; [done|].
      assert (forall k, is_Some (live' !! k) -> k <> l) as Hkl.
      { intros k [w Hk] ->. eapply lookup_weaken in Hk; [|exact HL]. by rewrite lookup_delete_eq in Hk. }
      split; [transitivity (delete l live); [done|apply delete_subseteq]|done|done| |].
      * intros k Hk. rewrite Hke, Hne by auto. done.
      * intros k Hk. assert (k <> l) by congruence. rewrite Hap, Hne by (done || by rewrite lookup_delete_ne). done.
  - apply wp_ret. exists live. split.
    + destruct Hg as [Gc Gl Gf Ga]. split; cbn; [| | |done].
      * intros k w Hk. destruct (Gc k w Hk) as (c' & E' & Hr' & Hs'). rewrite Hu in Hr'. destruct (decide (k = l)) as [->|Hkl].
        -- rewrite lookup_insert_eq. eexists. split; [done|]. cbn. assert (c' = c) as -> by congruence. split; [lia|done].
        -- rewrite lookup_insert_ne by done. exists c'. split_and!; [done|lia|done].
      * intros k. rewrite Gl, Hu. destruct (decide (k = l)) as [->|Hkl]; [|done]. lia.
      * intros k c' Hk. destruct (decide (k = l)) as [->|Hkl]; [by eapply Gf|]. rewrite lookup_insert_ne in Hk by done. by eapply Gf.
    + split; [done|done|done| |].
      * intros k Hk. cbn. destruct (decide (k = l)) as [->|Hkl]; [by rewrite lookup_insert_eq, Hc|by rewrite lookup_insert_ne].
      * intros k Hk. apply Hne. congruence.
Qed.

Lemma json_decref_spec X live p own h :
  good X live (p :: own) h -> (forall l, l ∈ X -> At l ∈ own) ->
  wp (json_decref p) (fun _ h' => exists live', good X live' own h' /\ evolves live live' h h') h.
Proof using.
  intros Hg HX. apply (decref_spec (S (size (h_cells h)))); [done|done|]. pose proof (good_size _ _ _ _ Hg). lia.
Qed.

(** ** The relation to the store *)

(** The cells that are left are among those of the store; [own] are the references held. *)
Definition sim (own : list ptr) (h : heap) (s : store) : Prop :=
  exists live, good ∅ live own h /\ live ⊆ s /\ (forall l v, s !! l = Some v -> (l < h_fresh h)%positive).

(** What can be reached from the references held. *)
Inductive reach (s : store) (own : list ptr) : ptr -> Prop :=
| reach_own p : p ∈ own -> reach s own p
| reach_in l v p : reach s own (At l) -> s !! l = Some v -> p ∈ vrefs v -> reach s own p.

(** The contents of a cell, and the heap with other ones. *)
Definition has (h : heap) (l : positive) (b : body) : Prop := contents <$> h_cells h !! l = Some b.

Definition upd (l : positive) (b : body) (h : heap) : heap :=
  set_cells (alter (fun c => mk_json (refcount c) b) l (h_cells h)) h.

Lemma upd_insert l b h c : h_cells h !! l = Some c -> upd l b h = set_cells (<[l := mk_json (refcount c) b]> (h_cells h)) h.
Proof using.
  intros Hc. unfold upd. f_equal. apply map_eq. intros k. destruct (decide (k = l)) as [->|Hk].
  - by rewrite lookup_alter_eq, Hc, lookup_insert_eq.
  - by rewrite lookup_alter_ne, lookup_insert_ne.
Qed.

Lemma upd_upd l b b' h : upd l b (upd l b' h) = upd l b h.
Proof using.
  unfold upd, set_cells. cbn. f_equal. apply map_eq. intros k. destruct (decide (k = l)) as [->|Hk].
  - rewrite !lookup_alter_eq. by destruct (h_cells h !! l).
  - by rewrite !lookup_alter_ne.
Qed.

Lemma has_upd l b b' h : has h l b' -> has (upd l b h) l b.
Proof using. unfold has, upd. cbn. rewrite lookup_alter_eq. by destruct (h_cells h !! l). Qed.

Lemma has_upd_ne l k b b' h : k <> l -> has h k b' -> has (upd l b h) k b'.
Proof using. intros Hk. unfold has, upd. cbn. by rewrite lookup_alter_ne. Qed.

Lemma wp_contents l b (Q : json_t -> heap -> Prop) h : has h l b -> (forall c, contents c = b -> Q c h) -> wp (read l) Q h.
Proof using. intros (c & Hc & E)%fmap_Some HQ. eapply wp_read; [done|]. by apply HQ. Qed.

Lemma wp_array_at l a (Q : json_array_t -> heap -> Prop) h : has h l (JSON_ARRAY a) -> Q a h -> wp (array_at l) Q h.
Proof using. intros Hh HQ. apply wp_bind. eapply wp_contents; [done|]. by intros c ->. Qed.

Lemma wp_object_at l o (Q : json_object_t -> heap -> Prop) h : has h l (JSON_OBJECT o) -> Q o h -> wp (object_at l) Q h.
Proof using. intros Hh HQ. apply wp_bind. eapply wp_contents; [done|]. by intros c ->. Qed.

Lemma wp_put l b b' (Q : unit -> heap -> Prop) h : has h l b' -> Q () (upd l b h) -> wp (put_contents l b) Q h.
Proof using.
  intros Hh HQ. apply wp_bind. apply fmap_Some in Hh as (c & Hc & E). eapply wp_read; [done|]. eapply wp_write; [done|].
  erewrite upd_insert in HQ by done. done.
Qed.

Lemma wp_there {A} (o : option A) a (Q : A -> heap -> Prop) h : o = Some a -> Q a h -> wp (there o) Q h.
Proof using. by intros ->. Qed.

Lemma wp_entry l a i p (Q : ptr -> heap -> Prop) h :
  has h l (JSON_ARRAY a) -> a_table a !! i = Some (Some p) -> Q p h -> wp (entry l i) Q h.
Proof using. intros Hh Hi HQ. unfold wp. by rewrite (entry_eq _ _ a _ p). Qed.

Lemma sim_perm own own' h s : own ≡ₚ own' -> sim own h s -> sim own' h s.
Proof using. intros Hp (live & Hg & HL & Hf). exists live. split; [by eapply good_perm|done]. Qed.

Lemma sim_const p own h s : (forall l, p <> At l) -> sim (p :: own) h s <-> sim own h s.
Proof using. intros Hp. split; intros (live & Hg & HL & Hf); exists live; (split; [by apply (good_const _ _ p)|done]). Qed.

Lemma sim_live own h s live l :
  good ∅ live own h -> live ⊆ s -> reach s own (At l) -> exists v, live !! l = Some v /\ s !! l = Some v.
Proof using.
  intros Hg HL Hr. remember (At l) as p eqn:Ep. revert l Ep. induction Hr as [p Hp|k v p Hr IH Hk Hp]; intros l ->.
  - destruct (good_own _ _ _ _ l Hg Hp) as [v Hv]. exists v. split; [done|]. by eapply lookup_weaken.
  - destruct (IH k eq_refl) as (v' & Hv & Hv'). assert (v' = v) as -> by congruence.
    destruct (good_ref _ _ _ _ k v l Hg Hv Hp) as [w Hw]. exists w. split; [done|]. by eapply lookup_weaken.
Qed.

Lemma sim_at own h s l : sim own h s -> reach s own (At l) -> exists b v, s !! l = Some v /\ has h l b /\ shows b v.
Proof using.
  intros (live & Hg & HL & Hf) Hr. destruct (sim_live _ _ _ _ _ Hg HL Hr) as (v & Hv & Hs).
  destruct (g_cell _ _ _ _ Hg l v Hv) as (c & Hc & _ & Hsh). exists (contents c), v. split_and!; [done| |by apply Hsh].
  unfold has. by rewrite Hc.
Qed.

Lemma sim_fresh own h s : sim own h s -> s !! h_fresh h = None.
Proof using. intros (live & Hg & HL & Hf). apply eq_None_not_Some. intros [v Hv]. apply Hf in Hv. lia. Qed.

(** A cell that is written, with the references that move between it and the outside. *)
Lemma good_upd X live own own' h l v v' b :
  good X live own h -> live !! l = Some v -> (forall k, occ k (vrefs v) + occ k own = occ k (vrefs v') + occ k own')%nat ->
  shows b v' -> good X (<[l := v']> live) own' (upd l b h).
Proof using.
  intros Hg Hv Ho Hb. destruct (g_cell _ _ _ _ Hg l v Hv) as (c & Hc & _). erewrite upd_insert by done.
  eapply good_settle; [by eapply good_retarget|apply lookup_insert_eq|done|done].
Qed.

Lemma sim_upd own own' h s l v v' b :
  sim own h s -> reach s own (At l) -> s !! l = Some v ->
  (forall k, occ k (vrefs v) + occ k own = occ k (vrefs v') + occ k own')%nat -> shows b v' ->
  sim own' (upd l b h) (<[l := v']> s).
Proof using.
  intros (live & Hg & HL & Hf) Hr Hs Ho Hb. destruct (sim_live _ _ _ _ _ Hg HL Hr) as (w & Hv & Hs'). assert (w = v) as -> by congruence.
  exists (<[l := v']> live). split; [by eapply good_upd|]. split; [by apply insert_mono|]. intros k u Hk.
  destruct (decide (k = l)) as [->|Hne]; [by eapply Hf|]. rewrite lookup_insert_ne in Hk by done. by eapply Hf.
Qed.

Lemma sim_same own h s l v b : sim own h s -> reach s own (At l) -> s !! l = Some v -> shows b v -> sim own (upd l b h) s.
Proof using. intros Hs Hr Hv Hb. rewrite <-(insert_id s l v Hv). by eapply sim_upd. Qed.

(** References given up while a held cell is worked on: [v1] is what it still owns. *)
Lemma sim_release (m : M unit) own own1 h s l v v1 olds :
  sim own h s -> reach s own (At l) -> s !! l = Some v -> At l ∈ own1 ->
  (forall k, occ k (vrefs v) + occ k own = occ k (vrefs v1) + occ k (olds ++ own1))%nat ->
  (forall X live, good X live (olds ++ own1) h -> (forall k, k ∈ X -> At k ∈ own1) ->
     wp m (fun _ h' => exists live', good X live' own1 h' /\ evolves live live' h h') h) ->
  wp m (fun _ h' => contents <$> h_cells h' !! l = contents <$> h_cells h !! l /\
    forall own2 v2 b, (forall k, occ k (vrefs v1) + occ k own1 = occ k (vrefs v2) + occ k own2)%nat -> shows b v2 ->
      sim own2 (upd l b h') (<[l := v2]> s)) h.
Proof using.
  intros (live & Hg & HL & Hf) Hr Hs Hl Ho Hm. destruct (sim_live _ _ _ _ _ Hg HL Hr) as (w & Hv & Hs'). assert (w = v) as -> by congruence.
  pose proof (good_retarget _ _ _ _ _ _ _ _ Hg Hv Ho) as Hg1.
  eapply wp_mono; [apply (Hm _ _ Hg1); set_solver|]. intros _ h' (live' & Hg' & He).
  destruct (good_own _ _ _ _ l Hg' Hl) as [w Hw]. assert (w = v1) as ->.
  { pose proof (lookup_weaken _ _ _ _ Hw (e_live _ _ _ _ He)) as E. rewrite lookup_insert_eq in E. congruence. }
  split; [apply (e_kept _ _ _ _ He); by eexists|]. intros own2 v2 b Ho2 Hb. exists (<[l := v2]> live').
  split; [|split].
  - pose proof (good_retarget _ _ _ _ _ _ _ _ Hg' Hw Ho2) as Hg2. destruct (g_cell _ _ _ _ Hg' l v1 Hw) as (c & Hc & _).
    erewrite upd_insert by done.
    eapply good_settle; [eapply good_subset; [|exact Hg2]; set_solver|apply lookup_insert_eq|done|done].
  - rewrite <-(insert_insert_eq s l v2 v1). apply insert_mono. etransitivity; [apply He|]. by apply insert_mono.
  - intros k u Hk. cbn. rewrite (e_fresh _ _ _ _ He). destruct (decide (k = l)) as [->|Hne]; [by eapply Hf|].
    rewrite lookup_insert_ne in Hk by done. by eapply Hf.
Qed.

(** ** References and new values *)

Lemma sim_decref p own h s : sim (p :: own) h s -> wp (json_decref p) (fun _ h' => sim own h' s) h.
Proof using.
  intros (live & Hg & HL & Hf). eapply wp_mono; [apply (json_decref_spec _ _ _ _ _ Hg); set_solver|].
  intros _ h' (live' & Hg' & He). exists live'. split; [done|]. split; [etransitivity; [apply He|done]|].
  intros l v Hv. rewrite (e_fresh _ _ _ _ He). by eapply Hf.
Qed.

Lemma refuse_spec p own h s : sim (p :: own) h s -> wp (refuse p) (fun ok h' => ok = false /\ sim own h' s) h.
Proof using. intros Hs. apply wp_bind. eapply wp_mono; [by apply sim_decref|]. intros [] h' Hs'. by apply wp_ret. Qed.

Lemma incref_spec p own h s :
  sim own h s -> (forall l, p = At l -> reach s own p) ->
  wp (json_incref p) (fun r h' => r = p /\ sim (p :: own) h' s /\ forall k, contents <$> h_cells h' !! k = contents <$> h_cells h !! k) h.
Proof using.
  intros Hs Hr. destruct p as [| | | |l]; try (apply wp_ret; split_and!; [done|by apply sim_const|done]).
  destruct Hs as (live & Hg & HL & Hf). destruct (sim_live _ _ _ _ _ Hg HL (Hr l eq_refl)) as (v & Hv & Hs).
  destruct (g_cell _ _ _ _ Hg l v Hv) as (c & Hc & Hrc & Hsh). cbn [json_incref].
  apply wp_bind. eapply wp_read; [done|]. apply wp_bind. eapply wp_write; [done|]. apply wp_ret. split_and!; [done| |].
  - exists live. split; [|done]. destruct Hg as [Gc Gl Gf Ga].
    assert (forall k, uses k live (At l :: own) = ((if decide (k = l) then 1 else 0) + uses k live own)%nat) as Hu.
    { intros k. unfold uses. rewrite occ_cons. destruct (decide (k = l)) as [->|Hne]; [by rewrite decide_True|rewrite decide_False by congruence; lia]. }
    split; cbn [h_cells set_cells h_fresh h_alloc]; [| | |done].
    + intros k w Hk. rewrite Hu. destruct (Gc k w Hk) as (c' & E & Hr' & Hs'). destruct (decide (k = l)) as [->|Hne].
      * rewrite lookup_insert_eq. eexists. split; [done|]. cbn. assert (c' = c) as -> by congruence. split; [lia|done].
      * rewrite lookup_insert_ne by done. exists c'. split_and!; [done|lia|done].
    + intros k. rewrite Gl, Hu. destruct (decide (k = l)) as [->|Hne]; [|done]. assert (0 < uses l live own)%nat by (apply Gl; by eexists). lia.
    + intros k c' Hk. destruct (decide (k = l)) as [->|Hne]; [by eapply Gf|]. rewrite lookup_insert_ne in Hk by done. by eapply Gf.
  - intros k. cbn. destruct (decide (k = l)) as [->|Hne]; [by rewrite lookup_insert_eq, Hc|by rewrite lookup_insert_ne].
Qed.

Lemma alloc_ok_spec own h s :
  sim own h s -> wp alloc_ok (fun ok h' => sim own h' s /\ h_cells h' = h_cells h /\ (ok = false -> lacking)) h.
Proof using.
  intros Hs. unfold wp, alloc_ok. destruct (h_alloc h) as [|b bs] eqn:E; [done|].
  destruct Hs as (live & [Gc Gl Gf Ga] & HL & Hf). rewrite E in Ga. split; [|split; [done|intros ->; apply Ga; left]].
  exists live. split; [|done]. split; [done|done|done|]. intros Hb. apply Ga. by right.
Qed.

Lemma init_spec b v own h s :
  sim own h s -> shows b v -> vrefs v = [] ->
  wp (json_init b) (fun p h' => exists l, p = At l /\ s !! l = None /\ sim (At l :: own) h' (<[l := v]> s)) h.
Proof using.
  intros Hs Hb Hv. pose proof (sim_fresh _ _ _ Hs) as Hfr. destruct Hs as (live & Hg & HL & Hf). unfold wp, json_init.
  set (l := h_fresh h) in *. exists l. split; [done|]. split; [done|]. exists (<[l := v]> live).
  assert (live !! l = None) as Hl by (by eapply lookup_weaken_None).
  destruct Hg as [Gc Gl Gf Ga]. assert (uses l live own = 0%nat) as H0.
  { destruct (decide (uses l live own = 0%nat)); [done|]. assert (is_Some (live !! l)) as [w Hw] by (apply Gl; lia). congruence. }
  assert (forall k, uses k (<[l := v]> live) (At l :: own) = ((if decide (k = l) then 1 else 0) + uses k live own)%nat) as Hu.
  { intros k. unfold uses. rewrite held_insert, occ_cons, Hv, occ_nil by done.
    destruct (decide (k = l)) as [->|Hne]; [rewrite decide_True by done; lia|rewrite decide_False by congruence; lia]. }
  split; [|split; [by apply insert_mono|]].
  - split; cbn [h_cells set_cells h_fresh h_alloc]; [| | |done].
    + intros k w Hk. rewrite Hu. destruct (decide (k = l)) as [->|Hne].
      * rewrite lookup_insert_eq in Hk. injection Hk as <-. rewrite lookup_insert_eq, H0. eexists. split; [done|]. done.
      * rewrite lookup_insert_ne in Hk by done. rewrite lookup_insert_ne by done. by apply Gc.
    + intros k. rewrite Hu. destruct (decide (k = l)) as [->|Hne].
      * rewrite lookup_insert_eq. split; [lia|by eexists].
      * by rewrite lookup_insert_ne.
    + intros k c Hk. destruct (decide (k = l)) as [->|Hne]; [lia|]. rewrite lookup_insert_ne in Hk by done. apply Gf in Hk. lia.
  - cbn. intros k w Hk. destruct (decide (k = l)) as [->|Hne]; [lia|]. rewrite lookup_insert_ne in Hk by done. apply Hf in Hk. lia.
Qed.

(** A new value: [NULL] without one, when memory is refused or [ok] does not hold. *)
Definition makes (ok : Prop) (s : store) (v : value) (p : ptr) (s' : store) : Prop :=
  (p = NULL /\ s' = s /\ (ok -> lacking)) \/ (exists l, ok /\ p = At l /\ s !! l = None /\ s' = <[l := v]> s).

Lemma make_spec (b : body) v (ok : Prop) own h s :
  sim own h s -> shows b v -> vrefs v = [] -> ok ->
  wp (x ← alloc_ok; if negb x then mret NULL else json_init b)
    (fun p h' => exists s', sim (p :: own) h' s' /\ makes ok s v p s') h.
Proof using.
  intros Hs Hb Hv Hok. apply wp_bind. eapply wp_mono; [by apply alloc_ok_spec|]. intros x h1 (Hs1 & _ & Hx). destruct x; cbn [negb].
  - eapply wp_mono; [by eapply init_spec|]. intros p h2 (l & -> & Hl & Hs2). exists (<[l := v]> s). split; [done|]. right. by exists l.
  - apply wp_ret. exists s. split; [by apply sim_const|]. left. auto.
Qed.

(** Two allocations. *)
Lemma make2_spec (m : M bool) (b : body) v (ok : Prop) own h s :
  sim own h s -> shows b v -> vrefs v = [] -> ok -> m = alloc_ok ->
  wp (y ← m; if negb y then mret NULL else x ← alloc_ok; if negb x then mret NULL else json_init b)
    (fun p h' => exists s', sim (p :: own) h' s' /\ makes ok s v p s') h.
Proof using.
  intros Hs Hb Hv Hok ->. apply wp_bind. eapply wp_mono; [by apply alloc_ok_spec|]. intros x h1 (Hs1 & _ & Hx). destruct x; cbn [negb].
  - by apply make_spec.
  - apply wp_ret. exists s. split; [by apply sim_const|]. left. auto.
Qed.

Lemma json_array_spec own h s :
  sim own h s -> wp json_array (fun p h' => exists s', sim (p :: own) h' s' /\ makes True s (VArray []) p s') h.
Proof using. intros Hs. apply make2_spec; try done. apply (shows_array [] _). constructor. Qed.

Lemma json_object_spec own h s :
  sim own h s -> wp json_object (fun p h' => exists s', sim (p :: own) h' s' /\ makes True s (VObject []) p s') h.
Proof using. intros Hs. apply make2_spec; try done. constructor; constructor. Qed.

Lemma json_integer_spec z own h s :
  sim own h s -> wp (json_integer z) (fun p h' => exists s', sim (p :: own) h' s' /\ makes True s (VInteger z) p s') h.
Proof using. intros Hs. by apply make_spec; [|constructor|..]. Qed.

Lemma json_real_spec finite t own h s :
  sim own h s -> wp (json_real finite t) (fun p h' => exists s', sim (p :: own) h' s' /\ makes (finite = true) s (VReal t) p s') h.
Proof using.
  intros Hs. unfold json_real. destruct finite; cbn [negb]; [by apply make_spec; [|constructor|..]|].
  apply wp_ret. exists s. split; [by apply sim_const|]. by left.
Qed.

Lemma json_stringn_nocheck_spec v own h s :
  sim own h s -> wp (json_stringn_nocheck (Some v)) (fun p h' => exists s', sim (p :: own) h' s' /\ makes True s (VString v) p s') h.
Proof using. intros Hs. by apply make2_spec; [|constructor|..]. Qed.

Lemma json_stringn_spec v own h s :
  sim own h s ->
  wp (json_stringn (Some v)) (fun p h' => exists s', sim (p :: own) h' s' /\ makes (Json.utf8_check_string v = true) s (VString v) p s') h.
Proof using.
  intros Hs. unfold json_stringn. destruct (Json.utf8_check_string v).
  - by apply make2_spec; [|constructor|..].
  - apply wp_ret. exists s. split; [by apply sim_const|]. by left.
Qed.

(** ** Changing a value *)

(** A call changes the value of [p] by [f], or returns an error and leaves it: because [f]
    does not apply, or for want of memory where [mem] says that it allocates. *)
Inductive changes (mem : Prop) (s : store) (p : ptr) (f : value -> option value) : bool -> store -> Prop :=
| changed l v v' : p = At l -> s !! l = Some v -> f v = Some v' -> changes mem s p f true (<[l := v']> s)
| unchanged : (forall l v, p = At l -> s !! l = Some v -> f v = None) -> changes mem s p f false s
| refused : mem -> lacking -> changes mem s p f false s.

Definition on_array (f : list ptr -> option (list ptr)) (v : value) : option value :=
  match v with VArray l => VArray <$> f l | _ => None end.

Definition on_object (f : list (bytes * ptr) -> option (list (bytes * ptr))) (v : value) : option value :=
  match v with VObject m => VObject <$> f m | _ => None end.

(** A container takes a value that is one, and not itself. *)
Definition taking (p value : ptr) (f : ValueRefine.value -> option ValueRefine.value) (v : ValueRefine.value) : option ValueRefine.value :=
  if bool_decide (value = NULL) || bool_decide (p = value) then None else f v.

Lemma is_array_spec own h s p (Q : option (positive * json_array_t) -> heap -> Prop) :
  sim own h s -> (forall l, p = At l -> reach s own p) ->
  (forall l els room, p = At l -> s !! l = Some (VArray els) -> has h l (JSON_ARRAY (mk_array (length els) (map Some els ++ room))) ->
     Forall (fun p => p <> NULL) els -> Q (Some (l, mk_array (length els) (map Some els ++ room))) h) ->
  ((forall l v els, p = At l -> s !! l = Some v -> v <> VArray els) -> Q None h) ->
  wp (is_array p) Q h.
Proof using.
  intros Hs Hr HS HN. destruct p as [| | | |l]; try (apply wp_ret, HN; done). cbn [is_array].
  destruct (sim_at _ _ _ _ Hs (Hr l eq_refl)) as (b & v & Hv & Hh & Hb). apply wp_bind. eapply wp_contents; [done|]. intros c ->.
  apply wp_ret. destruct Hb as [m order Hk Hm|els room Hm|t|z|t]; try (apply HN; intros k w els [= <-] Hw; rewrite Hv in Hw; by injection Hw as <-).
  by apply HS.
Qed.

Lemma is_object_spec own h s p (Q : option (positive * json_object_t) -> heap -> Prop) :
  sim own h s -> (forall l, p = At l -> reach s own p) ->
  (forall l m order, p = At l -> s !! l = Some (VObject m) -> has h l (JSON_OBJECT (mk_object m order)) ->
     NoDup m.*1 -> Forall (fun p => p <> NULL) m.*2 -> Q (Some (l, mk_object m order)) h) ->
  ((forall l v m, p = At l -> s !! l = Some v -> v <> VObject m) -> Q None h) ->
  wp (is_object p) Q h.
Proof using.
  intros Hs Hr HS HN. destruct p as [| | | |l]; try (apply wp_ret, HN; done). cbn [is_object].
  destruct (sim_at _ _ _ _ Hs (Hr l eq_refl)) as (b & v & Hv & Hh & Hb). apply wp_bind. eapply wp_contents; [done|]. intros c ->.
  apply wp_ret. destruct Hb as [m order Hk Hm|els room Hm|t|z|t]; try (apply HN; intros k w m' [= <-] Hw; rewrite Hv in Hw; by injection Hw as <-).
  by apply HS.
Qed.

Lemma not_array (s : store) p f : (forall l v els, p = At l -> s !! l = Some v -> v <> VArray els) ->
  forall l v, p = At l -> s !! l = Some v -> on_array f v = None.
Proof using. intros H l v Hp Hv. destruct v as [|els| | |]; try done. by destruct (H l _ els Hp Hv). Qed.

Lemma not_object (s : store) p f : (forall l v m, p = At l -> s !! l = Some v -> v <> VObject m) ->
  forall l v, p = At l -> s !! l = Some v -> on_object f v = None.
Proof using. intros H l v Hp Hv. destruct v as [m| | | |]; try done. by destruct (H l _ m Hp Hv). Qed.

Lemma taking_none p value f v : f v = None -> taking p value f v = None.
Proof using. unfold taking. by destruct (_ || _). Qed.

Lemma taking_self p value f v : value = NULL \/ p = value -> taking p value f v = None.
Proof using. intros H. unfold taking. repeat case_bool_decide; cbn; tauto. Qed.

Lemma taking_some p value f v : value <> NULL -> p <> value -> taking p value f v = f v.
Proof using. intros H1 H2. unfold taking. by rewrite !bool_decide_false. Qed.

(** What the functions that take over [value] begin with. *)
Lemma take_array_spec (mem : Prop) (p value : ptr) f own h s (m : positive -> json_array_t -> M bool) :
  sim (value :: own) h s -> (forall l, p = At l -> At l ∈ value :: own) ->
  (forall l els room, p = At l -> value <> NULL -> p <> value -> At l ∈ own -> s !! l = Some (VArray els) ->
     has h l (JSON_ARRAY (mk_array (length els) (map Some els ++ room))) -> Forall (fun p => p <> NULL) els ->
     wp (m l (mk_array (length els) (map Some els ++ room)))
       (fun ok h' => exists s', sim own h' s' /\ changes mem s p (taking p value (on_array f)) ok s') h) ->
  wp (if bool_decide (value = NULL) then mret false
      else a ← is_array p;
        match a with
        | None => refuse value
        | Some (l, a) => if bool_decide (p = value) then refuse value else m l a
        end)
    (fun ok h' => exists s', sim own h' s' /\ changes mem s p (taking p value (on_array f)) ok s') h.
Proof using.
  intros Hs Hp Hm. case_bool_decide as Hv.
  { apply wp_ret. exists s. subst value. split; [by apply (sim_const NULL)|]. apply unchanged. intros. by apply taking_self; left. }
  apply wp_bind. eapply is_array_spec; [done|intros l ->; by apply reach_own, Hp| |].
  - intros l els room El Hsl Hh Hn. case_bool_decide as Hpv.
    + eapply wp_mono; [by apply refuse_spec|]. intros ok h' [-> Hs']. exists s. split; [done|]. apply unchanged. intros. by apply taking_self; right.
    + apply (Hm l els room); try done. subst p. specialize (Hp l eq_refl). apply elem_of_cons in Hp as [?|?]; [congruence|done].
  - intros Hn. eapply wp_mono; [by apply refuse_spec|]. intros ok h' [-> Hs']. exists s. split; [done|]. apply unchanged.
    intros l v El Hl. apply taking_none. by eapply (not_array s p f Hn l v).
Qed.

(** ** Arrays *)

Lemma array_copy_eq p q r u x w :
  length q = length x -> array_copy (p ++ q ++ r) (length p) (u ++ x ++ w) (length u) (length x) = Some (p ++ x ++ r).
Proof using.
  intros Hl. unfold array_copy.
  rewrite (proj2 (Nat.leb_le _ _)), (proj2 (Nat.leb_le _ _)) by (rewrite ?length_app; lia). cbn [andb].
  rewrite take_app_length, drop_app_length, take_app_length. do 2 f_equal. rewrite <-Hl, app_assoc, <-length_app, drop_app_length. done.
Qed.

(** The room for a value between the entries [a] and [b]. *)
Lemma shift_eq (a b : list ptr) (rest room : list (option ptr)) value :
  (length b < length rest)%nat ->
  exists T room', array_copy (map Some a ++ rest) (length a + 1) (map Some a ++ map Some b ++ room) (length a) (length b) = Some T /\
    is_Some (T !! length a) /\ <[length a := Some value]> T = map Some (a ++ value :: b) ++ room'.
Proof using.
  intros Hl. destruct rest as [|y rest]; cbn [length] in Hl; [lia|].
  pose proof (array_copy_eq (map Some a ++ [y]) (take (length b) rest) (drop (length b) rest) (map Some a) (map Some b) room) as E.
  rewrite !length_app, !length_map in E. cbn [length] in E. rewrite take_drop, <-!app_assoc in E. cbn [app] in E.
  rewrite E by (rewrite length_take; lia). eexists _, (drop (length b) rest). split; [done|].
  rewrite <-(length_map Some a). split; [rewrite list_lookup_middle; [by eexists|done]|].
  rewrite <-(Nat.add_0_r (length (map Some a))), insert_app_r. cbn. by rewrite map_app, <-app_assoc.
Qed.

Lemma wp_set_table l a T (Q : unit -> heap -> Prop) h :
  has h l (JSON_ARRAY a) -> Q () (upd l (JSON_ARRAY (mk_array (a_entries a) T)) h) -> wp (set_table l T) Q h.
Proof using. intros Hh HQ. apply wp_bind. eapply wp_array_at; [done|]. by eapply wp_put. Qed.

Lemma wp_set_entries l a n (Q : unit -> heap -> Prop) h :
  has h l (JSON_ARRAY a) -> Q () (upd l (JSON_ARRAY (mk_array n (a_table a))) h) -> wp (set_entries l n) Q h.
Proof using. intros Hh HQ. apply wp_bind. eapply wp_array_at; [done|]. by eapply wp_put. Qed.

Lemma wp_set_entry l a i p (Q : unit -> heap -> Prop) h :
  has h l (JSON_ARRAY a) -> is_Some (a_table a !! i) ->
  Q () (upd l (JSON_ARRAY (mk_array (a_entries a) (<[i := Some p]> (a_table a)))) h) -> wp (set_entry l i p) Q h.
Proof using.
  intros Hh [x Hx] HQ. apply wp_bind. eapply wp_array_at; [done|]. apply wp_bind. eapply wp_there; [done|]. by eapply wp_put.
Qed.

(** The last steps of an insertion: the table [T] has room, and the entries are counted. *)
Lemma finish_array l n T a0 i value (Q : bool -> heap -> Prop) h h0 :
  has h0 l (JSON_ARRAY a0) -> h = upd l (JSON_ARRAY (mk_array n T)) h0 -> is_Some (T !! i) ->
  Q true (upd l (JSON_ARRAY (mk_array (S n) (<[i := Some value]> T))) h0) ->
  wp (set_entry l i value ;; set_entries l (S n) ;; mret true) Q h.
Proof using.
  intros Hh -> HT HQ. apply wp_bind. eapply wp_set_entry; [by eapply has_upd|done|]. rewrite upd_upd.
  apply wp_bind. eapply wp_set_entries; [by eapply has_upd|]. rewrite upd_upd. by apply wp_ret.
Qed.

Lemma upd_id l b h : has h l b -> upd l b h = h.
Proof using.
  intros (c & Hc & E)%fmap_Some. erewrite upd_insert by done. subst b. destruct h as [cells fr al], c as [rc b]. unfold set_cells. cbn in *.
  f_equal. by rewrite insert_id.
Qed.

Section Array.
Context (own : list ptr) (s : store) (l : positive) (els : list ptr).
Context (Hr : reach s own (At l)) (Hl : s !! l = Some (VArray els)) (Hn : Forall (fun p => p <> NULL) els).

Lemma grow_copy_spec h room amount :
  sim own h s -> has h l (JSON_ARRAY (mk_array (length els) (map Some els ++ room))) ->
  wp (json_array_grow l amount true) (fun g h' => sim own h' s /\ (forall k b, k <> l -> has h k b -> has h' k b) /\
    ((g = No_memory /\ lacking) \/
     (g = Table /\ exists room', has h' l (JSON_ARRAY (mk_array (length els) (map Some els ++ room'))) /\ (amount <= length room')%nat))) h.
Proof using Hr Hl Hn.
  intros Hs Hh. apply wp_bind. eapply wp_array_at; [done|]. cbn [a_entries a_table]. rewrite length_app, length_map.
  destruct (Nat.leb_spec (length els + amount) (length els + length room)) as [Hf|Hf].
  { apply wp_ret. split; [done|]. split; [done|]. right. split; [done|]. exists room. split; [done|lia]. }
  apply wp_bind. eapply wp_mono; [by apply alloc_ok_spec|]. intros ok h1 (Hs1 & Hc1 & Hok).
  assert (forall k b, has h k b -> has h1 k b) as Hh1 by (intros k b; unfold has; by rewrite Hc1).
  destruct ok; cbn [negb]; [|apply wp_ret; split; [done|]; split; [auto|]; left; auto].
  apply wp_bind. eapply wp_set_table; [by apply Hh1|]. cbn [a_entries].
  set (ns := Nat.max _ _). apply wp_bind.
  eapply wp_there.
  { replace ns with (length els + (ns - length els))%nat by lia. rewrite replicate_add.
    pose proof (array_copy_eq [] (replicate (length els) None) (replicate (ns - length els) None) [] (map Some els) room) as E.
    rewrite length_replicate, length_map in E. by apply E. }
  apply wp_bind. eapply wp_set_table; [by eapply has_upd, Hh1|]. rewrite upd_upd. cbn [a_entries app]. apply wp_ret.
  split; [eapply sim_same; [done|done|done|by constructor]|].
  split; [intros k b Hk Hb; apply has_upd_ne; auto|]. right. split; [done|]. eexists. split; [by eapply has_upd, Hh1|].
  rewrite length_replicate. lia.
Qed.

Lemma grow_spec h room amount :
  sim own h s -> has h l (JSON_ARRAY (mk_array (length els) (map Some els ++ room))) ->
  wp (json_array_grow l amount false) (fun g h' =>
    (g = No_memory /\ lacking /\ sim own h' s) \/
    exists h1 T, sim own h1 s /\ has h1 l (JSON_ARRAY (mk_array (length els) (map Some els ++ room))) /\
      h' = upd l (JSON_ARRAY (mk_array (length els) T)) h1 /\ (length els + amount <= length T)%nat /\
      (g = Table /\ T = map Some els ++ room \/ g = Old_table (map Some els ++ room))) h.
Proof using.
  intros Hs Hh. apply wp_bind. eapply wp_array_at; [done|]. cbn [a_entries a_table]. rewrite length_app, length_map.
  destruct (Nat.leb_spec (length els + amount) (length els + length room)) as [Hf|Hf].
  { apply wp_ret. right. exists h, (map Some els ++ room). rewrite length_app, length_map, upd_id by done. split_and!; try done. by left. }
  apply wp_bind. eapply wp_mono; [by apply alloc_ok_spec|]. intros ok h1 (Hs1 & Hc1 & Hok).
  assert (forall k b, has h k b -> has h1 k b) as Hh1 by (intros k b; unfold has; by rewrite Hc1).
  destruct ok; cbn [negb]; [|apply wp_ret; left; auto].
  apply wp_bind. eapply wp_set_table; [by apply Hh1|]. apply wp_ret. right. eexists h1, _. split_and!; [done|auto|done| |by right].
  rewrite length_replicate. lia.
Qed.

End Array.

Definition put_at (index : nat) (value : ptr) (l : list ptr) : option (list ptr) :=
  if (index <? length l)%nat then Some (<[index := value]> l) else None.

Definition insert_at (index : nat) (value : ptr) (l : list ptr) : option (list ptr) :=
  if (index <=? length l)%nat then Some (take index l ++ value :: drop index l) else None.

Definition remove_at (index : nat) (l : list ptr) : option (list ptr) :=
  if (index <? length l)%nat then Some (delete index l) else None.

Lemma split_at {A} (l : list A) i x : l !! i = Some x -> exists a b, l = a ++ x :: b /\ i = length a.
Proof using.
  intros Hi. exists (take i l), (drop (S i) l). rewrite take_drop_middle by done. split; [done|].
  apply lookup_lt_Some in Hi. rewrite length_take. lia.
Qed.

Lemma insert_middle {A} (a b : list A) x y : <[length a := y]> (a ++ x :: b) = a ++ y :: b.
Proof using. by rewrite <-(Nat.add_0_r (length a)), insert_app_r. Qed.

Lemma append_new_spec p value own h s :
  sim (value :: own) h s -> (forall l, p = At l -> At l ∈ value :: own) ->
  wp (json_array_append_new p value)
    (fun ok h' => exists s', sim own h' s' /\ changes True s p (taking p value (on_array (fun l => Some (l ++ [value])))) ok s') h.
Proof using.
  intros Hs Hp. unfold json_array_append_new. apply take_array_spec; [done|done|].
  intros l els room El Hv Hpv Hlo Hl Hh Hn. subst p. cbn beta.
  assert (reach s (value :: own) (At l)) as Hr by (apply reach_own; by right).
  apply wp_bind. eapply wp_mono; [by eapply grow_copy_spec|]. intros g h1 (Hs1 & _ & [[-> Hk]|(-> & room' & Hh1 & Hrm)]).
  - eapply wp_mono; [by apply refuse_spec|]. intros ok h2 [-> Hs2]. exists s. split; [done|]. by apply refused.
  - apply wp_bind. eapply wp_array_at; [done|]. cbn [a_entries]. destruct room' as [|r0 room']; cbn [length] in Hrm; [lia|].
    pose proof (insert_middle (map Some els) room' r0 (Some value)) as Ei. rewrite length_map in Ei.
    eapply finish_array; [done|symmetry; by apply upd_id| |].
    + rewrite <-(length_map Some els), list_lookup_middle by done. by eexists.
    + rewrite Ei. exists (<[l := VArray (els ++ [value])]> s). split.
      * eapply sim_upd; [done|done|done| |].
        -- intros k. cbn [vrefs]. autorewrite with occ. lia.
        -- replace (S (length els)) with (length (els ++ [value])) by (rewrite length_app; cbn; lia).
           replace (map Some els ++ Some value :: room') with (map Some (els ++ [value]) ++ room') by (by rewrite map_app, <-app_assoc).
           constructor. apply Forall_app. split; [done|]. by constructor.
      * eapply changed; [done|done|]. by rewrite taking_some.
Qed.

Lemma set_new_spec p index value own h s :
  sim (value :: own) h s -> (forall l, p = At l -> At l ∈ value :: own) ->
  wp (json_array_set_new p index value)
    (fun ok h' => exists s', sim own h' s' /\ changes False s p (taking p value (on_array (put_at index value))) ok s') h.
Proof using.
  intros Hs Hp. unfold json_array_set_new. apply take_array_spec; [done|done|].
  intros l els room El Hv Hpv Hlo Hl Hh Hn. subst p. cbn [a_entries].
  assert (reach s (value :: own) (At l)) as Hr by (apply reach_own; by right).
  destruct (Nat.leb_spec (length els) index) as [Hi|Hi].
  { eapply wp_mono; [by apply refuse_spec|]. intros ok h2 [-> Hs2]. exists s. split; [done|]. apply unchanged.
    intros k v [= <-] Hk. rewrite Hl in Hk. injection Hk as <-. apply taking_none. cbn. unfold put_at. by rewrite (proj2 (Nat.ltb_ge _ _)). }
  destruct (lookup_lt_is_Some_2 els index Hi) as [old Ho]. destruct (split_at _ _ _ Ho) as (a & b & -> & ->).
  apply wp_bind. eapply wp_entry; [done|cbn; by rewrite lookup_app_l, list_lookup_fmap, Ho by (by rewrite length_map)|].
  apply wp_bind. eapply wp_mono; [eapply (sim_release _ _ (value :: own) _ _ l _ (VArray (a ++ b)) [old]); [done|done|done|by right| |]|].
  - intros k. cbn [vrefs]. autorewrite with occ. lia.
  - intros X live Hg HX. by apply json_decref_spec.
  - intros _ h1 (Hc & H2). apply wp_bind. eapply wp_set_entry; [unfold has; rewrite Hc; exact Hh| |].
    + cbn. rewrite lookup_app_l by (by rewrite length_map). by rewrite list_lookup_fmap, Ho.
    + apply wp_ret. cbn [a_entries a_table]. exists (<[l := VArray (a ++ value :: b)]> s). split.
      * apply H2; [intros k; cbn [vrefs]; autorewrite with occ; lia|].
        rewrite map_app, <-app_assoc. cbn [map app]. pose proof (insert_middle (map Some a) (map Some b ++ room) (Some old) (Some value)) as Ei.
        rewrite length_map in Ei. rewrite Ei.
        replace (map Some a ++ Some value :: map Some b ++ room) with (map Some (a ++ value :: b) ++ room) by (by rewrite map_app, <-app_assoc).
        replace (length (a ++ old :: b)) with (length (a ++ value :: b)) by (rewrite !length_app; done).
        constructor. apply Forall_app in Hn as [Ha Hb]. apply Forall_cons in Hb as [_ Hb]. apply Forall_app. split; [done|]. by constructor.
      * eapply changed; [done|done|]. rewrite taking_some by done. cbn. unfold put_at. rewrite (proj2 (Nat.ltb_lt _ _)) by done. by rewrite insert_middle.
Qed.

Lemma open_gap_spec a b T room l g value h :
  has h l (JSON_ARRAY (mk_array (length (a ++ b)) (map Some (a ++ b) ++ room))) -> (length a + length b < length T)%nat ->
  (g = Table /\ T = map Some (a ++ b) ++ room \/ g = Old_table (map Some (a ++ b) ++ room)) ->
  wp (open_gap l (length a) g (mk_array (length (a ++ b)) T)) (fun _ h' => exists T' room',
    h' = upd l (JSON_ARRAY (mk_array (length (a ++ b)) T')) h /\ is_Some (T' !! length a) /\
    <[length a := Some value]> T' = map Some (a ++ value :: b) ++ room')
    (upd l (JSON_ARRAY (mk_array (length (a ++ b)) T)) h).
Proof using.
  intros Hh HT Hg. unfold open_gap. cbn [a_entries a_table]. replace (length (a ++ b) - length a)%nat with (length b) by (rewrite length_app; lia).
  rewrite map_app, <-app_assoc in Hg. destruct Hg as [[-> ->]| ->].
  - rewrite !length_app, !length_map in HT.
    destruct (shift_eq a b (map Some b ++ room) room value) as (T' & room' & E & HT' & ET); [rewrite length_app, length_map; lia|].
    apply wp_bind. eapply wp_array_at; [by eapply has_upd|]. cbn [a_table]. apply wp_bind. eapply wp_there; [exact E|].
    eapply wp_set_table; [by eapply has_upd|]. rewrite upd_upd. by exists T', room'.
  - pose proof (array_copy_eq [] (take (length a) T) (drop (length a) T) [] (map Some a) (map Some b ++ room)) as E0.
    rewrite length_map, length_take in E0. cbn [app length] in E0. rewrite take_drop in E0.
    destruct (shift_eq a b (drop (length a) T) room value) as (T' & room' & E & HT' & ET); [rewrite length_drop; lia|].
    apply wp_bind. eapply wp_there; [apply E0; lia|]. apply wp_bind. eapply wp_there; [exact E|].
    eapply wp_set_table; [by eapply has_upd|]. rewrite upd_upd. by exists T', room'.
Qed.

Lemma insert_new_spec p index value own h s :
  sim (value :: own) h s -> (forall l, p = At l -> At l ∈ value :: own) ->
  wp (json_array_insert_new p index value)
    (fun ok h' => exists s', sim own h' s' /\ changes True s p (taking p value (on_array (insert_at index value))) ok s') h.
Proof using.
  intros Hs Hp. unfold json_array_insert_new. apply take_array_spec; [done|done|].
  intros l els room El Hv Hpv Hlo Hl Hh Hn. subst p. cbn [a_entries].
  assert (reach s (value :: own) (At l)) as Hr by (apply reach_own; by right).
  destruct (Nat.ltb_spec (length els) index) as [Hi|Hi].
  { eapply wp_mono; [by apply refuse_spec|]. intros ok h2 [-> Hs2]. exists s. split; [done|]. apply unchanged.
    intros k v [= <-] Hk. rewrite Hl in Hk. injection Hk as <-. apply taking_none. cbn. unfold insert_at. by rewrite (proj2 (Nat.leb_gt _ _)). }
  assert (exists a b, els = a ++ b /\ index = length a) as (a & b & -> & ->).
  { exists (take index els), (drop index els). rewrite take_drop, length_take. split; [done|lia]. }
  assert (Hf : on_array (insert_at (length a) value) (VArray (a ++ b)) = Some (VArray (a ++ value :: b))).
  { cbn. unfold insert_at. rewrite (proj2 (Nat.leb_le _ _)) by done. by rewrite take_app_length, drop_app_length. }
  apply wp_bind. eapply wp_mono; [by eapply grow_spec|].
  intros g h1 [(-> & Hk & Hs1)|(h2 & T & Hs2 & Hh2 & -> & HT & Hg)].
  { eapply wp_mono; [by apply refuse_spec|]. intros ok h2 [-> Hs2]. exists s. split; [done|]. by apply refused. }
  assert (wp (a0 ← array_at l; open_gap l (length a) g a0 ;; set_entry l (length a) value ;; set_entries l (S (a_entries a0)) ;; mret true)
    (fun ok h' => exists s', sim own h' s' /\ changes True s (At l) (taking (At l) value (on_array (insert_at (length a) value))) ok s')
    (upd l (JSON_ARRAY (mk_array (length (a ++ b)) T)) h2)) as Hm; [|by destruct Hg as [[-> _]| ->]].
  apply wp_bind. eapply wp_array_at; [by eapply has_upd|].
  apply wp_bind. eapply wp_mono; [eapply (open_gap_spec a b T room l g value h2); [done| |done]; rewrite length_app in HT; lia|].
  intros _ h3 (T' & room' & -> & HT' & ET). cbn [a_entries]. eapply finish_array; [done|done|done|]. rewrite ET.
  exists (<[l := VArray (a ++ value :: b)]> s). split.
  - eapply sim_upd; [done|done|done| |].
    + intros k. cbn [vrefs]. autorewrite with occ. lia.
    + replace (S (length (a ++ b))) with (length (a ++ value :: b)) by (rewrite !length_app; cbn; lia).
      constructor. apply Forall_app in Hn as [Ha Hb]. apply Forall_app. split; [done|]. by constructor.
  - eapply changed; [done|done|]. by rewrite taking_some.
Qed.

End Refine.

End ValueRefine.
