(* ===== verification/Slog.v ===== *)
(** * Log lines: src/slog.c

    A message goes through two buffers, [msg] and [line], each written with [snprintf];
    the line is then sent with the length [snprintf] returned, which is the length of
    the whole text even when it did not fit. The descriptor of the log is opened at the
    start and again on [SIGHUP]. *)
From S2P Require Import Prelude Types.

Local Open Scope Z_scope.

Module Slog.

Definition SLOG_MSG_MAX_LEN : nat := 124.

(** [snprintf(buf, size, ...)]: what the buffer holds as a string, and the value
    returned. *)
Definition snprintf (size : Z) (text : bytes) : bytes * Z :=
  (take (Z.to_nat (size - 1)) text, Z.of_nat (length text)).

(** ** The descriptor *)

(** The [log] structure of a server, without the timer. *)
Record log := mk_log {
  log_self : Z;
  log_fd : Z }.

(** [slog_init]; [opened] is what [open] returns for the log file. The second result
    lists the descriptors it closes. *)
Definition slog_init (pid opened : Z) (l : log) : log * list Z :=
  let old_fd := log_fd l in
  let closed := if old_fd =? -1 then [] else [old_fd] in
  if opened =? -1 then (mk_log pid 2, closed) else (mk_log pid opened, closed).

(** The period of the timer that flushes the log, in seconds and microseconds;
    nothing when the product overflows an [int]. *)
Definition slog_fsync_period (period_millis : Z) : option (Z * Z) :=
  let period_usec := period_millis * 1000 in
  if (- 2 ^ 31 <=? period_usec) && (period_usec <? 2 ^ 31)
  then Some (Z.quot period_usec 1000000, Z.rem period_usec 1000000) else None.

(** ** The line *)

Definition no_time : bytes := lit "(NO TIME AVAILABLE)".

(** [c[level]], with the level of its own for the last letter; [None] is an access
    outside the string. *)
Definition slog_letter (level : Z) : option byte :=
  let c := lit "EWNIDT" in
  if level =? WEBDIS_TRACE then c !! 5%nat else if level <? 0 then None else c !! Z.to_nat level.

(** [slog_internal] up to its [write]: the line in the buffer and the number of bytes
    written from it; [sz = 0] stands for the length of the string. *)
Definition slog_internal (self : Z) (now : option bytes) (level : Z) (body : bytes) (sz : Z) : option (bytes * Z) :=
  let sz := if sz =? 0 then Z.of_nat (strlen body) else sz in
  let msg_size := 1 + Z.of_nat SLOG_MSG_MAX_LEN in
  let msg := (snprintf (if msg_size <? sz + 1 then msg_size else sz + 1) (cstr body)).1 in
  let time_buf := default no_time now in
  letter ← slog_letter level;
  Some (snprintf (2 * Z.of_nat SLOG_MSG_MAX_LEN)
          (lit "[" ++ print_int self ++ lit "] " ++ time_buf ++ lit " " ++ [letter] ++ lit " " ++ msg ++ [x0a])).

(** ** Properties *)

Lemma length_print_nat k n : 0 <= n < 10 ^ Z.of_nat (S k) -> (length (print_nat n) <= S k)%nat.
Proof.
  intros Hn. unfold print_nat. rewrite length_map. revert n Hn. induction k as [|k IH]; intros n Hn.
  - rewrite digits_unfold by lia. rewrite (proj2 (Z.ltb_lt n 10)) by lia. done.
  - rewrite digits_unfold by lia. destruct (Z.ltb_spec n 10); [cbn; lia|].
    rewrite length_app. cbn [length]. assert (length (digits 10 (n / 10)) <= S k)%nat; [|lia].
    apply IH. split; [apply Z.div_pos; lia|]. apply Z.div_lt_upper_bound; [lia|].
    rewrite <-Z.pow_succ_r by lia. replace (Z.succ (Z.of_nat (S k))) with (Z.of_nat (S (S k))) by lia. lia.
Qed.

Lemma length_print_pid z : - 2 ^ 31 <= z < 2 ^ 31 -> (length (print_int z) <= 11)%nat.
Proof.
  intros Hz. unfold print_int. destruct (Z.ltb_spec z 0).
  - cbn [length]. pose proof (length_print_nat 9 (- z) ltac:(lia)). lia.
  - pose proof (length_print_nat 9 z ltac:(lia)). lia.
Qed.

Lemma snprintf_fits size text : Z.of_nat (length text) < size -> snprintf size text = (text, Z.of_nat (length text)).
Proof. intros H. unfold snprintf. by rewrite take_ge by lia. Qed.

Definition levels : list Z := [WEBDIS_ERROR; WEBDIS_WARNING; WEBDIS_NOTICE; WEBDIS_INFO; WEBDIS_DEBUG; WEBDIS_TRACE].



(** Reopening the log when the file cannot be opened falls back to the standard error,
    and the next attempt closes it. *)
Example reopen_closes_stderr :
  let (l, _) := slog_init 77 (-1) (mk_log 77 5) in slog_init 77 6 l = (mk_log 77 6, [2]).
Proof. reflexivity. Qed.

(** The period of the flush timer overflows above 35 minutes. *)
Example fsync_period_overflow : slog_fsync_period 2147484 = None /\ slog_fsync_period 1500 = Some (1, 500000).
Proof. done. Qed.

End Slog.
