(* ===== verification/Pool.v ===== *)
(** * The connection pool: src/pool.c, and the sending half of hiredis/async.c

    A worker keeps [pool_size_per_thread] connections to Redis, opened when it
    starts and reopened after a delay when they fail, and hands them out in turn.
    Connections for other databases and for subscriptions are opened with the same
    function but not attached to the pool. *)
From S2P Require Import Prelude Types Http World.

Local Open Scope Z_scope.

Module Pool.
Import Http World.

(** ** Sending a command: [__redisAsyncCommand] *)

Fixpoint dict_find (d : list (bytes * (redis_cb * Z))) (k : bytes) : option (redis_cb * Z) :=
  match d with
  | [] => None
  | (k', v) :: d' => if bytes_eqb k' k then Some v else dict_find d' k
  end.

Fixpoint dict_replace (d : list (bytes * (redis_cb * Z))) (k : bytes) (v : redis_cb * Z)
  : list (bytes * (redis_cb * Z)) :=
  match d with
  | [] => [(k, v)]
  | (k', v') :: d' => if bytes_eqb k' k then (k', v) :: d' else (k', v') :: dict_replace d' k v
  end.

(** The loop over the channels of a subscription; [cb.pending_subs] is kept from
    one turn to the next. *)
Definition subscribe_all (cb : redis_cb) (channels : list bytes) (d : list (bytes * (redis_cb * Z)))
  : list (bytes * (redis_cb * Z)) :=
  (fold_left (fun '(d, pending_subs) ch =>
     let pending_subs :=
       match dict_find d ch with Some (_, n) => n + 1 | None => pending_subs end in
     (dict_replace d ch (cb, pending_subs), pending_subs)) channels (d, 1)).1.

(** [strncasecmp(cstr, s "\r\n", len) == 0] on the formatted command. *)
Definition command_is (name s : bytes) : bool :=
  strncasecmp_eq (length s + 2) (name ++ CRLF) (s ++ CRLF).

Definition append_command (ac : loc) (x : redis_ctx) (argv : list bytes) : M bool :=
  put_ac ac (set_ac_obuf (ac_obuf x ++ [argv]) x) ;;
  emit (EvRedis ac argv) ;;
  mret true.

Definition redisAsyncCommandArgv (ac : loc) (cb : redis_cb) (argv : list bytes) : M bool :=
  x ← get_ac ac;
  if ac_disconnecting x || ac_freeing x then mret false
  else
    match argv with
    | [] => fail AssertFailed
    | name :: args =>
        let pvariant := Byte.eqb (tolower (default x0d (head name))) x70 in
        let cstr := if pvariant then tail name else name in
        if negb (bool_decide (args = [])) && command_is cstr (lit "subscribe") then
          let x := set_ac_subscribed true x in
          let x := if pvariant
                   then set_ac_sub_patterns (subscribe_all cb args (ac_sub_patterns x)) x
                   else set_ac_sub_channels (subscribe_all cb args (ac_sub_channels x)) x in
          append_command ac x argv
        else if command_is cstr (lit "unsubscribe") then
          if negb (ac_subscribed x) then mret false else append_command ac x argv
        else if command_is cstr (lit "monitor") then
          append_command ac (set_ac_replies (ac_replies x ++ [cb]) (set_ac_monitoring true x)) argv
        else if ac_subscribed x then
          append_command ac (set_ac_sub_invalid (ac_sub_invalid x ++ [cb]) x) argv
        else append_command ac (set_ac_replies (ac_replies x ++ [cb]) x) argv
    end.

(** ** pool.c *)

Definition pool_new (count : nat) : pool := mk_pool (replicate count None) 0.

(** worker.c, [worker_new]: nothing is connected yet; [connects] and [allocs] are
    the answers to come. *)
Definition worker_new (cfg : conf) (connects : list connect_result) (allocs : list bool) : world :=
  mk_world cfg ∅ ∅ ∅ ∅ (pool_new (Z.to_nat (cfg_pool_size_per_thread cfg))) 1 [] [] connects allocs false.

(** [pool_schedule_reconnect]: a timer of 0.1 s for [pool_can_connect]. *)
Definition pool_schedule_reconnect : M unit := register OnReconnect.

(** The first index of a slot with the given content. *)
Fixpoint find_slot (slots : list (option loc)) (v : option loc) : option nat :=
  match slots with
  | [] => None
  | s :: rest => if bool_decide (s = v) then Some O else S <$> find_slot rest v
  end.

Definition set_slot (v v' : option loc) (p : pool) : pool :=
  match find_slot (pool_ac p) v with
  | Some i => set_pool_ac (<[i := v']> (pool_ac p)) p
  | None => p
  end.

(** A log line built in an allocated buffer, dropped when there is no memory. *)
Definition log_alloc (level : Z) (body : bytes) : M unit :=
  b ← alloc_ok; when b (slog level body).

Definition pool_on_connect (ac : loc) (status_ok : bool) : M unit :=
  x ← get_ac ac;
  if negb (ac_data x) || negb status_ok || bool_decide (is_Some (ac_err x))
  then when (ac_data x) pool_schedule_reconnect
  else modify (fun w => set_w_pool (set_slot None (Some ac) (w_pool w)) w).

Definition pool_on_disconnect (ac : loc) (status_ok : bool) : M unit :=
  x ← get_ac ac;
  if negb (ac_data x) then skip
  else
    when (negb status_ok)
      (log_alloc WEBDIS_ERROR (lit "Error disconnecting: " ++ default (lit "(null)") (ac_err x))) ;;
    modify (fun w => set_w_pool (set_slot (Some ac) None (w_pool w)) w) ;;
    pool_schedule_reconnect.

Definition pool_on_auth_complete (reply : option redisReply) : M unit :=
  match reply with
  | None => skip
  | Some r =>
      logged ← gets w_auth_logged;
      if (logged : bool) then skip
      else
        match r with
        | REPLY_ERROR s => log_alloc WEBDIS_ERROR (lit "Authentication failed: " ++ s)
        | REPLY_STATUS s => log_alloc WEBDIS_INFO (lit "Authentication succeeded: " ++ s)
        | _ => skip
        end ;;
        modify (set_w_auth_logged true)
  end.

Definition new_ctx (err : option bytes) (attach : bool) : redis_ctx :=
  mk_ctx err false false false false false false attach [] [] [] [] [].

(** The first commands of a connection: [AUTH] if the configuration has
    credentials, [SELECT] unless the database is 0. *)
Definition pool_authenticate (ac : loc) : M unit :=
  cfg ← gets w_cfg;
  match cfg_redis_auth cfg with
  | Some a =>
      password ← deref (auth_password a);
      if auth_use_legacy_auth a then
        _ ← redisAsyncCommandArgv ac CB_AUTH [lit "AUTH"; password]; skip
      else
        username ← deref (auth_username a);
        _ ← redisAsyncCommandArgv ac CB_AUTH [lit "AUTH"; username; password]; skip
  | None => skip
  end.

Definition pool_select (ac : loc) (db_num : Z) : M unit :=
  if db_num =? 0 then skip
  else _ ← redisAsyncCommandArgv ac CB_NULL [lit "SELECT"; print_int db_num]; skip.

(** [redisAsyncFree] on the context of a failed [connect], which has no callback:
    only the memory is released. *)
Definition pool_connect (db_num : Z) (attach : bool) : M (option loc) :=
  r ← connect_answer;
  match r with
  | CONNECT_NULL => fail NullDeref
  | CONNECT_ERR errstr =>
      ac ← fresh;
      put_ac ac (new_ctx (Some errstr) attach) ;;
      log_alloc WEBDIS_ERROR (lit "Connection failed: " ++ errstr) ;;
      del_ac ac ;;
      pool_schedule_reconnect ;;
      mret None
  | CONNECT_OK =>
      ac ← fresh;
      put_ac ac (new_ctx None attach) ;;
      pool_authenticate ac ;;
      pool_select ac db_num ;;
      mret (Some ac)
  end.

(** [pool_can_connect], the timer's callback. *)
Definition pool_can_connect : M unit :=
  cfg ← gets w_cfg; _ ← pool_connect (cfg_database cfg) true; skip.

(** worker.c, [worker_pool_connect]. *)
Fixpoint connect_loop (n : nat) (db : Z) : M unit :=
  match n with
  | O => skip
  | S n' => _ ← pool_connect db true; connect_loop n' db
  end.

Definition worker_pool_connect : M unit :=
  w ← get; connect_loop (length (pool_ac (w_pool w))) (cfg_database (w_cfg w)).

(** The loop of [pool_get_context]: every slot but one is probed at most once, so
    [count] turns are enough. *)
Fixpoint probe_loop (fuel : nat) (slots : list (option loc)) (orig cur : Z)
  : option (option loc * Z) :=
  match fuel with
  | O => None
  | S f =>
      let cur := (cur + 1) mod Z.of_nat (length slots) in
      match slots !! Z.to_nat cur with
      | Some (Some ac) => Some (Some ac, cur)
      | Some None => if cur =? orig then Some (None, cur) else probe_loop f slots orig cur
      | None => None
      end
  end.

Definition pool_get_context : M (option loc) :=
  w ← get;
  let p := w_pool w in
  if pool_count p =? 0 then fail DivisionByZero
  else
    '(ac, cur) ← in_bounds (probe_loop (S (length (pool_ac p))) (pool_ac p) (pool_cur p) (pool_cur p + 1));
    modify (set_w_pool (set_pool_cur cur p)) ;;
    mret ac.

(** ** Handing out a connection *)

(** The slots in the order [pool_get_context] probes them. *)
Definition probe_order (n orig : Z) : list Z :=
  map (fun k => (orig + 2 + k) mod n) (seqZ 0 (Z.max 1 (n - 1))).

Fixpoint first_live (slots : list (option loc)) (idxs : list Z) : option (loc * Z) :=
  match idxs with
  | [] => None
  | i :: rest =>
      match slots !! Z.to_nat i with
      | Some (Some ac) => Some (ac, i)
      | _ => first_live slots rest
      end
  end.

Lemma probe_loop_spec fuel slots orig cur j :
  let n := Z.of_nat (length slots) in
  0 <= orig < n -> 0 <= j < Z.max 1 (n - 1) -> Z.max 1 (n - 1) - j <= Z.of_nat fuel ->
  cur mod n = (orig + 1 + j) mod n ->
  probe_loop fuel slots orig cur =
  Some (match first_live slots (map (fun k => (orig + 2 + k) mod n) (seqZ j (Z.max 1 (n - 1) - j))) with
        | Some (ac, i) => (Some ac, i)
        | None => (None, orig)
        end).
Proof.
  cbv zeta. intros Ho. revert cur j. induction fuel as [|f IH]; intros cur j Hj Hf Hc; [lia|].
  cbn [probe_loop]. rewrite seqZ_cons by lia. cbn [map first_live].
  assert ((cur + 1) mod Z.of_nat (length slots) = (orig + 2 + j) mod Z.of_nat (length slots)) as ->.
  { rewrite <-Zplus_mod_idemp_l, Hc, Zplus_mod_idemp_l. f_equal. lia. }
  set (i := (orig + 2 + j) mod Z.of_nat (length slots)).
  assert (0 <= i < Z.of_nat (length slots)) as Hi by (apply Z.mod_pos_bound; lia).
  assert (is_Some (slots !! Z.to_nat i)) as [[ac|] E] by (apply lookup_lt_is_Some_2; lia);
    rewrite E; [done|]. destruct (Z.eqb_spec i orig) as [Ei|Ei].
  - assert (Z.max 1 (Z.of_nat (length slots) - 1) - j = 1) as Hlast.
    { destruct (Z.eq_dec (Z.of_nat (length slots)) 1); [lia|].
      destruct (Z.lt_ge_cases (orig + 2 + j) (Z.of_nat (length slots))).
      - unfold i in Ei. rewrite Z.mod_small in Ei by lia. lia.
      - unfold i in Ei. rewrite <-(Z_mod_plus_full _ (-1)), Z.mod_small in Ei by lia. lia. }
    rewrite Hlast, Ei. done.
  - destruct (Z.eq_dec (Z.max 1 (Z.of_nat (length slots) - 1) - j) 1) as [Hlast|Hlast].
    + exfalso. apply Ei. unfold i. destruct (Z.eq_dec (Z.of_nat (length slots)) 1) as [H1|H1].
      { rewrite H1, Z.mod_1_r. lia. }
      replace (orig + 2 + j) with (orig + 1 * Z.of_nat (length slots)) by lia.
      by rewrite Z_mod_plus_full, Z.mod_small by lia.
    + rewrite (IH i (j + 1)); [|lia..|].
      * replace (Z.pred (Z.max 1 (Z.of_nat (length slots) - 1) - j))
          with (Z.max 1 (Z.of_nat (length slots) - 1) - (j + 1)) by lia.
        by rewrite Z.add_1_r.
      * unfold i. rewrite Z.mod_mod by lia. f_equal. lia.
Qed.

Definition pool_wf (p : pool) : Prop := 0 <= pool_cur p < pool_count p.

(** [pool_get_context] returns the first live slot of the probe order. *)
Lemma pool_get_context_eq w :
  pool_wf (w_pool w) ->
  let p := w_pool w in
  pool_get_context w =
  match first_live (pool_ac p) (probe_order (pool_count p) (pool_cur p)) with
  | Some (ac, i) => Ok (Some ac) (set_w_pool (set_pool_cur i p) w)
  | None => Ok None (set_w_pool (set_pool_cur (pool_cur p) p) w)
  end.
Proof.
  intros Hwf. cbv zeta. unfold pool_wf, pool_count in Hwf. unfold pool_get_context, get.
  unfold mbind at 1, M_bind at 1. rewrite (proj2 (Z.eqb_neq _ 0)) by (unfold pool_count; lia).
  rewrite (probe_loop_spec _ _ _ _ 0); [|lia..|f_equal; lia].
  unfold probe_order, pool_count. rewrite Z.sub_0_r.
  by destruct (first_live _ _) as [[ac i]|].
Qed.

Lemma first_live_Some slots idxs ac i :
  first_live slots idxs = Some (ac, i) -> i ∈ idxs /\ slots !! Z.to_nat i = Some (Some ac).
Proof.
  induction idxs as [|x idxs IH]; [done|]. cbn [first_live].
  destruct (slots !! Z.to_nat x) as [[a|]|] eqn:E; [|set_solver..].
  intros [= <- <-]. set_solver.
Qed.

Lemma first_live_None slots idxs :
  first_live slots idxs = None <-> forall i ac, i ∈ idxs -> slots !! Z.to_nat i <> Some (Some ac).
Proof.
  induction idxs as [|x idxs IH]; [set_solver|]. cbn [first_live].
  destruct (slots !! Z.to_nat x) as [[a|]|] eqn:E.
  - split; [done|]. intros H. exfalso. by apply (H x a); [set_solver|].
  - rewrite IH. split; intros H i ac; [|set_solver].
    intros [->|Hin]%elem_of_cons; [congruence|by apply H].
  - rewrite IH. split; intros H i ac; [|set_solver].
    intros [->|Hin]%elem_of_cons; [congruence|by apply H].
Qed.

Lemma probe_order_elem n orig i :
  1 <= n -> 0 <= orig < n -> i ∈ probe_order n orig -> 0 <= i < n.
Proof.
  intros Hn Ho. unfold probe_order. rewrite list_elem_of_In, in_map_iff.
  intros (k & <- & _). apply Z.mod_pos_bound. lia.
Qed.

(** With at least two slots, every slot but the one after the current one. *)
Lemma probe_order_all n orig i :
  2 <= n -> 0 <= orig < n -> i ∈ probe_order n orig <-> 0 <= i < n /\ i <> (orig + 1) mod n.
Proof.
  intros Hn Ho. unfold probe_order. rewrite list_elem_of_In, in_map_iff. split.
  - intros (k & <- & Hk). apply list_elem_of_In, elem_of_seqZ in Hk.
    split; [apply Z.mod_pos_bound; lia|]. intros E.
    assert ((orig + 2 + k - (orig + 1)) mod n = 0) as Hz.
    { rewrite Zminus_mod, E, Z.sub_diag. apply Z.mod_0_l. lia. }
    rewrite Z.mod_small in Hz by lia. lia.
  - intros [Hi Hne]. exists ((i - orig - 2) mod n).
    pose proof (Z.mod_pos_bound (i - orig - 2) n ltac:(lia)) as Hb. split.
    + rewrite Zplus_mod_idemp_r. replace (orig + 2 + (i - orig - 2)) with i by lia. by apply Z.mod_small.
    + apply list_elem_of_In, elem_of_seqZ. split; [lia|].
      enough ((i - orig - 2) mod n <> n - 1) by lia. intros E. apply Hne.
      assert ((i - (orig + 1)) mod n = 0) as Hz.
      { replace (i - (orig + 1)) with ((i - orig - 2) + 1) by lia.
        rewrite <-Zplus_mod_idemp_l, E. replace (n - 1 + 1) with n by lia. apply Z.mod_same. lia. }
      rewrite Zminus_mod in Hz. pose proof (Z.mod_pos_bound (orig + 1) n ltac:(lia)) as Hb1.
      rewrite (Z.mod_small i n) in Hz by lia.
      destruct (Z.lt_ge_cases i ((orig + 1) mod n)).
      * rewrite <-(Z_mod_plus_full _ 1), Z.mod_small in Hz by lia. lia.
      * rewrite Z.mod_small in Hz by lia. lia.
Qed.

(** ** The life of the pool *)

(** What the pool depends on in a context: is it attached, is it connected. *)
Definition views (w : world) : gmap loc (bool * bool) :=
  (fun x => (ac_data x, ac_connected x)) <$> w_acs w.

Definition attached (w : world) : nat := size (filter (fun kv => kv.2.1 = true) (views w)).

Definition reconnects (w : world) : nat := length (filter (fun p => p = OnReconnect) (w_pending w)).

(** A computation that leaves the pool alone. *)
Definition keeps (w w' : world) : Prop :=
  views w' = views w /\ w_pool w' = w_pool w /\ w_pending w' = w_pending w /\
  w_next w' = w_next w /\ w_cfg w' = w_cfg w.

#[global] Instance keeps_preorder : PreOrder keeps.
Proof.
  split; [done|]. intros w1 w2 w3 (H1 & H2 & H3 & H4 & H5) (K1 & K2 & K3 & K4 & K5).
  unfold keeps. by rewrite K1, K2, K3, K4, K5.
Qed.

Lemma views_put ac x x' w :
  w_acs w !! ac = Some x -> ac_data x' = ac_data x -> ac_connected x' = ac_connected x ->
  views (set_w_acs (<[ac := x']> (w_acs w)) w) = views w.
Proof.
  intros Hx Hd Hc. unfold views. cbn. rewrite fmap_insert, Hd, Hc. apply insert_id.
  by rewrite lookup_fmap, Hx.
Qed.

Lemma append_command_keeps ac x x' argv w b w' :
  w_acs w !! ac = Some x -> ac_data x' = ac_data x -> ac_connected x' = ac_connected x ->
  append_command ac x' argv w = Ok b w' -> keeps w w'.
Proof.
  intros Hx Hd Hc H. unfold append_command, put_ac, emit in H. M_inv.
  repeat split. by apply (views_put ac x).
Qed.

Lemma redisAsyncCommandArgv_keeps ac cb argv w b w' :
  redisAsyncCommandArgv ac cb argv w = Ok b w' -> keeps w w'.
Proof.
  unfold redisAsyncCommandArgv. intros H. M_inv.
  destruct (ac_disconnecting x || ac_freeing x); [by M_inv|].
  destruct argv as [|name args]; [by M_inv|]. cbv zeta in *.
  set (pv := Byte.eqb _ _) in *. set (cs := if pv then _ else _) in *.
  assert (forall x', ac_data x' = ac_data x -> ac_connected x' = ac_connected x ->
    append_command ac x' (name :: args) w = Ok b w' -> keeps w w') as Happ
    by (intros; by eapply append_command_keeps).
  destruct (_ && command_is cs _); [destruct pv; by eapply Happ; try eassumption|].
  destruct (command_is cs _); [destruct (negb _); [by M_inv|by eapply Happ; try eassumption]|].
  destruct (command_is cs _); [by eapply Happ; try eassumption|].
  destruct (ac_subscribed x); by eapply Happ; try eassumption.
Qed.

Lemma log_alloc_keeps level body w r w' :
  log_alloc level body w = Ok r w' -> keeps w w' /\ w_acs w' = w_acs w.
Proof.
  unfold log_alloc, alloc_ok, slog, slog_enabled, when, emit. intros H. M_inv.
  destruct (w_alloc w) as [|b bs]; M_inv; [|destruct b; M_inv; [|done]]; by destruct (_ <=? _); M_inv.
Qed.

Lemma pool_authenticate_keeps ac w r w' : pool_authenticate ac w = Ok r w' -> keeps w w'.
Proof.
  unfold pool_authenticate, deref. intros H. M_inv. destruct (cfg_redis_auth _) as [a|]; [|by M_inv].
  destruct (auth_password a); M_inv. destruct (auth_use_legacy_auth a); M_inv;
    [by eapply redisAsyncCommandArgv_keeps|].
  destruct (auth_username a); M_inv. by eapply redisAsyncCommandArgv_keeps.
Qed.

Lemma pool_select_keeps ac db w r w' : pool_select ac db w = Ok r w' -> keeps w w'.
Proof.
  unfold pool_select. intros H. destruct (db =? 0); M_inv; [done|by eapply redisAsyncCommandArgv_keeps].
Qed.

Lemma connect_answer_keeps w r w' :
  connect_answer w = Ok r w' -> keeps w w' /\ w_acs w' = w_acs w.
Proof. unfold connect_answer. intros H. M_inv. by destruct (w_connect w); M_inv. Qed.

(** A new connection is a fresh context that is not connected yet; a failure only
    leaves a timer behind. *)
Lemma pool_connect_spec db attach w r w' :
  w_acs w !! w_next w = None -> pool_connect db attach w = Ok r w' ->
  w_pool w' = w_pool w /\ w_cfg w' = w_cfg w /\ w_next w' = Pos.succ (w_next w) /\
  ((r = Some (w_next w) /\ w_pending w' = w_pending w /\
    views w' = <[w_next w := (attach, false)]> (views w)) \/
   (r = None /\ w_pending w' = w_pending w ++ [OnReconnect] /\ views w' = views w)).
Proof.
  intros Hfresh H. unfold pool_connect in H. apply bind_ok in H as (ans & w0 & H0 & H).
  apply connect_answer_keeps in H0 as [(_ & Hp & Hpe & Hn & Hc) Ha].
  destruct ans as [|errstr|]; [| |by M_inv]; unfold fresh, put_ac in H; M_inv.
  - match goal with H : pool_authenticate _ _ = _ |- _ => apply pool_authenticate_keeps in H as K1 end.
    match goal with H : pool_select _ _ _ = _ |- _ => apply pool_select_keeps in H as K2 end.
    destruct (transitivity K1 K2) as (E1 & E2 & E3 & E4 & E5). rewrite E1, E2, E3, E4, E5.
    cbn. rewrite Hp, Hpe, Hn, Hc. repeat split. left. repeat split.
    unfold views. cbn. by rewrite fmap_insert, Ha.
  - unfold del_ac, pool_schedule_reconnect, register in *. M_inv.
    match goal with H : log_alloc _ _ _ = _ |- _ => apply log_alloc_keeps in H as [(_ & E2 & E3 & E4 & E5) E6] end.
    cbn in *. rewrite E2, E3, E4, E5, Hp, Hpe, Hn, Hc. repeat split. right. repeat split.
    unfold views. cbn. rewrite E6, Hn, Ha. by rewrite delete_insert_id.
Qed.

(** The steps of a worker that concern the pool. [step_connected] to
    [step_disconnected] are the calls hiredis makes from the event loop, with what
    it does to the context around them; every other event keeps the pool as it
    is. *)
Inductive pool_step : world -> world -> Prop :=
| step_timer w l1 l2 w' :
    w_pending w = l1 ++ OnReconnect :: l2 ->
    pool_can_connect (set_w_pending (l1 ++ l2) w) = Ok () w' -> pool_step w w'
| step_unattached w db r w' : pool_connect db false w = Ok r w' -> pool_step w w'
| step_connected w ac x w' :
    w_acs w !! ac = Some x -> ac_connected x = false ->
    (pool_on_connect ac true ;; upd_ac ac (set_ac_connected true)) w = Ok () w' -> pool_step w w'
| step_connect_failed w ac x w' :
    w_acs w !! ac = Some x -> ac_connected x = false ->
    (pool_on_connect ac false ;; del_ac ac) w = Ok () w' -> pool_step w w'
| step_disconnected w ac x status w' :
    w_acs w !! ac = Some x -> ac_connected x = true ->
    (pool_on_disconnect ac status ;; del_ac ac) w = Ok () w' -> pool_step w w'
| step_get w r w' : pool_get_context w = Ok r w' -> pool_step w w'
| step_other w w' : keeps w w' -> pool_step w w'.

(** Locations in use are below the next one; the slots hold distinct contexts that
    are live, attached and connected; and the attached connections with the timers
    are at least as many as the slots: no failure makes the pool smaller. *)
Record pool_inv (w : world) : Prop := {
  inv_fresh : forall l, (w_next w <= l)%positive -> w_acs w !! l = None;
  inv_slots : forall i ac, pool_ac (w_pool w) !! i = Some (Some ac) -> views w !! ac = Some (true, true);
  inv_distinct : forall i j ac, pool_ac (w_pool w) !! i = Some (Some ac) ->
    pool_ac (w_pool w) !! j = Some (Some ac) -> i = j;
  inv_capacity : (length (pool_ac (w_pool w)) <= attached w + reconnects w)%nat;
  inv_cur : pool_count (w_pool w) = 0 \/ pool_wf (w_pool w) }.

Lemma views_None w l : views w !! l = None <-> w_acs w !! l = None.
Proof. unfold views. rewrite lookup_fmap. apply fmap_None. Qed.

Lemma views_Some w l x :
  w_acs w !! l = Some x -> views w !! l = Some (ac_data x, ac_connected x).
Proof. unfold views. rewrite lookup_fmap. by intros ->. Qed.

(** The invariant only depends on the views, the pool and the timers. *)
Definition inv_of (next : loc) (v : gmap loc (bool * bool)) (p : pool) (timers : nat) : Prop :=
  (forall l, (next <= l)%positive -> v !! l = None) /\
  (forall i ac, pool_ac p !! i = Some (Some ac) -> v !! ac = Some (true, true)) /\
  (forall i j ac, pool_ac p !! i = Some (Some ac) -> pool_ac p !! j = Some (Some ac) -> i = j) /\
  (length (pool_ac p) <= size (filter (fun kv : loc * (bool * bool) => kv.2.1 = true) v) + timers)%nat /\
  (pool_count p = 0 \/ pool_wf p).

Lemma pool_inv_of w : pool_inv w <-> inv_of (w_next w) (views w) (w_pool w) (reconnects w).
Proof.
  unfold inv_of. split.
  - intros [H1 H2 H3 H4 H5]. repeat split; try done. intros l Hl. by apply views_None, H1.
  - intros (H1 & H2 & H3 & H4 & H5). split; try done. intros l Hl. by apply views_None, H1.
Qed.

Lemma reconnects_app w l1 l2 : w_pending w = l1 ++ l2 ->
  reconnects w = (length (filter (fun p => p = OnReconnect) l1) +
                  length (filter (fun p => p = OnReconnect) l2))%nat.
Proof. unfold reconnects. intros ->. by rewrite filter_app, length_app. Qed.

Lemma size_filter_insert (v : gmap loc (bool * bool)) l d c :
  v !! l = None ->
  size (filter (fun kv : loc * (bool * bool) => kv.2.1 = true) (<[l := (d, c)]> v)) =
  ((if (d : bool) then 1 else 0) + size (filter (fun kv : loc * (bool * bool) => kv.2.1 = true) v))%nat.
Proof.
  intros Hl. destruct d.
  - rewrite map_filter_insert_True by done. rewrite map_size_insert_None; [done|].
    apply map_lookup_filter_None. by left.
  - rewrite map_filter_insert_False by done. by rewrite delete_id.
Qed.

Lemma size_filter_update (v : gmap loc (bool * bool)) l d c c' :
  v !! l = Some (d, c) ->
  size (filter (fun kv : loc * (bool * bool) => kv.2.1 = true) (<[l := (d, c')]> v)) =
  size (filter (fun kv : loc * (bool * bool) => kv.2.1 = true) v).
Proof.
  intros Hl. rewrite <-(insert_delete_id v l (d, c)) at 2 by done.
  rewrite <-insert_delete_eq. by rewrite !size_filter_insert by apply lookup_delete_eq.
Qed.

Lemma size_filter_delete (v : gmap loc (bool * bool)) l d c :
  v !! l = Some (d, c) ->
  size (filter (fun kv : loc * (bool * bool) => kv.2.1 = true) v) =
  ((if (d : bool) then 1 else 0) +
   size (filter (fun kv : loc * (bool * bool) => kv.2.1 = true) (delete l v)))%nat.
Proof.
  intros Hl. rewrite <-(insert_delete_id v l (d, c)) at 1 by done.
  by rewrite size_filter_insert by apply lookup_delete_eq.
Qed.

Lemma find_slot_Some slots v i : find_slot slots v = Some i -> slots !! i = Some v.
Proof.
  revert i. induction slots as [|s slots IH]; intros i; [done|]. cbn [find_slot].
  case_bool_decide as E; [by intros [= <-]; subst|].
  destruct (find_slot slots v); [|done]. intros [= <-]. by apply IH.
Qed.

Lemma find_slot_None slots v i : find_slot slots v = None -> slots !! i <> Some v.
Proof.
  revert i. induction slots as [|s slots IH]; intros i; [done|]. cbn [find_slot].
  case_bool_decide as E; [done|]. destruct (find_slot slots v); [done|]. intros _.
  destruct i as [|i]; cbn; [congruence|by apply IH].
Qed.

Lemma set_slot_lookup v v' p i x :
  pool_ac (set_slot v v' p) !! i = Some x -> x = v' \/ pool_ac p !! i = Some x.
Proof.
  unfold set_slot. destruct (find_slot (pool_ac p) v) as [k|] eqn:E; [|by right]. cbn.
  intros [(-> & -> & _)|[_ H]]%list_lookup_insert_Some; auto.
Qed.

Lemma length_set_slot v v' p : length (pool_ac (set_slot v v' p)) = length (pool_ac p).
Proof. unfold set_slot. destruct (find_slot _ _); cbn; [by rewrite length_insert|done]. Qed.

Lemma pool_cur_set_slot v v' p : pool_cur (set_slot v v' p) = pool_cur p.
Proof. unfold set_slot. by destruct (find_slot _ _). Qed.

Lemma inv_cur_set_slot v v' p :
  pool_count p = 0 \/ pool_wf p -> pool_count (set_slot v v' p) = 0 \/ pool_wf (set_slot v v' p).
Proof. unfold pool_wf, pool_count. by rewrite length_set_slot, pool_cur_set_slot. Qed.

Section Invariant.
Context (next : loc) (v : gmap loc (bool * bool)) (p : pool) (t : nat) (Hinv : inv_of next v p t).

Lemma inv_insert a :
  inv_of (Pos.succ next) (<[next := (a, false)]> v) p (t - (if (a : bool) then 1 else 0)).
Proof using Hinv.
  destruct Hinv as (H1 & H2 & H3 & H4 & H5). repeat split; try done.
  - intros l Hl. rewrite lookup_insert_ne by lia. apply H1. lia.
  - intros i ac Hi. rewrite lookup_insert_ne; [by eapply H2|]. intros <-.
    specialize (H2 _ _ Hi). rewrite H1 in H2 by lia. done.
  - rewrite size_filter_insert by (apply H1; lia). destruct a; lia.
Qed.

Lemma inv_timer t' : (t <= t')%nat -> inv_of next v p t'.
Proof using Hinv. destruct Hinv as (H1 & H2 & H3 & H4 & H5). intros Ht. repeat split; try done. lia. Qed.

Lemma inv_view ac d t' :
  v !! ac = Some (d, false) -> (t <= t')%nat -> inv_of next (<[ac := (d, true)]> v) p t'.
Proof using Hinv.
  destruct Hinv as (H1 & H2 & H3 & H4 & H5). intros Hac Ht. repeat split; try done.
  - intros l Hl. rewrite lookup_insert_ne; [by apply H1|]. intros <-. by rewrite H1 in Hac.
  - intros i ac' Hi. rewrite lookup_insert_ne; [by eapply H2|]. intros <-.
    specialize (H2 _ _ Hi). congruence.
  - rewrite (size_filter_update v ac d false) by done. lia.
Qed.

Lemma inv_slot ac :
  v !! ac = Some (true, false) ->
  inv_of next (<[ac := (true, true)]> v) (set_slot None (Some ac) p) t.
Proof using Hinv.
  destruct Hinv as (H1 & H2 & H3 & H4 & H5). intros Hac.
  assert (forall i, pool_ac p !! i <> Some (Some ac)) as Hnot.
  { intros i Hi. specialize (H2 _ _ Hi). congruence. }
  repeat split.
  - intros l Hl. rewrite lookup_insert_ne; [by apply H1|]. intros <-. by rewrite H1 in Hac.
  - intros i ac' Hi. apply set_slot_lookup in Hi as [[= ->]|Hi]; [apply lookup_insert_eq|].
    rewrite lookup_insert_ne; [by eapply H2|]. intros <-. by eapply Hnot.
  - unfold set_slot. destruct (find_slot (pool_ac p) None) as [k|] eqn:E; [|by apply H3]. cbn.
    intros i j ac' [(-> & [= <-] & _)|[Hne Hi]]%list_lookup_insert_Some
      [(-> & E2 & _)|[Hne' Hj]]%list_lookup_insert_Some; try done.
    + by apply Hnot in Hj.
    + injection E2 as <-. by apply Hnot in Hi.
    + by eapply H3.
  - rewrite length_set_slot, (size_filter_update v ac true false) by done. lia.
  - by apply inv_cur_set_slot.
Qed.

Lemma inv_delete ac d c :
  v !! ac = Some (d, c) -> (c = false \/ d = false) ->
  inv_of next (delete ac v) p (t + if d then 1 else 0).
Proof using Hinv.
  destruct Hinv as (H1 & H2 & H3 & H4 & H5). intros Hac Hc. repeat split; try done.
  - intros l Hl. apply lookup_delete_None. right. by apply H1.
  - intros i ac' Hi. rewrite lookup_delete_ne; [by eapply H2|]. intros <-.
    specialize (H2 _ _ Hi). destruct Hc; congruence.
  - rewrite (size_filter_delete v ac d c) in H4 by done. lia.
Qed.

Lemma inv_release ac :
  v !! ac = Some (true, true) -> inv_of next (delete ac v) (set_slot (Some ac) None p) (t + 1).
Proof using Hinv.
  destruct Hinv as (H1 & H2 & H3 & H4 & H5). intros Hac.
  assert (forall i, pool_ac (set_slot (Some ac) None p) !! i <> Some (Some ac)) as Hnot.
  { intros i. unfold set_slot. destruct (find_slot (pool_ac p) (Some ac)) as [k|] eqn:E.
    - apply find_slot_Some in E. cbn. intros [(_ & ? & _)|[Hne Hi]]%list_lookup_insert_Some; [done|].
      apply Hne. by eapply H3.
    - by apply find_slot_None. }
  repeat split.
  - intros l Hl. apply lookup_delete_None. right. by apply H1.
  - intros i ac' Hi. rewrite lookup_delete_ne; [|intros <-; by apply Hnot in Hi].
    apply set_slot_lookup in Hi as [?|Hi]; [done|by eapply H2].
  - intros i j ac' Hi Hj. apply set_slot_lookup in Hi as [?|Hi]; [done|].
    apply set_slot_lookup in Hj as [?|Hj]; [done|]. by eapply H3.
  - rewrite length_set_slot, (size_filter_delete v ac true true) in * by done. lia.
  - by apply inv_cur_set_slot.
Qed.

End Invariant.

Lemma count_register l :
  length (filter (fun p => p = OnReconnect) (l ++ [OnReconnect])) =
  S (length (filter (fun p => p = OnReconnect) l)).
Proof. rewrite filter_app, length_app, filter_cons_True, filter_nil by done. cbn. lia. Qed.

Lemma reconnects_register w : reconnects (set_w_pending (w_pending w ++ [OnReconnect]) w) = S (reconnects w).
Proof. apply count_register. Qed.

Lemma views_connected w ac x :
  w_acs w !! ac = Some x ->
  views (set_w_acs (<[ac := set_ac_connected true x]> (w_acs w)) w) =
  <[ac := (ac_data x, true)]> (views w).
Proof. intros Hx. unfold views. cbn. by rewrite fmap_insert. Qed.

Lemma views_delete w ac : views (set_w_acs (delete ac (w_acs w)) w) = delete ac (views w).
Proof. unfold views. cbn. by rewrite fmap_delete. Qed.

(** An attached connection attempt uses up one timer of the invariant, unless it
    fails and leaves a new one. *)
Lemma pool_connect_inv db (attach : bool) w r w' t :
  inv_of (w_next w) (views w) (w_pool w) t -> pool_connect db attach w = Ok r w' ->
  inv_of (w_next w') (views w') (w_pool w') (t + reconnects w' - reconnects w - if attach then 1 else 0) /\
  w_cfg w' = w_cfg w /\ w_pool w' = w_pool w.
Proof.
  intros Hinv H.
  assert (w_acs w !! w_next w = None) as Hf by (apply views_None, Hinv; lia).
  destruct (pool_connect_spec db attach w r w' Hf H) as (Hp & Hc & Hn & [(_ & Hpe & Hv)|(_ & Hpe & Hv)]);
    rewrite Hp, Hn, Hv; unfold reconnects in *; rewrite Hpe; split; try done.
  - eapply inv_timer; [by apply inv_insert|]. destruct attach; cbn in *; lia.
  - destruct Hinv as (H1 & H2 & H3 & H4 & H5). repeat split; try done.
    + intros l Hl. apply H1. lia.
    + rewrite count_register. destruct attach; lia.
Qed.

Lemma connect_loop_inv k db w w' :
  inv_of (w_next w) (views w) (w_pool w) (reconnects w + k) -> connect_loop k db w = Ok () w' ->
  pool_inv w' /\ length (pool_ac (w_pool w')) = length (pool_ac (w_pool w)).
Proof.
  revert w. induction k as [|k IH]; intros w Hinv H; cbn [connect_loop] in H.
  - M_inv. split; [|done]. apply pool_inv_of. by rewrite Nat.add_0_r in Hinv.
  - apply bind_ok in H as (r & w1 & H1 & H2).
    destruct (pool_connect_inv _ _ _ _ _ _ Hinv H1) as (Hi & _ & Hp). rewrite <-Hp. apply IH; [|done].
    eapply inv_timer; [exact Hi|]. cbn. lia.
Qed.

Lemma pool_on_connect_eq w ac x ok :
  w_acs w !! ac = Some x ->
  pool_on_connect ac ok w =
  Ok () (if negb (ac_data x) || negb ok || bool_decide (is_Some (ac_err x))
         then if ac_data x then set_w_pending (w_pending w ++ [OnReconnect]) w else w
         else set_w_pool (set_slot None (Some ac) (w_pool w)) w).
Proof.
  intros Hx. unfold pool_on_connect.
  rewrite (bind_eq (get_ac ac) _ w x w) by (by apply get_ac_ok).
  destruct (_ || _ || _); [|done]. by destruct (ac_data x).
Qed.

Lemma pool_step_inv w w' : pool_inv w -> pool_step w w' -> pool_inv w'.
Proof.
  intros Hinv Hstep. apply pool_inv_of in Hinv as Hof.
  destruct Hstep as [w l1 l2 w' Hpe H|w db r w' H|w ac x w' Hx Hc H|w ac x w' Hx Hc H|w ac x status w' Hx Hc H
                    |w r w' H|w w' (Hv & Hp & Hpe & Hn & _)].
  - unfold pool_can_connect in H. M_inv. apply pool_inv_of.
    match goal with H : pool_connect _ _ _ = _ |- _ => eapply pool_connect_inv in H as (Hi & _); [|exact Hof] end.
    eapply inv_timer; [exact Hi|].
    rewrite (reconnects_app w l1 (OnReconnect :: l2) Hpe), filter_cons_True by done.
    unfold reconnects. cbn. rewrite filter_app, length_app. lia.
  - eapply pool_connect_inv in H as (Hi & _); [|exact Hof]. apply pool_inv_of.
    eapply inv_timer; [exact Hi|]. cbn. lia.
  - pose proof (views_Some w ac x Hx) as Hview. rewrite Hc in Hview. apply pool_inv_of.
    apply bind_ok in H as ([] & w1 & H1 & H2). rewrite (pool_on_connect_eq w ac x) in H1 by done.
    apply bind_ok in H2 as (y & w2 & [Hy <-]%get_ac_ok & H2). unfold put_ac in H2.
    injection H1 as <-. injection H2 as <-.
    assert (y = x) as -> by
      (revert Hy; destruct (_ || _ || _); [destruct (ac_data x)|]; cbn; congruence).
    rewrite views_connected by done.
    destruct (negb (ac_data x) || _ || _) eqn:E; destruct (ac_data x) eqn:Ed; try done.
    + eapply inv_view; [exact Hof|exact Hview|]. unfold reconnects. cbn. rewrite count_register. lia.
    + by eapply inv_view; [exact Hof|exact Hview|].
    + by apply inv_slot.
  - pose proof (views_Some w ac x Hx) as Hview. rewrite Hc in Hview. apply pool_inv_of.
    apply bind_ok in H as ([] & w1 & H1 & H2). rewrite (pool_on_connect_eq w ac x) in H1 by done.
    rewrite orb_true_r in H1. injection H1 as <-.
    apply bind_ok in H2 as (y & w2 & [_ <-]%get_ac_ok & H2). injection H2 as <-. rewrite views_delete.
    destruct (ac_data x) eqn:Ed; eapply inv_timer;
      try (eapply inv_delete; [exact Hof|exact Hview|by left]).
    + unfold reconnects. cbn. rewrite count_register. lia.
    + cbn. unfold reconnects. cbn. lia.
  - pose proof (views_Some w ac x Hx) as Hview. rewrite Hc in Hview. apply pool_inv_of.
    apply bind_ok in H as ([] & w1 & H1 & H2). unfold pool_on_disconnect in H1. M_inv. simplify_eq.
    destruct (ac_data x) eqn:Ed; cbn [negb] in *.
    + unfold del_ac, pool_schedule_reconnect, register in *. M_inv.
      match goal with H : when _ _ w = Ok _ ?w2 |- _ =>
        assert (keeps w w2 /\ w_acs w2 = w_acs w) as [(Hv & Hp & Hpe & Hn & _) Ha] end.
      { unfold when in *. destruct (negb status); [by eapply log_alloc_keeps|by M_inv]. }
      rewrite views_delete. eapply inv_timer.
      * cbn. rewrite Hn, Hp. unfold views in *. cbn in *. rewrite Ha. eapply inv_release; [exact Hof|exact Hview].
      * unfold reconnects. cbn. rewrite Hpe, count_register. lia.
    + unfold del_ac in *. M_inv. rewrite views_delete. eapply inv_timer.
      * eapply inv_delete; [exact Hof|exact Hview|by right].
      * unfold reconnects. cbn. lia.
  - destruct (decide (pool_count (w_pool w) = 0)) as [E0|E0].
    { unfold pool_get_context in H. M_inv. rewrite E0 in *. by M_inv. }
    destruct (inv_cur w Hinv) as [?|Hwf]; [done|]. rewrite (pool_get_context_eq w Hwf) in H.
    apply pool_inv_of. destruct Hof as (K1 & K2 & K3 & K4 & K5).
    destruct (first_live _ _) as [[ac i]|] eqn:E; M_inv; cbn; repeat split; try done.
    right.
    apply first_live_Some in E as [Hin _]. unfold pool_wf, pool_count in *. cbn in *.
    eapply probe_order_elem; [| |exact Hin]; lia.
  - apply pool_inv_of. unfold reconnects. by rewrite Hv, Hp, Hpe, Hn.
Qed.

Lemma pool_steps_inv w w' : pool_inv w -> rtc pool_step w w' -> pool_inv w'.
Proof. intros Hw H. induction H; eauto using pool_step_inv. Qed.

Lemma set_slot_count v v' p : pool_count (set_slot v v' p) = pool_count p.
Proof. unfold pool_count. by rewrite length_set_slot. Qed.

(** ** The commands a new connection starts with *)

Definition auth_commands (cfg : conf) : list (list bytes) :=
  match cfg_redis_auth cfg with
  | Some a =>
      match auth_password a, auth_username a with
      | Some pw, Some u => [if auth_use_legacy_auth a then [lit "AUTH"; pw] else [lit "AUTH"; u; pw]]
      | Some pw, None => [[lit "AUTH"; pw]]
      | None, _ => []
      end
  | None => []
  end.

Definition select_commands (db : Z) : list (list bytes) :=
  if db =? 0 then [] else [[lit "SELECT"; print_int db]].

(** A command other than the publish/subscribe ones on an idle context. *)
Lemma redisAsyncCommandArgv_plain ac cb name args w x :
  w_acs w !! ac = Some x -> ac_disconnecting x = false -> ac_freeing x = false -> ac_subscribed x = false ->
  name = lit "AUTH" \/ name = lit "SELECT" ->
  redisAsyncCommandArgv ac cb (name :: args) w =
  Ok true (set_w_trace (w_trace w ++ [EvRedis ac (name :: args)])
    (set_w_acs (<[ac := set_ac_obuf (ac_obuf x ++ [name :: args]) (set_ac_replies (ac_replies x ++ [cb]) x)]>
       (w_acs w)) w)).
Proof.
  intros Hx Hd Hf Hs Hname. unfold redisAsyncCommandArgv.
  rewrite (bind_eq (get_ac ac) _ w x w) by (by apply get_ac_ok). rewrite Hd, Hf. cbn [orb].
  destruct Hname as [-> | ->]; cbv zeta;
    (match goal with |- context [Byte.eqb ?a x70] => change (Byte.eqb a x70) with false end; cbv iota;
     match goal with |- context [negb ?b && ?c] => change c with false end; rewrite andb_false_r;
     match goal with |- context [command_is ?a (lit "unsubscribe")] => change (command_is a (lit "unsubscribe")) with false end;
     match goal with |- context [command_is ?a (lit "monitor")] => change (command_is a (lit "monitor")) with false end;
     by rewrite Hs).
Qed.

(** ** Properties *)

Lemma worker_new_inv cfg connects allocs :
  let w := worker_new cfg connects allocs in
  inv_of (w_next w) (views w) (w_pool w) (reconnects w + length (pool_ac (w_pool w))).
Proof.
  cbv zeta. unfold inv_of, views. cbn. rewrite fmap_empty, map_filter_empty, map_size_empty.
  repeat split; try done.
  - intros i ac H. by apply lookup_replicate in H as [? _].
  - intros i j ac H. by apply lookup_replicate in H as [? _].
  - unfold pool_wf, pool_count. cbn. rewrite length_replicate. lia.
Qed.

Lemma pool_connect_pool db attach w r w' :
  pool_inv w -> pool_connect db attach w = Ok r w' -> w_pool w' = w_pool w.
Proof.
  intros Hinv H. eapply pool_connect_spec in H; [|by apply (inv_fresh w Hinv); lia]. by destruct H as [? _].
Qed.

Lemma pool_step_count w w' :
  pool_inv w -> pool_step w w' -> pool_count (w_pool w') = pool_count (w_pool w).
Proof.
  intros Hinv Hstep.
  destruct Hstep as [w l1 l2 w' Hpe H|w db r w' H|w ac x w' Hx Hc H|w ac x w' Hx Hc H|w ac x status w' Hx Hc H
                    |w r w' H|w w' (_ & Hp & _)].
  - unfold pool_can_connect in H. M_inv.
    match goal with H : pool_connect _ _ _ = _ |- _ => eapply pool_connect_spec in H; [|by apply (inv_fresh w Hinv)] end.
    destruct H0 as [-> _]. done.
  - by rewrite (pool_connect_pool db false w r w').
  - apply bind_ok in H as ([] & w1 & H1 & H2). rewrite (pool_on_connect_eq w ac x) in H1 by done.
    unfold upd_ac, put_ac in H2. M_inv. cbn.
    destruct (_ || _ || _); [by destruct (ac_data x)|by apply set_slot_count].
  - apply bind_ok in H as ([] & w1 & H1 & H2). rewrite (pool_on_connect_eq w ac x) in H1 by done.
    unfold del_ac in H2. M_inv. cbn. rewrite orb_true_r. by destruct (ac_data x).
  - apply bind_ok in H as ([] & w1 & H1 & H2). unfold pool_on_disconnect in H1. M_inv. simplify_eq.
    unfold del_ac in H2. destruct (ac_data x); cbn [negb] in *; M_inv; [|done].
    unfold pool_schedule_reconnect, register, when in *. M_inv. cbn. rewrite set_slot_count.
    destruct (negb status); M_inv; [|done].
    match goal with H : log_alloc _ _ _ = _ |- _ => apply log_alloc_keeps in H as [(_ & -> & _) _] end. done.
  - unfold pool_get_context in H. M_inv. destruct (_ =? 0); M_inv.
    match goal with H : context [let (_, _) := ?y in _] |- _ => destruct y end. M_inv.
    unfold in_bounds in *. destruct (probe_loop _ _ _ _); by M_inv.
  - by rewrite Hp.
Qed.

(** C4: whatever happens to the connections of a worker (they are established,
    refused, lost, reopened by their timers; contexts are handed out; unattached
    contexts come and go), every slot of its pool is empty or holds its own
    connected context that still exists, the number of slots is the configured one,
    and a slot without a connection always has an attempt under way: the attached
    contexts and the reconnection timers are at least as many as the slots. *)
Theorem pool_invariant cfg connects allocs w1 w2 :
  worker_pool_connect (worker_new cfg connects allocs) = Ok () w1 -> rtc pool_step w1 w2 ->
  pool_inv w2 /\ length (pool_ac (w_pool w2)) = Z.to_nat (cfg_pool_size_per_thread cfg).
Proof.
  intros H Hsteps. unfold worker_pool_connect in H. M_inv.
  eapply connect_loop_inv in H0 as [Hinv Hlen]; [|apply worker_new_inv].
  assert (length (pool_ac (w_pool w1)) = Z.to_nat (cfg_pool_size_per_thread cfg)) as <-
    by (rewrite Hlen; apply length_replicate).
  clear Hlen. induction Hsteps as [w1|w1 w w2 Hstep _ IH]; [done|].
  destruct (IH (pool_step_inv _ _ Hinv Hstep)) as [Hi Hl]. split; [done|]. rewrite Hl.
  pose proof (pool_step_count _ _ Hinv Hstep). unfold pool_count in *. lia.
Qed.

(** Two slots; the first attempt is refused at once, the second connects and is
    lost again. *)
Definition refused : list connect_result := [CONNECT_ERR (lit "refused")].

Definition lost_once : M unit :=
  worker_pool_connect ;; pool_on_connect 2 true ;; upd_ac 2 (set_ac_connected true) ;;
  pool_on_disconnect 2 true ;; del_ac 2.

Lemma pool_invariant_witness :
  exists w, pool_inv w /\ reconnects w = 2%nat /\ pool_ac (w_pool w) = [None; None].
Proof.
  pose (run (m : M unit) := match m (worker_new (conf_defaults 0 0) refused []) with
                 | Ok _ w => w | Fault _ => worker_new (conf_defaults 0 0) refused [] end : world).
  exists (run lost_once). split; [|split; vm_compute; reflexivity].
  apply (pool_invariant (conf_defaults 0 0) refused [] (run worker_pool_connect)); [vm_compute; reflexivity|].
  eapply (rtc_l _ _ (run (worker_pool_connect ;; pool_on_connect 2 true ;; upd_ac 2 (set_ac_connected true)))).
  { eapply (step_connected _ 2); vm_compute; reflexivity. }
  eapply rtc_l; [|apply rtc_refl].
  eapply (step_disconnected _ 2 _ true); vm_compute; reflexivity.
Defined.

(** [pool_get_context] always returns, and what it returns is a connected
    context of the pool; it finds none exactly when every slot but one is empty.
    The exception is the slot after the last one used, which the search never
    looks at because [p->cur] is advanced twice before the first look. *)
Theorem pool_get_context_skips w :
  pool_inv w -> 2 <= pool_count (w_pool w) ->
  exists r w', pool_get_context w = Ok r w' /\
    (forall ac, r = Some ac -> exists x, w_acs w' !! ac = Some x /\ ac_connected x = true) /\
    (r = None <-> forall i ac, pool_ac (w_pool w) !! i = Some (Some ac) ->
       Z.of_nat i = (pool_cur (w_pool w) + 1) mod pool_count (w_pool w)).
Proof.
  intros Hinv Hn. destruct (inv_cur w Hinv) as [?|Hwf]; [lia|].
  pose proof (pool_get_context_eq w Hwf) as E. cbv zeta in E. unfold pool_wf in Hwf.
  destruct (first_live _ _) as [[ac i]|] eqn:F.
  - apply first_live_Some in F as [Hin Hslot]. eexists _, _. split; [exact E|]. split.
    + intros ? [= <-]. pose proof (inv_slots w Hinv _ _ Hslot) as Hv. unfold views in Hv.
      rewrite lookup_fmap in Hv. destruct (w_acs w !! ac) as [x|] eqn:Hx; [|done].
      exists x. split; [done|]. cbn in Hv. congruence.
    + split; [done|]. intros H. specialize (H _ _ Hslot). apply probe_order_all in Hin; lia.
  - rewrite first_live_None in F. eexists _, _. split; [exact E|]. split; [done|]. split; [|done].
    intros _ j ac Hj. apply dec_stable. intros Hne. eapply (F (Z.of_nat j) ac); [|by rewrite Nat2Z.id].
    apply probe_order_all; [lia..|]. apply lookup_lt_Some in Hj. unfold pool_count. split; [lia|done].
Qed.

(** A pool of two slots whose second one is connected: the first request finds
    nothing. *)
Definition second_only : world :=
  set_w_acs {[ 7%positive := set_ac_connected true (new_ctx None true) ]}
    (set_w_pool (mk_pool [None; Some 7%positive] 0) (set_w_next 8
      (set_w_pending [OnReconnect] (worker_new (conf_defaults 0 0) [] [])))).

Lemma second_only_inv : pool_inv second_only.
Proof.
  split.
  - intros l Hl. cbn in *. apply lookup_singleton_ne. lia.
  - intros [|[|i]] ac; cbn; [done| |done]. intros [= <-]. vm_compute. reflexivity.
  - intros [|[|i]] [|[|j]] ac; cbn; done.
  - vm_compute. lia.
  - right. vm_compute. split; [congruence|reflexivity].
Qed.

Lemma pool_get_context_skips_witness : exists w', pool_get_context second_only = Ok None w'.
Proof.
  destruct (pool_get_context_skips second_only second_only_inv ltac:(vm_compute; congruence))
    as (r & w' & E & _ & [_ H]).
  exists w'. rewrite E. rewrite H; [reflexivity|].
  intros [|[|i]] ac; cbn; [done| |done]. intros _. vm_compute. reflexivity.
Defined.

(** A run of calls. *)
Fixpoint pool_gets (k : nat) : M (list (option loc)) :=
  match k with
  | O => mret []
  | S k' => ac ← pool_get_context; rest ← pool_gets k'; mret (ac :: rest)
  end.

Lemma first_live_head slots i rest ac :
  slots !! Z.to_nat i = Some (Some ac) -> first_live slots (i :: rest) = Some (ac, i).
Proof. cbn. by intros ->. Qed.

(** With every slot connected a call takes the second slot after the last one. *)
Lemma pool_get_context_full w :
  pool_wf (w_pool w) -> Forall is_Some (pool_ac (w_pool w)) ->
  let p := w_pool w in let i := (pool_cur p + 2) mod pool_count p in
  exists ac, pool_ac p !! Z.to_nat i = Some (Some ac) /\
    pool_get_context w = Ok (Some ac) (set_w_pool (set_pool_cur i p) w).
Proof.
  intros Hwf Hfull. cbv zeta. rewrite (pool_get_context_eq w Hwf). unfold pool_wf in Hwf.
  set (p := w_pool w) in *. pose proof (Z.mod_pos_bound (pool_cur p + 2) (pool_count p) ltac:(lia)) as Hb.
  destruct (lookup_lt_is_Some_2 (pool_ac p) (Z.to_nat ((pool_cur p + 2) mod pool_count p))) as [s Hs];
    [unfold pool_count in *; lia|].
  destruct (Forall_lookup_1 _ _ _ _ Hfull Hs) as [ac ->]. exists ac. split; [done|].
  unfold probe_order. rewrite seqZ_cons by lia. cbn [map]. rewrite Z.add_0_r.
  by rewrite (first_live_head _ _ _ ac).
Qed.

(** With an even number of slots, all of them connected (the default
    configuration has two), any number of calls in a row returns only contexts of
    the slots whose parity is that of the first position: half of the connections
    are never used. *)
Theorem pool_even_half k w :
  pool_wf (w_pool w) -> Forall is_Some (pool_ac (w_pool w)) -> (2 | pool_count (w_pool w)) ->
  exists acs w', pool_gets k w = Ok acs w' /\ length acs = k /\
    Forall (fun r => exists i, pool_ac (w_pool w) !! i = Some r /\
                               Z.of_nat i mod 2 = pool_cur (w_pool w) mod 2) acs.
Proof.
  intros Hwf Hfull Heven. revert w Hwf Hfull Heven. induction k as [|k IH]; intros w Hwf Hfull [m Hm].
  { by eexists _, _. }
  destruct (pool_get_context_full w Hwf Hfull) as (ac & Hac & E). unfold pool_wf in Hwf.
  set (i := (pool_cur (w_pool w) + 2) mod pool_count (w_pool w)) in *.
  pose proof (Z.mod_pos_bound (pool_cur (w_pool w) + 2) (pool_count (w_pool w)) ltac:(lia)) as Hb.
  fold i in Hb.
  assert (i mod 2 = pool_cur (w_pool w) mod 2) as Hpar.
  { unfold i. rewrite Hm, (Z.mod_eq (_ + 2) (m * 2)) by lia.
    replace (_ - _) with (pool_cur (w_pool w) + (1 - m * ((pool_cur (w_pool w) + 2) / (m * 2))) * 2) by ring.
    apply Z_mod_plus_full. }
  destruct (IH (set_w_pool (set_pool_cur i (w_pool w)) w)) as (acs & w' & E2 & Hlen & Hall);
    [done|done|by exists m|].
  exists (Some ac :: acs), w'. split; [|split; [cbn; lia|]].
  - cbn [pool_gets]. rewrite (bind_eq _ _ _ _ _ E), (bind_eq _ _ _ _ _ E2). done.
  - cbn in Hall. rewrite Hpar in Hall. constructor; [|done]. exists (Z.to_nat i).
    rewrite Z2Nat.id by lia. done.
Qed.

Definition both_connected : world :=
  set_w_pool (mk_pool [Some 7%positive; Some 8%positive] 0) (worker_new (conf_defaults 0 0) [] []).

Lemma pool_even_half_witness :
  exists acs w', pool_gets 3 both_connected = Ok acs w' /\ acs = [Some 7%positive; Some 7%positive; Some 7%positive].
Proof.
  destruct (pool_even_half 3 both_connected) as (acs & w' & E & _).
  - vm_compute. split; [congruence|reflexivity].
  - repeat constructor; by eexists.
  - exists 1. reflexivity.
  - exists acs, w'. split; [exact E|]. vm_compute in E. congruence.
Defined.

Definition auth_wf (cfg : conf) : Prop :=
  match cfg_redis_auth cfg with
  | Some a => is_Some (auth_password a) /\ (auth_use_legacy_auth a = false -> is_Some (auth_username a))
  | None => True
  end.

Lemma pool_authenticate_eq ac w x :
  auth_wf (w_cfg w) -> w_acs w !! ac = Some x ->
  ac_disconnecting x = false -> ac_freeing x = false -> ac_subscribed x = false ->
  exists x' w', pool_authenticate ac w = Ok () w' /\ w_acs w' !! ac = Some x' /\ 
    ac_obuf x' = ac_obuf x ++ auth_commands (w_cfg w) /\ keeps w w' /\
    ac_disconnecting x' = false /\ ac_freeing x' = false /\ ac_subscribed x' = false.
Proof.
  intros Hwf Hx Hd Hf Hs. unfold pool_authenticate, auth_wf, auth_commands in *.
  rewrite (bind_eq (gets w_cfg) _ w (w_cfg w) w) by done.
  destruct (cfg_redis_auth (w_cfg w)) as [a|].
  2: { exists x, w. rewrite app_nil_r. done. }
  destruct Hwf as [[pw Hpw] Hu]. rewrite Hpw. cbn [deref]. rewrite (bind_eq (mret pw) _ w pw w) by done.
  destruct (auth_use_legacy_auth a).
  - pose proof (redisAsyncCommandArgv_plain ac CB_AUTH (lit "AUTH") [pw] w x Hx Hd Hf Hs (or_introl eq_refl)) as E.
    rewrite (bind_eq _ _ _ _ _ E). eexists _, _. split; [done|]. cbn. rewrite lookup_insert_eq.
    split; [done|]. split; [by destruct (auth_username a)|]. split; [|done].
    by eapply redisAsyncCommandArgv_keeps.
  - destruct (Hu eq_refl) as [u Hu']. rewrite Hu'. cbn [deref]. rewrite (bind_eq (mret u) _ w u w) by done.
    pose proof (redisAsyncCommandArgv_plain ac CB_AUTH (lit "AUTH") [u; pw] w x Hx Hd Hf Hs (or_introl eq_refl)) as E.
    rewrite (bind_eq _ _ _ _ _ E). eexists _, _. split; [done|]. cbn. rewrite lookup_insert_eq.
    split; [done|]. split; [done|]. split; [|done].
    by eapply redisAsyncCommandArgv_keeps.
Qed.

(** ** The frame of the pool *)

Lemma frame_redisAsyncCommandArgv ac cb argv : frame (redisAsyncCommandArgv ac cb argv).
Proof. unfold redisAsyncCommandArgv, append_command. frame. Qed.
#[local] Hint Resolve frame_redisAsyncCommandArgv : frame.

Lemma frame_log_alloc level body : frame (log_alloc level body).
Proof. unfold log_alloc. frame. Qed.
#[local] Hint Resolve frame_log_alloc : frame.

Lemma frame_pool_connect db attach : frame (pool_connect db attach).
Proof.
  unfold pool_connect, pool_authenticate, pool_select, pool_schedule_reconnect, deref. frame.
Qed.

Lemma frame_pool_get_context : frame pool_get_context.
Proof.
  unfold pool_get_context, in_bounds. apply frame_bind; [frame|]. intros w. destruct (_ =? 0); [frame|].
  apply frame_bind; [frame|]. intros [ac cur]. apply frame_bind; [|frame].
  apply (frame_pool (fun _ => set_pool_cur cur (w_pool w))).
Qed.

(** ** Opening a connection *)

Lemma pool_connect_run db (attach : bool) w :
  pool_inv w -> auth_wf (w_cfg w) -> head (w_connect w) <> Some CONNECT_NULL ->
  exists r w', pool_connect db attach w = Ok r w' /\ w_pool w' = w_pool w /\
    match r with
    | Some ac => ac = w_next w /\ w_acs w !! ac = None /\ w_pending w' = w_pending w /\
        exists x, w_acs w' !! ac = Some x /\ ac_data x = attach /\
          ac_disconnecting x = false /\ ac_freeing x = false /\ ac_subscribed x = false /\
          ac_obuf x = auth_commands (w_cfg w) ++ select_commands db
    | None => w_pending w' = w_pending w ++ [OnReconnect]
    end.
Proof.
  intros Hinv Hauth Hnull. unfold pool_connect.
  assert (exists r, connect_answer w = Ok r (set_w_connect (tail (w_connect w)) w) /\ r <> CONNECT_NULL) as (r & E & Hr).
  { unfold connect_answer. rewrite (bind_eq get _ w w w) by done.
    destruct w as [? ? ? ? ? ? ? ? ? [|r rs]]; cbn in *; [by exists CONNECT_OK|]. exists r. split; [done|congruence]. }
  rewrite (bind_eq _ _ _ _ _ E). clear E. set (w0 := set_w_connect _ w).
  assert (w_acs w !! w_next w = None) as Hfresh by (apply (inv_fresh w Hinv); lia).
  destruct r as [|errstr|]; [| |done].
  - rewrite (bind_eq fresh _ w0 (w_next w) (set_w_next (Pos.succ (w_next w)) w0)) by done.
    set (w1 := set_w_acs (<[w_next w := new_ctx None attach]> (w_acs w)) (set_w_next (Pos.succ (w_next w)) w0)).
    rewrite (bind_eq (put_ac _ _) _ _ () w1) by done.
    destruct (pool_authenticate_eq (w_next w) w1 (new_ctx None attach)) as (x & w2 & E & Hx & Hob & K & Hd & Hf & Hs);
      [done|apply lookup_insert_eq|done..|].
    rewrite (bind_eq _ _ _ _ _ E). destruct K as (Kv & Kp & Kpe & _ & _).
    assert (ac_data x = attach) as Hdata.
    { apply views_Some in Hx. rewrite Kv in Hx. unfold views in Hx. cbn in Hx.
      rewrite fmap_insert, lookup_insert_eq in Hx. cbn in Hx. congruence. }
    unfold pool_select, select_commands. destruct (db =? 0).
    + exists (Some (w_next w)), w2. split; [done|]. split; [done|]. split; [done|]. split; [done|]. split; [done|].
      exists x. rewrite app_nil_r. done.
    + pose proof (redisAsyncCommandArgv_plain (w_next w) CB_NULL (lit "SELECT") [print_int db] w2 x Hx Hd Hf Hs
        (or_intror eq_refl)) as E2.
      eexists _, _. split; [unfold mbind, M_bind in *; rewrite E2; reflexivity|]. split; [done|].
      split; [done|]. split; [done|]. split; [done|].
      eexists. split; [apply lookup_insert_eq|]. cbn. rewrite Hob. done.
  - rewrite (bind_eq fresh _ w0 (w_next w) (set_w_next (Pos.succ (w_next w)) w0)) by done.
    set (w1 := set_w_acs (<[w_next w := new_ctx (Some errstr) attach]> (w_acs w)) (set_w_next (Pos.succ (w_next w)) w0)).
    rewrite (bind_eq (put_ac _ _) _ _ () w1) by done.
    assert (exists w2, log_alloc WEBDIS_ERROR (lit "Connection failed: " ++ errstr) w1 = Ok () w2) as [w2 E].
    { unfold log_alloc, alloc_ok, slog, slog_enabled, when, emit, gets, modify, skip, mret, M_ret, mbind, M_bind, get.
      destruct (w_alloc w1) as [|[] bs]; [destruct (_ <=? _)|destruct (_ <=? _)|]; by eexists. }
    rewrite (bind_eq _ _ _ _ _ E). apply log_alloc_keeps in E as [(_ & Kp & Kpe & _ & _) Ka].
    unfold del_ac. rewrite M_bind_assoc.
    rewrite (bind_eq (get_ac (w_next w)) _ w2 (new_ctx (Some errstr) attach) w2).
    2: { apply get_ac_ok. rewrite Ka. split; [apply lookup_insert_eq|done]. }
    exists None. eexists. split; [reflexivity|]. cbn. by rewrite Kp, Kpe.
Qed.



End Pool.
