(* ===== verification/Formatted.v ===== *)
(** * Formatted commands: hiredis/hiredis.c and hiredis/async.c

    A command goes to Redis as text: [redisvFormatCommand] builds it from a format and its
    arguments, [redisFormatCommandArgv] and [Resp.redisFormatSdsCommandArgv] from a list of
    strings. [__redisAsyncCommand] then reads the text again to find out what it is a
    command for. [Pool.redisAsyncCommandArgv] works on the list of strings; here both
    steps are translated and shown to come to the same. *)
From S2P Require Import Prelude Types Http Raw Resp World Conf Pool.

Local Open Scope Z_scope.

Module Formatted.
Import Http World Pool.

(** ** [sprintf] of integers *)

(** A conversion: its flags, width, precision, size and letter. *)
Record conversion := mk_conversion {
  cv_flags : bytes;
  cv_width : bytes;
  cv_precision : option bytes;
  cv_size : bytes;
  cv_letter : byte }.

Definition has_flag (c : byte) (cv : conversion) : bool := bool_decide (c ∈ cv_flags cv).

Definition decimal (ds : bytes) : Z := default 0 (parse_digits 10 ds).

Definition one_of (s : bytes) (c : byte) : bool := bool_decide (c ∈ s).

(** The width of the argument, after the promotions of C. *)
Definition size_bits (size : bytes) : Z :=
  if bytes_eqb size (lit "hh") then 8
  else if bytes_eqb size (lit "h") then 16
  else if bytes_eqb size [] then 32
  else 64.

Definition conversion_base (c : byte) : Z :=
  if Byte.eqb c "o" then 8 else if one_of (lit "xX") c then 16 else 10.

(** The digits, at least as many as the precision asks for. *)
Definition padded_digits (b : Z) (upper : bool) (least : nat) (n : Z) : bytes :=
  let ds := if n =? 0 then [] else map digit_char (digits b n) in
  let ds := if upper then map toupper ds else ds in
  replicate (least - length ds) x30 ++ ds.

(** [sprintf] with one conversion of [diouxX]. *)
Definition print_conversion (cv : conversion) (v : Z) : bytes :=
  let c := cv_letter cv in
  let signed := one_of (lit "di") c in
  let w := size_bits (cv_size cv) in
  let v := if signed then wrap_s w v else wrap_u w v in
  let b := conversion_base c in
  let least := match cv_precision cv with Some p => Z.to_nat (decimal p) | None => 1%nat end in
  let ds := padded_digits b (Byte.eqb c "X") least (Z.abs v) in
  let ds := if Byte.eqb c "o" && has_flag "#" cv && negb (bool_decide (head ds = Some x30)) then x30 :: ds else ds in
  let sign :=
    if v <? 0 then lit "-"
    else if signed && has_flag "+" cv then lit "+"
    else if signed && has_flag " " cv then lit " "
    else [] in
  let prefix := if (b =? 16) && has_flag "#" cv && negb (v =? 0) then [x30; c] else [] in
  let fill := (Z.to_nat (decimal (cv_width cv)) - length (sign ++ prefix ++ ds))%nat in
  if has_flag "-" cv then sign ++ prefix ++ ds ++ replicate fill x20
  else if has_flag "0" cv && bool_decide (cv_precision cv = None) then sign ++ prefix ++ replicate fill x30 ++ ds
  else replicate fill x20 ++ sign ++ prefix ++ ds.

(** ** [redisvFormatCommand] *)

(** The arguments of a variadic call: a string, or a pointer to [size] bytes (two
    arguments, for [%b]), integers, and floating-point numbers, of which only the text
    that [sprintf] makes of them matters. *)
Inductive argument :=
| VString (s : bytes)
| VBinary (s : bytes)
| VInt (v : Z)
| VLong (v : Z)
| VDouble (print : bytes -> bytes).

(** [FormatError] is the result -2; a missing or mistaken argument and a format that is
    read beyond its end have no defined behaviour. *)
Inductive formatted (A : Type) :=
| Formatted_ok (a : A)
| FormatError
| Undefined.
Arguments Formatted_ok {A} a.
Arguments FormatError {A}.
Arguments Undefined {A}.

Definition span (f : byte -> bool) : bytes -> bytes * bytes :=
  fix go s := match s with
              | c :: s' => if f c then let (a, b) := go s' in (c :: a, b) else ([], s)
              | [] => ([], [])
              end.

(** Scanning of a conversion, behind the percent sign; [strchr] also finds the end of
    the string in its list of letters. *)
Definition scan_conversion (p : bytes) : formatted (conversion * bytes) :=
  let (flags, p) := span (one_of (lit "#0-+ ")) p in
  let (width, p) := span isdigit p in
  let (precision, p) :=
    match p with
    | c :: p' => if Byte.eqb c "." then let (ds, p) := span isdigit p' in (Some ds, p) else (None, p)
    | [] => (None, p)
    end in
  let int_at (size p : bytes) :=
    match p with
    | c :: p' => if one_of (lit "diouxX") c then Formatted_ok (mk_conversion flags width precision size c, p') else FormatError
    | [] => FormatError
    end in
  match p with
  | [] => Undefined
  | c :: p' =>
      if one_of (lit "diouxXeEfFgGaA") c then Formatted_ok (mk_conversion flags width precision [] c, p')
      else if Byte.eqb c "h" then
        match p' with
        | c' :: p'' => if Byte.eqb c' "h" then int_at (lit "hh") p'' else int_at (lit "h") p'
        | [] => FormatError
        end
      else if Byte.eqb c "l" then
        match p' with
        | c' :: p'' => if Byte.eqb c' "l" then int_at (lit "ll") p'' else int_at (lit "l") p'
        | [] => FormatError
        end
      else FormatError
  end.

(** The text of a conversion for the next argument. *)
Definition convert (cv : conversion) (text : bytes) (ap : list argument) : formatted (bytes * list argument) :=
  match ap with
  | VInt v :: ap' =>
      if one_of (lit "diouxX") (cv_letter cv) && (size_bits (cv_size cv) <=? 32)
      then Formatted_ok (print_conversion cv v, ap') else Undefined
  | VLong v :: ap' =>
      if one_of (lit "diouxX") (cv_letter cv) && (32 <? size_bits (cv_size cv))
      then Formatted_ok (print_conversion cv v, ap') else Undefined
  | VDouble print :: ap' =>
      if one_of (lit "eEfFgGaA") (cv_letter cv) then Formatted_ok (print text, ap') else Undefined
  | _ => Undefined
  end.

(** A conversion at [c], which starts behind the percent sign: what is added to the
    argument, the arguments left and how many bytes of [c] are used. Conversions that do
    not fit the buffer of 16 bytes add nothing, and are read again as text. *)
Definition directive (c : bytes) (ap : list argument) : formatted (bytes * list argument * nat) :=
  match c with
  | [] => Undefined
  | x :: _ =>
      if Byte.eqb x "s" then
        match ap with VString s :: ap' => Formatted_ok (cstr s, ap', 1%nat) | _ => Undefined end
      else if Byte.eqb x "b" then
        match ap with VBinary s :: ap' => Formatted_ok (s, ap', 1%nat) | _ => Undefined end
      else if Byte.eqb x "%" then Formatted_ok (lit "%", ap, 1%nat)
      else
        match scan_conversion c with
        | Formatted_ok (cv, rest) =>
            let used := (length c - length rest)%nat in
            match convert cv (x25 :: take used c) ap with
            | Formatted_ok (t, ap') =>
                if (used + 1 <? 14)%nat then Formatted_ok (t, ap', used) else Formatted_ok ([], ap', 1%nat)
            | FormatError => FormatError
            | Undefined => Undefined
            end
        | FormatError => FormatError
        | Undefined => Undefined
        end
  end.

(** The loop over the format, [skip] bytes of which are used already; [argv] lists the
    arguments from the last to the first. *)
Fixpoint format_loop (skip : nat) (c : bytes) (ap : list argument) (curarg : bytes) (touched : bool) (argv : list bytes)
  : formatted (list bytes) :=
  match c with
  | [] => Formatted_ok (reverse (if touched then curarg :: argv else argv))
  | x :: c' =>
      match skip with
      | S skip => format_loop skip c' ap curarg touched argv
      | O =>
          if negb (Byte.eqb x "%") || bool_decide (c' = []) then
            if Byte.eqb x " " then
              if touched then format_loop 0 c' ap [] false (curarg :: argv)
              else format_loop 0 c' ap curarg touched argv
            else format_loop 0 c' ap (curarg ++ [x]) true argv
          else
            match directive c' ap with
            | Formatted_ok (t, ap', used) => format_loop used c' ap' (curarg ++ t) true argv
            | FormatError => FormatError
            | Undefined => Undefined
            end
      end
  end.

(** [redisFormatCommandArgv], and the end of [redisvFormatCommand]: the lengths are
    printed whole; [totlen] is an [int], and [None] is the failed assertion. *)
Definition redisFormatCommandArgv (argv : list bytes) : option bytes :=
  let argc := Z.of_nat (length argv) in
  let totlen := fold_left (fun t a => i32 (t + Resp.bulklen (Z.of_nat (length a)))) argv (1 + Resp.countDigits argc + 2) in
  let cmd := lit "*" ++ print_int argc ++ CRLF ++
    concat (map (fun a => lit "$" ++ print_nat (Z.of_nat (length a)) ++ CRLF ++ a ++ CRLF) argv) in
  if Z.of_nat (length cmd) =? totlen then Some cmd else None.

Definition redisvFormatCommand (format : bytes) (ap : list argument) : formatted bytes :=
  match format_loop 0 format ap [] false [] with
  | Formatted_ok argv => match redisFormatCommandArgv argv with Some cmd => Formatted_ok cmd | None => Undefined end
  | FormatError => FormatError
  | Undefined => Undefined
  end.

(** ** [__redisAsyncCommand] *)

(** Strings are followed by their terminator; a pointer into one is the rest of it. *)
Definition strchr (c : byte) : bytes -> option bytes :=
  fix go s := match s with
              | x :: s' => if Byte.eqb x c then Some s else if Byte.eqb x x00 then None else go s'
              | [] => None
              end.

(** The string of the next argument, its length, and what follows it. *)
Definition nextArgument (start : bytes) : fault + option (bytes * Z * bytes) :=
  let p := match start with
           | [] => inl OutOfBounds
           | c :: _ => if Byte.eqb c "$" then inr (Some start) else inr (strchr "$" start)
           end in
  match p with
  | inl f => inl f
  | inr None => inr None
  | inr (Some p) =>
      let len := Conf.atoi (tail p) in
      match strchr x0d p with
      | None => inl AssertFailed
      | Some p =>
          let str := drop 2 p in
          if (len <? 0) || (Z.of_nat (length str) <? len + 3) then inl OutOfBounds
          else inr (Some (str, len, drop (Z.to_nat len + 2) str))
      end
  end.

(** The loop over the channels: every turn moves on by two bytes at least. *)
Fixpoint subscribe_loop (fuel : nat) (cb : redis_cb) (p : bytes) (pending_subs : Z) (d : list (bytes * (redis_cb * Z)))
  : fault + list (bytes * (redis_cb * Z)) :=
  match fuel with
  | O => inl OutOfFuel
  | S fuel =>
      match nextArgument p with
      | inl f => inl f
      | inr None => inr d
      | inr (Some (astr, alen, p)) =>
          let sname := take (Z.to_nat alen) astr in
          let pending_subs := match dict_find d sname with Some (_, n) => n + 1 | None => pending_subs end in
          subscribe_loop fuel cb p pending_subs (dict_replace d sname (cb, pending_subs))
      end
  end.

(** The context behind the call, and the bytes that go to its output buffer; [None] is
    [REDIS_ERR]. *)
Definition __redisAsyncCommand (cb : redis_cb) (cmd : bytes) (x : redis_ctx) : fault + option (redis_ctx * bytes) :=
  if ac_disconnecting x || ac_freeing x then inr None
  else
    match nextArgument (cmd ++ [x00]) with
    | inl f => inl f
    | inr None => inl AssertFailed
    | inr (Some (cstr, clen, p)) =>
        let hasnext := Byte.eqb (default x00 (head p)) "$" in
        let pvariant := Byte.eqb (tolower (default x00 (head cstr))) "p" in
        let cstr := if pvariant then tail cstr else cstr in
        if hasnext && strncasecmp_eq 11 cstr (lit "subscribe" ++ CRLF) then
          let x := set_ac_subscribed true x in
          let done set l := match subscribe_loop (length p) cb p 1 l with
                            | inl f => inl f
                            | inr d => inr (Some (set d x, cmd))
                            end in
          if pvariant then done set_ac_sub_patterns (ac_sub_patterns x)
          else done set_ac_sub_channels (ac_sub_channels x)
        else if strncasecmp_eq 13 cstr (lit "unsubscribe" ++ CRLF) then
          if negb (ac_subscribed x) then inr None else inr (Some (x, cmd))
        else if strncasecmp_eq 9 cstr (lit "monitor" ++ CRLF) then
          inr (Some (set_ac_replies (ac_replies x ++ [cb]) (set_ac_monitoring true x), cmd))
        else if ac_subscribed x then inr (Some (set_ac_sub_invalid (ac_sub_invalid x ++ [cb]) x, cmd))
        else inr (Some (set_ac_replies (ac_replies x ++ [cb]) x, cmd))
    end.

(** ** Reading a command back *)

(** An argument in a command. *)
Definition arg_text (a : bytes) : bytes := lit "$" ++ print_nat (Z.of_nat (length a)) ++ CRLF ++ a ++ CRLF.

Lemma strchr_skip c l s : c ∉ l -> x00 ∉ l -> strchr c (l ++ c :: s) = Some (c :: s).
Proof.
  induction l as [|x l IH]; intros Hc Hn; cbn.
  - by rewrite (proj2 (byte_eqb_eq c c)).
  - rewrite not_elem_of_cons in *. rewrite (proj2 (byte_eqb_neq x c)), (proj2 (byte_eqb_neq x x00)) by naive_solver.
    apply IH; tauto.
Qed.

Lemma next_at a rest :
  Z.of_nat (length a) < 2 ^ 31 -> rest <> [] ->
  nextArgument (arg_text a ++ rest) = inr (Some (a ++ CRLF ++ rest, Z.of_nat (length a), rest)).
Proof.
  intros Ha Hr. unfold arg_text. rewrite <-!app_assoc. change (lit "$" ++ ?t) with (x24 :: t).
  unfold nextArgument. change (Byte.eqb x24 "$") with true. cbv iota zeta. cbn [tail].
  set (n := Z.of_nat (length a)). change (CRLF ++ a ++ CRLF ++ rest) with (x0d :: x0a :: a ++ CRLF ++ rest).
  rewrite Conf.atoi_prefix by (lia || (intros c [= <-]; reflexivity)).
  change (x24 :: print_nat n ++ ?t) with ((x24 :: print_nat n) ++ t). rewrite strchr_skip; cycle 1.
  { rewrite not_elem_of_cons. split; [done|]. apply Conf.digits_not_in; [lia|done]. }
  { rewrite not_elem_of_cons. split; [done|]. apply Conf.digits_not_in; [lia|done]. }
  change (drop 2 (x0d :: x0a :: a ++ CRLF ++ rest)) with (a ++ CRLF ++ rest).
  rewrite !length_app. change (length CRLF) with 2%nat. destruct rest as [|c rest]; [done|]. cbn [length].
  rewrite (proj2 (Z.ltb_ge n 0)), (proj2 (Z.ltb_ge _ (n + 3))) by lia. cbn [orb].
  replace (Z.to_nat n + 2)%nat with (length (a ++ CRLF)) by (rewrite length_app; change (length CRLF) with 2%nat; lia).
  by rewrite (app_assoc a CRLF), drop_app_length.
Qed.

(** The head of a command, in front of its first argument. *)
Lemma next_first n a rest :
  0 <= n -> Z.of_nat (length a) < 2 ^ 31 -> rest <> [] ->
  nextArgument ((lit "*" ++ print_int n ++ CRLF) ++ arg_text a ++ rest) =
  inr (Some (a ++ CRLF ++ rest, Z.of_nat (length a), rest)).
Proof.
  intros Hn Ha Hr. rewrite <-(next_at a rest Ha Hr). unfold nextArgument at 1.
  assert (strchr "$" ((lit "*" ++ print_int n ++ CRLF) ++ arg_text a ++ rest) = Some (arg_text a ++ rest)) as E.
  { unfold arg_text at 1. change ((lit "$" ++ ?t) ++ rest) with (x24 :: t ++ rest). rewrite strchr_skip; [done|..].
    - rewrite <-Resp.print_nat_int by lia. rewrite !not_elem_of_app. split; [by_decide|]. split; [|by_decide].
      apply Conf.digits_not_in; [lia|done].
    - rewrite <-Resp.print_nat_int by lia. rewrite !not_elem_of_app. split; [by_decide|]. split; [|by_decide].
      apply Conf.digits_not_in; [lia|done]. }
  change ((lit "*" ++ ?t) ++ ?u) with (x2a :: t ++ u) in *. change (Byte.eqb x2a "$") with false. cbv iota. rewrite E.
  unfold arg_text. change ((lit "$" ++ ?t) ++ ?u) with (x24 :: t ++ u). done.
Qed.

Definition small (a : bytes) : Prop := Z.of_nat (length a) < 2 ^ 31.

Lemma length_arg_text a : (1 <= length (arg_text a))%nat.
Proof. cbn. lia. Qed.

(** The turns over the channels, with more fuel than there are channels. *)
Lemma subscribe_loop_all fuel cb channels pending d :
  Forall small channels -> (length channels < fuel)%nat ->
  subscribe_loop fuel cb (concat (map arg_text channels) ++ [x00]) pending d =
  inr (fold_left (fun '(d, pending_subs) ch =>
         let pending_subs := match dict_find d ch with Some (_, n) => n + 1 | None => pending_subs end in
         (dict_replace d ch (cb, pending_subs), pending_subs)) channels (d, pending)).1.
Proof.
  intros Hs. revert fuel pending d. induction Hs as [|ch channels Hc _ IH]; intros [|fuel] pending d Hf; cbn [length] in Hf; try lia.
  - done.
  - cbn [map concat]. rewrite <-app_assoc. cbn [subscribe_loop]. rewrite next_at; [|exact Hc|by destruct (concat _)].
    rewrite Nat2Z.id, take_app_length. cbv zeta. rewrite IH by lia. done.
Qed.

Lemma length_args channels : (length channels <= length (concat (map arg_text channels)))%nat.
Proof. induction channels as [|c l IH]; cbn [map concat length]; [lia|]. rewrite length_app. pose proof (length_arg_text c). lia. Qed.

(** A name is compared with what follows it in the command, which makes no difference. *)
Lemma strn_eq_line s name rest :
  Forall (fun c => tolower c <> x0d) s ->
  strncasecmp_eq (length s + 2) (name ++ CRLF ++ rest) (s ++ CRLF) = command_is name s.
Proof.
  intros Hs. unfold command_is, strncasecmp_eq. revert name. induction Hs as [|c s Hc _ IH]; intros name.
  - by destruct name as [|x [|y name]].
  - destruct name as [|x name]; cbn [length app Nat.add strn_eq head default tail id].
    + assert (Byte.eqb (tolower x0d) (tolower c) = false) as E by (by apply byte_eqb_neq).
      change (default x00 (head (CRLF ++ rest))) with x0d. change (default x00 (head CRLF)) with x0d. by rewrite E.
    + destruct (Byte.eqb (tolower x) (tolower c)); [|done]. destruct (Byte.eqb x x00); [done|]. apply IH.
Qed.

Lemma letters_line s : forallb (fun c => negb (Byte.eqb (tolower c) x0d)) s = true -> Forall (fun c => tolower c <> x0d) s.
Proof.
  intros H. apply Forall_forall. intros c Hc. rewrite forallb_forall in H. apply list_elem_of_In in Hc. apply H in Hc.
  by apply byte_eqb_neq, negb_true_iff.
Qed.

(** The effect on the context, from the list of the arguments. *)
Definition command_effect (cb : redis_cb) (name : bytes) (args : list bytes) (x : redis_ctx) : option redis_ctx :=
  let pvariant := Byte.eqb (tolower (default x0d (head name))) x70 in
  let cstr := if pvariant then tail name else name in
  if negb (bool_decide (args = [])) && command_is cstr (lit "subscribe") then
    let x := set_ac_subscribed true x in
    Some (if pvariant then set_ac_sub_patterns (subscribe_all cb args (ac_sub_patterns x)) x
          else set_ac_sub_channels (subscribe_all cb args (ac_sub_channels x)) x)
  else if command_is cstr (lit "unsubscribe") then if negb (ac_subscribed x) then None else Some x
  else if command_is cstr (lit "monitor") then Some (set_ac_replies (ac_replies x ++ [cb]) (set_ac_monitoring true x))
  else if ac_subscribed x then Some (set_ac_sub_invalid (ac_sub_invalid x ++ [cb]) x)
  else Some (set_ac_replies (ac_replies x ++ [cb]) x).

Lemma command_argv ac cb name args x w :
  w_acs w !! ac = Some x -> ac_disconnecting x || ac_freeing x = false ->
  redisAsyncCommandArgv ac cb (name :: args) w =
  match command_effect cb name args x with
  | Some y => append_command ac y (name :: args) w
  | None => Ok false w
  end.
Proof.
  intros Hx Hd. unfold redisAsyncCommandArgv. rewrite (bind_eq (get_ac ac) _ w x w) by (by apply get_ac_ok).
  rewrite Hd. unfold command_effect. cbv zeta. repeat case_match; try done; congruence.
Qed.

Lemma command_text cb name args n x :
  0 <= n -> Forall small (name :: args) -> ac_disconnecting x || ac_freeing x = false ->
  let cmd := (lit "*" ++ print_int n ++ CRLF) ++ concat (map arg_text (name :: args)) in
  __redisAsyncCommand cb cmd x = inr ((fun y => (y, cmd)) <$> command_effect cb name args x).
Proof.
  intros Hn Hs Hd cmd. apply Forall_cons in Hs as [Hname Hargs]. unfold __redisAsyncCommand. rewrite Hd.
  assert (length args < length (concat (map arg_text args) ++ [x00]))%nat as Hf.
  { clear. rewrite length_app. pose proof (length_args args). cbn [length]. lia. }
  assert (nextArgument (cmd ++ [x00]) = inr (Some (name ++ CRLF ++ concat (map arg_text args) ++ [x00], Z.of_nat (length name),
            concat (map arg_text args) ++ [x00]))) as ->.
  { subst cmd. cbn [map concat]. rewrite <-(app_assoc (lit "*" ++ _ ++ _)), <-(app_assoc (arg_text name)).
    apply next_first; [done|done|by destruct (concat _)]. }
  unfold command_effect.
  assert (default x00 (head (name ++ CRLF ++ concat (map arg_text args) ++ [x00])) = default x0d (head name)) as ->
    by (by destruct name).
  assert (Byte.eqb (default x00 (head (concat (map arg_text args) ++ [x00]))) "$" = negb (bool_decide (args = []))) as ->.
  { destruct args; [done|]. by rewrite bool_decide_false. }
  change x70 with "p"%byte. set (pvariant := Byte.eqb (tolower (default x0d (head name))) "p").
  assert ((if pvariant then tail (name ++ CRLF ++ concat (map arg_text args) ++ [x00]) else name ++ CRLF ++ concat (map arg_text args) ++ [x00]) =
          (if pvariant then tail name else name) ++ CRLF ++ concat (map arg_text args) ++ [x00]) as ->.
  { subst pvariant. destruct name; [done|]. by destruct (Byte.eqb _ _). }
  set (cstr := if pvariant then tail name else name).
  pose proof (strn_eq_line (lit "subscribe") cstr (concat (map arg_text args) ++ [x00]) (letters_line (lit "subscribe") eq_refl)) as E1.
  pose proof (strn_eq_line (lit "unsubscribe") cstr (concat (map arg_text args) ++ [x00]) (letters_line (lit "unsubscribe") eq_refl)) as E2.
  pose proof (strn_eq_line (lit "monitor") cstr (concat (map arg_text args) ++ [x00]) (letters_line (lit "monitor") eq_refl)) as E3.
  change (length (lit "subscribe") + 2)%nat with 11%nat in E1. change (length (lit "unsubscribe") + 2)%nat with 13%nat in E2.
  change (length (lit "monitor") + 2)%nat with 9%nat in E3. rewrite E1, E2, E3. cbv zeta.
  rewrite (subscribe_loop_all _ cb args 1 (ac_sub_patterns (set_ac_subscribed true x)) Hargs Hf).
  rewrite (subscribe_loop_all _ cb args 1 (ac_sub_channels (set_ac_subscribed true x)) Hargs Hf).
  fold (subscribe_all cb args (ac_sub_patterns (set_ac_subscribed true x))).
  fold (subscribe_all cb args (ac_sub_channels (set_ac_subscribed true x))).
  repeat case_match; done.
Qed.

Lemma format_argv argv :
  Z.of_nat (length argv) < 2 ^ 31 -> Forall small argv ->
  Resp.redisFormatSdsCommandArgv argv =
  Some ((lit "*" ++ print_int (Z.of_nat (length argv)) ++ CRLF) ++ concat (map arg_text argv)).
Proof.
  intros Hn Hs. rewrite Resp.format_text; [|done|].
  - cbn [Resp.resp_text]. rewrite length_map, map_map, <-Resp.print_nat_int, <-!app_assoc by lia. done.
  - eapply Forall_impl; [exact Hs|]. unfold small. intros a Ha. cbv beta in *. lia.
Qed.


Definition sample_ctx : redis_ctx := new_ctx None true.

Definition sample_world : world := set_w_acs {[1%positive := sample_ctx]} (worker_new (conf_defaults 0 0) [] []).


(** ** Formats *)

(** The parts of an argument: text of the format itself, and interpolated values. *)
Inductive part :=
| Text (t : bytes)
| Str (s : bytes)
| Bin (s : bytes)
| Percent
| Int (v : Z).

Definition part_format (p : part) : bytes :=
  match p with
  | Text t => t
  | Str _ => lit "%s"
  | Bin _ => lit "%b"
  | Percent => lit "%%"
  | Int _ => lit "%d"
  end.

Definition part_args (p : part) : list argument :=
  match p with
  | Str s => [VString s]
  | Bin s => [VBinary s]
  | Int v => [VInt v]
  | _ => []
  end.

Definition part_value (p : part) : bytes :=
  match p with
  | Text t => t
  | Str s => s
  | Bin s => s
  | Percent => lit "%"
  | Int v => print_int v
  end.

Definition part_ok (p : part) : Prop :=
  match p with
  | Text t => t <> [] /\ x20 ∉ t /\ x25 ∉ t
  | Str s => no_nul s
  | Int v => - 2 ^ 31 <= v < 2 ^ 31
  | _ => True
  end.

Definition word_format (ps : list part) : bytes := concat (map part_format ps).
Definition word_args (ps : list part) : list argument := concat (map part_args ps).
Definition word_value (ps : list part) : bytes := concat (map part_value ps).

(** Words that are set apart by a space. *)
Fixpoint spaced (ws : list (list part)) : bytes :=
  match ws with
  | [] => []
  | [w] => word_format w
  | w :: ws => word_format w ++ x20 :: spaced ws
  end.

Lemma print_d v : - 2 ^ 31 <= v < 2 ^ 31 -> print_conversion (mk_conversion [] [] None [] "d") v = print_int v.
Proof.
  intros Hv. unfold print_conversion. cbn [cv_letter cv_size cv_precision cv_flags cv_width].
  change (one_of (lit "di") "d") with true. change (size_bits []) with 32. cbv zeta iota.
  rewrite wrap_s_small by (change (2 ^ (32 - 1)) with (2 ^ 31); lia).
  change (conversion_base "d") with 10. change (Byte.eqb "d" "X") with false. change (Byte.eqb "d" "o") with false.
  unfold has_flag. cbn [cv_flags cv_width]. change (decimal []) with 0. cbn [andb Z.eqb Z.to_nat Nat.sub].
  assert (forall c : byte, bool_decide (c ∈ @nil byte) = false) as Hf by (intros c; apply bool_decide_false, not_elem_of_nil).
  rewrite !Hf. cbn [andb]. unfold padded_digits, print_int, print_nat. cbn [andb app].
  destruct (Z.ltb_spec v 0); [rewrite Z.abs_neq by lia|rewrite Z.abs_eq by lia].
  - rewrite (proj2 (Z.eqb_neq (- v) 0)) by lia. pose proof (digits_nonempty 10 (- v)). by destruct (digits 10 (- v)).
  - destruct (Z.eqb_spec v 0) as [->|]; [done|]. pose proof (digits_nonempty 10 v). by destruct (digits 10 v).
Qed.

(** One part is consumed and added to the argument. *)
Lemma format_text_part t rest ap cur touched argv :
  x20 ∉ t -> x25 ∉ t ->
  format_loop 0 (t ++ rest) ap cur touched argv =
  format_loop 0 rest ap (cur ++ t) (touched || negb (bool_decide (t = []))) argv.
Proof.
  revert cur touched. induction t as [|c t IH]; intros cur touched Hs Hp.
  - by rewrite app_nil_r, orb_false_r.
  - rewrite not_elem_of_cons in Hs, Hp. cbn [app format_loop].
    rewrite (proj2 (byte_eqb_neq c "%")), (proj2 (byte_eqb_neq c " ")) by naive_solver. cbn [negb orb].
    rewrite IH by tauto. by rewrite <-app_assoc, orb_true_r.
Qed.

Lemma format_part p rest ap cur touched argv :
  part_ok p ->
  format_loop 0 (part_format p ++ rest) (part_args p ++ ap) cur touched argv =
  format_loop 0 rest ap (cur ++ part_value p) true argv.
Proof.
  destruct p as [t|s|s| |v]; cbn [part_ok part_format part_args part_value app].
  - intros (Hne & Hs & Hp). rewrite format_text_part by done. by rewrite bool_decide_false, orb_true_r.
  - intros Hs. cbn. by rewrite cstr_id.
  - done.
  - done.
  - intros Hv. change (lit "%d" ++ rest) with (x25 :: x64 :: rest). cbn [format_loop].
    change (negb (Byte.eqb x25 "%") || bool_decide (x64 :: rest = [])) with false. cbv iota.
    assert (directive (x64 :: rest) (VInt v :: ap) = Formatted_ok (print_int v, ap, 1%nat)) as ->; [|done].
    unfold directive. change (Byte.eqb x64 "s") with false. change (Byte.eqb x64 "b") with false.
    change (Byte.eqb x64 "%") with false. cbv iota.
    change (scan_conversion (x64 :: rest)) with (Formatted_ok (mk_conversion [] [] None [] "d", rest)). cbv iota zeta.
    replace (length (x64 :: rest) - length rest)%nat with 1%nat by (cbn [length]; lia).
    unfold convert. cbn [cv_letter cv_size]. change (one_of (lit "diouxX") "d" && (size_bits [] <=? 32)) with true. cbv iota.
    by rewrite print_d.
Qed.

Lemma format_word w rest ap cur touched argv :
  Forall part_ok w ->
  format_loop 0 (word_format w ++ rest) (word_args w ++ ap) cur touched argv =
  format_loop 0 rest ap (cur ++ word_value w) (touched || negb (bool_decide (w = []))) argv.
Proof.
  intros Hw. revert cur touched. induction Hw as [|p w Hp _ IH]; intros cur touched; unfold word_format, word_args, word_value.
  - cbn [map concat app]. rewrite bool_decide_true by done. by rewrite app_nil_r, orb_false_r.
  - cbn [map concat]. fold (word_format w) (word_args w) (word_value w). rewrite <-!app_assoc, format_part, IH by done.
    cbn [orb]. by rewrite <-app_assoc, (bool_decide_false (p :: w = [])), orb_true_r.
Qed.

Lemma format_words ws argv :
  Forall (fun w => w <> [] /\ Forall part_ok w) ws ->
  format_loop 0 (spaced ws) (concat (map word_args ws)) [] false argv = Formatted_ok (reverse argv ++ map word_value ws).
Proof.
  intros Hws. revert argv. induction Hws as [|w ws [Hne Hw] Hws IH]; intros argv.
  - cbn. by rewrite app_nil_r.
  - cbn [map concat]. destruct ws as [|w' ws].
    + cbn [spaced map concat]. rewrite <-(app_nil_r (word_format w)), format_word by done. cbn [app format_loop].
      rewrite bool_decide_false by done. cbn [orb negb]. by rewrite reverse_cons.
    + change (spaced (w :: w' :: ws)) with (word_format w ++ x20 :: spaced (w' :: ws)). rewrite format_word by done.
      rewrite bool_decide_false by done. cbn [app orb negb format_loop]. change (Byte.eqb x20 "%") with false.
      change (Byte.eqb x20 " ") with true. cbn [negb orb]. rewrite IH. by rewrite reverse_cons, <-app_assoc.
Qed.

(** The two ways to build the text agree on commands whose length is an [int]. *)
Lemma format_both argv :
  let text := (lit "*" ++ print_int (Z.of_nat (length argv)) ++ CRLF) ++ concat (map arg_text argv) in
  Z.of_nat (length argv) < 2 ^ 31 -> Z.of_nat (length text) < 2 ^ 31 -> redisFormatCommandArgv argv = Some text.
Proof.
  intros text Hn. subst text. rewrite <-!app_assoc. intros Ht. unfold redisFormatCommandArgv. fold arg_text.
  rewrite (proj2 (Z.eqb_eq _ _)); [done|].
  rewrite !length_app in *. rewrite Resp.countDigits_spec, Resp.print_nat_int by lia.
  change (length CRLF) with 2%nat in *. change (length (lit "*")) with 1%nat in *.
  assert (forall t, 0 <= t -> t + Z.of_nat (length (concat (map arg_text argv))) < 2 ^ 31 ->
    fold_left (fun t a => i32 (t + Resp.bulklen (Z.of_nat (length a)))) argv t = t + Z.of_nat (length (concat (map arg_text argv)))) as Hfold.
  { clear. induction argv as [|a argv IH]; intros t H0 Ht; cbn [fold_left map concat length] in *; [lia|].
    rewrite length_app in *.
    assert (Resp.bulklen (Z.of_nat (length a)) = Z.of_nat (length (arg_text a))) as E.
    { unfold arg_text in *. rewrite !length_app in *. unfold Resp.bulklen. rewrite Resp.countDigits_spec by lia.
      change (length CRLF) with 2%nat. change (length (lit "$")) with 1%nat. lia. }
    rewrite E, wrap_s_small by (change (2 ^ (32 - 1)) with (2 ^ 31); lia). rewrite IH by lia. lia. }
  rewrite Hfold by lia. lia.
Qed.

(** C25: a command built from a format is the command of its words. In a format of words
    set apart by single spaces, in which [%s], [%b], [%d] and [%%] may be mixed with text,
    [redisvFormatCommand] makes of every word one argument, with the values in place of the
    conversions: spaces, line ends and percent signs in the values do not split an argument
    nor add one, and empty values are kept. The text is the one that
    [redisFormatSdsCommandArgv] makes of the arguments. *)
Theorem format_command_words (ws : list (list part)) (text : bytes) :
  Forall (fun w => w <> [] /\ Forall part_ok w) ws -> Z.of_nat (length ws) < 2 ^ 31 ->
  Resp.redisFormatSdsCommandArgv (map word_value ws) = Some text -> Z.of_nat (length text) < 2 ^ 31 ->
  redisvFormatCommand (spaced ws) (concat (map word_args ws)) = Formatted_ok text.
Proof.
  intros Hws Hn Ht Hl. unfold redisvFormatCommand. rewrite format_words by done. cbn [reverse rev_append app].
  assert (Forall small (map word_value ws)) as Hs.
  { unfold Resp.redisFormatSdsCommandArgv in Ht. cbv zeta in Ht. destruct (_ =? _); [|done]. apply (inj Some) in Ht. subst text. rewrite !length_app in Hl.
    apply Forall_forall. intros a Ha. unfold small. apply list_elem_of_split in Ha as (l1 & l2 & E). rewrite E in Hl.
    rewrite map_app, concat_app in Hl. cbn [map concat] in Hl. rewrite !length_app in Hl. lia. }
  rewrite format_argv in Ht by (done || by rewrite length_map). injection Ht as <-.
  rewrite format_both; [done|by rewrite length_map|done].
Qed.

(** The commands of the pool. *)
Lemma format_command_words_witness :
  redisvFormatCommand (lit "AUTH %s %s") [VString (lit "web dis"); VString (lit "p%s" ++ CRLF)] =
    Formatted_ok (default [] (Resp.redisFormatSdsCommandArgv [lit "AUTH"; lit "web dis"; lit "p%s" ++ CRLF])) /\
  redisvFormatCommand (lit "SELECT %d") [VInt 15] =
    Formatted_ok (default [] (Resp.redisFormatSdsCommandArgv [lit "SELECT"; lit "15"])).
Proof.
  split.
  - apply (format_command_words [[Text (lit "AUTH")]; [Str (lit "web dis")]; [Str (lit "p%s" ++ CRLF)]]);
      [repeat constructor; by_decide|done|reflexivity|vm_compute; reflexivity].
  - apply (format_command_words [[Text (lit "SELECT")]; [Int 15]]); [repeat constructor; by_decide || lia|done|reflexivity|vm_compute; reflexivity].
Defined.

(** A conversion that is cut short by the end of the format is taken for an integer, and
    the format is read on behind its end. *)
Example cut_conversion : redisvFormatCommand (lit "GET %5") [VInt 1] = Undefined.
Proof. done. Qed.

(** A conversion too long for the buffer uses up its argument and is printed as text. *)
Example long_conversion :
  format_loop 0 (lit "GET %00000000000012d") [VInt 7] [] false [] = Formatted_ok [lit "GET"; lit "0000000000012d"].
Proof. done. Qed.

(** The count of a channel that waits for its confirmation already is carried over to the
    channels behind it in the command, which are subscribed to for the first time. *)
Example pending_subs_carried :
  (fun r => match r with inr (Some (y, _)) => map (fun e => (e.1, snd e.2)) (ac_sub_channels y) | _ => [] end)
    (__redisAsyncCommand CB_NULL (default [] (Resp.redisFormatSdsCommandArgv [lit "SUBSCRIBE"; lit "a"; lit "b"]))
      (set_ac_sub_channels [(lit "a", (CB_NULL, 1))] sample_ctx)) = [(lit "a", 2); (lit "b", 2)].
Proof. vm_compute. reflexivity. Qed.

End Formatted.
