(* ===== verification/Cmd.v ===== *)
(** * Commands: src/cmd.c

    [cmd_run] is the way of a request into Redis: it builds the command from the
    URL, asks the access control, chooses a connection and sends the command with
    the callback that will format the reply. *)
From S2P Require Import Prelude Types Acl Http Uri World Pool.

Local Open Scope Z_scope.

Module Cmd.
Import Http Acl Uri World Pool.

(** What a command needs of hiredis to be freed: [Hiredis] has the instance. *)
Class AsyncDisconnect := redisAsyncDisconnect : loc -> M unit.

(** pool.c, [pool_free_context]. *)
Definition pool_free_context `{AsyncDisconnect} (ac : option loc) : M unit :=
  match ac with
  | Some ac => redisAsyncDisconnect ac
  | None => skip
  end.

(** ** The code *)

Definition cmd_new (client : option loc) (count : nat) : M loc :=
  c ← fresh;
  put_cmd c (mk_cmd 0 (Z.of_nat count) (replicate count []) None false None None None None false
               false false 0 0 client None None) ;;
  match client with
  | Some cl => upd_client cl (set_hc_last_cmd (Some c))
  | None => skip
  end ;;
  mret c.

(** The memory of the arguments is not modelled: [cmd_free_argv] only forgets
    them. *)
Definition cmd_free_argv (c : loc) : M unit := upd_cmd c (set_cmd_argv []).

Definition cmd_free `{AsyncDisconnect} (c : loc) : M unit :=
  x ← get_cmd c;
  match cmd_http_client x with
  | Some cl =>
      client ← get_client cl;
      when (bool_decide (hc_last_cmd client = Some c)) (upd_client cl (set_hc_last_cmd None))
  | None => skip
  end ;;
  w ← get;
  match cmd_ac x with
  | Some ac =>
      when (negb (cmd_database x =? cfg_database (w_cfg w)) || cmd_is_subscribe x)
        (pool_free_context (Some ac))
  | None => skip
  end ;;
  cmd_free_argv c ;;
  del_cmd c.

(** The loop over the headers in [cmd_setup]. *)
Fixpoint setup_headers (headers : list req_header) (x : cmd) : M cmd :=
  match headers with
  | [] => mret x
  | h :: rest =>
      if strcasecmp_eq (rh_key h) (lit "If-None-Match") then
        setup_headers rest (set_cmd_if_none_match (Some (default [] (rh_val h))) x)
      else if strcasecmp_eq (rh_key h) (lit "Connection") then
        v ← deref (rh_val h);
        setup_headers rest (if strcasecmp_eq v (lit "Keep-Alive") then set_cmd_keep_alive true x else x)
      else setup_headers rest x
  end.

(** A field whose ownership moves from the client to the command. *)
Definition moved (v old : option bytes) : option bytes := match v with Some _ => v | None => old end.

Definition cmd_setup (c client : loc) : M unit :=
  x ← get_cmd c;
  cl ← get_client client;
  x ← setup_headers (hc_headers cl) (set_cmd_keep_alive (hc_keep_alive cl) x);
  let x := match hc_type cl with
           | Some t => set_cmd_mime_free true (set_cmd_mime (Some t) x)
           | None => x
           end in
  let x := set_cmd_jsonp (moved (hc_jsonp cl) (cmd_jsonp x)) x in
  let x := set_cmd_separator (moved (hc_separator cl) (cmd_separator x)) x in
  let x := set_cmd_filename (moved (hc_filename cl) (cmd_filename x)) x in
  put_client client (set_hc_type None (set_hc_jsonp None (set_hc_separator None (set_hc_filename None cl)))) ;;
  put_cmd c (set_cmd_http_version (hc_http_version cl) (set_cmd_fd (hc_fd cl) x)).

Definition cmd_send (c : loc) (f_format : formatting_fun) : M unit :=
  x ← get_cmd c;
  ac ← deref (cmd_ac x);
  if cmd_count x <=? Z.of_nat (length (cmd_argv x)) then
    _ ← redisAsyncCommandArgv ac (CB_REPLY f_format c) (take (Z.to_nat (cmd_count x)) (cmd_argv x)); skip
  else fail OutOfBounds.

(** The parts of [cmd_run]. [buf + uri] is the text of the command. *)

(** Up to the access control: the command with its name. *)
Definition cmd_prepare (client : loc) (buf : bytes) (uri uri_len param_count : nat)
  : M (loc * formatting_fun * nat * name_pos) :=
  c ← cmd_new (Some client) param_count;
  cl ← get_client client;
  cfg ← gets w_cfg;
  upd_cmd c (fun x => set_cmd_database (cfg_database cfg) (set_cmd_fd (hc_fd cl) x)) ;;
  x ← get_cmd c;
  '(uri_len, f_format, x) ← in_bounds (cmd_select_format (hc_type cl) x buf uri uri_len);
  put_cmd c x ;;
  cmd_setup c client ;;
  let u := drop uri buf in
  let np := find_name u uri_len in
  match np_db np with
  | Some db_num => upd_cmd c (fun x => set_cmd_count (cmd_count x - 1) (set_cmd_database db_num x))
  | None => skip
  end ;;
  x ← get_cmd c;
  name ← in_bounds (slice u (np_name np) (np_len np));
  argv ← in_bounds (put_arg (cmd_argv x) 0 name);
  put_cmd c (set_cmd_argv argv x) ;;
  mret (c, f_format, uri_len, np).

(** The choice of the connection. *)
Definition cmd_connect (client c : loc) : M unit :=
  x ← get_cmd c;
  cfg ← gets w_cfg;
  if cmd_is_subscribe x then
    ac ← pool_connect (cmd_database x) false;
    upd_cmd c (set_cmd_ac ac) ;;
    upd_client client (set_hc_reused_cmd (Some c)) ;;
    upd_cmd c (set_cmd_pub_sub_client (Some client))
  else if negb (cmd_database x =? cfg_database cfg) then
    ac ← pool_connect (cmd_database x) false;
    upd_cmd c (set_cmd_ac ac)
  else
    ac ← pool_get_context;
    upd_cmd c (set_cmd_ac ac).

Section Run.
Context `{AsyncDisconnect}.

(** From the connection on. *)
Definition cmd_finish (client c : loc) (f_format : formatting_fun) (u : bytes) (uri_len : nat)
  (np : name_pos) (body : option bytes) : M cmd_response_t :=
  match np_slash np with
  | None =>
      x ← get_cmd c;
      match cmd_ac x with
      | None => cmd_free c ;; mret CMD_REDIS_UNAVAIL
      | Some ac =>
          _ ← redisAsyncCommandArgv ac (CB_REPLY f_format c) (take 1 (cmd_argv x));
          mret CMD_SENT
      end
  | Some _ =>
      x ← get_cmd c;
      argv ← in_bounds (record_args u uri_len (np_name np + np_len np + 1) (cmd_argv x) body);
      put_cmd c (set_cmd_argv argv x) ;;
      match cmd_ac x with
      | Some _ => cmd_send c f_format ;; mret CMD_SENT
      | None =>
          cmd_free c ;;
          upd_client client (set_hc_reused_cmd None) ;;
          mret CMD_REDIS_UNAVAIL
      end
  end.

Definition cmd_run (client : loc) (buf : bytes) (uri uri_len : nat) (body : option bytes)
  : M cmd_response_t :=
  let u := drop uri buf in
  let uri_len := default uri_len (memchr x3f uri_len u) in
  let body := match body with Some [] => None | _ => body end in
  let param_count := (count_params u uri_len + if body then 1 else 0)%nat in
  if (param_count =? 0)%nat then mret CMD_PARAM_ERROR
  else
    '(c, f_format, uri_len, np) ← cmd_prepare client buf uri uri_len param_count;
    x ← get_cmd c;
    cl ← get_client client;
    cfg ← gets w_cfg;
    if negb (acl_allow_command x cfg cl) then
      cmd_free c ;; mret CMD_ACL_FAIL
    else
      cmd_connect client c ;;
      cmd_finish client c f_format u uri_len np body.

End Run.

(** ** What the parts compute *)

(** The fields of a command that decide where it goes. *)
Definition cmd_core (x : cmd) :=
  (cmd_count x, cmd_argv x, cmd_database x, cmd_http_client x, cmd_pub_sub_client x, cmd_ac x).

Lemma text_mime_core u c : cmd_core (text_mime u c) = cmd_core c.
Proof. unfold text_mime. by destruct (_ ≫= _) as [[f ct]|]. Qed.

Definition headers_complete (cl : http_client) : Prop := Forall (fun h => is_Some (rh_val h)) (hc_headers cl).

Lemma setup_headers_ok hs x w :
  Forall (fun h => is_Some (rh_val h)) hs ->
  exists x', setup_headers hs x w = Ok x' w /\ cmd_core x' = cmd_core x.
Proof.
  intros Hh. revert x. induction Hh as [|h hs [v Hv] _ IH]; intros x; [by exists x|].
  cbn [setup_headers]. destruct (strcasecmp_eq _ _).
  { destruct (IH (set_cmd_if_none_match (Some (default [] (rh_val h))) x)) as (x' & E & Hc). exists x'. by rewrite E, Hc. }
  destruct (strcasecmp_eq _ _); [|apply IH]. rewrite Hv. cbn [deref]. M_run.
  destruct (strcasecmp_eq _ _); [|apply IH].
  destruct (IH (set_cmd_keep_alive true x)) as (x' & E & Hc). exists x'. by rewrite E, Hc.
Qed.

(** The client once its request options were moved into the command [c]. *)
Definition client_with_cmd (c : loc) (cl : http_client) : http_client :=
  set_hc_type None (set_hc_jsonp None (set_hc_separator None (set_hc_filename None
    (set_hc_last_cmd (Some c) cl)))).

Definition with_cmd (client c : loc) (x : cmd) (cl : http_client) (w : world) : world :=
  set_w_cmds (<[c := x]> (w_cmds w)) (set_w_clients (<[client := cl]> (w_clients w))
    (set_w_next (Pos.succ (w_next w)) w)).

Lemma cmd_setup_spec c client w x cl :
  w_cmds w !! c = Some x -> w_clients w !! client = Some cl -> headers_complete cl ->
  exists x', cmd_core x' = cmd_core x /\
    cmd_setup c client w =
    Ok () (set_w_cmds (<[c := x']> (w_cmds w)) (set_w_clients
      (<[client := set_hc_type None (set_hc_jsonp None (set_hc_separator None (set_hc_filename None cl)))]>
         (w_clients w)) w)).
Proof.
  intros Hx Hcl Hh. unfold cmd_setup. M_run.
  destruct (setup_headers_ok (hc_headers cl) (set_cmd_keep_alive (hc_keep_alive cl) x) w Hh) as (x1 & E & Hc1).
  rewrite (bind_eq _ _ _ _ _ E). cbv zeta. M_run. eexists. split; [|reflexivity].
  etrans; [|exact Hc1]. by destruct (hc_type cl).
Qed.

(** Up to the access control nothing fails: the command object holds the name and
    the empty slots, the client's options have moved into it. *)
Lemma cmd_prepare_spec client pre u t post n w cl :
  w_clients w !! client = Some cl -> headers_complete cl ->
  (u = [] -> last pre = Some x2f) -> isxdigit t = false -> t <> x2f -> (1 <= n)%nat ->
  let r := request_of (command_text u) in
  exists t' post' x,
    u ++ t :: post = command_text u ++ t' :: post' /\ isxdigit t' = false /\ t' <> x2f /\
    cmd_core x = (Z.of_nat n - (if rq_db r then 1 else 0), rq_name r :: replicate (n - 1) [],
                  default (cfg_database (w_cfg w)) (rq_db r), Some client, None, None) /\
    cmd_prepare client (pre ++ u ++ t :: post) (length pre) (length u) n w =
    Ok (w_next w, text_format (hc_type cl) u, length (command_text u),
        find_name (command_text u ++ t' :: post') (length (command_text u)))
       (with_cmd client (w_next w) x (client_with_cmd (w_next w) cl) w).
Proof.
  intros Hcl Hh Hpre Ht Hts Hn. cbv zeta. destruct w. unfold cmd_prepare, cmd_new. M_run.
  rewrite cmd_select_format_eq by done. cbn [in_bounds]. M_run.
  assert (exists t' post', u ++ t :: post = command_text u ++ t' :: post' /\ isxdigit t' = false /\ t' <> x2f)
    as (t' & post' & Hu' & Ht' & Hts').
  { destruct (command_text_shape u) as (e & Hu & [-> | (e' & -> & _)]).
    - exists t, post. rewrite app_nil_r in Hu. by rewrite <-Hu.
    - exists x2e, (e' ++ t :: post). split; [|done]. rewrite Hu at 1. by rewrite <-app_assoc. }
  match goal with |- context [mbind _ (cmd_setup ?c ?l) ?w0] =>
    edestruct (cmd_setup_spec c l w0) as (x2 & Hc2 & E2);
      [world_lookup|world_lookup|exact Hh|rewrite (bind_eq _ _ _ _ _ E2)] end.
  rewrite drop_app_length, Hu'. clear E2. world_norm.
  destruct (find_name_request (command_text u) t' post' Ht' Hts') as (_ & Hdb & Hname & _).
  rewrite text_mime_core in Hc2. rewrite Hdb.
  destruct n as [|n]; [lia|]. unfold cmd_core in Hc2. cbn [cmd_count cmd_argv cmd_database
    cmd_http_client cmd_pub_sub_client cmd_ac set_cmd_database set_cmd_fd replicate] in Hc2.
  injection Hc2 as Hc1 Hc2 Hc3 Hc4 Hc5 Hc6.
  exists t', post'. rewrite Nat.sub_succ, Nat.sub_0_r.
  destruct (rq_db (request_of (command_text u))) as [db|]; M_run; rewrite Hname; cbn [in_bounds]; M_run;
    cbn [cmd_argv set_cmd_count set_cmd_database]; rewrite Hc2; cbn [put_arg length Nat.ltb Nat.leb in_bounds]; M_run;
    eexists; (split; [done|]; split; [done|]; split; [done|]; split; [|reflexivity]);
    unfold cmd_core; cbn; repeat f_equal; (done || lia).
Qed.

(** ** Connecting and sending *)

Lemma pool_inv_with_cmd client c x cl w : pool_inv w -> pool_inv (with_cmd client c x cl w).
Proof. intros [H1 H2 H3 H4 H5]. split; try done. intros l Hl. apply H1. cbn in Hl. lia. Qed.

(** Does a command get a connection of its own? *)
Definition own_connection (x : cmd) (cfg : conf) : bool :=
  cmd_is_subscribe x || negb (cmd_database x =? cfg_database cfg).

(** The context a command was given: a new one that only has the commands of its
    set-up to send, or one of the pool. *)
Definition given_context (x : cmd) (w w' : world) (ac : loc) : Prop :=
  exists y, w_acs w' !! ac = Some y /\
    if own_connection x (w_cfg w)
    then w_acs w !! ac = None /\ ac_disconnecting y = false /\ ac_freeing y = false /\ ac_subscribed y = false /\
         ac_obuf y = auth_commands (w_cfg w) ++ select_commands (cmd_database x)
    else w_acs w' = w_acs w /\ exists i, pool_ac (w_pool w) !! i = Some (Some ac).

(** What sending needs of the state. *)
Record ready (w : world) : Prop := {
  ready_pool : pool_inv w;
  ready_slots : 1 <= pool_count (w_pool w);
  ready_auth : auth_wf (w_cfg w);
  ready_connect : head (w_connect w) <> Some CONNECT_NULL }.

Lemma ready_with_cmd client c x cl w : ready w -> ready (with_cmd client c x cl w).
Proof. intros [H1 H2 H3 H4]. split; try done. by apply pool_inv_with_cmd. Qed.

Lemma pool_get_context_run w :
  pool_inv w -> 1 <= pool_count (w_pool w) ->
  exists r w', pool_get_context w = Ok r w' /\ w_acs w' = w_acs w /\
    forall ac, r = Some ac -> exists i y, pool_ac (w_pool w) !! i = Some (Some ac) /\ w_acs w !! ac = Some y.
Proof.
  intros Hinv Hn. destruct (inv_cur w Hinv) as [?|Hwf]; [lia|]. rewrite (pool_get_context_eq w Hwf).
  destruct (first_live _ _) as [[ac i]|] eqn:F; [|by eexists _, _].
  apply first_live_Some in F as [_ Hslot]. eexists _, _. split; [done|]. split; [done|].
  intros ? [= <-]. exists (Z.to_nat i). pose proof (inv_slots w Hinv _ _ Hslot) as Hv.
  unfold views in Hv. rewrite lookup_fmap in Hv. destruct (w_acs w !! ac) as [y|]; [|done]. by exists y.
Qed.

Lemma cmd_connect_spec client c w x cl :
  w_cmds w !! c = Some x -> w_clients w !! client = Some cl -> ready w ->
  exists ac w' x' cl', cmd_connect client c w = Ok () w' /\
    w_cmds w' = <[c := x']> (w_cmds w) /\ w_clients w' = <[client := cl']> (w_clients w) /\
    hc_last_cmd cl' = hc_last_cmd cl /\
    cmd_core x' = (cmd_count x, cmd_argv x, cmd_database x, cmd_http_client x,
                   (if cmd_is_subscribe x then Some client else cmd_pub_sub_client x), ac) /\
    (forall a, ac = Some a -> given_context x w w' a).
Proof.
  intros Hx Hcl [Hinv Hn Hauth Hnull]. unfold cmd_connect. M_run. unfold given_context, own_connection.
  destruct (cmd_is_subscribe x) eqn:Hs; [|destruct (negb _) eqn:Hdb]; cbn [orb].
  - destruct (pool_connect_run (cmd_database x) false w Hinv Hauth Hnull) as (ac & w1 & E & _ & Hac).
    destruct (frame_pool_connect _ _ _ _ _ E) as (Fc & Fm & _ & Fg). rewrite (bind_eq _ _ _ _ _ E).
    destruct w1; cbn in Fc, Fm, Fg; subst. M_run. erewrite upd_cmd_eq by world_lookup. world_norm.
    eexists ac, _, _, _. split; [reflexivity|]. repeat (split; [reflexivity|]).
    intros a ->. destruct Hac as (_ & Hf & _ & y & Hy & _ & Hd & Hfr & Hsub & Ho). eauto 10.
  - destruct (pool_connect_run (cmd_database x) false w Hinv Hauth Hnull) as (ac & w1 & E & _ & Hac).
    destruct (frame_pool_connect _ _ _ _ _ E) as (Fc & Fm & _ & Fg). rewrite (bind_eq _ _ _ _ _ E).
    destruct w1; cbn in Fc, Fm, Fg; subst. erewrite upd_cmd_eq by world_lookup. world_norm.
    eexists ac, _, _, cl. split; [reflexivity|]. split; [reflexivity|]. split; [by cbn; rewrite insert_id|].
    repeat (split; [reflexivity|]).
    intros a ->. destruct Hac as (_ & Hf & _ & y & Hy & _ & Hd & Hfr & Hsub & Ho). eauto 10.
  - destruct (pool_get_context_run w Hinv Hn) as (ac & w1 & E & Hacs & Hac).
    destruct (frame_pool_get_context _ _ _ E) as (Fc & Fm & _ & Fg). rewrite (bind_eq _ _ _ _ _ E).
    destruct w1; cbn in Fc, Fm, Fg, Hacs; subst. erewrite upd_cmd_eq by world_lookup. world_norm.
    eexists ac, _, _, cl. split; [reflexivity|]. split; [reflexivity|]. split; [by cbn; rewrite insert_id|].
    repeat (split; [reflexivity|]).
    intros a ->. destruct (Hac a eq_refl) as (i & y & Hi & Hy). eauto 10.
Qed.

Lemma redisAsyncCommandArgv_total ac cb argv w y :
  w_acs w !! ac = Some y -> argv <> [] -> exists b w', redisAsyncCommandArgv ac cb argv w = Ok b w'.
Proof.
  intros Hy Hne. unfold redisAsyncCommandArgv, append_command. M_run.
  destruct (_ || _); [by eexists _, _|]. destruct argv as [|name args]; [done|].
  destruct (_ && _); [by eexists _, _|]. destruct (command_is _ _); [destruct (negb _); by eexists _, _|].
  destruct (command_is _ _); [by eexists _, _|]. destruct (ac_subscribed y); by eexists _, _.
Qed.

(** Freeing a command that has no connection. *)
Lemma cmd_free_unconnected `{AsyncDisconnect} c x client cl w :
  w_cmds w !! c = Some x -> cmd_ac x = None -> cmd_http_client x = Some client ->
  w_clients w !! client = Some cl -> hc_last_cmd cl = Some c ->
  cmd_free c w = Ok () (set_w_cmds (delete c (w_cmds w))
                         (set_w_clients (<[client := set_hc_last_cmd None cl]> (w_clients w)) w)).
Proof.
  intros Hx Hac Hhc Hcl Hl. destruct w. unfold cmd_free. M_run. rewrite Hhc. M_run.
  rewrite bool_decide_eq_true_2 by done. cbn [when]. M_run. rewrite Hac. M_run. unfold cmd_free_argv. M_run.
  erewrite del_cmd_eq by world_lookup. world_norm. by rewrite delete_insert_eq.
Qed.

(** ** The whole of [cmd_run] *)

(** The verdict of the access control on a command name. *)
Definition name_allowed (cfg : conf) (cl : http_client) (name : bytes) : bool :=
  acl_allow_command (mk_cmd 0 1 [name] None false None None None None false false false 0 0 None None None) cfg cl.

Lemma acl_loop_client perms c cl ip name auth :
  acl_loop perms (client_with_cmd c cl) ip name auth = acl_loop perms cl ip name auth.
Proof.
  revert auth. induction perms as [|a perms IH]; intros auth; [done|]. cbn [acl_loop].
  change (acl_match_client a (client_with_cmd c cl) ip) with (acl_match_client a cl ip).
  destruct (acl_match_client a cl ip); apply IH.
Qed.

Lemma acl_allow_core x cfg c cl name rest :
  cmd_argv x = name :: rest ->
  acl_allow_command x cfg (client_with_cmd c cl) = negb (cmd_count x =? 0) && name_allowed cfg cl name.
Proof.
  intros Ha. unfold name_allowed, acl_allow_command. rewrite Ha. cbn [cmd_count cmd_argv].
  change (1 =? 0) with false. cbv iota. destruct (cmd_count x =? 0); [done|]. cbn [negb andb].
  change (default [] (head (name :: rest))) with name. change (default [] (head [name])) with name.
  rewrite acl_loop_client. done.
Qed.

Definition put_body_of (body : option bytes) : option bytes := match body with Some [] => None | _ => body end.

(** The number of arguments of a request, its argument vector and what of it is
    sent: [cmd->count] of them, or only the name when the text has no slash. *)
Definition run_slots (u : bytes) (body : option bytes) : nat :=
  (slots_of (before_query u) + length (body_list (put_body_of body)))%nat.

Definition run_request (u : bytes) : request := request_of (command_text (before_query u)).

Definition run_count (u : bytes) (body : option bytes) : Z :=
  Z.of_nat (run_slots u body) - if rq_db (run_request u) then 1 else 0.

Definition run_argv (u : bytes) (body : option bytes) : list bytes :=
  if rq_slash (run_request u)
  then take (Z.to_nat (run_count u body)) (fill_argv (run_slots u body) (run_request u) (put_body_of body))
  else [rq_name (run_request u)].

Lemma length_fill_argv n r body :
  (S (length (request_args r) + length (body_list body)) <= n)%nat -> length (fill_argv n r body) = n.
Proof. intros H. unfold fill_argv. rewrite length_app, length_replicate. cbn [length]. rewrite length_app. lia. Qed.

Section Request.
Context `{AsyncDisconnect} (client : loc) (pre u : bytes) (body : option bytes) (w : world) (cl : http_client).
Context (Hcl : w_clients w !! client = Some cl) (Hh : headers_complete cl).
Context (Hpre : before_query u = [] -> last pre = Some x2f).

Let c := w_next w.
Let buf := pre ++ u ++ [x00].
Let r := run_request u.
Let text := command_text (before_query u).

(** The command is built, refused or sent on. *)
Lemma cmd_run_eq :
  exists t post x,
    u ++ [x00] = text ++ t :: post /\ isxdigit t = false /\ t <> x2f /\
    cmd_core x = (run_count u body, rq_name r :: replicate (run_slots u body - 1) [],
                  default (cfg_database (w_cfg w)) (rq_db r), Some client, None, None) /\
    cmd_run client buf (length pre) (length u) body w =
    if (run_slots u body =? 0)%nat then Ok CMD_PARAM_ERROR w
    else if negb (negb (run_count u body =? 0) && name_allowed (w_cfg w) cl (rq_name r)) then
      (cmd_free c ;; mret CMD_ACL_FAIL) (with_cmd client c x (client_with_cmd c cl) w)
    else
      (cmd_connect client c ;;
       cmd_finish client c (text_format (hc_type cl) (before_query u)) (text ++ t :: post) (length text)
         (find_name (text ++ t :: post) (length text)) (put_body_of body))
        (with_cmd client c x (client_with_cmd c cl) w).
Proof using Hcl Hh Hpre.
  destruct (before_query_shape u x00 [] eq_refl ltac:(done)) as (t1 & post1 & Hu & Ht1 & Hts1 & Hlen).
  assert (buf = pre ++ before_query u ++ t1 :: post1) as Hbuf by (unfold buf; by rewrite Hu).
  assert (drop (length pre) buf = before_query u ++ t1 :: post1) as Hdrop by (rewrite Hbuf; apply drop_app_length).
  assert ((count_params (drop (length pre) buf) (length (before_query u)) +
           (if match body with Some [] => None | _ => body end then 1 else 0))%nat = run_slots u body) as Hn.
  { rewrite Hdrop, count_params_split. unfold run_slots. f_equal. by destruct body as [[|]|]. }
  assert (drop (length pre) buf = u ++ [x00]) as Hdrop' by (rewrite Hdrop; by rewrite Hu).
  unfold cmd_run. cbv zeta. rewrite Hdrop' in Hn |- *. rewrite Hlen, Hn.
  destruct (run_slots u body) as [|n] eqn:En.
  { destruct (cmd_prepare_spec client (pre ++ [x2f]) (before_query u) t1 post1 1 w cl) as (t & post & x & Ht & H2 & H3 & _);
      [done|done|by rewrite last_snoc|done|done|lia|].
    exists t, post.
    eexists (mk_cmd 0 _ _ None false None None None None false false false 0 _ _ None None).
    unfold text. rewrite Hu. split; [exact Ht|]. do 2 (split; [done|]). split; [|done]. unfold cmd_core. cbn. done. }
  destruct (cmd_prepare_spec client pre (before_query u) t1 post1 (S n) w cl) as (t & post & x & Ht & H2 & H3 & Hx & E);
    [done|done|done|done|done|lia|].
  exists t, post, x. unfold text. rewrite Hu. split; [exact Ht|]. do 2 (split; [done|]). split.
  { rewrite Hx. unfold run_count. rewrite En. done. }
  cbn [Nat.eqb]. rewrite Hbuf. rewrite (bind_eq _ _ _ _ _ E). unfold with_cmd. M_run.
  unfold cmd_core in Hx. injection Hx as Hx1 Hx2 Hx3 _ _ _. fold c.
  erewrite (acl_allow_core x (w_cfg w) c cl) by exact Hx2. rewrite Hx1. unfold run_count. rewrite En.
  destruct (negb _); [done|]. rewrite Ht. done.
Qed.

Lemma cmd_run_refused :
  run_slots u body <> O -> name_allowed (w_cfg w) cl (rq_name r) = false \/ run_count u body = 0 ->
  w_cmds w !! w_next w = None ->
  exists w', cmd_run client buf (length pre) (length u) body w = Ok CMD_ACL_FAIL w' /\
    w' = set_w_clients (<[client := set_hc_last_cmd None (client_with_cmd c cl)]> (w_clients w))
           (set_w_next (Pos.succ (w_next w)) w).
Proof using Hcl Hh Hpre.
  intros Hslots Hno Hfresh. destruct cmd_run_eq as (t & post & x & _ & _ & _ & Hx & E). rewrite E. clear E.
  rewrite (proj2 (Nat.eqb_neq _ _)) by done.
  assert (negb (run_count u body =? 0) && name_allowed (w_cfg w) cl (rq_name r) = false) as ->.
  { destruct Hno as [-> | ->]; [apply andb_false_r|done]. }
  cbn [negb]. unfold cmd_core in Hx. injection Hx as _ _ _ Hx4 _ Hx6. unfold with_cmd.
  erewrite bind_eq; [|eapply cmd_free_unconnected; [world_lookup|exact Hx6|exact Hx4|world_lookup|done]].
  eexists. split; [reflexivity|]. destruct w. world_norm. by rewrite delete_insert_id.
Qed.
End Request.

(** What is sent of a filled argument vector. *)
Definition sent_argv (r : request) (count : Z) (n : nat) (body : option bytes) : list bytes :=
  if rq_slash r then take (Z.to_nat count) (fill_argv n r body) else [rq_name r].

Lemma cmd_finish_run `{AsyncDisconnect} client c f text t post body w x cl n count db pub ac :
  w_cmds w !! c = Some x -> w_clients w !! client = Some cl -> hc_last_cmd cl = Some c ->
  let r := request_of text in
  cmd_core x = (count, rq_name r :: replicate (n - 1) [], db, Some client, pub, ac) ->
  isxdigit t = false -> t <> x2f -> 1 <= count <= Z.of_nat n ->
  (rq_slash r = true -> (S (length (request_args r) + length (body_list body)) <= n)%nat) ->
  (forall a, ac = Some a -> is_Some (w_acs w !! a)) ->
  exists w', cmd_finish client c f (text ++ t :: post) (length text)
               (find_name (text ++ t :: post) (length text)) body w =
             Ok (if ac then CMD_SENT else CMD_REDIS_UNAVAIL) w' /\
    match ac with
    | None => w_cmds w' = delete c (w_cmds w) /\ w_acs w' = w_acs w /\ w_trace w' = w_trace w
    | Some a => exists w2 b, w_acs w2 = w_acs w /\ w_trace w2 = w_trace w /\ w_cfg w2 = w_cfg w /\
                  redisAsyncCommandArgv a (CB_REPLY f c) (sent_argv r count n body) w2 = Ok b w'
    end.
Proof.
  intros Hx Hcl Hl r Hcore Ht Hts Hcount Hfit Hlive. unfold cmd_core in Hcore.
  injection Hcore as Hx1 Hx2 Hx3 Hx4 Hx5 Hx6. unfold cmd_finish.
  destruct (find_name_request text t post Ht Hts) as (Hs & _ & _ & Hrec). fold r in Hs, Hrec, Hfit.
  unfold sent_argv. destruct (rq_slash r) eqn:Eslash.
  - destruct Hs as [s Hs]. rewrite Hs. destruct w. M_run. rewrite Hx2.
    rewrite Hrec by (done || (specialize (Hfit eq_refl); lia)). cbn [in_bounds]. M_run. rewrite Hx6.
    specialize (Hfit eq_refl). replace (S (n - 1)) with n by lia.
    pose proof (length_fill_argv n r body Hfit) as Hlen. generalize dependent (fill_argv n r body). intros argv Hlen.
    destruct ac as [a|].
    + destruct (Hlive a eq_refl) as [y Hy]. unfold cmd_send. M_run. cbn [cmd_ac set_cmd_argv cmd_count cmd_argv].
      rewrite Hx6. cbn [deref]. M_run. rewrite Hx1, Hlen, (proj2 (Z.leb_le _ _)) by lia.
      unfold mbind, M_bind.
      match goal with |- context [redisAsyncCommandArgv a ?cb ?argv ?w0] =>
        destruct (redisAsyncCommandArgv_total a cb argv w0 y Hy) as (b & w' & E) end.
      { intros E. apply (f_equal length) in E. rewrite length_take, Hlen in E. cbn in E. lia. }
      rewrite E. cbn. eexists. split; [reflexivity|]. eexists _, b. split; [|split; [|split; [|exact E]]]; done.
    + erewrite bind_eq; [|eapply cmd_free_unconnected; [world_lookup|exact Hx6|exact Hx4|world_lookup|exact Hl]].
      world_norm. M_run. eexists. split; [reflexivity|]. cbn. by rewrite delete_insert_eq.
  - rewrite Hs. destruct w. M_run. rewrite Hx6. destruct ac as [a|].
    + destruct (Hlive a eq_refl) as [y Hy]. rewrite Hx2. cbn [take].
      unfold mbind, M_bind.
      match goal with |- context [redisAsyncCommandArgv a ?cb ?argv ?w0] =>
        destruct (redisAsyncCommandArgv_total a cb argv w0 y Hy) as (b & w' & E); [done|] end.
      rewrite E. cbn. eexists. split; [reflexivity|]. eexists _, b. split; [|split; [|split; [|exact E]]]; done.
    + erewrite bind_eq; [|eapply cmd_free_unconnected; [world_lookup|exact Hx6|exact Hx4|world_lookup|exact Hl]].
      eexists. split; [reflexivity|]. done.
Qed.

(** The command a request becomes goes out on the context it was given. *)
Definition sent_on (u : bytes) (body : option bytes) (f : formatting_fun) (w w' : world) (ac : loc) : Prop :=
  exists x w1 w2 b,
    cmd_is_subscribe x = cmd_is_subscribe_args x /\ cmd_count x = run_count u body /\
    head (cmd_argv x) = Some (rq_name (run_request u)) /\
    cmd_database x = default (cfg_database (w_cfg w)) (rq_db (run_request u)) /\
    given_context x w w1 ac /\ w_acs w2 = w_acs w1 /\ w_trace w2 = w_trace w1 /\
    redisAsyncCommandArgv ac (CB_REPLY f (w_next w)) (run_argv u body) w2 = Ok b w'.

Lemma cmd_run_runs `{AsyncDisconnect} client pre u body w cl :
  w_clients w !! client = Some cl -> headers_complete cl -> (before_query u = [] -> last pre = Some x2f) ->
  w_cmds w !! w_next w = None -> ready w ->
  run_slots u body <> O -> name_allowed (w_cfg w) cl (rq_name (run_request u)) = true -> run_count u body <> 0 ->
  exists res w', cmd_run client (pre ++ u ++ [x00]) (length pre) (length u) body w = Ok res w' /\
    ((res = CMD_SENT /\ exists ac, sent_on u body (text_format (hc_type cl) (before_query u)) w w' ac) \/
     (res = CMD_REDIS_UNAVAIL /\ w_cmds w' = w_cmds w)).
Proof.
  intros Hcl Hh Hpre Hfresh Hready Hslots Hallow Hcount.
  destruct (cmd_run_eq client pre u body w cl Hcl Hh Hpre) as (t & post & x & _ & Ht & Hts & Hx & E). rewrite E. clear E.
  rewrite (proj2 (Nat.eqb_neq _ _)), (proj2 (Z.eqb_neq _ _)), Hallow by done. cbn [negb andb].
  set (w0 := with_cmd client (w_next w) x (client_with_cmd (w_next w) cl) w).
  destruct (cmd_connect_spec client (w_next w) w0 x (client_with_cmd (w_next w) cl))
    as (ac & w1 & x1 & cl1 & E & Hcmds & Hclients & Hlast & Hcore & Hgiven);
    [apply lookup_insert_eq|apply lookup_insert_eq|by apply ready_with_cmd|].
  rewrite (bind_eq _ _ _ _ _ E). clear E. unfold cmd_core in Hx. injection Hx as Hx1 Hx2 Hx3 Hx4 Hx5 Hx6.
  rewrite Hx1, Hx2, Hx3, Hx4 in Hcore.
  assert (1 <= run_count u body <= Z.of_nat (run_slots u body)) as Hc.
  { unfold run_count in *. destruct (rq_db _); lia. }
  edestruct (cmd_finish_run client (w_next w) (text_format (hc_type cl) (before_query u))
    (command_text (before_query u)) t post (put_body_of body) w1 x1 cl1) as (w' & E & Hac);
    [by rewrite Hcmds, lookup_insert_eq|by rewrite Hclients, lookup_insert_eq|by rewrite Hlast|
     exact Hcore|done|done|exact Hc| | |].
  - intros Hs. apply request_fits in Hs. rewrite slots_of_command_text in Hs. unfold run_slots. lia.
  - intros a ->. destruct (Hgiven a eq_refl) as (y & Hy & _). by eexists.
  - eexists _, w'. split; [exact E|]. destruct ac as [a|]; [left|right]; split; try done.
    + destruct Hac as (w2 & b & Ha2 & Ht2 & _ & E2). exists a, x, w1, w2, b.
      split; [unfold cmd_is_subscribe; by rewrite Hx5|]. split; [done|]. split; [by rewrite Hx2|].
      split; [done|]. split; [|done]. by apply Hgiven.
    + destruct Hac as [-> _]. rewrite Hcmds, delete_insert_eq. cbn. by apply delete_insert_id.
Qed.

(** ** Round trip *)

Lemma split_ext_nodot u : x2e ∉ u -> split_ext u = None.
Proof.
  intros Hu. destruct (split_ext u) as [[a e]|] eqn:E; [|done].
  apply rev_ext_spec in E as (H & _); [|set_solver]. rewrite app_nil_r in H. subst u. set_solver.
Qed.

Lemma before_query_app v q :
  x3f ∉ v -> q = [] \/ (exists q', q = x3f :: q') -> before_query (v ++ q) = v.
Proof.
  intros Hv Hq. unfold before_query. destruct Hq as [-> | [q' ->]].
  - rewrite app_nil_r. rewrite (proj2 (memchr_None _ _ _)); [done|]. by rewrite firstn_all.
  - rewrite memchr_app_here by (done || len). by rewrite take_app_length.
Qed.

Lemma db_loop_digits ds acc :
  Forall (fun d => 0 <= d < 10) ds -> 0 <= acc -> fold_left (fun a d => a * 10 + d) ds acc < 2 ^ 31 ->
  db_loop (map digit_char ds) acc = Some (fold_left (fun a d => a * 10 + d) ds acc).
Proof.
  intros Hds. revert acc. induction Hds as [|d ds Hd Hds IH]; intros acc Ha Hb; [done|].
  cbn [map db_loop fold_left] in *.
  assert (isdigit (digit_char d) = true /\ Z_of_byte (digit_char d) - 48 = d) as [E1 E2].
  { clear - Hd.
    pose proof (forall_below 10 (fun d => isdigit (digit_char d) && (Z_of_byte (digit_char d) - 48 =? d))
      ltac:(vm_compute; reflexivity) d Hd) as H.
    apply andb_true_iff in H as [H1 H2]. split; [exact H1|by apply Z.eqb_eq]. }
  assert (acc * 10 + d <= fold_left (fun a d => a * 10 + d) ds (acc * 10 + d)) as Hle.
  { assert (0 <= acc * 10 + d) as Hp by lia. revert Hp. generalize (acc * 10 + d). clear - Hds.
    induction Hds as [|d ds Hd _ IH]; intros a Ha; cbn; [lia|]. specialize (IH (a * 10 + d)). lia. }
  rewrite E1, E2. rewrite wrap_s_small by lia. apply IH; [lia|done].
Qed.

Lemma db_loop_print d : 0 <= d < 2 ^ 31 -> db_loop (print_nat d) 0 = Some d.
Proof.
  intros Hd. unfold print_nat.
  assert (fold_left (fun a d => a * 10 + d) (digits 10 d) 0 = d) as E by (apply undigits_digits; lia).
  rewrite db_loop_digits; [by rewrite E|apply digits_range; lia|lia|lia].
Qed.

(** The text of a command: an optional database, the name, the encoded arguments. *)
Definition command_url (db : option Z) (name : bytes) (args : list bytes) : bytes :=
  join_slash (match db with Some d => [print_nat d] | None => [] end ++ name :: map url_encode args).

(** A command name that is not taken for something else. *)
Definition plain_name (name : bytes) : Prop :=
  name <> [] /\ x2f ∉ name /\ x3f ∉ name /\ x2e ∉ name /\ db_loop name 0 = None.

Lemma join_slash_elem c segs : c ∈ join_slash segs -> c = x2f \/ exists s, s ∈ segs /\ c ∈ s.
Proof.
  induction segs as [|s [|s' segs] IH]; [set_solver|set_solver|]. cbn [join_slash] in *.
  rewrite elem_of_app, elem_of_cons. intros [H|[->|H]]; [right; exists s; set_solver|by left|].
  destruct (IH H) as [->|(s2 & H1 & H2)]; [by left|right; exists s2; set_solver].
Qed.

Lemma print_nat_char d c : 0 <= d -> c ∈ print_nat d -> isdigit c = true.
Proof. intros Hd Hc. pose proof (print_nat_nonneg_digits d Hd) as H. by eapply Forall_forall in H. Qed.

Lemma url_segments_absent db name args c :
  plain_name name -> (forall d, db = Some d -> 0 <= d) -> c ∈ [x2f; x3f; x2e] ->
  Forall (fun s => c ∉ s) (match db with Some d => [print_nat d] | None => [] end ++ name :: map url_encode args).
Proof.
  intros (_ & H1 & H2 & H3 & _) Hdb Hc.
  assert (isdigit c = false /\ isalnum c = false /\ c <> x25) as (Hd & Ha & Hp).
  { repeat (apply elem_of_cons in Hc as [-> | Hc]; [done|]). by apply elem_of_nil in Hc. }
  apply Forall_app. split.
  - destruct db as [d|]; [|constructor]. repeat constructor. intros Hin.
    apply print_nat_char in Hin; [congruence|by apply Hdb].
  - constructor; [set_solver|]. apply Forall_forall. intros s Hs. apply list_elem_of_fmap in Hs as (a & -> & _).
    by apply url_encode_absent.
Qed.

Lemma url_encode_nil a : url_encode a = [] -> a = [].
Proof. destruct a as [|c a]; [done|]. unfold url_encode. cbn. unfold encode_byte. by destruct (isalnum c). Qed.

Lemma strip_last_encoded args : last args <> Some [] -> strip_last (map url_encode args) = map url_encode args.
Proof.
  intros Hl. unfold strip_last. rewrite bool_decide_eq_false_2; [done|]. intros H. apply Hl.
  destruct args as [|a args] using rev_ind; [done|]. rewrite map_app in H. cbn in H. rewrite last_snoc in *.
  injection H as H. by rewrite (url_encode_nil a H).
Qed.

Lemma map_decode_encode args : map url_decode (map url_encode args) = args.
Proof. induction args as [|a args IH]; [done|]. cbn. by rewrite url_decode_encode, IH. Qed.

Section RoundTrip.
Context (db : option Z) (name : bytes) (args : list bytes) (q : bytes) (body : option bytes).
Context (Hname : plain_name name) (Hdb : forall d, db = Some d -> 0 <= d < 2 ^ 31).
Context (Hlast : last args <> Some []) (Hq : q = [] \/ exists q', q = x3f :: q').

Let segs := match db with Some d => [print_nat d] | None => [] end ++ name :: map url_encode args.
Let u := command_url db name args ++ q.

Lemma url_absent c : c ∈ [x2f; x3f; x2e] -> Forall (fun s => c ∉ s) segs.
Proof using All. intros Hc. apply url_segments_absent; [done| |done]. intros d E. apply Hdb in E. lia. Qed.

Lemma url_before_query : before_query u = command_url db name args.
Proof using All.
  apply before_query_app; [|done]. intros [E|(s & Hs & Hin)]%join_slash_elem; [done|].
  pose proof (url_absent x3f ltac:(set_solver)) as H. by eapply Forall_forall in H.
Qed.

Lemma url_command_text : command_text (before_query u) = command_url db name args.
Proof using All.
  rewrite url_before_query. unfold command_text. rewrite split_ext_nodot; [done|].
  intros [E|(s & Hs & Hin)]%join_slash_elem; [done|].
  pose proof (url_absent x2e ltac:(set_solver)) as H. by eapply Forall_forall in H.
Qed.

Lemma url_split : split_slash (command_url db name args) = segs.
Proof using All. apply split_join; [by unfold segs; destruct db|]. apply url_absent. set_solver. Qed.

Lemma url_request :
  run_request u = mk_request (match args, db with [], None => false | _, _ => true end) db name (map url_encode args).
Proof using All.
  unfold run_request. rewrite url_command_text. unfold request_of. rewrite url_split. unfold segs.
  destruct Hname as (_ & _ & _ & _ & Hno). destruct db as [d|]; cbn [app].
  - rewrite (db_loop_print d) by (by apply Hdb). by destruct args.
  - destruct args as [|a args']; cbn [map]; [done|]. by rewrite Hno.
Qed.

Lemma url_slots : slots_of (before_query u) = length segs.
Proof using All.
  rewrite url_before_query. pose proof (slots_of_segments (command_url db name args)) as H.
  rewrite url_split in H. rewrite <-H.
  assert (exists c v, command_url db name args = c :: v /\ c <> x2f) as (c & v & E & Hc).
  { destruct Hname as (Hne & Hs & _). destruct name as [|n0 name']; [done|]. unfold command_url.
    destruct db as [d|]; cbn [app].
    - assert (0 <= d) as Hd by (destruct (Hdb d eq_refl); lia).
      destruct (print_nat d) as [|c v] eqn:E.
      { exfalso. unfold print_nat in E. apply (digits_nonempty 10 d). by destruct (digits 10 d). }
      exists c. eexists. split; [reflexivity|]. intros ->.
      assert (isdigit x2f = true) as Hx by (apply (print_nat_char d); [done|rewrite E; set_solver]). done.
    - exists n0. destruct (map url_encode args); eexists; (split; [reflexivity|]); set_solver. }
  rewrite E. cbn [head]. rewrite !bool_decide_eq_false_2 by congruence. cbn [orb]. lia.
Qed.

(** What is sent is the name, the arguments and the body. *)
Lemma run_argv_roundtrip :
  (args = [] -> db = None -> put_body_of body = None) ->
  run_argv u body = name :: args ++ body_list (put_body_of body) /\ run_slots u body <> O /\ run_count u body <> 0.
Proof using All.
  intros Hbody. unfold run_argv, run_count, run_slots. rewrite url_request, url_slots. cbn [rq_slash rq_db rq_name].
  set (bl := body_list (put_body_of body)).
  assert (request_args (mk_request (match args, db with [], None => false | _, _ => true end) db name (map url_encode args)) = args) as Hargs.
  { unfold request_args. cbn [rq_rest]. by rewrite strip_last_encoded, map_decode_encode. }
  assert (length segs = (S (length args) + if db then 1 else 0)%nat) as Hsegs.
  { unfold segs. destruct db; cbn; rewrite length_map; lia. }
  rewrite Hsegs. split; [|destruct db; lia].
  assert (forall b, take (Z.to_nat (Z.of_nat (S (length args) + (if db then 1 else 0) + length bl) - (if db then 1 else 0)))
    (fill_argv (S (length args) + (if db then 1 else 0) + length bl) (mk_request b db name (map url_encode args)) (put_body_of body))
    = name :: args ++ bl) as Htake.
  { intros b. unfold fill_argv, request_args in *. cbn [rq_rest rq_name] in *. rewrite Hargs. fold bl.
    replace (Z.to_nat _) with (length (name :: args ++ bl)) by (cbn; rewrite length_app; destruct db; lia).
    by rewrite take_app_length. }
  destruct args as [|a args'] eqn:Ea; [|apply Htake]. destruct db as [d|] eqn:Ed; [apply Htake|].
  unfold bl. by rewrite Hbody.
Qed.
End RoundTrip.

(** ** Properties *)

Lemma cmd_run_result `{AsyncDisconnect} client pre u body w cl :
  w_clients w !! client = Some cl -> headers_complete cl -> (before_query u = [] -> last pre = Some x2f) ->
  w_cmds w !! w_next w = None -> ready w ->
  exists res w', cmd_run client (pre ++ u ++ [x00]) (length pre) (length u) body w = Ok res w' /\
    match res with
    | CMD_PARAM_ERROR => run_slots u body = O /\ w' = w
    | CMD_ACL_FAIL =>
        (name_allowed (w_cfg w) cl (rq_name (run_request u)) = false \/ run_count u body = 0) /\
        w_trace w' = w_trace w /\ w_acs w' = w_acs w /\ w_cmds w' = w_cmds w
    | CMD_REDIS_UNAVAIL =>
        name_allowed (w_cfg w) cl (rq_name (run_request u)) = true /\ w_cmds w' = w_cmds w
    | CMD_SENT =>
        name_allowed (w_cfg w) cl (rq_name (run_request u)) = true /\
        exists ac, sent_on u body (text_format (hc_type cl) (before_query u)) w w' ac
    end.
Proof.
  intros Hcl Hh Hpre Hfresh Hready. destruct (decide (run_slots u body = O)) as [E0|E0].
  { destruct (cmd_run_eq client pre u body w cl Hcl Hh Hpre) as (t & post & x & _ & _ & _ & _ & E).
    rewrite E, E0. by eexists CMD_PARAM_ERROR, w. }
  destruct (name_allowed (w_cfg w) cl (rq_name (run_request u)) && negb (run_count u body =? 0)) eqn:Ea.
  - apply andb_true_iff in Ea as [Hallow Hc]. apply negb_true_iff, Z.eqb_neq in Hc.
    destruct (cmd_run_runs client pre u body w cl Hcl Hh Hpre Hfresh Hready E0 Hallow Hc)
      as (res & w' & E & [[-> H1]|[-> H1]]); eexists _, w'; (split; [exact E|done]).
  - assert (name_allowed (w_cfg w) cl (rq_name (run_request u)) = false \/ run_count u body = 0) as Hno.
    { apply andb_false_iff in Ea as [?|Hc]; [by left|]. right. by apply negb_false_iff, Z.eqb_eq in Hc. }
    destruct (cmd_run_refused client pre u body w cl Hcl Hh Hpre E0 Hno Hfresh) as (w' & E & ->).
    eexists CMD_ACL_FAIL, _. split; [exact E|]. done.
Qed.


(** A client of a worker whose pool has one connection. *)
Definition a_client : http_client :=
  mk_client 5 0 (mk_parser 0 1 1 HTTP_GET false) [] 0 LAST_CB_NONE true false false false 1 false
    None [mk_req_header (lit "Host") (Some (lit "localhost"))] None None None None None None None None.

Definition a_world : world :=
  set_w_clients {[ 4%positive := a_client ]}
    (set_w_pool (mk_pool [None; Some 7%positive] 1) second_only).

Lemma a_world_ready : ready a_world.
Proof.
  destruct second_only_inv as [H1 H2 H3 H4 H5]. split.
  - split; try done. right. vm_compute. split; [congruence|reflexivity].
  - vm_compute. congruence.
  - exact I.
  - done.
Qed.




(** A request whose command the access control does not allow reaches neither
    Redis nor the pool: the answer is [CMD_ACL_FAIL], no connection is taken or
    opened, nothing is sent, logged or scheduled, the command object is gone and the
    client no longer refers to it; this needs no assumption on the pool. *)
Theorem cmd_run_forbidden `{AsyncDisconnect} client pre u body w cl :
  w_clients w !! client = Some cl -> headers_complete cl -> (before_query u = [] -> last pre = Some x2f) ->
  w_cmds w !! w_next w = None -> run_slots u body <> O ->
  name_allowed (w_cfg w) cl (rq_name (run_request u)) = false ->
  exists w', cmd_run client (pre ++ u ++ [x00]) (length pre) (length u) body w = Ok CMD_ACL_FAIL w' /\
    w_trace w' = w_trace w /\ w_acs w' = w_acs w /\ w_pool w' = w_pool w /\ w_pending w' = w_pending w /\
    w_cmds w' = w_cmds w /\ option_map hc_last_cmd (w_clients w' !! client) = Some None.
Proof.
  intros Hcl Hh Hpre Hfresh Hslots Hno.
  destruct (cmd_run_refused client pre u body w cl Hcl Hh Hpre Hslots (or_introl Hno) Hfresh) as (w' & E & ->).
  eexists. split; [exact E|]. cbn. by rewrite lookup_insert_eq.
Qed.

Lemma cmd_run_forbidden_witness :
  let disc : AsyncDisconnect := fun _ => skip in
  exists w', cmd_run 4 (lit "/sElEcT/3" ++ [x00]) 1 8 None a_world = Ok CMD_ACL_FAIL w' /\ w_trace w' = [].
Proof.
  intros disc.
  destruct (cmd_run_forbidden 4 (lit "/") (lit "sElEcT/3") None a_world a_client) as (w' & E & H & _);
    [reflexivity|by repeat econstructor|done|reflexivity|done|reflexivity|].
  exists w'. split; [exact E|exact H].
Defined.

(** A slash at the end of the URL adds an empty argument, also behind the body. *)
Example trailing_slash_argument :
  run_argv (lit "GET/key/") None = [lit "GET"; lit "key"; []] /\
  run_argv (lit "SET/key/") (Some (lit "v")) = [lit "SET"; lit "key"; lit "v"; []].
Proof. split; vm_compute; reflexivity. Qed.

(** Two slashes at the beginning select database 0 and drop the last argument. *)
Example leading_slash_database :
  rq_db (run_request (lit "/GET/key")) = Some 0 /\ run_argv (lit "/GET/key") None = [lit "GET"].
Proof. split; vm_compute; reflexivity. Qed.

End Cmd.
