(* ===== verification/Format.v ===== *)
(** * Sending replies: src/formats/common.c, the callbacks of json.c, raw.c,
      msgpack.c and custom-type.c, and the sending half of src/websocket.c

    The callback of a command gets the reply of Redis (or [NULL] when the connection
    broke), formats it, and answers the client: with an HTTP response that carries
    an entity tag, with a chunk of a streamed response for a subscription, or with a
    WebSocket frame. It then frees the command, unless more replies follow. *)
From S2P Require Import Prelude Types Digest Http WsFrame Raw Uri Json JsonReply Msgpack World Pool Cmd.

Local Open Scope Z_scope.

Module Format.
Import Digest Http WsFrame Raw Uri Json JsonReply Msgpack World Pool Cmd.

(** ** WebSocket output *)

(** [event_base_once]: a failed allocation registers nothing. *)
Definition event_base_once (p : pending) : M bool :=
  ok ← alloc_ok; when ok (register p) ;; mret ok.

(** The results are whether the [int] the code returns is not negative. *)
Definition ws_schedule_write (ws : loc) : M bool :=
  x ← get_ws ws;
  if ws_scheduled_write x then mret true
  else
    put_ws ws (set_ws_scheduled_write true x) ;;
    c ← deref (ws_http_client x);
    _ ← get_client c;
    event_base_once (OnWsWrite ws).

Definition ws_monitor_input (ws : loc) : M bool :=
  x ← get_ws ws;
  if ws_scheduled_read x then mret true
  else
    put_ws ws (set_ws_scheduled_read true x) ;;
    c ← deref (ws_http_client x);
    _ ← get_client c;
    event_base_once (OnWsRead ws).

(** Two allocations: the frame, and the room for it in the output buffer. *)
Definition ws_frame_and_send_response (ws : loc) (frame_type : Z) (p : bytes) : M bool :=
  frame ← alloc_ok;
  if negb frame then mret false
  else
    added ← alloc_ok;
    if negb added then
      x ← get_ws ws;
      c ← deref (ws_http_client x);
      _ ← get_client c;
      slog WEBDIS_ERROR (lit "Failed response allocation in ws_frame_and_send_response") ;;
      mret false
    else
      upd_ws ws (fun x => set_ws_wbuf (ws_wbuf x ++ ws_frame frame_type p) x) ;;
      ws_schedule_write ws.

(** ** common.c *)

Definition hex2 (b : byte) : bytes := [digit_char (Z_of_byte b / 16); digit_char (Z_of_byte b mod 16)].

(** The text of [etag_new]; the size is passed as an [int]. *)
Definition etag_text (p : bytes) : bytes :=
  let buf := md5_finish (md5_append md5_init p (i32 (Z.of_nat (length p)))) in
  [x22] ++ flat_map hex2 buf ++ [x22].

Definition etag_new (p : bytes) : M (option bytes) :=
  ok ← alloc_ok; mret (if (ok : bool) then Some (etag_text p) else None).

(** [cmd->http_client->ws]. *)
Definition cmd_ws (x : cmd) : M loc :=
  cl ← deref (cmd_http_client x);
  client ← get_client cl;
  deref (hc_ws client).

Section Reply.
Context `{AsyncDisconnect} `{Packer}.

Definition format_send_error (c : loc) (code : Z) (msg : bytes) : M unit :=
  x ← get_cmd c;
  (if negb (cmd_is_websocket x) && bool_decide (cmd_pub_sub_client x = None) then
     let resp := http_response_init true code msg in
     let resp := set_r_http_version (cmd_http_version x) resp in
     let resp := http_response_set_keep_alive resp (cmd_keep_alive x) in
     http_response_write resp (cmd_fd x)
   else if cmd_is_websocket x then
     ws ← cmd_ws x;
     wsx ← get_ws ws;
     if ws_close_after_events wsx then skip
     else _ ← ws_frame_and_send_response ws WS_BINARY_FRAME msg; skip
   else skip) ;;
  if cmd_is_websocket x then skip
  else
    match cmd_pub_sub_client x with
    | Some cl => upd_client cl (set_hc_reused_cmd None)
    | None => cmd_free c
    end.

(** A header that is only set when there is a value. *)
Definition set_header_opt (r : http_response) (k : bytes) (v : option bytes) : http_response :=
  match v with
  | Some v => http_response_set_header r k v HEADER_COPY_VALUE
  | None => r
  end.

(** The response that starts a stream. *)
Definition stream_response (x : cmd) (p ct : bytes) : http_response :=
  let resp := set_r_http_version (cmd_http_version x) (http_response_init true 200 (lit "OK")) in
  let resp := set_header_opt resp (lit "Content-Disposition") (cmd_filename x) in
  let resp := http_response_set_header resp (lit "Content-Type") ct HEADER_COPY_VALUE in
  let resp := http_response_set_keep_alive resp true in
  let resp := http_response_set_header resp (lit "Transfer-Encoding") (lit "chunked") HEADER_COPY_NONE in
  http_response_set_body resp (Some p).

(** The response to a command, given the entity tag of its body. *)
Definition reply_response (x : cmd) (p ct etag : bytes) : http_response :=
  let resp :=
    if match cmd_if_none_match x with Some v => strcmp_eq v etag | None => false end
    then http_response_init true 304 (lit "Not Modified")
    else
      let resp := http_response_init true 200 (lit "OK") in
      let resp := set_header_opt resp (lit "Content-Disposition") (cmd_filename x) in
      let resp := http_response_set_header resp (lit "Content-Type") ct HEADER_COPY_VALUE in
      let resp := http_response_set_header resp (lit "ETag") etag HEADER_COPY_VALUE in
      http_response_set_body resp (Some p) in
  http_response_set_keep_alive (set_r_http_version (cmd_http_version x) resp) (cmd_keep_alive x).

Definition format_send_reply (c : loc) (p content_type : bytes) : M unit :=
  x ← get_cmd c;
  let ct := default content_type (cmd_mime x) in
  if cmd_is_websocket x then
    ws ← cmd_ws x;
    _ ← ws_frame_and_send_response ws WS_BINARY_FRAME p;
    x ← get_cmd c;
    when (negb (cmd_is_subscribe x)) (cmd_free c)
  else if cmd_is_subscribe x then
    if negb (cmd_started_responding x) then
      put_cmd c (set_cmd_started_responding true x) ;;
      http_response_write (stream_response x p ct) (cmd_fd x)
    else emit (EvResponse (cmd_fd x) (http_response_write_chunk true p))
  else
    etag ← etag_new p;
    match etag with
    | Some etag => http_response_write (reply_response x p ct etag) (cmd_fd x)
    | None => format_send_error c 503 (lit "Service Unavailable")
    end ;;
    cmd_free c.

(** ** The callbacks *)

Definition json_reply_cb (c : loc) (reply : option redisReply) : M unit :=
  match reply with
  | None => format_send_error c 503 (lit "Service Unavailable")
  | Some r =>
      x ← get_cmd c;
      jstr ← deref (json_string_output (json_wrap_redis_reply x r) (cmd_jsonp x));
      format_send_reply c (cstr jstr) (lit "application/json")
  end.

(** The formatter must not write past its buffer. *)
Definition raw_reply_cb (c : loc) (reply : option redisReply) : M unit :=
  match reply with
  | None => format_send_error c 503 (lit "Service Unavailable")
  | Some r =>
      let b := raw_wrap r in
      if raw_extent b <=? raw_alloc b
      then format_send_reply c (raw_sent b) (lit "binary/octet-stream")
      else fail OutOfBounds
  end.

Definition msgpack_reply_cb (c : loc) (reply : option redisReply) : M unit :=
  match reply with
  | None => format_send_error c 503 (lit "Service Unavailable")
  | Some r =>
      x ← get_cmd c;
      format_send_reply c (msgpack_wrap_redis_reply x r) (lit "application/x-msgpack")
  end.

(** The strings of an array, with the separator before each one but the first
    element. *)
Definition custom_array (separator : option bytes) (element : list redisReply) : bytes :=
  let sep := cstr (default [] separator) in
  concat (imap (fun i e =>
    match e with
    | REPLY_STRING s => (if (i =? 0)%nat then [] else sep) ++ s
    | _ => []
    end) element).

(** The body [custom_type_reply] sends with the content type of the client, or
    the code of the error it answers with. *)
Definition custom_body (x : cmd) (r : redisReply) : option (option bytes) :=
  match r with
  | REPLY_NIL => Some None
  | REPLY_STRING s => Some (Some s)
  | REPLY_STATUS s => Some (Some (lit "+" ++ s))
  | REPLY_ERROR s => Some (Some (lit "-" ++ s))
  | REPLY_INTEGER z => Some (Some (print_int z))
  | REPLY_ARRAY l => Some (Some (custom_array (cmd_separator x) l))
  | REPLY_OTHER _ => None
  end.

Definition custom_bad_request (c : loc) : M unit :=
  x ← get_cmd c;
  let resp := http_response_init true 400 (lit "Bad Request") in
  let resp := http_response_set_header resp (lit "Content-Length") (lit "0") HEADER_COPY_NONE in
  let resp := http_response_set_keep_alive resp (cmd_keep_alive x) in
  http_response_write resp (cmd_fd x) ;;
  when (negb (cmd_is_subscribe x)) (cmd_free c).

Definition custom_type_reply_cb (c : loc) (reply : option redisReply) : M unit :=
  match reply with
  | None => format_send_error c 503 (lit "Service Unavailable")
  | Some r =>
      x ← get_cmd c;
      match cmd_mime x, custom_body x r with
      | Some mime, Some (Some body) => format_send_reply c body mime
      | Some mime, Some None => format_send_error c 404 (lit "Not found")
      | _, _ => custom_bad_request c
      end
  end.

(** [cb->fn(ac, reply, cb->privdata)]. *)
Definition run_format (f : formatting_fun) (c : loc) (reply : option redisReply) : M unit :=
  match f with
  | json_reply => json_reply_cb c reply
  | raw_reply => raw_reply_cb c reply
  | msgpack_reply => msgpack_reply_cb c reply
  | custom_type_reply => custom_type_reply_cb c reply
  end.

Definition run_cb (cb : redis_cb) (reply : option redisReply) : M unit :=
  match cb with
  | CB_NULL => skip
  | CB_AUTH => pool_on_auth_complete reply
  | CB_REPLY f c => run_format f c reply
  end.

End Reply.

End Format.
