(* ===== verification/Hiredis.v ===== *)
(** * Replies and disconnections: src/hiredis/async.c

    A context keeps the callbacks of the commands it sent in a queue and gives each
    reply to the callback at its head; channel messages go to the callback of their
    channel. Disconnecting is deferred while a callback runs or replies are due, and
    freeing a context answers every callback left with a [NULL] reply. A callback may
    itself disconnect (a command for another database owns its connection), so the
    functions are given the disconnection the callbacks use, and the knot is tied
    with a bound on that nesting.

    The event loop's hooks are not modelled: which of the functions at the end of
    the file runs next, and what the socket delivers, is the input of a step. RESP3
    push replies are not modelled, the server never asks for RESP3; a dictionary of
    subscriptions is walked in the order the channels were added, where the hash
    table has its own. *)
From S2P Require Import Prelude Types Http Uri World Pool Cmd Msgpack Format.

Local Open Scope Z_scope.

Module Hiredis.
Import Http Uri World Pool Cmd Msgpack Format.

Section Async.
Context `{Packer}.

Section Level.
Context `{AsyncDisconnect}.

Definition __redisRunCallback (ac : loc) (cb : redis_cb) (reply : option redisReply) : M unit :=
  match cb with
  | CB_NULL => skip
  | _ =>
      upd_ac ac (set_ac_in_callback true) ;;
      run_cb cb reply ;;
      upd_ac ac (set_ac_in_callback false)
  end.

(** [__redisShiftCallback] on the queue of replies. *)
Definition shift_reply (ac : loc) : M (option redis_cb) :=
  x ← get_ac ac;
  match ac_replies x with
  | [] => mret None
  | cb :: q => put_ac ac (set_ac_replies q x) ;; mret (Some cb)
  end.

Definition shift_invalid (ac : loc) : M (option redis_cb) :=
  x ← get_ac ac;
  match ac_sub_invalid x with
  | [] => mret None
  | cb :: q => put_ac ac (set_ac_sub_invalid q x) ;; mret (Some cb)
  end.

(** [while(__redisShiftCallback(list, &cb) == REDIS_OK) __redisRunCallback(ac, &cb,
    NULL)]: no callback sends on a context that is being freed, so the length of the
    queue bounds the turns. *)
Fixpoint fail_all (shift : M (option redis_cb)) (fuel : nat) (ac : loc) : M unit :=
  cb ← shift;
  match cb, fuel with
  | None, _ => skip
  | Some cb, S f => __redisRunCallback ac cb None ;; fail_all shift f ac
  | Some _, O => fail OutOfFuel
  end.

Fixpoint run_subscriptions (ac : loc) (d : list (bytes * (redis_cb * Z))) : M unit :=
  match d with
  | [] => skip
  | (_, (cb, _)) :: d' => __redisRunCallback ac cb None ;; run_subscriptions ac d'
  end.

Definition __redisAsyncFree (ac : loc) : M unit :=
  x ← get_ac ac;
  fail_all (shift_reply ac) (length (ac_replies x)) ac ;;
  x ← get_ac ac;
  fail_all (shift_invalid ac) (length (ac_sub_invalid x)) ac ;;
  x ← get_ac ac;
  run_subscriptions ac (ac_sub_channels x) ;;
  x ← get_ac ac;
  run_subscriptions ac (ac_sub_patterns x) ;;
  x ← get_ac ac;
  when (ac_connected x)
    (pool_on_disconnect ac (ac_freeing x || bool_decide (ac_err x = None))) ;;
  del_ac ac.

Definition redisAsyncFree (ac : loc) : M unit :=
  upd_ac ac (set_ac_freeing true) ;;
  x ← get_ac ac;
  when (negb (ac_in_callback x)) (__redisAsyncFree ac).

Definition __redisAsyncDisconnect (ac : loc) : M unit :=
  x ← get_ac ac;
  match ac_err x with
  | None =>
      cb ← shift_reply ac;
      match cb with None => skip | Some _ => fail AssertFailed end
  | Some _ => put_ac ac (set_ac_disconnecting true x)
  end ;;
  __redisAsyncFree ac.

Definition redisAsyncDisconnect_step (ac : loc) : M unit :=
  upd_ac ac (set_ac_disconnecting true) ;;
  x ← get_ac ac;
  when (negb (ac_in_callback x) && bool_decide (ac_replies x = [])) (__redisAsyncDisconnect ac).

(** [dictDelete]. *)
Definition dict_delete (d : list (bytes * (redis_cb * Z))) (k : bytes) : list (bytes * (redis_cb * Z)) :=
  filter (fun e => bytes_eqb e.1 k = false) d.

(** The part of [__redisGetSubscribeCallback] for a callback that was found: the
    new count of pending subscriptions, and the removal of the channel. *)
Definition subscription_update (x : redis_ctx) (pvariant : bool) (what channel : bytes) (cb : redis_cb)
  (pending : Z) (element : list redisReply) : M redis_ctx :=
  let d := if pvariant then ac_sub_patterns x else ac_sub_channels x in
  let set_d d := if pvariant then set_ac_sub_patterns d x else set_ac_sub_channels d x in
  let pending := if strcasecmp_eq what (lit "subscribe") then pending - 1 else pending in
  let d := dict_replace d channel (cb, pending) in
  if strcasecmp_eq what (lit "unsubscribe") then
    let x := set_d (if pending =? 0 then dict_delete d channel else d) in
    match element !! 2%nat with
    | Some (REPLY_INTEGER n) =>
        mret (if (n =? 0) && bool_decide (ac_sub_channels x = []) && bool_decide (ac_sub_patterns x = [])
              then set_ac_subscribed false x else x)
    | Some _ => fail AssertFailed
    | None => fail OutOfBounds
    end
  else mret (set_d d).

(** [dstcb] keeps its value when there is no callback for the channel. *)
Definition __redisGetSubscribeCallback (ac : loc) (reply : redisReply) (dstcb : redis_cb) : M redis_cb :=
  match reply with
  | REPLY_ARRAY element =>
      match element with
      | REPLY_STRING stype :: REPLY_STRING sname :: _ =>
          x ← get_ac ac;
          let pvariant := Byte.eqb (tolower (default x00 (head stype))) x70 in
          let what := if pvariant then tail stype else stype in
          let d := if pvariant then ac_sub_patterns x else ac_sub_channels x in
          match dict_find d sname with
          | Some (cb, pending) =>
              x ← subscription_update x pvariant what sname cb pending element;
              put_ac ac x ;;
              mret cb
          | None => mret dstcb
          end
      | _ => fail AssertFailed
      end
  | _ => cb ← shift_invalid ac; mret (default dstcb cb)
  end.

(** The loop of [redisProcessCallbacks] over the replies the reader holds; [ended]
    is what [redisGetReply] answers after them: no reply ([None]) or an error. The
    variable [cb] keeps its value from one turn to the next. *)
Fixpoint process_loop (ac : loc) (cb : redis_cb) (replies : list redisReply) (ended : option bytes) : M unit :=
  x ← get_ac ac;
  match replies with
  | [] =>
      match ended with
      | None =>
          if ac_disconnecting x && bool_decide (ac_obuf x = []) && bool_decide (ac_replies x = [])
          then __redisAsyncDisconnect ac
          else when (ac_monitoring x) (put_ac ac (set_ac_replies (ac_replies x ++ [cb]) x))
      | Some e => put_ac ac (set_ac_err (Some e) x) ;; __redisAsyncDisconnect ac
      end
  | r :: rest =>
      let deliver (cb : redis_cb) : M unit :=
        match cb with
        | CB_NULL => process_loop ac cb rest ended
        | _ =>
            __redisRunCallback ac cb (Some r) ;;
            x ← get_ac ac;
            if ac_freeing x then __redisAsyncFree ac else process_loop ac cb rest ended
        end in
      shifted ← shift_reply ac;
      match shifted with
      | Some cb => deliver cb
      | None =>
          match r with
          | REPLY_ERROR s => put_ac ac (set_ac_err (Some s) x) ;; __redisAsyncDisconnect ac
          | _ =>
              if negb (ac_subscribed x || ac_monitoring x) then fail AssertFailed
              else if ac_subscribed x then cb ← __redisGetSubscribeCallback ac r cb; deliver cb
              else deliver cb
          end
      end
  end.

Definition redisProcessCallbacks (ac : loc) (replies : list redisReply) (ended : option bytes) : M unit :=
  process_loop ac CB_NULL replies ended.

(** ** Events of a connection *)

(** What [connect(2)] turns out to have done: still in progress, established, or
    failed. *)
Inductive connect_status := ConnectPending | ConnectDone | ConnectFailed (errstr : bytes).

Definition __redisAsyncHandleConnectFailure (ac : loc) : M unit :=
  pool_on_connect ac false ;; __redisAsyncDisconnect ac.

(** Whether the context can go on to read or write. *)
Definition __redisAsyncHandleConnect (ac : loc) (s : connect_status) : M bool :=
  match s with
  | ConnectFailed e =>
      upd_ac ac (set_ac_err (Some e)) ;;
      __redisAsyncHandleConnectFailure ac ;;
      mret false
  | ConnectDone => pool_on_connect ac true ;; upd_ac ac (set_ac_connected true) ;; mret true
  | ConnectPending => mret false
  end.

Definition handle_connected (ac : loc) (s : connect_status) (k : M unit) : M unit :=
  x ← get_ac ac;
  if ac_connected x then k
  else ok ← __redisAsyncHandleConnect ac s; when ok k.

(** [redisAsyncRead]: the socket delivers replies, or an error. *)
Definition redisAsyncRead (ac : loc) (input : bytes + (list redisReply * option bytes)) : M unit :=
  match input with
  | inl e => upd_ac ac (set_ac_err (Some e)) ;; __redisAsyncDisconnect ac
  | inr (replies, ended) => redisProcessCallbacks ac replies ended
  end.

Definition redisAsyncHandleRead (ac : loc) (s : connect_status) (input : bytes + (list redisReply * option bytes))
  : M unit := handle_connected ac s (redisAsyncRead ac input).

(** [redisAsyncWrite]: the socket takes the first [n] commands of the output buffer
    (which is kept as commands, not bytes), or fails. *)
Definition redisAsyncWrite (ac : loc) (output : bytes + nat) : M unit :=
  match output with
  | inl e => upd_ac ac (set_ac_err (Some e)) ;; __redisAsyncDisconnect ac
  | inr n => upd_ac ac (fun x => set_ac_obuf (drop n (ac_obuf x)) x)
  end.

Definition redisAsyncHandleWrite (ac : loc) (s : connect_status) (output : bytes + nat) : M unit :=
  handle_connected ac s (redisAsyncWrite ac output).

End Level.

(** ** The knot *)

Fixpoint disconnect_at (depth : nat) : AsyncDisconnect :=
  match depth with
  | O => fun _ => fail OutOfFuel
  | S d => @redisAsyncDisconnect_step (disconnect_at d)
  end.

(** A callback that runs while its context is freed disconnects at most that
    context, which is then only marked: two levels are enough, see
    [disconnect_in_callback]. *)
#[export] Instance hiredis_disconnect : AsyncDisconnect := disconnect_at 3.

End Async.

End Hiredis.
