(* ===== verification/Replies.v ===== *)
(** * From replies to responses

    What a connection does with the replies of Redis, for commands that came over
    HTTP: the replies that arrive are given to the commands in the order they were
    sent, each is answered once and freed, and a connection that breaks answers all
    of its commands. *)
From S2P Require Import Prelude Types Http Uri Json JsonReply Raw World Pool Cmd Msgpack Format Hiredis.

Local Open Scope Z_scope.

Module Replies.
Import Http Uri Json JsonReply Raw World Pool Cmd Msgpack Format Hiredis.

(** ** What a command is answered with *)

(** A command of an HTTP request that does not subscribe, whose client is either
    still there or has been detached. *)
Record plain (clients : gmap loc http_client) (x : cmd) : Prop := {
  pl_ws : cmd_is_websocket x = false;
  pl_pub : cmd_pub_sub_client x = None;
  pl_sub : cmd_is_subscribe_args x = false;
  pl_client : forall cl, cmd_http_client x = Some cl -> is_Some (clients !! cl) }.

Lemma plain_subscribe clients x : plain clients x -> cmd_is_subscribe x = false.
Proof. intros [_ Hp Hs _]. unfold cmd_is_subscribe. by rewrite Hp. Qed.

Definition error_response (x : cmd) (code : Z) (msg : bytes) : http_response :=
  http_response_set_keep_alive (set_r_http_version (cmd_http_version x) (http_response_init true code msg))
    (cmd_keep_alive x).

Definition body_response (x : cmd) (p content_type : bytes) : http_response :=
  reply_response x p (default content_type (cmd_mime x)) (etag_text p).

(** The response a format makes of a reply; [None] where the formatter fails. *)
Definition response_of `{Packer} (f : formatting_fun) (x : cmd) (r : redisReply) : option http_response :=
  match f with
  | json_reply =>
      (fun s => body_response x (cstr s) (lit "application/json")) <$>
      json_string_output (json_wrap_redis_reply x r) (cmd_jsonp x)
  | raw_reply =>
      let b := raw_wrap r in
      if raw_extent b <=? raw_alloc b then Some (body_response x (raw_sent b) (lit "binary/octet-stream")) else None
  | msgpack_reply => Some (body_response x (msgpack_wrap_redis_reply x r) (lit "application/x-msgpack"))
  | custom_type_reply =>
      Some (match cmd_mime x, custom_body x r with
            | Some mime, Some (Some body) => body_response x body mime
            | Some mime, Some None => error_response x 404 (lit "Not found")
            | _, _ =>
                http_response_set_keep_alive
                  (http_response_set_header (http_response_init true 400 (lit "Bad Request")) (lit "Content-Length")
                     (lit "0") HEADER_COPY_NONE) (cmd_keep_alive x)
            end)
  end.

Definition unavailable (x : cmd) : http_response := error_response x 503 (lit "Service Unavailable").

(** ** The state after the answer *)

(** The events of a response; none when the client is gone. *)
Definition respond (fd : Z) (r : http_response) : list event :=
  match Http.http_response_write r fd with
  | Some r' => [EvResponse fd r']
  | None => []
  end.

(** The client forgets the command if it is its last one. *)
Definition detached (c : loc) (x : cmd) (clients : gmap loc http_client) : gmap loc http_client :=
  match cmd_http_client x with
  | Some cl =>
      match clients !! cl with
      | Some client =>
          if bool_decide (hc_last_cmd client = Some c) then <[cl := set_hc_last_cmd None client]> clients else clients
      | None => clients
      end
  | None => clients
  end.

(** The connection of a command for another database is told to close. *)
Definition owned (cfg : conf) (x : cmd) : option loc :=
  if cmd_database x =? cfg_database cfg then None else cmd_ac x.

Definition closing (o : option loc) (acs : gmap loc redis_ctx) : gmap loc redis_ctx :=
  match o with
  | Some ac => alter (set_ac_disconnecting true) ac acs
  | None => acs
  end.

Definition answered (c : loc) (x : cmd) (resp : http_response) (w : world) : world :=
  mk_world (w_cfg w) (detached c x (w_clients w)) (delete c (w_cmds w)) (w_wss w)
    (closing (owned (w_cfg w) x) (w_acs w)) (w_pool w) (w_next w) (w_pending w)
    (w_trace w ++ respond (cmd_fd x) resp) (w_connect w) (w_alloc w) (w_auth_logged w).

Lemma world_http_response_write r fd w :
  World.http_response_write r fd w = Ok () (set_w_trace (w_trace w ++ respond fd r) w).
Proof.
  unfold World.http_response_write, respond. destruct (Http.http_response_write r fd); [done|].
  rewrite app_nil_r. by destruct w.
Qed.

Lemma alter_live (f : redis_ctx -> redis_ctx) (m : gmap loc redis_ctx) i x :
  m !! i = Some x -> alter f i m = <[i := f x]> m.
Proof.
  intros H. apply map_eq. intros j. destruct (decide (i = j)) as [->|Hj].
  - by rewrite lookup_alter_eq, lookup_insert_eq, H.
  - by rewrite lookup_alter_ne, lookup_insert_ne.
Qed.

Lemma set_w_acs_id w : set_w_acs (w_acs w) w = w.
Proof. by destruct w. Qed.

Section Answer.
Context `{Packer}.

(** A context in a callback is only marked, whatever the depth left. *)
Lemma disconnect_in_callback d ac x w :
  w_acs w !! ac = Some x -> ac_in_callback x = true ->
  disconnect_at (S d) ac w = Ok () (set_w_acs (closing (Some ac) (w_acs w)) w).
Proof.
  intros Hx Hc. cbn [disconnect_at]. unfold redisAsyncDisconnect_step. destruct w. M_run.
  cbn [ac_in_callback set_ac_disconnecting]. rewrite Hc. cbn [negb andb when closing].
  unfold skip, mret, M_ret. do 2 f_equal. symmetry. by apply alter_live.
Qed.

(** The connection a command owns is in its callback. *)
Definition callback_ready (w : world) (x : cmd) : Prop :=
  forall ac, owned (w_cfg w) x = Some ac -> exists a, w_acs w !! ac = Some a /\ ac_in_callback a = true.

Lemma cmd_free_plain c x w :
  w_cmds w !! c = Some x -> plain (w_clients w) x -> callback_ready w x ->
  cmd_free c w =
  Ok () (set_w_clients (detached c x (w_clients w))
          (set_w_cmds (delete c (w_cmds w)) (set_w_acs (closing (owned (w_cfg w) x) (w_acs w)) w))).
Proof.
  intros Hx Hp Hcb. pose proof (plain_subscribe _ _ Hp) as Hs. unfold cmd_free.
  rewrite (run_get_cmd w c x) by done.
  assert (forall w', w_cfg w' = w_cfg w -> w_acs w' = w_acs w -> w_cmds w' !! c = Some x ->
    (w ← get;
     match cmd_ac x with
     | Some ac => when (negb (cmd_database x =? cfg_database (w_cfg w)) || cmd_is_subscribe x) (pool_free_context (Some ac))
     | None => skip
     end ;; cmd_free_argv c ;; del_cmd c) w' =
    Ok () (set_w_cmds (delete c (w_cmds w')) (set_w_acs (closing (owned (w_cfg w) x) (w_acs w')) w'))) as Htail.
  { intros w' Hcfg Hacs Hc. destruct w'. M_run. subst.
    unfold owned. unfold callback_ready, owned in Hcb. rewrite Hs, orb_false_r.
    destruct (cmd_ac x) as [ac|]; destruct (_ =? _); cbn [negb when pool_free_context closing]; M_run.
    2: { destruct (Hcb ac eq_refl) as (a & Ha & Hin). unfold redisAsyncDisconnect, hiredis_disconnect.
         erewrite bind_eq; [|by eapply disconnect_in_callback]. world_norm.
         unfold cmd_free_argv. M_run. erewrite del_cmd_eq by world_lookup. world_norm. by rewrite delete_insert_eq. }
    all: unfold cmd_free_argv; M_run; erewrite del_cmd_eq by world_lookup; world_norm; by rewrite delete_insert_eq. }
  unfold detached. destruct (cmd_http_client x) as [cl|] eqn:Ecl.
  - destruct (pl_client _ _ Hp cl Ecl) as [client Hcl]. rewrite Hcl. rewrite M_bind_assoc.
    rewrite (run_get_client w cl client) by done. case_bool_decide; cbn [when].
    + rewrite (run_upd_client w cl _ client) by done. rewrite Htail by done. by destruct w.
    + unfold skip. rewrite (bind_eq (mret ()) _ w () w) by done. rewrite Htail by done. by destruct w.
  - unfold skip. rewrite (bind_eq (mret ()) _ w () w) by done. rewrite Htail by done. by destruct w.
Qed.

Lemma format_send_error_plain c x code msg w :
  w_cmds w !! c = Some x -> plain (w_clients w) x -> callback_ready w x ->
  format_send_error c code msg w = Ok () (answered c x (error_response x code msg) w).
Proof.
  intros Hx Hp Hcb. unfold format_send_error. rewrite (run_get_cmd w c x) by done.
  rewrite (pl_ws _ _ Hp), (pl_pub _ _ Hp). cbn [negb andb]. rewrite bool_decide_eq_true_2 by done.
  rewrite (bind_eq _ _ _ _ _ (world_http_response_write _ _ _)).
  rewrite (cmd_free_plain c x) by (by destruct w). by destruct w.
Qed.

Lemma format_send_reply_plain c x p ct w :
  w_cmds w !! c = Some x -> plain (w_clients w) x -> callback_ready w x -> w_alloc w = [] ->
  format_send_reply c p ct w = Ok () (answered c x (body_response x p ct) w).
Proof.
  intros Hx Hp Hcb Ha. unfold format_send_reply. rewrite (run_get_cmd w c x) by done.
  rewrite (pl_ws _ _ Hp), (plain_subscribe _ _ Hp).
  rewrite (bind_eq (etag_new p) _ w (Some (etag_text p)) w).
  2: { unfold etag_new, alloc_ok. M_run. rewrite Ha. M_run. done. }
  rewrite (bind_eq _ _ _ _ _ (world_http_response_write _ _ _)).
  rewrite (cmd_free_plain c x) by (by destruct w). by destruct w.
Qed.

Lemma run_format_plain f c x r resp w :
  w_cmds w !! c = Some x -> plain (w_clients w) x -> callback_ready w x -> w_alloc w = [] ->
  response_of f x r = Some resp -> run_format f c (Some r) w = Ok () (answered c x resp w).
Proof.
  intros Hx Hp Hcb Ha Hr. destruct f; cbn [run_format response_of] in *.
  - apply fmap_Some in Hr as (s & Hs & ->). cbn [json_reply_cb]. rewrite (run_get_cmd w c x) by done.
    rewrite Hs. rewrite (bind_eq (deref (Some s)) _ w s w) by done. by apply format_send_reply_plain.
  - unfold raw_reply_cb. destruct (_ <=? _); [|done]. injection Hr as <-. by apply format_send_reply_plain.
  - injection Hr as <-. cbn [msgpack_reply_cb]. rewrite (run_get_cmd w c x) by done. by apply format_send_reply_plain.
  - injection Hr as <-. cbn [custom_type_reply_cb]. rewrite (run_get_cmd w c x) by done.
    assert (custom_bad_request c w = Ok () (answered c x
      (http_response_set_keep_alive
         (http_response_set_header (http_response_init true 400 (lit "Bad Request")) (lit "Content-Length")
            (lit "0") HEADER_COPY_NONE) (cmd_keep_alive x)) w)) as Hbad.
    { unfold custom_bad_request. rewrite (run_get_cmd w c x) by done.
      rewrite (bind_eq _ _ _ _ _ (world_http_response_write _ _ _)).
      rewrite (plain_subscribe _ _ Hp). cbn [negb when]. rewrite (cmd_free_plain c x) by (by destruct w). by destruct w. }
    destruct (cmd_mime x) as [mime|] eqn:Em; [|done].
    destruct (custom_body x r) as [[body|]|]; [|by apply format_send_error_plain|done].
    by apply format_send_reply_plain.
Qed.

Lemma run_format_null f c x w :
  w_cmds w !! c = Some x -> plain (w_clients w) x -> callback_ready w x ->
  run_format f c None w = Ok () (answered c x (unavailable x) w).
Proof. destruct f; apply format_send_error_plain. Qed.

(** ** One callback *)

Definition answer_of (f : formatting_fun) (x : cmd) (o : option redisReply) : option http_response :=
  match o with
  | Some r => response_of f x r
  | None => Some (unavailable x)
  end.

(** What the callback of the first authentication logs. *)
Definition auth_log (w : world) (r : redisReply) : list event :=
  match r with
  | REPLY_ERROR s => [EvLog WEBDIS_ERROR (lit "Authentication failed: " ++ s)]
  | REPLY_STATUS s =>
      if WEBDIS_INFO <=? cfg_verbosity (w_cfg w) then [EvLog WEBDIS_INFO (lit "Authentication succeeded: " ++ s)] else []
  | _ => []
  end.

(** The state after a callback, up to the contexts. *)
Definition effect (cb : redis_cb) (o : option redisReply) (w : world) : world :=
  match cb with
  | CB_NULL => w
  | CB_AUTH =>
      match o with
      | Some r =>
          if w_auth_logged w then w else set_w_auth_logged true (set_w_trace (w_trace w ++ auth_log w r) w)
      | None => w
      end
  | CB_REPLY f c =>
      match w_cmds w !! c with
      | Some x =>
          match answer_of f x o with
          | Some resp => set_w_acs (w_acs w) (answered c x resp w)
          | None => w
          end
      | None => w
      end
  end.

(** The context the command of a callback owns. *)
Definition owner (w : world) (cb : redis_cb) : option loc :=
  match cb with
  | CB_REPLY _ c => x ← w_cmds w !! c; owned (w_cfg w) x
  | _ => None
  end.

Definition cb_ok (w : world) (cb : redis_cb) (o : option redisReply) : Prop :=
  match cb with
  | CB_REPLY f c =>
      exists x resp, w_cmds w !! c = Some x /\ plain (w_clients w) x /\ answer_of f x o = Some resp
  | _ => True
  end.

(** The mark a command leaves on the context it owns. *)
Definition marked (o : option loc) (a : redis_ctx) : redis_ctx :=
  match o with Some _ => set_ac_disconnecting true a | None => a end.

Lemma in_callback_restored a : ac_in_callback a = false -> set_ac_in_callback false (set_ac_in_callback true a) = a.
Proof. destruct a; cbn. by intros ->. Qed.

Lemma pool_on_auth_run r w :
  0 <= cfg_verbosity (w_cfg w) -> w_alloc w = [] ->
  pool_on_auth_complete (Some r) w = Ok () (effect CB_AUTH (Some r) w).
Proof using.
  intros Hv Ha. destruct w. cbn in Hv, Ha. subst. unfold pool_on_auth_complete, effect. M_run.
  destruct w_auth_logged0; [done|].
  destruct r; cbn [auth_log]; rewrite ?app_nil_r; M_run; try done;
    unfold log_alloc, alloc_ok, slog, slog_enabled, WEBDIS_ERROR in *; M_run; cbn [when]; M_run;
    rewrite ?(proj2 (Z.leb_le 0 _) Hv); cbn [when]; try done.
  destruct (_ <=? _); cbn [when]; [done|]. M_run. by rewrite app_nil_r.
Qed.

Lemma redisRunCallback_run ac a cb o w :
  w_acs w !! ac = Some a -> ac_in_callback a = false -> w_alloc w = [] -> 0 <= cfg_verbosity (w_cfg w) ->
  cb_ok w cb o -> owner w cb = None \/ owner w cb = Some ac ->
  __redisRunCallback ac cb o w =
  Ok () (set_w_acs (<[ac := marked (owner w cb) a]> (w_acs w)) (effect cb o w)).
Proof.
  intros Ha Hin Hal Hv Hok Hown. unfold __redisRunCallback. destruct cb as [| |f c].
  - unfold skip, mret, M_ret. cbn [effect owner marked]. rewrite insert_id by done. by destruct w.
  - rewrite (run_upd_ac w ac _ a) by done. cbn [run_cb effect owner marked].
    destruct o as [r|].
    + erewrite bind_eq; [|by apply pool_on_auth_run]. cbn [effect].
      destruct w. cbn in *. destruct w_auth_logged0; erewrite upd_ac_eq by world_lookup; world_norm;
        by rewrite in_callback_restored.
    + unfold pool_on_auth_complete, skip. rewrite (bind_eq (mret ()) _ _ () _) by done.
      destruct w. cbn in *. erewrite upd_ac_eq by world_lookup. world_norm. by rewrite in_callback_restored.
  - destruct Hok as (x & resp & Hx & Hp & Hr). rewrite (run_upd_ac w ac _ a) by done.
    cbn [run_cb effect owner] in *. rewrite Hx in *. cbn [mbind option_bind] in *. rewrite Hr.
    set (w1 := set_w_acs (<[ac := set_ac_in_callback true a]> (w_acs w)) w).
    assert (callback_ready w1 x) as Hcb.
    { intros ac' E. change (w_cfg w1) with (w_cfg w) in E. destruct Hown as [Ho|Ho]; rewrite Ho in E; [done|].
      injection E as <-. exists (set_ac_in_callback true a). split; [|done]. cbn. apply lookup_insert_eq. }
    assert (run_format f c o w1 = Ok () (answered c x resp w1)) as E1.
    { destruct o as [r|]; [by apply run_format_plain|]. injection Hr as <-. by apply run_format_null. }
    rewrite (bind_eq _ _ _ _ _ E1). unfold answered, w1. destruct w. cbn in *.
    destruct Hown as [-> | ->]; cbn [closing marked].
    + erewrite upd_ac_eq by world_lookup. world_norm. by rewrite in_callback_restored.
    + rewrite (alter_live _ _ ac (set_ac_in_callback true a)) by apply lookup_insert_eq.
      erewrite upd_ac_eq by world_lookup. world_norm.
      assert (set_ac_in_callback false (set_ac_disconnecting true (set_ac_in_callback true a)) =
              set_ac_disconnecting true a) as -> by (destruct a; cbn in *; by subst). done.
Qed.

(** ** A queue of callbacks *)

Definition cb_cmds (cbs : list redis_cb) : list loc :=
  flat_map (fun cb => match cb with CB_REPLY _ c => [c] | _ => [] end) cbs.

(** The responses in a trace. *)
Definition responses (t : list event) : list (Z * http_response) :=
  omap (fun e => match e with EvResponse fd r => Some (fd, r) | _ => None end) t.

(** The responses a callback sends. *)
Definition expected (w : world) (cb : redis_cb) (o : option redisReply) : list (Z * http_response) :=
  match cb with
  | CB_REPLY f c =>
      match x ← w_cmds w !! c; resp ← answer_of f x o; Some (x, resp) with
      | Some (x, resp) => responses (respond (cmd_fd x) resp)
      | None => []
      end
  | _ => []
  end.

Definition run_all (l : list (redis_cb * option redisReply)) (w : world) : world :=
  fold_left (fun w p => effect p.1 p.2 w) l w.

Definition queue_ok (w : world) (l : list (redis_cb * option redisReply)) : Prop :=
  Forall (fun p => cb_ok w p.1 p.2) l /\ NoDup (cb_cmds l.*1).

Lemma responses_app t1 t2 : responses (t1 ++ t2) = responses t1 ++ responses t2.
Proof using. apply omap_app. Qed.

(** What a callback leaves alone. *)
Record untouched (w w' : world) : Prop := {
  un_cfg : w_cfg w' = w_cfg w;
  un_acs : w_acs w' = w_acs w;
  un_pool : w_pool w' = w_pool w;
  un_alloc : w_alloc w' = w_alloc w;
  un_pending : w_pending w' = w_pending w;
  un_wss : w_wss w' = w_wss w }.

#[local] Instance untouched_preorder : PreOrder untouched.
Proof using. split; [by split|]. intros w1 w2 w3 [] []. split; congruence. Qed.

Lemma effect_untouched cb o w : untouched w (effect cb o w).
Proof.
  destruct cb as [| |f c]; cbn [effect]; [done|destruct o; [destruct (w_auth_logged w)|]; by split|].
  destruct (w_cmds w !! c); [|done]. by destruct (answer_of _ _ _).
Qed.

Lemma effect_set_acs cb o m w : effect cb o (set_w_acs m w) = set_w_acs m (effect cb o w).
Proof.
  destruct w. destruct cb as [| |f c]; cbn [effect].
  - done.
  - destruct o; [|done]. cbn. by destruct w_auth_logged0.
  - cbn. destruct (w_cmds0 !! c); [|done]. by destruct (answer_of _ _ _).
Qed.

Lemma run_all_set_acs l m w : run_all l (set_w_acs m w) = set_w_acs m (run_all l w).
Proof.
  revert w. induction l as [|p l IH]; intros w; [done|]. unfold run_all in *. cbn [fold_left].
  by rewrite effect_set_acs, IH.
Qed.

Lemma detached_live c x clients cl : is_Some (clients !! cl) -> is_Some (detached c x clients !! cl).
Proof using.
  intros Hs. unfold detached. destruct (cmd_http_client x) as [cl'|]; [|done].
  destruct (clients !! cl') as [client|] eqn:E; [|done]. case_bool_decide; [|done].
  destruct (decide (cl' = cl)) as [->|]; [by rewrite lookup_insert_eq|by rewrite lookup_insert_ne].
Qed.

Lemma effect_clients_live cb o w cl : is_Some (w_clients w !! cl) -> is_Some (w_clients (effect cb o w) !! cl).
Proof.
  intros Hs. destruct cb as [| |f c]; cbn [effect]; [done|destruct o; [destruct (w_auth_logged w)|]; done|].
  destruct (w_cmds w !! c); [|done]. destruct (answer_of _ _ _); [|done]. by apply detached_live.
Qed.

Lemma effect_cmds cb o w :
  cb_ok w cb o -> w_cmds (effect cb o w) = fold_left (fun m c => delete c m) (cb_cmds [cb]) (w_cmds w).
Proof.
  destruct cb as [| |f c]; cbn [effect cb_ok]; [done|destruct o; [destruct (w_auth_logged w)|]; done|].
  intros (x & resp & Hx & _ & Hr). by rewrite Hx, Hr.
Qed.

Lemma effect_other cb o w c : cb_ok w cb o -> c ∉ cb_cmds [cb] -> w_cmds (effect cb o w) !! c = w_cmds w !! c.
Proof.
  intros Hok Hc. rewrite effect_cmds by done. destruct cb; cbn in *; try done.
  apply lookup_delete_ne. set_solver.
Qed.

Lemma effect_responses cb o w :
  responses (w_trace (effect cb o w)) = responses (w_trace w) ++ expected w cb o.
Proof.
  destruct cb as [| |f c]; cbn [effect expected]; rewrite ?app_nil_r; [done| |].
  - destruct o as [r|]; [|done]. destruct (w_auth_logged w); [done|]. cbn [w_trace set_w_auth_logged set_w_trace].
    rewrite responses_app. enough (responses (auth_log w r) = []) as -> by apply app_nil_r.
    destruct r; try done. cbn [auth_log]. by destruct (_ <=? _).
  - destruct (w_cmds w !! c) as [x|]; cbn [mbind option_bind]; [|by rewrite app_nil_r].
    destruct (answer_of f x o); cbn [mbind option_bind]; [|by rewrite app_nil_r]. apply responses_app.
Qed.

(** The rest of a queue does not see the first callback. *)
Lemma queue_ok_rest w cb o l :
  queue_ok w ((cb, o) :: l) ->
  cb_ok w cb o /\ queue_ok (effect cb o w) l /\
  Forall (fun p => owner (effect cb o w) p.1 = owner w p.1 /\ expected (effect cb o w) p.1 p.2 = expected w p.1 p.2) l.
Proof.
  intros [Hall Hnd]. apply Forall_cons in Hall as [Hok Hall]. cbn [fst snd] in Hok. split; [done|].
  cbn [fmap list_fmap fst] in Hnd. unfold cb_cmds in Hnd. cbn [flat_map] in Hnd.
  assert (forall c, c ∈ cb_cmds l.*1 -> w_cmds (effect cb o w) !! c = w_cmds w !! c) as Hsame.
  { intros c Hc. apply effect_other; [done|]. unfold cb_cmds. cbn [flat_map]. rewrite app_nil_r.
    intros Hc'. apply NoDup_app in Hnd as (_ & Hd & _). eapply Hd; [exact Hc'|exact Hc]. }
  assert (forall p, p ∈ l -> forall f c, p.1 = CB_REPLY f c -> c ∈ cb_cmds l.*1) as Hin.
  { intros p Hp f c E. unfold cb_cmds. apply list_elem_of_In, in_flat_map. exists p.1. rewrite E.
    split; [|by left]. rewrite <-E. apply list_elem_of_In. by apply list_elem_of_fmap_2. }
  split; [split|].
  - apply Forall_forall. intros [cb2 o2] Hp. eapply Forall_forall in Hall; [|exact Hp]. cbn [fst snd] in *.
    destruct cb2 as [| |f c]; [done..|]. destruct Hall as (x & resp & Hx & [] & Hr).
    exists x, resp. rewrite Hsame by (by eapply (Hin _ Hp)). split; [done|]. split; [|done]. split; try done.
    intros cl E. apply effect_clients_live. eauto.
  - by apply NoDup_app in Hnd as (_ & _ & Hnd).
  - apply Forall_forall. intros [cb2 o2] Hp. cbn [fst snd]. destruct cb2 as [| |f c]; [done..|]. cbn [owner expected].
    rewrite Hsame by (by eapply (Hin _ Hp)). by rewrite (un_cfg _ _ (effect_untouched cb o w)).
Qed.

Lemma run_all_spec l : forall w, queue_ok w l ->
  untouched w (run_all l w) /\
  responses (w_trace (run_all l w)) = responses (w_trace w) ++ flat_map (fun p => expected w p.1 p.2) l /\
  w_cmds (run_all l w) = fold_left (fun m c => delete c m) (cb_cmds l.*1) (w_cmds w).
Proof.
  induction l as [|[cb o] l IH]; intros w Hq; [by rewrite app_nil_r|].
  destruct (queue_ok_rest _ _ _ _ Hq) as (Hok & Hq' & Hsame).
  change (run_all ((cb, o) :: l) w) with (run_all l (effect cb o w)).
  destruct (IH _ Hq') as (H1 & H2 & H3). split; [|split].
  - etrans; [apply effect_untouched|exact H1].
  - rewrite H2, effect_responses, <-app_assoc. f_equal. cbn [flat_map fst snd]. f_equal.
    clear -Hsame. induction Hsame as [|p l [_ E] _ IH]; [done|]. cbn [flat_map]. by rewrite E, IH.
  - rewrite H3, effect_cmds by done. cbn [fmap list_fmap fst]. unfold cb_cmds. cbn [flat_map].
    by rewrite app_nil_r, fold_left_app.
Qed.

Lemma shift_reply_run ac a cb q w :
  w_acs w !! ac = Some a -> ac_replies a = cb :: q ->
  shift_reply ac w = Ok (Some cb) (set_w_acs (<[ac := set_ac_replies q a]> (w_acs w)) w).
Proof using. intros Ha Hq. destruct w. unfold shift_reply. M_run. rewrite Hq. by M_run. Qed.

Lemma shift_reply_none ac a w :
  w_acs w !! ac = Some a -> ac_replies a = [] -> shift_reply ac w = Ok None w.
Proof using. intros Ha Hq. destruct w. unfold shift_reply. M_run. by rewrite Hq. Qed.

(** A context between two callbacks. *)
Record quiet (a : redis_ctx) : Prop := {
  qu_callback : ac_in_callback a = false;
  qu_freeing : ac_freeing a = false }.

(** The replies of commands that own no connection, one turn of the loop each. *)
Lemma process_queue l : forall ac a cb rs ended q w,
  w_acs w !! ac = Some a -> ac_replies a = l.*1 ++ q -> quiet a -> w_alloc w = [] ->
  0 <= cfg_verbosity (w_cfg w) -> queue_ok w (prod_map id Some <$> l) ->
  Forall (fun p => owner w p.1 = None) l ->
  exists cb', process_loop ac cb (l.*2 ++ rs) ended w =
    process_loop ac cb' rs ended
      (set_w_acs (<[ac := set_ac_replies q a]> (w_acs w)) (run_all (prod_map id Some <$> l) w)).
Proof.
  induction l as [|[cb r] l IH]; intros ac a cb0 rs ended q w Ha Hr Hq Hal Hv Hok Hown.
  { cbn in Hr. exists cb0. cbn [fmap list_fmap app run_all fold_left].
    rewrite insert_id by (rewrite Ha; destruct a; cbn in Hr; by subst). by destruct w. }
  cbn [fmap list_fmap fst snd app prod_map id] in *.
  destruct (queue_ok_rest _ _ _ _ Hok) as (Hcb & Hok' & Hsame). apply Forall_cons in Hown as [Hown Hrest]. cbn [fst] in Hown.
  set (a1 := set_ac_replies (l.*1 ++ q) a). set (w1 := set_w_acs (<[ac := a1]> (w_acs w)) w).
  assert (w_acs w1 !! ac = Some a1) as Ha1 by apply lookup_insert_eq.
  assert (__redisRunCallback ac cb (Some r) w1 = Ok () (effect cb (Some r) w1)) as Erun.
  { rewrite (redisRunCallback_run ac a1 cb (Some r) w1 Ha1 (qu_callback _ Hq) Hal Hv Hcb (or_introl Hown)).
    change (owner w1 cb) with (owner w cb). rewrite Hown. cbn [marked]. rewrite insert_id by done.
    rewrite <-(un_acs _ _ (effect_untouched cb (Some r) w1)). by rewrite set_w_acs_id. }
  assert (exists cb', process_loop ac cb (l.*2 ++ rs) ended (effect cb (Some r) w1) =
    process_loop ac cb' rs ended
      (set_w_acs (<[ac := set_ac_replies q a]> (w_acs w)) (run_all (prod_map id Some <$> l) (effect cb (Some r) w))))
    as [cb' E].
  { destruct (IH ac a1 cb rs ended q (effect cb (Some r) w1)) as [cb' E].
    - by rewrite (un_acs _ _ (effect_untouched cb (Some r) w1)).
    - done.
    - split; apply Hq.
    - by rewrite (un_alloc _ _ (effect_untouched cb (Some r) w1)).
    - by rewrite (un_cfg _ _ (effect_untouched cb (Some r) w1)).
    - unfold w1. rewrite effect_set_acs. exact Hok'.
    - unfold w1. rewrite effect_set_acs. apply Forall_forall. intros p Hp.
      rewrite Forall_fmap, Forall_forall in Hsame. destruct (Hsame p Hp) as [E _].
      change (owner (effect cb (Some r) w) p.1 = owner w p.1) in E.
      change (owner (effect cb (Some r) w) p.1 = None). rewrite E. by eapply (proj1 (Forall_forall _ _) Hrest).
    - exists cb'. rewrite E, (un_acs _ _ (effect_untouched cb (Some r) w1)). unfold w1.
      rewrite effect_set_acs, run_all_set_acs. destruct w, (run_all _ _). cbn. by rewrite insert_insert_eq. }
  exists cb'. cbn [process_loop]. rewrite (run_get_ac w ac a) by done.
  rewrite (bind_eq _ _ _ _ _ (shift_reply_run ac a cb (l.*1 ++ q) w Ha Hr)). fold a1 w1.
  destruct cb as [| |f c]; [exact E| |];
    rewrite (bind_eq _ _ _ _ _ Erun), (run_get_ac _ ac a1)
      by (by rewrite (un_acs _ _ (effect_untouched _ (Some r) w1)));
    cbn [ac_freeing a1 set_ac_replies]; rewrite (qu_freeing _ Hq); exact E.
Qed.

(** Every callback of the queue is called with a [NULL] reply. *)
Lemma fail_queue cbs : forall ac a w,
  w_acs w !! ac = Some a -> ac_replies a = cbs -> ac_in_callback a = false -> ac_disconnecting a = true ->
  w_alloc w = [] -> 0 <= cfg_verbosity (w_cfg w) -> queue_ok w ((fun cb => (cb, None)) <$> cbs) ->
  Forall (fun cb => owner w cb = None \/ owner w cb = Some ac) cbs ->
  fail_all (shift_reply ac) (length cbs) ac w =
  Ok () (set_w_acs (<[ac := set_ac_replies [] a]> (w_acs w)) (run_all ((fun cb => (cb, None)) <$> cbs) w)).
Proof.
  induction cbs as [|cb cbs IH]; intros ac a w Ha Hr Hin Hdis Hal Hv Hok Hown.
  { cbn [length fail_all]. rewrite (bind_eq _ _ _ _ _ (shift_reply_none ac a w Ha Hr)).
    cbn [fmap list_fmap run_all fold_left].
    rewrite insert_id by (rewrite Ha; destruct a; cbn in Hr; by subst). by destruct w. }
  cbn [fmap list_fmap] in *. destruct (queue_ok_rest _ _ _ _ Hok) as (Hcb & Hok' & Hsame).
  apply Forall_cons in Hown as [Hown Hrest]. cbn [length fail_all].
  rewrite (bind_eq _ _ _ _ _ (shift_reply_run ac a cb cbs w Ha Hr)).
  set (a1 := set_ac_replies cbs a). set (w1 := set_w_acs (<[ac := a1]> (w_acs w)) w).
  assert (w_acs w1 !! ac = Some a1) as Ha1 by apply lookup_insert_eq.
  assert (__redisRunCallback ac cb None w1 = Ok () (effect cb None w1)) as Erun.
  { rewrite (redisRunCallback_run ac a1) by done. change (owner w1 cb) with (owner w cb).
    assert (marked (owner w cb) a1 = a1) as -> by (destruct (owner w cb); [destruct a; cbn in *; by subst|done]).
    rewrite insert_id by done. rewrite <-(un_acs _ _ (effect_untouched cb None w1)). by rewrite set_w_acs_id. }
  rewrite (bind_eq _ _ _ _ _ Erun), (IH ac a1).
  - rewrite (un_acs _ _ (effect_untouched cb None w1)). unfold w1.
    rewrite effect_set_acs, run_all_set_acs. destruct w, (run_all _ _). cbn. by rewrite insert_insert_eq.
  - by rewrite (un_acs _ _ (effect_untouched cb None w1)).
  - done.
  - done.
  - done.
  - by rewrite (un_alloc _ _ (effect_untouched cb None w1)).
  - by rewrite (un_cfg _ _ (effect_untouched cb None w1)).
  - unfold w1. rewrite effect_set_acs. exact Hok'.
  - unfold w1. rewrite effect_set_acs. apply Forall_forall. intros p Hp.
    rewrite Forall_fmap, Forall_forall in Hsame. destruct (Hsame p Hp) as [E _].
    change (owner (effect cb None w) p = owner w p) in E.
    change (owner (effect cb None w) p = None \/ owner (effect cb None w) p = Some ac). rewrite E.
    by eapply (proj1 (Forall_forall _ _) Hrest).
Qed.

(** ** The end of a connection *)

(** The pool loses the connection and will open another one. *)
Definition disconnected (ac : loc) (a : redis_ctx) (w : world) : world :=
  if ac_connected a && ac_data a then
    set_w_pending (w_pending w ++ [OnReconnect])
      (set_w_pool (set_slot (Some ac) None (w_pool w))
         (set_w_trace (w_trace w ++
            (if ac_freeing a || bool_decide (ac_err a = None) then []
             else [EvLog WEBDIS_ERROR (lit "Error disconnecting: " ++ default (lit "(null)") (ac_err a))])) w))
  else w.

(** Not subscribed to anything. *)
Record unsubscribed (a : redis_ctx) : Prop := {
  us_invalid : ac_sub_invalid a = [];
  us_channels : ac_sub_channels a = [];
  us_patterns : ac_sub_patterns a = [] }.

Lemma pool_on_disconnect_run ac a w :
  w_acs w !! ac = Some a -> w_alloc w = [] -> 0 <= cfg_verbosity (w_cfg w) ->
  when (ac_connected a) (pool_on_disconnect ac (ac_freeing a || bool_decide (ac_err a = None))) w =
  Ok () (disconnected ac a w).
Proof using.
  intros Ha Hal Hv. destruct w. cbn in Hal, Hv, Ha. subst. unfold disconnected.
  destruct (ac_connected a); cbn [when andb]; [|done].
  unfold pool_on_disconnect. M_run. destruct (ac_data a); cbn [negb]; [|done].
  destruct (ac_freeing a || bool_decide (ac_err a = None)); cbn [negb when].
  - unfold pool_schedule_reconnect, register. M_run. by rewrite app_nil_r.
  - unfold log_alloc, alloc_ok. M_run. cbn [when]. unfold slog, slog_enabled, WEBDIS_ERROR. M_run.
    rewrite (proj2 (Z.leb_le _ _) Hv). cbn [when]. unfold emit. M_run.
    unfold pool_schedule_reconnect, register. by M_run.
Qed.

Lemma redisAsyncFree_run ac a w :
  w_acs w !! ac = Some a -> unsubscribed a -> ac_in_callback a = false -> ac_disconnecting a = true ->
  w_alloc w = [] -> 0 <= cfg_verbosity (w_cfg w) ->
  queue_ok w ((fun cb => (cb, None)) <$> ac_replies a) ->
  Forall (fun cb => owner w cb = None \/ owner w cb = Some ac) (ac_replies a) ->
  __redisAsyncFree ac w =
  Ok () (set_w_acs (delete ac (w_acs w))
          (disconnected ac a (run_all ((fun cb => (cb, None)) <$> ac_replies a) w))).
Proof.
  intros Ha [Hi Hc Hp] Hin Hdis Hal Hv Hok Hown. unfold __redisAsyncFree.
  rewrite (run_get_ac w ac a) by done.
  erewrite bind_eq; [|by apply (fail_queue _ ac a)].
  set (a1 := set_ac_replies [] a). set (w1 := run_all _ w).
  destruct (run_all_spec _ _ Hok) as (Hun & _). fold w1 in Hun.
  set (w2 := set_w_acs (<[ac := a1]> (w_acs w)) w1).
  assert (w_acs w2 !! ac = Some a1) as Ha2 by apply lookup_insert_eq.
  rewrite (run_get_ac w2 ac a1) by done. cbn [ac_sub_invalid a1 set_ac_replies]. rewrite Hi. cbn [length fail_all].
  unfold shift_invalid. rewrite !M_bind_assoc.
  rewrite (run_get_ac w2 ac a1) by done. cbn [ac_sub_invalid a1 set_ac_replies]. rewrite Hi.
  rewrite ?M_bind_assoc. rewrite (bind_eq (mret None) _ w2 None w2) by done.
  unfold skip. rewrite (bind_eq (mret ()) _ w2 () w2) by done.
  rewrite (run_get_ac w2 ac a1) by done. cbn [ac_sub_channels a1 set_ac_replies]. rewrite Hc. cbn [run_subscriptions].
  unfold skip. rewrite (bind_eq (mret ()) _ w2 () w2) by done.
  rewrite (run_get_ac w2 ac a1) by done. cbn [ac_sub_patterns a1 set_ac_replies]. rewrite Hp. cbn [run_subscriptions].
  unfold skip. rewrite (bind_eq (mret ()) _ w2 () w2) by done.
  rewrite (run_get_ac w2 ac a1) by done.
  erewrite bind_eq; [|apply pool_on_disconnect_run; [exact Ha2|..]].
  2: { change (w_alloc w1 = []). by rewrite (un_alloc _ _ Hun). }
  2: { change (0 <= cfg_verbosity (w_cfg w1)). by rewrite (un_cfg _ _ Hun). }
  unfold disconnected, a1, w2. cbn [ac_connected ac_data ac_freeing ac_err set_ac_replies].
  destruct (ac_connected a && ac_data a); erewrite del_ac_eq by apply lookup_insert_eq; destruct w1; cbn;
    by rewrite delete_insert_eq.
Qed.

Lemma redisAsyncDisconnect_run ac a w :
  w_acs w !! ac = Some a -> unsubscribed a -> ac_in_callback a = false -> w_alloc w = [] -> 0 <= cfg_verbosity (w_cfg w) ->
  (ac_err a = None -> ac_disconnecting a = true /\ ac_replies a = []) ->
  queue_ok w ((fun cb => (cb, None)) <$> ac_replies a) ->
  Forall (fun cb => owner w cb = None \/ owner w cb = Some ac) (ac_replies a) ->
  __redisAsyncDisconnect ac w =
  Ok () (set_w_acs (delete ac (w_acs w))
          (disconnected ac a (run_all ((fun cb => (cb, None)) <$> ac_replies a) w))).
Proof.
  intros Ha Hs Hin Hal Hv He Hok Hown. unfold __redisAsyncDisconnect. rewrite (run_get_ac w ac a) by done.
  destruct (ac_err a) as [e|] eqn:Ee.
  - rewrite (bind_eq (put_ac _ _) _ w () (set_w_acs (<[ac := set_ac_disconnecting true a]> (w_acs w)) w)) by done.
    rewrite (redisAsyncFree_run ac (set_ac_disconnecting true a)); try done.
    + cbn [ac_replies set_ac_disconnecting]. rewrite run_all_set_acs.
      unfold disconnected. cbn [ac_connected ac_data ac_freeing ac_err set_ac_disconnecting]. rewrite Ee.
      destruct (ac_connected a && ac_data a); destruct (run_all _ w), w; cbn; by rewrite delete_insert_eq.
    + apply lookup_insert_eq.
    + by destruct Hs.
  - destruct (He eq_refl) as [Hd Hr]. rewrite M_bind_assoc, (bind_eq _ _ _ _ _ (shift_reply_none ac a w Ha Hr)).
    unfold skip. rewrite (bind_eq (mret ()) _ w () w) by done. by apply redisAsyncFree_run.
Qed.

(** The reply of a command that owns its connection, the last one due on it. *)
Lemma process_owned ac a f c x r resp cb w :
  w_acs w !! ac = Some a -> ac_replies a = [CB_REPLY f c] -> quiet a -> unsubscribed a ->
  ac_data a = false -> ac_err a = None -> ac_obuf a = [] -> w_alloc w = [] -> 0 <= cfg_verbosity (w_cfg w) ->
  w_cmds w !! c = Some x -> plain (w_clients w) x -> owned (w_cfg w) x = Some ac -> response_of f x r = Some resp ->
  process_loop ac cb [r] None w = Ok () (set_w_acs (delete ac (w_acs w)) (answered c x resp w)).
Proof.
  intros Ha Hr Hq Hs Hdat He Hob Hal Hv Hx Hp Hown Hresp.
  set (a2 := set_ac_replies [] a). set (w2 := set_w_acs (<[ac := a2]> (w_acs w)) w).
  assert (__redisRunCallback ac (CB_REPLY f c) (Some r) w2 =
          Ok () (set_w_acs (<[ac := set_ac_disconnecting true a2]> (w_acs w2)) (effect (CB_REPLY f c) (Some r) w2))) as E.
  { rewrite (redisRunCallback_run ac a2); try done.
    - cbn [owner]. change (w_cmds w2) with (w_cmds w). rewrite Hx. cbn [mbind option_bind].
      change (w_cfg w2) with (w_cfg w). by rewrite Hown.
    - apply lookup_insert_eq.
    - apply Hq.
    - by exists x, resp.
    - right. cbn [owner]. change (w_cmds w2) with (w_cmds w). by rewrite Hx. }
  cbn [process_loop]. rewrite (run_get_ac w ac a) by done.
  rewrite (bind_eq _ _ _ _ _ (shift_reply_run ac a _ [] w Ha Hr)). cbn beta iota zeta. fold a2 w2.
  rewrite (bind_eq _ _ _ _ _ E). cbn [effect answer_of]. change (w_cmds w2) with (w_cmds w). rewrite Hx, Hresp.
  set (a3 := set_ac_disconnecting true a2). rewrite (run_get_ac _ ac a3) by apply lookup_insert_eq.
  change (ac_freeing a3) with (ac_freeing a). rewrite (qu_freeing _ Hq).
  rewrite (run_get_ac _ ac a3) by apply lookup_insert_eq. change (ac_obuf a3) with (ac_obuf a). rewrite Hob.
  cbn [ac_disconnecting a3 set_ac_disconnecting ac_replies a2 set_ac_replies].
  rewrite !bool_decide_eq_true_2 by done. cbn [andb].
  rewrite (redisAsyncDisconnect_run ac a3); try done.
  - change (ac_replies a3) with (@nil redis_cb). cbn [fmap list_fmap run_all fold_left].
    unfold disconnected. change (ac_data a3) with (ac_data a). rewrite Hdat, andb_false_r.
    unfold answered, w2. destruct w. cbn. by rewrite !delete_insert_eq.
  - apply lookup_insert_eq.
  - by destruct Hs.
  - apply Hq.
  - split; constructor.
Qed.

(** Callbacks that answer no client. *)
Definition silent (cb : redis_cb) : Prop := cb = CB_NULL \/ cb = CB_AUTH.

Lemma silent_effect cb o w :
  silent cb -> w_cmds (effect cb o w) = w_cmds w /\ w_clients (effect cb o w) = w_clients w /\ expected w cb o = [].
Proof. intros [-> | ->]; [done|]. cbn. destruct o; [|done]. by destruct (w_auth_logged w). Qed.

Lemma silent_queue (l : list (redis_cb * option redisReply)) : forall w,
  Forall (fun p => silent p.1) l ->
  queue_ok w l /\ Forall (fun p => owner w p.1 = None) l /\
  w_cmds (run_all l w) = w_cmds w /\ w_clients (run_all l w) = w_clients w /\
  responses (w_trace (run_all l w)) = responses (w_trace w).
Proof.
  induction l as [|[cb o] l IH]; intros w Hl; [by repeat constructor|].
  apply Forall_cons in Hl as [Hs Hl]. cbn [fst] in Hs. destruct (silent_effect cb o w Hs) as (H1 & H2 & H3).
  destruct (IH w Hl) as ([Hq1 Hq2] & Ho & _). destruct (IH (effect cb o w) Hl) as (_ & _ & K1 & K2 & K3).
  change (run_all ((cb, o) :: l) w) with (run_all l (effect cb o w)).
  rewrite K1, K2, K3, H1, H2, effect_responses, H3, app_nil_r.
  split; [split|split; [|done]].
  - constructor; [by destruct Hs as [-> | ->]|done].
  - by destruct Hs as [-> | ->].
  - constructor; [by destruct Hs as [-> | ->]|done].
Qed.

End Answer.

(** ** An example *)

(** Two requests of one client wait on a connection: a GET in JSON, an INCR in the
    raw format. [db] is the database of the second one. *)
Definition get_cmd_ex : cmd :=
  mk_cmd 5 2 [lit "GET"; lit "k"] None false None None None None true false false 1 0 (Some 4%positive) None (Some 7%positive).
Definition incr_cmd_ex (db : Z) : cmd :=
  mk_cmd 5 2 [lit "INCR"; lit "n"] None false None None None None true false false 1 db (Some 4%positive) None (Some 7%positive).

Definition waiting (db : Z) (attached : bool) (replies : list redis_cb) : world :=
  set_w_acs {[ 7%positive := mk_ctx None true false false false false false attached replies [] [] [] [] ]}
    (set_w_cmds {[ 8%positive := get_cmd_ex; 9%positive := incr_cmd_ex db ]} a_world).

(** Any packer does, the formats are others. *)
Definition no_packer : Packer := fun _ => [].

Ltac queue_ex :=
  split; [repeat first
    [ apply Forall_nil_2
    | apply Forall_cons_2
    | exact I
    | eexists _, _; split; [reflexivity|split; [split; [done..|]; intros ? [= <-]; by eexists|reflexivity]] ]
  | by_decide].

(** ** Properties *)

(** C5: the replies that arrive on a connection are given to the commands in the
    order they were sent: each command of [l] gets the response its format makes of
    its own reply, on its own client's socket, exactly once and in that order, and is
    freed; the callbacks behind them keep waiting, and the connection stays up. *)
Theorem replies_in_order `{Packer} ac a (l : list (redis_cb * redisReply)) q w :
  w_acs w !! ac = Some a -> ac_replies a = l.*1 ++ q ->
  quiet a -> ac_disconnecting a = false -> ac_monitoring a = false ->
  w_alloc w = [] -> 0 <= cfg_verbosity (w_cfg w) ->
  queue_ok w (prod_map id Some <$> l) -> Forall (fun p => owner w p.1 = None) l ->
  exists w', redisProcessCallbacks ac l.*2 None w = Ok () w' /\
    responses (w_trace w') = responses (w_trace w) ++ flat_map (fun p => expected w p.1 (Some p.2)) l /\
    w_cmds w' = fold_left (fun m c => delete c m) (cb_cmds l.*1) (w_cmds w) /\
    w_acs w' = <[ac := set_ac_replies q a]> (w_acs w) /\ w_pool w' = w_pool w.
Proof.
  intros Ha Hr Hq Hd Hm Hal Hv Hok Hown. unfold redisProcessCallbacks.
  destruct (process_queue l ac a CB_NULL [] None q w Ha Hr Hq Hal Hv Hok Hown) as [cb' E].
  rewrite app_nil_r in E. rewrite E. clear E. cbn [process_loop].
  rewrite (run_get_ac _ ac (set_ac_replies q a)) by apply lookup_insert_eq.
  cbn [ac_disconnecting ac_monitoring set_ac_replies]. rewrite Hd, Hm. cbn [andb when].
  eexists. split; [reflexivity|]. destruct (run_all_spec _ _ Hok) as (Hun & H1 & H2).
  cbn [w_trace w_cmds w_acs w_pool set_w_acs]. split; [|split; [|split]].
  - rewrite H1. f_equal. clear. induction l as [|p l IH]; [done|]. cbn [fmap list_fmap flat_map]. by rewrite IH.
  - rewrite H2, <-list_fmap_compose. done.
  - done.
  - apply Hun.
Qed.

Lemma replies_in_order_witness :
  let H := no_packer in
  let w := waiting 0 true [CB_REPLY json_reply 8; CB_REPLY raw_reply 9; CB_NULL]%positive in
  exists w', redisProcessCallbacks 7 [REPLY_STRING (lit "v"); REPLY_INTEGER 3] None w = Ok () w' /\
    responses (w_trace w') =
    responses (w_trace w) ++ expected w (CB_REPLY json_reply 8) (Some (REPLY_STRING (lit "v"))) ++
      expected w (CB_REPLY raw_reply 9) (Some (REPLY_INTEGER 3)) ++ [] /\
    w_cmds w' = ∅.
Proof.
  intros H w.
  destruct (replies_in_order 7 _ [(CB_REPLY json_reply 8, REPLY_STRING (lit "v")); (CB_REPLY raw_reply 9, REPLY_INTEGER 3)]%positive
    [CB_NULL] w eq_refl) as (w' & E & Hr & Hc & _); [done|by split|done|done|done|vm_compute; done|queue_ex|by repeat constructor|].
  exists w'. split; [exact E|]. split; [exact Hr|]. rewrite Hc. reflexivity.
Defined.

(** C6: a connection that breaks answers every command still waiting on it with
    "503 Service Unavailable", in order and once each, frees the commands and the
    connection; when it was one of the pool's established connections its slot is
    emptied and another connection is scheduled. *)
Theorem connection_lost `{Packer} ac a e w :
  w_acs w !! ac = Some a -> unsubscribed a -> ac_in_callback a = false -> w_alloc w = [] ->
  0 <= cfg_verbosity (w_cfg w) ->
  queue_ok w ((fun cb => (cb, None)) <$> ac_replies a) ->
  Forall (fun cb => owner w cb = None \/ owner w cb = Some ac) (ac_replies a) ->
  exists w', redisAsyncRead ac (inl e) w = Ok () w' /\
    responses (w_trace w') = responses (w_trace w) ++ flat_map (fun cb => expected w cb None) (ac_replies a) /\
    w_cmds w' = fold_left (fun m c => delete c m) (cb_cmds (ac_replies a)) (w_cmds w) /\
    w_acs w' = delete ac (w_acs w) /\
    (if ac_connected a && ac_data a
     then w_pool w' = set_slot (Some ac) None (w_pool w) /\ w_pending w' = w_pending w ++ [OnReconnect]
     else w_pool w' = w_pool w /\ w_pending w' = w_pending w).
Proof.
  intros Ha Hs Hin Hal Hv Hok Hown. unfold redisAsyncRead. rewrite (run_upd_ac w ac _ a) by done.
  rewrite (redisAsyncDisconnect_run ac (set_ac_err (Some e) a)); try done;
    [|apply lookup_insert_eq|by destruct Hs].
  eexists. split; [reflexivity|]. cbn [ac_replies set_ac_err]. rewrite run_all_set_acs.
  destruct (run_all_spec _ _ Hok) as (Hun & H1 & H2).
  assert (((fun cb : redis_cb => (cb, @None redisReply)) <$> ac_replies a).*1 = ac_replies a) as Hfst.
  { rewrite <-list_fmap_compose. apply list_fmap_id. }
  rewrite Hfst in H2.
  assert (responses (w_trace (run_all ((fun cb => (cb, None)) <$> ac_replies a) w)) =
          responses (w_trace w) ++ flat_map (fun cb => expected w cb None) (ac_replies a)) as H1'.
  { rewrite H1. f_equal. clear. induction (ac_replies a) as [|cb l IH]; [done|].
    cbn [fmap list_fmap flat_map fst snd]. by rewrite IH. }
  unfold disconnected. cbn [ac_connected ac_data ac_freeing ac_err set_ac_err].
  destruct (ac_connected a && ac_data a);
    cbn [w_trace w_cmds w_acs w_pool w_pending set_w_acs set_w_pending set_w_pool set_w_trace].
  - rewrite responses_app, H1', (un_pool _ _ Hun), (un_pending _ _ Hun).
    split; [|split; [done|split; [apply delete_insert_eq|done]]].
    rewrite (bool_decide_eq_false_2 (Some e = None)), orb_false_r by done.
    destruct (ac_freeing a); by rewrite app_nil_r.
  - rewrite H1', (un_pool _ _ Hun), (un_pending _ _ Hun).
    split; [done|]. split; [done|]. split; [apply delete_insert_eq|done].
Qed.

Lemma connection_lost_witness :
  let H := no_packer in
  let w := waiting 0 true [CB_AUTH; CB_REPLY json_reply 8; CB_REPLY raw_reply 9]%positive in
  exists w', redisAsyncRead 7 (inl (lit "Connection reset by peer")) w = Ok () w' /\
    length (responses (w_trace w')) = 2%nat /\ w_cmds w' = ∅ /\ w_acs w' = ∅ /\ OnReconnect ∈ w_pending w'.
Proof.
  intros H w.
  destruct (connection_lost 7 _ (lit "Connection reset by peer") w eq_refl) as (w' & E & Hr & Hc & Ha & _ & Hp);
    [by split|done|done|vm_compute; done|queue_ex|by repeat constructor; left|].
  exists w'. split; [exact E|]. rewrite Hr, Hc, Ha, Hp. split; [reflexivity|]. split; [reflexivity|].
  split; [reflexivity|]. set_solver.
Defined.

(** C7: the connection opened for a command on another database carries its
    authentication and selection replies first, delivers the command's reply to its
    client, and is then closed and freed: nothing of it stays behind. *)
Theorem dedicated_connection_closed `{Packer} ac a (l : list (redis_cb * redisReply)) f c x r resp w :
  w_acs w !! ac = Some a -> ac_replies a = l.*1 ++ [CB_REPLY f c] -> quiet a -> unsubscribed a ->
  ac_data a = false -> ac_err a = None -> ac_obuf a = [] ->
  w_alloc w = [] -> 0 <= cfg_verbosity (w_cfg w) ->
  Forall (fun p => silent p.1) l ->
  w_cmds w !! c = Some x -> plain (w_clients w) x -> owned (w_cfg w) x = Some ac ->
  response_of f x r = Some resp ->
  exists w', redisProcessCallbacks ac (l.*2 ++ [r]) None w = Ok () w' /\
    responses (w_trace w') = responses (w_trace w) ++ responses (respond (cmd_fd x) resp) /\
    w_cmds w' = delete c (w_cmds w) /\ w_acs w' = delete ac (w_acs w) /\
    w_pool w' = w_pool w /\ w_pending w' = w_pending w.
Proof.
  intros Ha Hr Hq Hs Hdat He Hob Hal Hv Hl Hx Hp Hown Hresp. unfold redisProcessCallbacks.
  destruct (silent_queue (prod_map id Some <$> l) w) as (Hok & Hno & Hc & Hcl & Hrs).
  { by apply Forall_fmap. }
  destruct (process_queue l ac a CB_NULL [r] None [CB_REPLY f c] w Ha Hr Hq Hal Hv Hok) as [cb' E].
  { by rewrite Forall_fmap in Hno. }
  rewrite E. clear E. destruct (run_all_spec _ _ Hok) as (Hun & _ & _).
  rewrite (process_owned ac (set_ac_replies [CB_REPLY f c] a) f c x r resp); try done.
  - eexists. split; [reflexivity|]. unfold answered. cbn.
    rewrite responses_app, Hrs, Hc, delete_insert_eq, (un_pool _ _ Hun), (un_pending _ _ Hun). done.
  - apply lookup_insert_eq.
  - by destruct Hq.
  - by destruct Hs.
  - change (w_alloc (run_all (prod_map id Some <$> l) w) = []). by rewrite (un_alloc _ _ Hun).
  - change (0 <= cfg_verbosity (w_cfg (run_all (prod_map id Some <$> l) w))). by rewrite (un_cfg _ _ Hun).
  - cbn. by rewrite Hc.
  - cbn. by rewrite Hcl.
  - cbn. by rewrite (un_cfg _ _ Hun).
Qed.

Lemma dedicated_connection_closed_witness :
  let H := no_packer in
  let w := waiting 3 false [CB_NULL; CB_REPLY raw_reply 9]%positive in
  exists w', redisProcessCallbacks 7 [REPLY_STATUS (lit "OK"); REPLY_INTEGER 3] None w = Ok () w' /\
    w_acs w' = ∅ /\ length (responses (w_trace w')) = 1%nat.
Proof.
  intros H w.
  destruct (dedicated_connection_closed 7 _ [(CB_NULL, REPLY_STATUS (lit "OK"))] raw_reply 9 (incr_cmd_ex 3)
    (REPLY_INTEGER 3) (body_response (incr_cmd_ex 3) (lit ":3" ++ CRLF) (lit "binary/octet-stream")) w eq_refl)
    as (w' & E & Hr & _ & Ha & _);
    [done|by split|by split|done|done|done|done|vm_compute; done|by repeat constructor|done| |done|reflexivity|].
  { split; [done..|]. intros ? [= <-]. by eexists. }
  exists w'. split; [exact E|]. rewrite Hr, Ha. split; reflexivity.
Defined.

End Replies.
