(* ===== verification/Client.v ===== *)
(** * HTTP clients: src/client.c, the canned responses of src/http.c and
      [worker_process_client] of src/worker.c

    The HTTP parser calls back into the client with the parts of a request as it
    finds them; when the message is complete the request is executed and the client
    is made ready for the next one. The parser itself is the interface [HttpParser]:
    the callbacks it makes for some input, with the fields of its state the code
    reads. *)
From S2P Require Import Prelude Types Acl Http Uri World Pool Cmd.

Local Open Scope Z_scope.

Module Client.
Import Acl Http Uri World Pool Cmd.

(** ** The callbacks *)

(** [CHECK_ALLOC]: [lost] is what the failed [realloc] leaves in the client. *)
Definition CHECK_ALLOC (c : loc) (lost : http_client -> http_client) (k : M bool) : M bool :=
  ok ← alloc_ok;
  if (ok : bool) then k
  else upd_client c (fun x => set_hc_failed_alloc true (lost x)) ;; mret false.

(** The results are whether the callback returns 0. *)
Definition http_client_on_url (c : loc) (at_ : bytes) : M bool :=
  CHECK_ALLOC c (set_hc_path None)
    (upd_client c (fun x => set_hc_path (Some (default [] (hc_path x) ++ at_)) x) ;; mret true).

Definition http_client_add_to_body (c : loc) (at_ : bytes) : M bool :=
  CHECK_ALLOC c (set_hc_body None)
    (upd_client c (fun x => set_hc_body (Some (default [] (hc_body x) ++ at_)) x) ;; mret true).

Definition http_client_on_body (c : loc) (at_ : bytes) : M bool := http_client_add_to_body c at_.

(** The last header, changed. *)
Definition set_last_header (f : req_header -> req_header) (l : list req_header) : option (list req_header) :=
  match reverse l with
  | [] => None
  | h :: rest => Some (reverse rest ++ [f h])
  end.

Definition add_to_key (at_ : bytes) (h : req_header) : req_header := mk_req_header (rh_key h ++ at_) (rh_val h).
Definition add_to_val (at_ : bytes) (h : req_header) : req_header :=
  mk_req_header (rh_key h) (Some (default [] (rh_val h) ++ at_)).

(** A failed [realloc] of the array loses it while [header_count] counts on: the
    reset that follows the error reads through [NULL]. *)
Definition http_client_on_header_name (c : loc) (at_ : bytes) : M bool :=
  x ← get_client c;
  (match hc_last_cb x with
   | LAST_CB_KEY => skip
   | _ =>
       ok ← alloc_ok;
       if (ok : bool) then upd_client c (fun x => set_hc_headers (hc_headers x ++ [mk_req_header [] None]) x)
       else fail NullDeref
   end) ;;
  CHECK_ALLOC c id
    (x ← get_client c;
     headers ← in_bounds (set_last_header (add_to_key at_) (hc_headers x));
     put_client c (set_hc_last_cb LAST_CB_KEY (set_hc_headers headers x)) ;;
     mret true).

Definition http100 : bytes := lit "HTTP/1.1 100 Continue" ++ CRLF ++ CRLF.

Definition http_client_on_header_value (c : loc) (at_ : bytes) : M bool :=
  CHECK_ALLOC c id
    (x ← get_client c;
     headers ← in_bounds (set_last_header (add_to_val at_) (hc_headers x));
     put_client c (set_hc_last_cb LAST_CB_VAL (set_hc_headers headers x)) ;;
     let key := from_option rh_key [] (last headers) in
     (if strncmp_eq (length key) (lit "Expect") key then
        when ((length at_ =? 12)%nat && strncasecmp_eq 12 at_ (lit "100-continue")) (emit (EvWrite (hc_fd x) http100))
      else if strncasecmp_eq (length key) (lit "Connection") key then
        when ((length at_ =? 10)%nat && strncasecmp_eq 10 at_ (lit "Keep-Alive")) (upd_client c (set_hc_keep_alive true))
      else skip) ;;
     mret true).

Definition wrap_filename (val : bytes) : bytes := lit "attachment; filename=" ++ [x22] ++ val ++ [x22].

(** A pair of the query string; the values are C strings. *)
Definition query_pair (key val : bytes) (x : http_client) : http_client :=
  if bytes_eqb key (lit "type") then set_hc_type (Some (cstr val)) x
  else if bytes_eqb key (lit "jsonp") || bytes_eqb key (lit "callback") then set_hc_jsonp (Some (cstr val)) x
  else if bytes_eqb key (lit "sep") then set_hc_separator (Some (cstr val)) x
  else if bytes_eqb key (lit "filename") then set_hc_filename (Some (cstr (wrap_filename val))) x
  else x.

(** The loop over [p]: every turn consumes the equal sign, so the length of the
    string bounds the turns. *)
Fixpoint query_loop (fuel : nat) (p : bytes) (x : http_client) : http_client :=
  match fuel with
  | O => x
  | S f =>
      match memchr x3d (length p) p with
      | None => x
      | Some eq =>
          let key := take eq p in
          let p := drop (S eq) p in
          match memchr x26 (length p) p with
          | None => query_pair key p x
          | Some amp => query_loop f (drop (S amp) p) (query_pair key (take amp p) x)
          end
      end
  end.

Definition http_client_on_query_string (c : loc) (at_ : bytes) : M bool :=
  upd_client c (query_loop (length at_) at_) ;; mret true.

(** ** Starting and ending *)

(** [http_client_new]; [http_parser_init] leaves the fields the code reads at 0. *)
(** http_parser.c, [http_parser_init] on a structure full of zeros. *)
Definition http_parser_init (t : parser_type) : http_parser :=
  mk_http_parser t 0 (match t with HTTP_REQUEST => s_start_req | HTTP_RESPONSE => s_start_res
                      | HTTP_BOTH => s_start_req_or_res end) h_general 0 0 0 0 0 0 0 false.

Definition http_client_new (fd addr : Z) : M loc :=
  c ← fresh;
  put_client c (mk_client fd addr (http_parser_init HTTP_REQUEST) [] 0 LAST_CB_NONE false false false false 0 false
                  None [] None None None None None None None None) ;;
  mret c.

(** The separator of the last request is kept. *)
Definition reset_client (x : http_client) : http_client :=
  let x := set_hc_headers [] x in
  let x := set_hc_body None x in
  let x := set_hc_path None x in
  let x := set_hc_type None (set_hc_jsonp None (set_hc_filename None x)) in
  let x := set_hc_last_cb LAST_CB_NONE (set_hc_request_sz 0 x) in
  if hc_keep_alive x then x else set_hc_broken true x.

Definition http_client_reset (c : loc) : M unit := upd_client c reset_client.

Definition http_client_free (c : loc) : M unit := http_client_reset c ;; del_client c.

(** ** The canned responses (http.c) *)

Definition http_response_set_connection_header (x : http_client) (r : http_response) : http_response :=
  http_response_set_keep_alive r (hc_keep_alive x).

Definition crossdomain_xml : bytes :=
  lit "<?xml version=" ++ [x22] ++ lit "1.0" ++ [x22] ++ lit "?>" ++ [x0a] ++
  lit "<!DOCTYPE cross-domain-policy SYSTEM " ++ [x22] ++
  lit "http://www.macromedia.com/xml/dtds/cross-domain-policy.dtd" ++ [x22] ++ lit ">" ++ [x0a] ++
  lit "<cross-domain-policy>" ++ [x0a] ++
  lit "<allow-access-from domain=" ++ [x22] ++ lit "*" ++ [x22] ++ lit " />" ++ [x0a] ++
  lit "</cross-domain-policy>" ++ [x0a].

Definition crossdomain_response (x : http_client) : http_response :=
  let resp := set_r_http_version (hc_http_version x) (http_response_init false 200 (lit "OK")) in
  let resp := http_response_set_connection_header x resp in
  let resp := http_response_set_header resp (lit "Content-Type") (lit "application/xml") HEADER_COPY_NONE in
  http_response_set_body resp (Some crossdomain_xml).

Definition error_response (x : http_client) (code : Z) (msg : bytes) : http_response :=
  let resp := set_r_http_version (hc_http_version x) (http_response_init false code msg) in
  let resp := http_response_set_connection_header x resp in
  http_response_set_body resp None.

Definition options_response (x : http_client) : http_response :=
  let resp := set_r_http_version (hc_http_version x) (http_response_init false 200 (lit "OK")) in
  let resp := http_response_set_connection_header x resp in
  let resp := http_response_set_header resp (lit "Content-Type") (lit "text/html") HEADER_COPY_NONE in
  http_response_set_header resp (lit "Content-Length") (lit "0") HEADER_COPY_NONE.

(** A response that is written at once, after which the client is reset. *)
Definition send_now (c : loc) (resp : http_client -> http_response) : M unit :=
  x ← get_client c;
  http_response_write (resp x) (hc_fd x) ;;
  http_client_reset c.

Definition http_crossdomain (c : loc) : M unit := send_now c crossdomain_response.
Definition http_send_error (c : loc) (code : Z) (msg : bytes) : M unit := send_now c (fun x => error_response x code msg).
Definition http_send_options (c : loc) : M unit := send_now c options_response.

(** ** Executing a request *)

Section Execute.
Context `{AsyncDisconnect}.

Definition log_error (c : loc) (code : Z) (msg : bytes) : M unit :=
  slog WEBDIS_DEBUG (print_int code) ;; http_send_error c code msg.

Definition process_result (c : loc) (ret : cmd_response_t) : M unit :=
  match ret with
  | CMD_ACL_FAIL | CMD_PARAM_ERROR => log_error c 403 (lit "Forbidden")
  | CMD_REDIS_UNAVAIL => log_error c 503 (lit "Service Unavailable")
  | CMD_SENT => skip
  end.

(** [1 + c->path, c->path_sz - 1] as the arguments of [cmd_run]; the string ends
    with a null byte. *)
Definition run_path (c : loc) (path : bytes) (body : option bytes) : M cmd_response_t :=
  match path with
  | [] => fail OutOfBounds
  | _ :: _ => cmd_run c (path ++ [x00]) 1 (length path - 1) body
  end.

(** worker.c. *)
Definition worker_process_client (c : loc) : M unit :=
  x ← get_client c;
  let method := hp_method (hc_parser x) in
  if method =? HTTP_GET then
    path ← deref (hc_path x);
    if bytes_eqb path (lit "/crossdomain.xml") then http_crossdomain c
    else
      slog WEBDIS_DEBUG path ;;
      ret ← run_path c path None;
      process_result c ret
  else if method =? HTTP_POST then
    path ← deref (hc_path x);
    slog WEBDIS_DEBUG path ;;
    ret ← (match hc_body x with
           | Some b => cmd_run c (b ++ [x00]) 0 (length b) None
           | None => cmd_run c [] 0 0 None
           end);
    process_result c ret
  else if method =? HTTP_PUT then
    path ← deref (hc_path x);
    slog WEBDIS_DEBUG path ;;
    ret ← run_path c path (hc_body x);
    process_result c ret
  else if method =? HTTP_OPTIONS then http_send_options c
  else log_error c 405 (lit "Method Not Allowed").

Definition http_client_on_message_complete (c : loc) : M bool :=
  x ← get_client c;
  cfg ← gets w_cfg;
  let p := hc_parser x in
  let x :=
    if negb (Z.land (hp_flags p) F_CONNECTION_CLOSE =? 0)
    then set_hc_fully_read true (set_hc_keep_alive false x)
    else if (hp_http_major p =? 1) && (hp_http_minor p =? 1) then set_hc_keep_alive true x
    else x in
  let x := set_hc_http_version (hp_http_minor p) x in
  if hp_upgrade p && cfg_websockets cfg then
    put_client c (set_hc_is_websocket true x) ;; mret true
  else
    let x := match hc_path x, cfg_default_root cfg with
             | Some path, Some root => if bytes_eqb path (lit "/") then set_hc_path (Some root) x else x
             | _, _ => x
             end in
    put_client c x ;;
    worker_process_client c ;;
    http_client_reset c ;;
    mret true.

(** ** Reading *)

Inductive client_read := CLIENT_DISCONNECTED | CLIENT_OOM | ReadBytes (n : Z).

(** The end of a client: the command that subscribed for it, if any, is closed, and
    a command in flight is told that nobody waits for its reply. *)
Definition client_disconnect (c : loc) : M unit :=
  x ← get_client c;
  (match hc_reused_cmd x with
   | Some rc =>
       y ← get_cmd rc;
       match cmd_ac y with
       | Some ac =>
           redisAsyncDisconnect ac ;;
           upd_cmd rc (set_cmd_ac None) ;;
           upd_client c (set_hc_reused_cmd None) ;;
           cmd_free rc
       | None => skip
       end
   | None => skip
   end) ;;
  x ← get_client c;
  (match hc_last_cmd x with
   | Some lc =>
       upd_cmd lc (fun y => set_cmd_http_client None (set_cmd_fd (-1) y)) ;;
       upd_client c (set_hc_last_cmd None)
   | None => skip
   end) ;;
  emit (EvClose (hc_fd x)) ;;
  http_client_free c.

(** [http_client_read]; [data] is what [read(2)] delivers, nothing when it fails or
    the peer has closed. *)
Definition http_client_read (c : loc) (data : bytes) : M client_read :=
  match data with
  | [] => client_disconnect c ;; mret CLIENT_DISCONNECTED
  | _ =>
      ok ← alloc_ok;
      if (ok : bool) then
        upd_client c (fun x => set_hc_request_sz (hc_request_sz x + Z.of_nat (length data))
                                 (set_hc_buffer (hc_buffer x ++ data) x)) ;;
        mret (ReadBytes (Z.of_nat (length data)))
      else mret CLIENT_OOM
  end.

Definition http_client_remove_data (c : loc) (sz : nat) : M bool :=
  x ← get_client c;
  if (length (hc_buffer x) <? sz)%nat then mret false
  else CHECK_ALLOC c id (upd_client c (fun x => set_hc_buffer (drop sz (hc_buffer x)) x) ;; mret true).

(** ** The parser *)

Inductive parser_callback :=
| OnUrl (at_ : bytes)
| OnQueryString (at_ : bytes)
| OnHeaderField (at_ : bytes)
| OnHeaderValue (at_ : bytes)
| OnBody (at_ : bytes)
| OnMessageComplete.

(** A callback, with the parser's fields at that time and the offset at which the
    parser stops when the callback fails. *)
Record parser_event := mk_event {
  pe_callback : parser_callback;
  pe_parser : http_parser;
  pe_offset : Z }.

(** [http_parser_execute] on a buffer: the callbacks in order, the parser after them
    and the number of bytes parsed, or the fault it runs into. *)
Class HttpParser := http_parser_execute : http_parser -> bytes -> fault + list parser_event * http_parser * Z.

Context `{HttpParser}.

(** Whether the parser goes on: it does not look at what the callback for the body
    returns. *)
Definition run_callback (c : loc) (cb : parser_callback) : M bool :=
  match cb with
  | OnUrl a => http_client_on_url c a
  | OnQueryString a => http_client_on_query_string c a
  | OnHeaderField a => http_client_on_header_name c a
  | OnHeaderValue a => http_client_on_header_value c a
  | OnBody a => _ ← http_client_on_body c a; mret true
  | OnMessageComplete => http_client_on_message_complete c
  end.

Fixpoint run_callbacks (c : loc) (l : list parser_event) (final : http_parser) (n : Z) : M Z :=
  match l with
  | [] => upd_client c (set_hc_parser final) ;; mret n
  | e :: rest =>
      upd_client c (set_hc_parser (pe_parser e)) ;;
      ok ← run_callback c (pe_callback e);
      if (ok : bool) then run_callbacks c rest final n else mret (pe_offset e)
  end.

Definition http_client_execute (c : loc) : M Z :=
  x ← get_client c;
  match http_parser_execute (hc_parser x) (hc_buffer x) with
  | inl f => fail f
  | inr (events, final, n) =>
      nparsed ← run_callbacks c events final n;
      upd_client c (fun x => if hc_is_websocket x then x else set_hc_buffer [] x) ;;
      mret nparsed
  end.

End Execute.

End Client.
