(* ===== verification/Parser.v ===== *)
(** * The HTTP parser: src/http-parser/http_parser.c

    [http_parser_execute] is one loop over the bytes of a buffer around a [switch] on the
    state, compiled with the checks of [HTTP_PARSER_STRICT]. It is translated with the
    callbacks that the server registers; the others ([on_message_begin], [on_path],
    [on_fragment], [on_headers_complete]) are null, so their marks are left out. A mark
    that points to the start of a text is the text itself, from the mark up to the current
    byte. The callbacks do not write to the parser, so they are listed, with the fields
    at the time of the call and the value the parser returns when the callback fails
    ([Client.run_callbacks]). Reading a method name past its end and a failed assertion
    are faults. *)
From S2P Require Import Prelude Types Http World Pool Cmd Client.

Local Open Scope Z_scope.

Module Parser.
Import World Client.

Definition CR : byte := x0d.
Definition LF : byte := x0a.

Definition HTTP_MAX_HEADER_SIZE : Z := 80 * 1024.

Definition method_strings : list bytes :=
  [lit "DELETE"; lit "GET"; lit "HEAD"; lit "POST"; lit "PUT"; lit "CONNECT";
   lit "OPTIONS"; lit "TRACE"; lit "COPY"; lit "LOCK"; lit "MKCOL"; lit "MOVE";
   lit "PROPFIND"; lit "PROPPATCH"; lit "UNLOCK"; lit "REPORT"; lit "MKACTIVITY"; lit "CHECKOUT";
   lit "MERGE"; lit "M-SEARCH"; lit "NOTIFY"; lit "SUBSCRIBE"; lit "UNSUBSCRIBE"].

Definition tokens : list Z :=
  [
   0; 0; 0; 0; 0; 0; 0; 0; 0; 0; 0; 0; 0; 0; 0; 0;
   0; 0; 0; 0; 0; 0; 0; 0; 0; 0; 0; 0; 0; 0; 0; 0;
   32; 33; 34; 35; 36; 37; 38; 39; 0; 0; 42; 43; 0; 45; 46; 47;
   48; 49; 50; 51; 52; 53; 54; 55; 56; 57; 0; 0; 0; 0; 0; 0;
   0; 97; 98; 99; 100; 101; 102; 103; 104; 105; 106; 107; 108; 109; 110; 111;
   112; 113; 114; 115; 116; 117; 118; 119; 120; 121; 122; 0; 0; 0; 94; 95;
   96; 97; 98; 99; 100; 101; 102; 103; 104; 105; 106; 107; 108; 109; 110; 111;
   112; 113; 114; 115; 116; 117; 118; 119; 120; 121; 122; 0; 124; 125; 126; 0].

(** Bytes from 128 on are left to the zeros of the initialiser. *)
Definition unhex_table : list Z :=
  [
   -1; -1; -1; -1; -1; -1; -1; -1; -1; -1; -1; -1; -1; -1; -1; -1;
   -1; -1; -1; -1; -1; -1; -1; -1; -1; -1; -1; -1; -1; -1; -1; -1;
   -1; -1; -1; -1; -1; -1; -1; -1; -1; -1; -1; -1; -1; -1; -1; -1;
   0; 1; 2; 3; 4; 5; 6; 7; 8; 9; -1; -1; -1; -1; -1; -1;
   -1; 10; 11; 12; 13; 14; 15; -1; -1; -1; -1; -1; -1; -1; -1; -1;
   -1; -1; -1; -1; -1; -1; -1; -1; -1; -1; -1; -1; -1; -1; -1; -1;
   -1; 10; 11; 12; 13; 14; 15; -1; -1; -1; -1; -1; -1; -1; -1; -1;
   -1; -1; -1; -1; -1; -1; -1; -1; -1; -1; -1; -1; -1; -1; -1; -1].

Definition normal_url_char_table : list Z :=
  [
   0; 0; 0; 0; 0; 0; 0; 0; 0; 0; 0; 0; 0; 0; 0; 0;
   0; 0; 0; 0; 0; 0; 0; 0; 0; 0; 0; 0; 0; 0; 0; 0;
   0; 1; 1; 0; 1; 1; 1; 1; 1; 1; 1; 1; 1; 1; 1; 1;
   1; 1; 1; 1; 1; 1; 1; 1; 1; 1; 1; 1; 1; 1; 1; 0;
   1; 1; 1; 1; 1; 1; 1; 1; 1; 1; 1; 1; 1; 1; 1; 1;
   1; 1; 1; 1; 1; 1; 1; 1; 1; 1; 1; 1; 1; 1; 1; 1;
   1; 1; 1; 1; 1; 1; 1; 1; 1; 1; 1; 1; 1; 1; 1; 1;
   1; 1; 1; 1; 1; 1; 1; 1; 1; 1; 1; 1; 1; 1; 1; 0].

Definition TOKEN (ch : byte) : Z := nth (Z.to_nat (Z_of_byte ch)) tokens 0.
Definition unhex (ch : byte) : Z := nth (Z.to_nat (Z_of_byte ch)) unhex_table 0.
Definition normal_url_char (ch : byte) : bool :=
  negb (nth (Z.to_nat (Z_of_byte ch)) normal_url_char_table 0 =? 0).

Definition LOWER (ch : byte) : Z := Z.lor (Z_of_byte ch) 0x20.
Definition is_letter (ch : byte) : bool := (97 <=? LOWER ch) && (LOWER ch <=? 122).

(** [ch] is the character [c]. *)
Definition eqc (ch c : byte) : bool := Byte.eqb ch c.
Definition ord (c : byte) : Z := Z_of_byte c.
Definition flag (p : http_parser) (f : Z) : bool := negb (Z.land (hp_flags p) f =? 0).
Definition add_flag (f : Z) (p : http_parser) : http_parser := set_hp_flags (Z.lor (hp_flags p) f) p.

Arguments TOKEN : simpl never.
Arguments unhex : simpl never.
Arguments normal_url_char : simpl never.
Arguments LOWER : simpl never.
Arguments is_letter : simpl never.
Arguments eqc : simpl never.
Arguments ord : simpl never.
Arguments flag : simpl never.

Definition http_should_keep_alive (p : http_parser) : bool :=
  if (0 <? hp_http_major p) && (0 <? hp_http_minor p) then negb (flag p F_CONNECTION_CLOSE)
  else flag p F_CONNECTION_KEEP_ALIVE.

Definition start_state (p : http_parser) : parser_state :=
  match hp_type p with HTTP_REQUEST => s_start_req | _ => s_start_res end.

Definition NEW_MESSAGE (p : http_parser) : parser_state :=
  if http_should_keep_alive p then start_state p else s_dead.

(** ** One turn of the loop *)

(** The parser and the local variables. *)
Record exec := mk_exec {
  x_parser : http_parser;
  x_state : parser_state;
  x_header_state : header_states;
  x_index : Z;
  x_nread : Z;
  x_field : option bytes;
  x_value : option bytes;
  x_query : option bytes;
  x_url : option bytes }.

Definition set_x_parser (v : http_parser) (x : exec) : exec :=
  mk_exec v (x_state x) (x_header_state x) (x_index x) (x_nread x) (x_field x) (x_value x)
    (x_query x) (x_url x).
Definition set_x_state (v : parser_state) (x : exec) : exec :=
  mk_exec (x_parser x) v (x_header_state x) (x_index x) (x_nread x) (x_field x) (x_value x)
    (x_query x) (x_url x).
Definition set_x_header_state (v : header_states) (x : exec) : exec :=
  mk_exec (x_parser x) (x_state x) v (x_index x) (x_nread x) (x_field x) (x_value x)
    (x_query x) (x_url x).
Definition set_x_index (v : Z) (x : exec) : exec :=
  mk_exec (x_parser x) (x_state x) (x_header_state x) v (x_nread x) (x_field x) (x_value x)
    (x_query x) (x_url x).
Definition set_x_nread (v : Z) (x : exec) : exec :=
  mk_exec (x_parser x) (x_state x) (x_header_state x) (x_index x) v (x_field x) (x_value x)
    (x_query x) (x_url x).
Definition set_x_field (v : option bytes) (x : exec) : exec :=
  mk_exec (x_parser x) (x_state x) (x_header_state x) (x_index x) (x_nread x) v (x_value x)
    (x_query x) (x_url x).
Definition set_x_value (v : option bytes) (x : exec) : exec :=
  mk_exec (x_parser x) (x_state x) (x_header_state x) (x_index x) (x_nread x) (x_field x) v
    (x_query x) (x_url x).
Definition set_x_query (v : option bytes) (x : exec) : exec :=
  mk_exec (x_parser x) (x_state x) (x_header_state x) (x_index x) (x_nread x) (x_field x) (x_value x) v (x_url x).
Definition set_x_url (v : option bytes) (x : exec) : exec :=
  mk_exec (x_parser x) (x_state x) (x_header_state x) (x_index x) (x_nread x) (x_field x) (x_value x) (x_query x) v.

(** A callback with the parser's fields and its distance behind the current byte. *)
Definition call : Type := parser_callback * http_parser * Z.

(** The loop goes on behind [n] bytes, or [http_parser_execute] returns. *)
Inductive outcome :=
| Next (x : exec) (n : nat)
| Stop (p : http_parser).

Definition turn : Type := fault + list call * outcome.

Definition next (x : exec) : turn := inr ([], Next x 1).
Definition goto (s : parser_state) (x : exec) : turn := next (set_x_state s x).
Definition error (x : exec) : turn := inr ([], Stop (set_hp_state s_dead (x_parser x))).
Definition broken (f : fault) : turn := inl f.

Definition calling (c : call) (k : turn) : turn :=
  match k with
  | inl f => inl f
  | inr (l, o) => inr (c :: l, o)
  end.

(** The macros [CALLBACK2(message_complete)] and [CALLBACK]. *)
Definition message_complete (x : exec) (k : turn) : turn := calling (OnMessageComplete, x_parser x, 0) k.

Definition CALLBACK (mark : option bytes) (cb : bytes -> parser_callback) (x : exec) (k : turn) : turn :=
  match mark with
  | Some text => calling (cb text, x_parser x, 0) k
  | None => k
  end.

Definition CALLBACK_url (x : exec) (k : exec -> turn) : turn := CALLBACK (x_url x) OnUrl x (k (set_x_url None x)).
Definition CALLBACK_query_string (x : exec) (k : exec -> turn) : turn :=
  CALLBACK (x_query x) OnQueryString x (k (set_x_query None x)).
Definition CALLBACK_header_field (x : exec) (k : exec -> turn) : turn :=
  CALLBACK (x_field x) OnHeaderField x (k (set_x_field None x)).
Definition CALLBACK_header_value (x : exec) (k : exec -> turn) : turn :=
  CALLBACK (x_value x) OnHeaderValue x (k (set_x_value None x)).

(** A check of the strict parser. *)
Definition expect (c ch : byte) (s : parser_state) (x : exec) : turn := if eqc ch c then goto s x else error x.

(** *** Methods *)

Definition method_of_letter (ch : byte) : option Z :=
  if eqc ch "C" then Some HTTP_CONNECT else if eqc ch "D" then Some HTTP_DELETE
  else if eqc ch "G" then Some HTTP_GET else if eqc ch "H" then Some HTTP_HEAD
  else if eqc ch "L" then Some HTTP_LOCK else if eqc ch "M" then Some HTTP_MKCOL
  else if eqc ch "N" then Some HTTP_NOTIFY else if eqc ch "O" then Some HTTP_OPTIONS
  else if eqc ch "P" then Some HTTP_POST else if eqc ch "R" then Some HTTP_REPORT
  else if eqc ch "S" then Some HTTP_SUBSCRIBE else if eqc ch "T" then Some HTTP_TRACE
  else if eqc ch "U" then Some HTTP_UNLOCK else None.

Definition begin_message (x : exec) : exec :=
  set_x_parser (set_hp_content_length (-1) (set_hp_flags 0 (x_parser x))) x.

Definition start_req_method_assign (ch : byte) (x : exec) : turn :=
  let x := set_x_index 1 (set_x_parser (set_hp_method 0 (x_parser x)) x) in
  match method_of_letter ch with
  | Some m => goto s_req_method (set_x_parser (set_hp_method m (x_parser x)) x)
  | None => error x
  end.

(** The method the name turns out to be, at a character that is not the next one of
    the current method; a [CONNECT] or [MKCOL] stays what it is at any other. *)
Definition method_branch (m index : Z) (ch : byte) : option Z :=
  if m =? HTTP_CONNECT then
    if (index =? 1) && eqc ch "H" then Some HTTP_CHECKOUT
    else if (index =? 2) && eqc ch "P" then Some HTTP_COPY
    else Some m
  else if m =? HTTP_MKCOL then
    if (index =? 1) && eqc ch "O" then Some HTTP_MOVE
    else if (index =? 1) && eqc ch "E" then Some HTTP_MERGE
    else if (index =? 1) && eqc ch "-" then Some HTTP_MSEARCH
    else if (index =? 2) && eqc ch "A" then Some HTTP_MKACTIVITY
    else Some m
  else if (index =? 1) && (m =? HTTP_POST) && eqc ch "R" then Some HTTP_PROPFIND
  else if (index =? 1) && (m =? HTTP_POST) && eqc ch "U" then Some HTTP_PUT
  else if (index =? 2) && (m =? HTTP_UNLOCK) && eqc ch "S" then Some HTTP_UNSUBSCRIBE
  else if (index =? 4) && (m =? HTTP_PROPFIND) && eqc ch "P" then Some HTTP_PROPPATCH
  else None.

(** [matcher[index]]: the terminator behind the name can be read, nothing further. *)
Definition matcher (m index : Z) : option byte :=
  name ← method_strings !! Z.to_nat m; (name ++ [x00]) !! Z.to_nat index.

Definition req_method (ch : byte) (x : exec) : turn :=
  let m := hp_method (x_parser x) in
  let advance := set_x_index (x_index x + 1) in
  if eqc ch x00 then error x
  else
    match matcher m (x_index x) with
    | None => broken OutOfBounds
    | Some c =>
        if eqc ch " " && eqc c x00 then goto s_req_spaces_before_url (advance x)
        else if eqc ch c then next (advance x)
        else
          match method_branch m (x_index x) ch with
          | Some m => next (advance (set_x_parser (set_hp_method m (x_parser x)) x))
          | None => error x
          end
    end.

(** *** The request line *)

Definition http_09 (x : exec) : exec := set_x_parser (set_hp_http_minor 9 (set_hp_http_major 0 (x_parser x))) x.

(** The end of a URL at a space or at the end of the line, behind its callbacks. *)
Definition url_end (ch : byte) (x : exec) : turn :=
  if eqc ch " " then goto s_req_http_start x
  else if eqc ch CR then goto s_req_line_almost_done (http_09 x)
  else goto s_header_field_start (http_09 x).

Definition ends_url (ch : byte) : bool := eqc ch " " || eqc ch CR || eqc ch LF.

Definition req_spaces_before_url (ch : byte) (x : exec) : turn :=
  if eqc ch " " then next x
  else if eqc ch "/" || eqc ch "*" then goto s_req_path (set_x_url (Some []) x)
  else if is_letter ch then goto s_req_schema (set_x_url (Some []) x)
  else error x.

Definition req_schema (ch : byte) (x : exec) : turn :=
  if is_letter ch then next x
  else if eqc ch ":" then goto s_req_schema_slash x
  else if eqc ch "." then goto s_req_host x
  else if isdigit ch then goto s_req_host x
  else error x.

Definition req_host (ch : byte) (x : exec) : turn :=
  if is_letter ch then next x
  else if isdigit ch || eqc ch "." || eqc ch "-" then next x
  else if eqc ch ":" then goto s_req_port x
  else if eqc ch "/" then goto s_req_path x
  else if eqc ch " " then CALLBACK_url x (goto s_req_http_start)
  else error x.

Definition req_port (ch : byte) (x : exec) : turn :=
  if isdigit ch then next x
  else if eqc ch "/" then goto s_req_path x
  else if eqc ch " " then CALLBACK_url x (goto s_req_http_start)
  else error x.

Definition req_path (ch : byte) (x : exec) : turn :=
  if normal_url_char ch then next x
  else if ends_url ch then CALLBACK_url x (url_end ch)
  else if eqc ch "?" then goto s_req_query_string_start x
  else if eqc ch "#" then goto s_req_fragment_start x
  else error x.

Definition req_query_string_start (ch : byte) (x : exec) : turn :=
  if normal_url_char ch then goto s_req_query_string (set_x_query (Some []) x)
  else if eqc ch "?" then next x
  else if ends_url ch then CALLBACK_url x (url_end ch)
  else if eqc ch "#" then goto s_req_fragment_start x
  else error x.

Definition req_query_string (ch : byte) (x : exec) : turn :=
  if normal_url_char ch then next x
  else if eqc ch "?" then next x
  else if ends_url ch then CALLBACK_url x (fun x => CALLBACK_query_string x (url_end ch))
  else if eqc ch "#" then CALLBACK_query_string x (goto s_req_fragment_start)
  else error x.

Definition req_fragment_start (ch : byte) (x : exec) : turn :=
  if normal_url_char ch then goto s_req_fragment x
  else if ends_url ch then CALLBACK_url x (url_end ch)
  else if eqc ch "?" then goto s_req_fragment x
  else if eqc ch "#" then next x
  else error x.

Definition req_fragment (ch : byte) (x : exec) : turn :=
  if normal_url_char ch then next x
  else if ends_url ch then CALLBACK_url x (url_end ch)
  else if eqc ch "?" || eqc ch "#" then next x
  else error x.

(** A digit of a version or of a status, and the state behind it. *)
Definition first_digit (low : byte) (set : Z -> http_parser -> http_parser) (s : parser_state) (ch : byte) (x : exec)
  : turn :=
  if (ord ch <? ord low) || (57 <? ord ch) then error x
  else goto s (set_x_parser (set (ord ch - 48) (x_parser x)) x).

Definition more_digits (get : http_parser -> Z) (set : Z -> http_parser -> http_parser) (ch : byte) (x : exec) : turn :=
  if negb (isdigit ch) then error x
  else
    let v := u16 (get (x_parser x) * 10 + (ord ch - 48)) in
    let x := set_x_parser (set v (x_parser x)) x in
    if 999 <? v then error x else next x.

(** *** Headers *)

(** The next character of a name or value that is being recognised; [done] is the state
    behind its last one. *)
Definition matching (name : bytes) (done : header_states) (c : Z) (x : exec) : exec :=
  let index := x_index x + 1 in
  let x := set_x_index index x in
  let len := Z.of_nat (length name) in
  if (len <? index) || negb (c =? ord (nth (Z.to_nat index) name x00)) then set_x_header_state h_general x
  else if index =? len - 1 then set_x_header_state done x
  else x.

Definition first_of_field (c : Z) : header_states :=
  if c =? ord "c" then h_C
  else if c =? ord "p" then h_matching_proxy_connection
  else if c =? ord "t" then h_matching_transfer_encoding
  else if c =? ord "u" then h_matching_upgrade
  else h_general.

(** A character of a header's name, with the lower case [c]. *)
Definition field_char (ch : byte) (c : Z) (x : exec) : fault + exec :=
  let advance s := inr (set_x_header_state s (set_x_index (x_index x + 1) x)) in
  match x_header_state x with
  | h_general => inr x
  | h_C => advance (if c =? ord "o" then h_CO else h_general)
  | h_CO => advance (if c =? ord "n" then h_CON else h_general)
  | h_CON =>
      advance (if c =? ord "n" then h_matching_connection
               else if c =? ord "t" then h_matching_content_length else h_general)
  | h_matching_connection => inr (matching (lit "connection") h_connection c x)
  | h_matching_proxy_connection => inr (matching (lit "proxy-connection") h_connection c x)
  | h_matching_content_length => inr (matching (lit "content-length") h_content_length c x)
  | h_matching_transfer_encoding => inr (matching (lit "transfer-encoding") h_transfer_encoding c x)
  | h_matching_upgrade => inr (matching (lit "upgrade") h_upgrade c x)
  | h_connection | h_content_length | h_transfer_encoding | h_upgrade =>
      inr (if eqc ch " " then x else set_x_header_state h_general x)
  | _ => inl AssertFailed
  end.

Definition header_field (ch : byte) (x : exec) : turn :=
  let c := TOKEN ch in
  if negb (c =? 0) then match field_char ch c x with inl f => broken f | inr x => next x end
  else if eqc ch ":" then CALLBACK_header_field x (goto s_header_value_start)
  else if eqc ch CR then CALLBACK_header_field x (goto s_header_almost_done)
  else if eqc ch LF then CALLBACK_header_field x (goto s_header_field_start)
  else error x.

Definition header_value_start (ch : byte) (x : exec) : turn :=
  if eqc ch " " then next x
  else
    let x := set_x_index 0 (set_x_state s_header_value (set_x_value (Some []) x)) in
    let c := LOWER ch in
    if eqc ch CR then
      CALLBACK_header_value x (fun x => goto s_header_almost_done (set_x_header_state h_general x))
    else if eqc ch LF then CALLBACK_header_value x (goto s_header_field_start)
    else
      match x_header_state x with
      | h_upgrade => next (set_x_header_state h_general (set_x_parser (add_flag F_UPGRADE (x_parser x)) x))
      | h_transfer_encoding =>
          next (set_x_header_state
                  (if c =? ord "c" then h_matching_transfer_encoding_chunked else h_general) x)
      | h_content_length =>
          if isdigit ch then next (set_x_parser (set_hp_content_length (ord ch - 48) (x_parser x)) x)
          else error x
      | h_connection =>
          next (set_x_header_state
                  (if c =? ord "k" then h_matching_connection_keep_alive
                   else if c =? ord "c" then h_matching_connection_close else h_general) x)
      | _ => next (set_x_header_state h_general x)
      end.

Definition header_almost_done (ch : byte) (x : exec) : turn :=
  if negb (eqc ch LF) then error x
  else
    let x := set_x_state s_header_field_start x in
    match x_header_state x with
    | h_connection_keep_alive => next (set_x_parser (add_flag F_CONNECTION_KEEP_ALIVE (x_parser x)) x)
    | h_connection_close => next (set_x_parser (add_flag F_CONNECTION_CLOSE (x_parser x)) x)
    | h_transfer_encoding_chunked => next (set_x_parser (add_flag F_CHUNKED (x_parser x)) x)
    | _ => next x
    end.

Definition value_char (ch : byte) (x : exec) : turn :=
  let c := LOWER ch in
  match x_header_state x with
  | h_general => next x
  | h_connection | h_transfer_encoding => broken AssertFailed
  | h_content_length =>
      if eqc ch " " then next x
      else if isdigit ch then
        next (set_x_parser (set_hp_content_length (i64 (hp_content_length (x_parser x) * 10 + (ord ch - 48)))
                              (x_parser x)) x)
      else error x
  | h_matching_transfer_encoding_chunked => next (matching (lit "chunked") h_transfer_encoding_chunked c x)
  | h_matching_connection_keep_alive => next (matching (lit "keep-alive") h_connection_keep_alive c x)
  | h_matching_connection_close => next (matching (lit "close") h_connection_close c x)
  | h_transfer_encoding_chunked | h_connection_keep_alive | h_connection_close =>
      next (if eqc ch " " then x else set_x_header_state h_general x)
  | _ => goto s_header_value (set_x_header_state h_general x)
  end.

Definition header_value (ch : byte) (x : exec) : turn :=
  if eqc ch CR then CALLBACK_header_value x (goto s_header_almost_done)
  else if eqc ch LF then CALLBACK_header_value x (header_almost_done ch)
  else value_char ch x.

(** The end of a message. *)
Definition complete (x : exec) : turn := message_complete x (goto (NEW_MESSAGE (x_parser x)) x).

Definition headers_almost_done (ch : byte) (x : exec) : turn :=
  if negb (eqc ch LF) then error x
  else if flag (x_parser x) F_TRAILING then complete x
  else
    let x := set_x_nread 0 x in
    let p := x_parser x in
    let p := if flag p F_UPGRADE || (hp_method p =? HTTP_CONNECT) then set_hp_upgrade true p else p in
    let x := set_x_parser p x in
    if hp_upgrade p then message_complete x (inr ([], Stop p))
    else if flag p F_SKIPBODY then complete x
    else if flag p F_CHUNKED then goto s_chunk_size_start x
    else if hp_content_length p =? 0 then complete x
    else if 0 <? hp_content_length p then goto s_body_identity x
    else if match hp_type p with HTTP_REQUEST => true | _ => http_should_keep_alive p end then complete x
    else goto s_body_identity_eof x.

Definition header_field_start (ch : byte) (x : exec) : turn :=
  if eqc ch CR then goto s_headers_almost_done x
  else if eqc ch LF then headers_almost_done ch (set_x_state s_headers_almost_done x)
  else
    let c := TOKEN ch in
    if c =? 0 then error x
    else next (set_x_header_state (first_of_field c)
                 (set_x_state s_header_field (set_x_index 0 (set_x_field (Some []) x)))).

(** *** Bodies *)

(** [to_read] bytes of the data go to the callback. *)
Definition body_piece (data : bytes) (to_read : Z) (x : exec) (k : turn) : turn :=
  calling (OnBody (take (Z.to_nat to_read) data), x_parser x, to_read - 1) k.

Definition content (f : Z -> Z) (x : exec) : exec :=
  set_x_parser (set_hp_content_length (f (hp_content_length (x_parser x))) (x_parser x)) x.

(** [data] starts at the current byte. *)
Definition body_identity (data : bytes) (x : exec) : turn :=
  let to_read := Z.min (Z.of_nat (length data)) (hp_content_length (x_parser x)) in
  if 0 <? to_read then
    let x' := content (fun n => n - to_read) x in
    body_piece data to_read x
      (if hp_content_length (x_parser x') =? 0 then
         calling (OnMessageComplete, x_parser x', to_read - 1)
           (inr ([], Next (set_x_state (NEW_MESSAGE (x_parser x')) x') (Z.to_nat to_read)))
       else inr ([], Next x' (Z.to_nat to_read)))
  else next x.

Definition body_identity_eof (data : bytes) (x : exec) : turn :=
  body_piece data (Z.of_nat (length data)) x (inr ([], Next x (length data))).

Definition chunked (x : exec) (k : turn) : turn := if flag (x_parser x) F_CHUNKED then k else broken AssertFailed.

Definition chunk_size_start (ch : byte) (x : exec) : turn :=
  chunked x
    (if unhex ch =? -1 then error x
     else goto s_chunk_size (content (fun _ => unhex ch) x)).

Definition chunk_size (ch : byte) (x : exec) : turn :=
  chunked x
    (if eqc ch CR then goto s_chunk_size_almost_done x
     else if unhex ch =? -1 then
       if eqc ch ";" || eqc ch " " then goto s_chunk_parameters x else error x
     else next (content (fun n => i64 (n * 16 + unhex ch)) x)).

Definition chunk_parameters (ch : byte) (x : exec) : turn :=
  chunked x (if eqc ch CR then goto s_chunk_size_almost_done x else next x).

Definition chunk_size_almost_done (ch : byte) (x : exec) : turn :=
  chunked x
    (if negb (eqc ch LF) then error x
     else if hp_content_length (x_parser x) =? 0
     then goto s_header_field_start (set_x_parser (add_flag F_TRAILING (x_parser x)) x)
     else goto s_chunk_data x).

Definition chunk_data (data : bytes) (x : exec) : turn :=
  chunked x
    (let to_read := Z.min (Z.of_nat (length data)) (hp_content_length (x_parser x)) in
     let x' := content (fun n => n - to_read)
                 (if to_read =? hp_content_length (x_parser x) then set_x_state s_chunk_data_almost_done x else x) in
     if 0 <? to_read then body_piece data to_read x (inr ([], Next x' (Z.to_nat to_read)))
     else next x').

(** *** Responses *)

Definition res_status_code (ch : byte) (x : exec) : turn :=
  if isdigit ch then more_digits hp_status_code set_hp_status_code ch x
  else if eqc ch " " then goto s_res_status x
  else if eqc ch CR then goto s_res_line_almost_done x
  else if eqc ch LF then goto s_header_field_start x
  else error x.

Definition start_res (ch : byte) (x : exec) : turn :=
  let x := begin_message x in
  if eqc ch "H" then goto s_res_H x
  else if eqc ch CR || eqc ch LF then next x
  else error x.

Definition start_req_or_res (ch : byte) (x : exec) : turn :=
  if eqc ch CR || eqc ch LF then next x
  else
    let x := begin_message x in
    if eqc ch "H" then goto s_res_or_resp_H x
    else start_req_method_assign ch (set_x_parser (set_hp_type HTTP_REQUEST (x_parser x)) x).

Definition res_or_resp_H (ch : byte) (x : exec) : turn :=
  if eqc ch "T" then goto s_res_HT (set_x_parser (set_hp_type HTTP_RESPONSE (x_parser x)) x)
  else if eqc ch "E" then
    goto s_req_method
      (set_x_index 2 (set_x_parser (set_hp_method HTTP_HEAD (set_hp_type HTTP_REQUEST (x_parser x))) x))
  else error x.

(** *** The switch *)

Definition start_req (ch : byte) (x : exec) : turn :=
  if eqc ch CR || eqc ch LF then next x
  else
    let x := begin_message x in
    if (ord ch <? ord "A") || (ord "Z" <? ord ch) then error x
    else start_req_method_assign ch x.

(** The body of the [switch], at the byte [ch] that starts [data]. *)
Definition step (ch : byte) (data : bytes) (x : exec) : turn :=
  match x_state x with
  | s_dead => error x
  | s_start_req_or_res => start_req_or_res ch x
  | s_res_or_resp_H => res_or_resp_H ch x
  | s_start_res => start_res ch x
  | s_res_H => expect "T" ch s_res_HT x
  | s_res_HT => expect "T" ch s_res_HTT x
  | s_res_HTT => expect "P" ch s_res_HTTP x
  | s_res_HTTP => expect "/" ch s_res_first_http_major x
  | s_res_first_http_major => first_digit "1" set_hp_http_major s_res_http_major ch x
  | s_res_http_major =>
      if eqc ch "." then goto s_res_first_http_minor x
      else more_digits hp_http_major set_hp_http_major ch x
  | s_res_first_http_minor => first_digit "0" set_hp_http_minor s_res_http_minor ch x
  | s_res_http_minor =>
      if eqc ch " " then goto s_res_first_status_code x
      else more_digits hp_http_minor set_hp_http_minor ch x
  | s_res_first_status_code =>
      if eqc ch " " then next x else first_digit "0" set_hp_status_code s_res_status_code ch x
  | s_res_status_code => res_status_code ch x
  | s_res_status =>
      if eqc ch CR then goto s_res_line_almost_done x
      else if eqc ch LF then goto s_header_field_start x else next x
  | s_res_line_almost_done => expect LF ch s_header_field_start x
  | s_start_req => start_req ch x
  | s_req_method => req_method ch x
  | s_req_spaces_before_url => req_spaces_before_url ch x
  | s_req_schema => req_schema ch x
  | s_req_schema_slash => expect "/" ch s_req_schema_slash_slash x
  | s_req_schema_slash_slash => expect "/" ch s_req_host x
  | s_req_host => req_host ch x
  | s_req_port => req_port ch x
  | s_req_path => req_path ch x
  | s_req_query_string_start => req_query_string_start ch x
  | s_req_query_string => req_query_string ch x
  | s_req_fragment_start => req_fragment_start ch x
  | s_req_fragment => req_fragment ch x
  | s_req_http_start =>
      if eqc ch "H" then goto s_req_http_H x else if eqc ch " " then next x else error x
  | s_req_http_H => expect "T" ch s_req_http_HT x
  | s_req_http_HT => expect "T" ch s_req_http_HTT x
  | s_req_http_HTT => expect "P" ch s_req_http_HTTP x
  | s_req_http_HTTP => expect "/" ch s_req_first_http_major x
  | s_req_first_http_major => first_digit "1" set_hp_http_major s_req_http_major ch x
  | s_req_http_major =>
      if eqc ch "." then goto s_req_first_http_minor x
      else more_digits hp_http_major set_hp_http_major ch x
  | s_req_first_http_minor => first_digit "0" set_hp_http_minor s_req_http_minor ch x
  | s_req_http_minor =>
      if eqc ch CR then goto s_req_line_almost_done x
      else if eqc ch LF then goto s_header_field_start x
      else more_digits hp_http_minor set_hp_http_minor ch x
  | s_req_line_almost_done => expect LF ch s_header_field_start x
  | s_header_field_start => header_field_start ch x
  | s_header_field => header_field ch x
  | s_header_value_start => header_value_start ch x
  | s_header_value => header_value ch x
  | s_header_almost_done => header_almost_done ch x
  | s_headers_almost_done => headers_almost_done ch x
  | s_body_identity => body_identity data x
  | s_body_identity_eof => body_identity_eof data x
  | s_chunk_size_start => chunk_size_start ch x
  | s_chunk_size => chunk_size ch x
  | s_chunk_parameters => chunk_parameters ch x
  | s_chunk_size_almost_done => chunk_size_almost_done ch x
  | s_chunk_data => chunk_data data x
  | s_chunk_data_almost_done => chunked x (expect CR ch s_chunk_data_done x)
  | s_chunk_data_done => chunked x (expect LF ch s_chunk_size_start x)
  end.

(** ** The loop *)

(** [PARSING_HEADER]: the states up to [s_headers_almost_done], but not of a trailer. *)
Definition header_phase (s : parser_state) : bool :=
  match s with
  | s_chunk_size_start | s_chunk_size | s_chunk_size_almost_done | s_chunk_parameters | s_chunk_data
  | s_chunk_data_almost_done | s_chunk_data_done | s_body_identity | s_body_identity_eof => false
  | _ => true
  end.

Definition parsing_header (x : exec) : bool := header_phase (x_state x) && negb (flag (x_parser x) F_TRAILING).

(** The marks move on with the current byte. *)
Definition push (ch : byte) (x : exec) : exec :=
  let add := fmap (fun t => t ++ [ch]) in
  set_x_url (add (x_url x)) (set_x_query (add (x_query x)) (set_x_value (add (x_value x)) (set_x_field (add (x_field x)) x))).

Definition execute_turn (ch : byte) (data : bytes) (x : exec) : turn :=
  if parsing_header x then
    let x := set_x_nread (x_nread x + 1) x in
    if HTTP_MAX_HEADER_SIZE <? x_nread x then error x else step ch data x
  else step ch data x.

Definition parser_result : Type := fault + list parser_event * http_parser * Z.

Definition at_offset (off : Z) (c : call) : parser_event := let '(cb, p, d) := c in mk_event cb p (off + d).

Definition preceded (l : list parser_event) (r : parser_result) : parser_result :=
  match r with
  | inl f => inl f
  | inr (l', p, n) => inr (l ++ l', p, n)
  end.

(** The callbacks for the texts that go on in the next buffer. *)
Definition open_pieces (off : Z) (x : exec) : list parser_event :=
  let piece (m : option bytes) cb := from_option (fun t => [mk_event (cb t) (x_parser x) off]) [] m in
  piece (x_field x) OnHeaderField ++ piece (x_value x) OnHeaderValue ++
  piece (x_query x) OnQueryString ++ piece (x_url x) OnUrl.

(** The fields that are stored at the end: [index] is an [unsigned char], [nread] has 32
    bits. *)
Definition stored (x : exec) : http_parser :=
  set_hp_nread (u32 (x_nread x)) (set_hp_index (wrap_u 8 (x_index x))
    (set_hp_header_state (x_header_state x) (set_hp_state (x_state x) (x_parser x)))).

Definition finish (off : Z) (x : exec) : parser_result := inr (open_pieces off x, stored x, off).

(** [skip] bytes were consumed by the last turn. *)
Fixpoint execute_loop (skip : nat) (data : bytes) (off : Z) (x : exec) : parser_result :=
  match data with
  | [] => finish off x
  | ch :: rest =>
      match skip with
      | S skip => execute_loop skip rest (off + 1) x
      | O =>
          match execute_turn ch data x with
          | inl f => inl f
          | inr (cbs, Stop p) => inr (map (at_offset off) cbs, p, off)
          | inr (cbs, Next x n) => preceded (map (at_offset off) cbs) (execute_loop (n - 1) rest (off + 1) (push ch x))
          end
      end
  end.

(** The states in the middle of a URL. *)
Definition in_url (s : parser_state) : bool :=
  match s with
  | s_req_path | s_req_schema | s_req_schema_slash | s_req_schema_slash_slash | s_req_port
  | s_req_query_string_start | s_req_query_string | s_req_host | s_req_fragment_start | s_req_fragment => true
  | _ => false
  end.

(** The local variables at the start. *)
Definition enter (p : http_parser) : exec :=
  let s := hp_state p in
  mk_exec p s (hp_header_state p) (hp_index p) (hp_nread p)
    (match s with s_header_field => Some [] | _ => None end)
    (match s with s_header_value => Some [] | _ => None end)
    (match s with s_req_query_string => Some [] | _ => None end)
    (if in_url s then Some [] else None).

Definition execute : HttpParser := fun p data =>
  match data with
  | [] => inr (match hp_state p with s_body_identity_eof => [mk_event OnMessageComplete p 0] | _ => [] end, p, 0)
  | _ => execute_loop 0 data 0 (enter p)
  end.

End Parser.
