(* ===== verification/Pieces.v ===== *)
(** * The parser and the pieces of its input

    A client's bytes arrive in pieces of any size, and every piece is a call of
    [http_parser_execute]. A text that is cut gives one callback per piece, so the
    callbacks themselves depend on the cuts; what they amount to does not. [view] is that:
    the URL, the headers, the body of the current message and the messages completed so
    far, each text joined. *)
From S2P Require Import Prelude Types Http World Pool Cmd Client Parser.

Local Open Scope Z_scope.

Module Pieces.
Import World Client Parser.

(** ** What the callbacks amount to *)

(** A message: its URL and query string, its header names ([true]) and values, its body,
    and the fields of the parser that the server reads when it is complete. *)
Record message := mk_message {
  g_url : bytes;
  g_query : bytes;
  g_headers : list (bool * bytes);
  g_body : bytes }.

Record view := mk_view {
  v_current : message;
  v_done : list (message * (Z * Z * Z * Z * bool)) }.

Definition no_message : message := mk_message [] [] [] [].
Definition no_view : view := mk_view no_message [].

(** A piece of a name or value continues the last one, if that is of the same kind; the
    headers are listed from the last to the first. *)
Definition add_piece (name : bool) (t : bytes) (l : list (bool * bytes)) : list (bool * bytes) :=
  match l with
  | (n, s) :: l' => if Bool.eqb n name then (n, s ++ t) :: l' else (name, t) :: l
  | [] => [(name, t)]
  end.

Definition see_message (cb : parser_callback) (g : message) : message :=
  match cb with
  | OnUrl t => mk_message (g_url g ++ t) (g_query g) (g_headers g) (g_body g)
  | OnQueryString t => mk_message (g_url g) (g_query g ++ t) (g_headers g) (g_body g)
  | OnHeaderField t => mk_message (g_url g) (g_query g) (add_piece true t (g_headers g)) (g_body g)
  | OnHeaderValue t => mk_message (g_url g) (g_query g) (add_piece false t (g_headers g)) (g_body g)
  | OnBody t => mk_message (g_url g) (g_query g) (g_headers g) (g_body g ++ t)
  | OnMessageComplete => no_message
  end.

Definition visible (p : http_parser) : Z * Z * Z * Z * bool :=
  (hp_flags p, hp_http_major p, hp_http_minor p, hp_method p, hp_upgrade p).

Definition see (cb : parser_callback) (p : http_parser) (v : view) : view :=
  mk_view (see_message cb (v_current v))
    (match cb with
     | OnMessageComplete => v_done v ++ [(v_current v, visible p)]
     | _ => v_done v
     end).

Definition seen (l : list parser_event) (v : view) : view :=
  fold_left (fun v e => see (pe_callback e) (pe_parser e) v) l v.

Definition seen_calls (l : list call) (v : view) : view :=
  fold_left (fun v (c : call) => see c.1.1 c.1.2 v) l v.

Lemma seen_app l1 l2 v : seen (l1 ++ l2) v = seen l2 (seen l1 v).
Proof. apply fold_left_app. Qed.

Lemma seen_offsets off l v : seen (map (at_offset off) l) v = seen_calls l v.
Proof. revert v. induction l as [|[[cb p] d] l IH]; intros v; [done|]. apply IH. Qed.

Lemma add_piece_app name s t l : add_piece name t (add_piece name s l) = add_piece name (s ++ t) l.
Proof.
  destruct l as [|[n u] l]; cbn; [by rewrite Bool.eqb_reflx|].
  destruct (Bool.eqb n name) eqn:E; cbn; by rewrite ?E, ?Bool.eqb_reflx, ?app_assoc.
Qed.

(** ** The local variables between two bytes *)

(** How far the name of a method, header or value has been compared. *)
Definition index_ok (s : parser_state) (h : header_states) (index : Z) : Prop :=
  match s with
  | s_header_field =>
      match h with
      | h_C => index = 0
      | h_CO => index = 1
      | h_CON => index = 2
      | h_matching_connection | h_matching_proxy_connection | h_matching_content_length
      | h_matching_transfer_encoding | h_matching_upgrade => 0 <= index <= 17
      | h_general | h_connection | h_content_length | h_transfer_encoding | h_upgrade => 0 <= index <= 18
      | _ => False
      end
  | s_header_value =>
      match h with
      | h_matching_transfer_encoding_chunked | h_matching_connection_keep_alive
      | h_matching_connection_close => 0 <= index <= 17
      | h_connection | h_transfer_encoding => False
      | _ => 0 <= index <= 18
      end
  | _ => 0 <= index <= 18
  end.

(** The states that read the body of a chunked message. *)
Definition chunk_state (s : parser_state) : bool :=
  match s with
  | s_chunk_size_start | s_chunk_size | s_chunk_parameters | s_chunk_size_almost_done | s_chunk_data
  | s_chunk_data_almost_done | s_chunk_data_done => true
  | _ => false
  end.

Definition opened (m : option bytes) : bool := match m with Some _ => true | None => false end.
Definition in_field (s : parser_state) : bool := match s with s_header_field => true | _ => false end.
Definition in_value (s : parser_state) : bool := match s with s_header_value => true | _ => false end.
Definition in_query (s : parser_state) : bool := match s with s_req_query_string => true | _ => false end.

(** A mark is set exactly in the states of its text, the counters are small, and only
    chunked messages reach the states of chunks. *)
Record good (x : exec) : Prop := {
  k_field : opened (x_field x) = in_field (x_state x);
  k_value : opened (x_value x) = in_value (x_state x);
  k_query : opened (x_query x) = in_query (x_state x);
  k_url : opened (x_url x) = in_url (x_state x);
  k_index : index_ok (x_state x) (x_header_state x) (x_index x);
  k_nread : 0 <= x_nread x <= HTTP_MAX_HEADER_SIZE;
  k_chunked : chunk_state (x_state x) = true -> flag (x_parser x) F_CHUNKED = true }.

(** A parser between two calls. *)
Record good_parser (p : http_parser) : Prop := {
  kp_index : index_ok (hp_state p) (hp_header_state p) (hp_index p);
  kp_nread : 0 <= hp_nread p <= HTTP_MAX_HEADER_SIZE;
  kp_chunked : chunk_state (hp_state p) = true -> flag p F_CHUNKED = true }.

Lemma enter_good p : good_parser p -> good (enter p).
Proof. intros [Hi Hn Hc]. by split; cbn; try done; destruct (hp_state p). Qed.

Lemma push_good ch x : good x -> good (push ch x).
Proof. intros [? ? ? ? ? ? ?]. split; cbn; try done; by destruct (x_field x), (x_value x), (x_query x), (x_url x). Qed.

(** ** A turn keeps them *)

Definition turn_good (t : turn) : Prop :=
  match t with
  | inl f => f = OutOfBounds
  | inr (_, Next x _) => good x
  | inr (_, Stop _) => True
  end.

Lemma calling_good c k : turn_good k -> turn_good (calling c k).
Proof. by destruct k as [|[l o]]. Qed.

Lemma CALLBACK_good m cb x k : turn_good k -> turn_good (CALLBACK m cb x k).
Proof. destruct m; [apply calling_good|done]. Qed.

Lemma matcher_bound m i c : matcher m i = Some c -> 0 <= i -> i <= 11.
Proof.
  unfold matcher. intros H Hi. destruct (method_strings !! Z.to_nat m) as [name|] eqn:E; [|done]. cbn in H.
  assert (length name <= 11)%nat.
  { assert (Forall (fun n => length n <= 11)%nat method_strings) as Hf by (by_decide).
    rewrite Forall_lookup in Hf. by eapply Hf. }
  apply lookup_lt_Some in H. rewrite length_app in H. cbn in H. lia.
Qed.

Lemma matching_good name done c x :
  (length name <= 17)%nat -> 0 <= x_index x <= 17 ->
  (forall i h, 0 <= i <= 18 -> h = h_general \/ h = done -> index_ok (x_state x) h i) ->
  (forall i, 0 <= i <= 17 -> index_ok (x_state x) (x_header_state x) i) ->
  good x -> good (matching name done c x).
Proof.
  intros Hn Hx Hi Hm [? ? ? ? ? ? ?]. unfold matching.
  destruct (Z.ltb_spec (Z.of_nat (length name)) (x_index x + 1)); cbn [orb].
  { split; cbn; try done. apply Hi; [lia|auto]. }
  destruct (negb _); [split; cbn; try done; apply Hi; [lia|auto]|].
  destruct (_ =? _); split; cbn; try done; [apply Hi; [lia|auto]|apply Hm; lia].
Qed.

Lemma index_ok_range s h i : index_ok s h i -> 0 <= i <= 18.
Proof. destruct s; cbn; try done; destruct h; cbn; lia. Qed.

Ltac leaf Es :=
  match goal with
  | H : good ?x |- good _ =>
      let Kf := fresh in let Kv := fresh in let Kq := fresh in let Ku := fresh in let Ki := fresh in
      let Kn := fresh in let Kc := fresh in
      destruct H as [Kf Kv Kq Ku Ki Kn Kc]; rewrite Es in Kf, Kv, Kq, Ku, Ki, Kc;
      pose proof (index_ok_range _ _ _ Ki); cbn in Ki; split; cbn; rewrite ?Kf, ?Kv, ?Kq, ?Ku, ?Es; cbn; repeat case_match; done || lia
  end.

Ltac turns Es :=
  repeat match goal with
    | |- turn_good (CALLBACK _ _ _ _) => apply CALLBACK_good
    | |- turn_good (calling _ _) => apply calling_good
    | |- turn_good (if ?b then _ else _) => destruct b eqn:?
    | |- turn_good (match ?o with _ => _ end) => destruct o eqn:?
    end; cbn [turn_good]; try done; try leaf Es.

Lemma req_method_good ch x : good x -> x_state x = s_req_method -> turn_good (req_method ch x).
Proof.
  intros Hx Es. unfold req_method, goto, next, error, broken. destruct (eqc ch x00); [done|].
  destruct (matcher _ _) as [c|] eqn:Em; [|done].
  assert (0 <= x_index x <= 11).
  { pose proof (k_index _ Hx) as Hi. rewrite Es in Hi. cbn in Hi. apply matcher_bound in Em; lia. }
  turns Es.
Qed.

Lemma field_char_good ch c x :
  good x -> x_state x = s_header_field -> exists y, field_char ch c x = inr y /\ good y.
Proof.
  intros Hx Es. pose proof (k_index _ Hx) as Hi. rewrite Es in Hi. unfold index_ok in Hi. unfold field_char.
  assert (forall name done, (length name <= 17)%nat -> 0 <= x_index x <= 17 ->
    (done = h_connection \/ done = h_content_length \/ done = h_transfer_encoding \/ done = h_upgrade) ->
    (forall i, 0 <= i <= 17 -> index_ok s_header_field (x_header_state x) i) ->
    exists y, (inr (matching name done c x) : fault + exec) = inr y /\ good y) as Hm.
  { intros name done Hl Hix Hdone Hs. eexists. split; [done|]. apply matching_good; rewrite ?Es; try done.
    intros i h Hh [->| ->]; [done|]. by destruct_or! Hdone; subst. }
  destruct (x_header_state x) eqn:Eh; try done;
    try (apply Hm; [by_decide|lia|tauto|done]);
    try (eexists; split; [done|done]);
    try (destruct (eqc ch " "); eexists; (split; [done|]); [done|leaf Es]);
    eexists; (split; [done|]); repeat case_match; leaf Es.
Qed.

Lemma header_field_good ch x : good x -> x_state x = s_header_field -> turn_good (header_field ch x).
Proof.
  intros Hx Es. unfold header_field, CALLBACK_header_field, goto, next, error, broken.
  destruct (negb _).
  - destruct (field_char_good ch (TOKEN ch) x Hx Es) as (y & -> & Hy). done.
  - turns Es.
Qed.

Lemma header_value_start_good ch x : good x -> x_state x = s_header_value_start -> turn_good (header_value_start ch x).
Proof.
  intros Hx Es. unfold header_value_start, CALLBACK_header_value, goto, next, error. cbv zeta.
  cbn [x_header_state x_parser set_x_index set_x_state set_x_value].
  turns Es.
Qed.

Lemma header_almost_done_good ch x :
  opened (x_field x) = false -> opened (x_value x) = false -> opened (x_query x) = false -> opened (x_url x) = false ->
  0 <= x_index x <= 18 -> 0 <= x_nread x <= HTTP_MAX_HEADER_SIZE -> turn_good (header_almost_done ch x).
Proof.
  intros. unfold header_almost_done, error, next. destruct (negb _); [done|]. cbn.
  destruct (x_header_state x); by split.
Qed.

Lemma value_char_good ch x : good x -> x_state x = s_header_value -> turn_good (value_char ch x).
Proof.
  intros Hx Es. pose proof (k_index _ Hx) as Hi. rewrite Es in Hi. unfold index_ok in Hi.
  unfold value_char, goto, next, error, broken.
  assert (forall name done, (length name <= 17)%nat -> 0 <= x_index x <= 17 ->
    (done = h_transfer_encoding_chunked \/ done = h_connection_keep_alive \/ done = h_connection_close) ->
    (forall i, 0 <= i <= 17 -> index_ok s_header_value (x_header_state x) i) ->
    good (matching name done (LOWER ch) x)) as Hm.
  { intros name done Hl Hix Hdone Hs. apply matching_good; rewrite ?Es; try done.
    intros i h Hh [->| ->]; [done|]. by destruct_or! Hdone; subst. }
  destruct (x_header_state x) eqn:Eh; try done; turns Es; try (apply Hm; [by_decide|lia|tauto|done]);
    repeat case_match; try done; leaf Es.
Qed.

Lemma header_value_good ch x : good x -> x_state x = s_header_value -> turn_good (header_value ch x).
Proof.
  intros Hx Es. unfold header_value, CALLBACK_header_value.
  destruct (eqc ch CR); [apply CALLBACK_good; cbn; leaf Es|].
  destruct (eqc ch LF); [|by apply value_char_good]. destruct Hx as [Kf Kv Kq Ku Ki Kn Kc].
  rewrite Es in Kf, Kq, Ku. by apply CALLBACK_good, header_almost_done_good; try eapply index_ok_range.
Qed.

Lemma complete_good x :
  good x -> in_field (x_state x) = false -> in_value (x_state x) = false -> in_query (x_state x) = false ->
  in_url (x_state x) = false -> turn_good (complete x).
Proof.
  intros [Kf Kv Kq Ku Ki Kn Kc] Ef Ev Eq Eu. apply index_ok_range in Ki.
  rewrite Ef in Kf. rewrite Ev in Kv. rewrite Eq in Kq. rewrite Eu in Ku.
  unfold complete, message_complete. apply calling_good. unfold goto, next, NEW_MESSAGE, start_state.
  destruct (http_should_keep_alive _); [destruct (hp_type _)|]; by split.
Qed.

Lemma headers_almost_done_good ch x :
  good x -> in_field (x_state x) = false -> in_value (x_state x) = false -> in_query (x_state x) = false ->
  in_url (x_state x) = false -> turn_good (headers_almost_done ch x).
Proof.
  intros Hx Ef Ev Eq Eu. unfold headers_almost_done, error. destruct (negb _); [done|].
  destruct (flag (x_parser x) F_TRAILING); [by apply complete_good|]. cbv zeta.
  cbn [x_parser set_x_nread].
  match goal with |- context [if hp_upgrade ?q then _ else _] => set (p := q) end.
  assert (good (set_x_parser p (set_x_nread 0 x))) as Hy.
  { destruct Hx as [Kf Kv Kq Ku Ki Kn Kc]. split; cbn; try done. intros Hc. apply Kc in Hc. subst p. by case_match. }
  destruct (hp_upgrade p); [by apply calling_good|].
  repeat match goal with |- turn_good (if ?b then _ else _) => destruct b eqn:? end;
    try (apply complete_good; done); unfold goto, next;
    destruct Hy as [Kf Kv Kq Ku Ki Kn Kc]; apply index_ok_range in Ki; cbn in Kf, Kv, Kq, Ku;
    rewrite ?Ef in Kf; rewrite ?Ev in Kv; rewrite ?Eq in Kq; rewrite ?Eu in Ku; by split.
Qed.

Lemma first_of_field_ok c : index_ok s_header_field (first_of_field c) 0.
Proof. unfold first_of_field. by repeat case_match. Qed.

Lemma header_field_start_good ch x : good x -> x_state x = s_header_field_start -> turn_good (header_field_start ch x).
Proof.
  intros Hx Es. unfold header_field_start, goto, next, error.
  destruct (eqc ch CR); [cbn; leaf Es|]. destruct (eqc ch LF).
  { apply headers_almost_done_good; try done. leaf Es. }
  cbv zeta. destruct (_ =? 0); [done|]. cbn [turn_good]. pose proof (first_of_field_ok (TOKEN ch)).
  destruct Hx as [Kf Kv Kq Ku Ki Kn Kc]. rewrite Es in Kf, Kv, Kq, Ku. split; cbn; rewrite ?Kf, ?Kv, ?Kq, ?Ku; done.
Qed.

Lemma chunked_good x k : good x -> chunk_state (x_state x) = true -> turn_good k -> turn_good (chunked x k).
Proof. intros Hx Hc Hk. unfold chunked. by rewrite (k_chunked _ Hx Hc). Qed.

Lemma body_identity_good data x : good x -> x_state x = s_body_identity -> turn_good (body_identity data x).
Proof.
  intros Hx Es. unfold body_identity, body_piece, next, content. cbv zeta.
  destruct (0 <? _); [|by cbn]. apply calling_good. destruct (_ =? 0); [apply calling_good|]; cbn [turn_good].
  - unfold NEW_MESSAGE, start_state. destruct (http_should_keep_alive _); [destruct (hp_type _)|]; leaf Es.
  - leaf Es.
Qed.

Lemma chunk_data_good data x : good x -> x_state x = s_chunk_data -> turn_good (chunk_data data x).
Proof.
  intros Hx Es. apply chunked_good; [done|by rewrite Es|]. cbv zeta. unfold body_piece, next, content.
  destruct (0 <? _); [apply calling_good|]; cbn [turn_good]; destruct (_ =? _); leaf Es.
Qed.

Lemma step_good ch data x : good x -> turn_good (step ch data x).
Proof.
  intros Hx. unfold step. destruct (x_state x) eqn:Es;
    unfold start_req_or_res, start_req, start_req_method_assign, res_or_resp_H, start_res, expect, first_digit,
      res_status_code, more_digits, begin_message, req_spaces_before_url, req_schema, req_host, req_port,
      req_path, req_query_string_start, req_query_string, req_fragment_start, req_fragment, CALLBACK_url,
      CALLBACK_query_string, url_end, http_09, chunk_size_start, chunk_size, chunk_parameters, chunk_size_almost_done,
      body_identity_eof, body_piece, content, goto, next, error, broken;
    try (lazymatch goal with |- turn_good (chunked _ _) => apply chunked_good; [done|by rewrite Es|] end); turns Es.
  - by apply req_method_good.
  - by apply header_field_start_good.
  - by apply header_field_good.
  - by apply header_value_start_good.
  - by apply header_value_good.
  - destruct Hx as [Kf Kv Kq Ku Ki Kn Kc]. rewrite Es in Kf, Kv, Kq, Ku.
    by apply header_almost_done_good; try eapply index_ok_range.
  - by apply headers_almost_done_good; rewrite ?Es.
  - by apply chunk_data_good.
  - by apply body_identity_good.
Qed.

Lemma execute_turn_good ch data x : good x -> turn_good (execute_turn ch data x).
Proof.
  intros Hx. unfold execute_turn. destruct (parsing_header x); [|by apply step_good]. cbv zeta. cbn [x_nread set_x_nread].
  destruct (Z.ltb_spec HTTP_MAX_HEADER_SIZE (x_nread x + 1)); [done|]. apply step_good.
  destruct Hx as [? ? ? ? ? ? ?]. split; cbn; try done. lia.
Qed.

(** ** Two runs of the same bytes *)

(** Equal up to the fields that the loop keeps in local variables. *)
Record alike (p q : http_parser) : Prop := {
  a_type : hp_type p = hp_type q;
  a_flags : hp_flags p = hp_flags q;
  a_content_length : hp_content_length p = hp_content_length q;
  a_http_major : hp_http_major p = hp_http_major q;
  a_http_minor : hp_http_minor p = hp_http_minor q;
  a_status_code : hp_status_code p = hp_status_code q;
  a_method : hp_method p = hp_method q;
  a_upgrade : hp_upgrade p = hp_upgrade q }.

(** The pieces of the open texts that one of the runs has already handed out. *)
Record prefix := mk_prefix {
  pf_field : option bytes;
  pf_value : option bytes;
  pf_query : option bytes;
  pf_url : option bytes }.

Definition no_prefix : prefix := mk_prefix None None None None.

Definition joined (pre m m' : option bytes) : Prop :=
  match pre with
  | None => m = m'
  | Some t => exists s, m' = Some s /\ m = Some (t ++ s)
  end.

Definition see_piece (m : option bytes) (cb : bytes -> parser_callback) (g : message) : message :=
  from_option (fun t => see_message (cb t) g) g m.

Definition ahead_message (pre : prefix) (g : message) : message :=
  see_piece (pf_url pre) OnUrl (see_piece (pf_query pre) OnQueryString
    (see_piece (pf_value pre) OnHeaderValue (see_piece (pf_field pre) OnHeaderField g))).

Definition ahead (pre : prefix) (v : view) : view := mk_view (ahead_message pre (v_current v)) (v_done v).

(** The run at [x] has kept what the run at [x'] has handed out. *)
Record lifted (pre : prefix) (x x' : exec) : Prop := {
  l_alike : alike (x_parser x) (x_parser x');
  l_state : x_state x = x_state x';
  l_header_state : x_header_state x = x_header_state x';
  l_index : x_index x = x_index x';
  l_nread : x_nread x = x_nread x';
  l_field : joined (pf_field pre) (x_field x) (x_field x');
  l_value : joined (pf_value pre) (x_value x) (x_value x');
  l_query : joined (pf_query pre) (x_query x) (x_query x');
  l_url : joined (pf_url pre) (x_url x) (x_url x') }.

(** Turns that come to the same. When one returns, so does the other, with the same
    messages completed. *)
Definition sim (pre : prefix) (t t' : turn) : Prop :=
  match t, t' with
  | inl f, inl f' => f = f'
  | inr (l, Stop p), inr (l', Stop p') =>
      alike p p' /\ forall v, v_done (seen_calls l v) = v_done (seen_calls l' (ahead pre v))
  | inr (l, Next y n), inr (l', Next y' n') =>
      n = n' /\ exists pre', lifted pre' y y' /\ forall v, ahead pre' (seen_calls l v) = seen_calls l' (ahead pre v)
  | _, _ => False
  end.

Create HintDb sim.

Section Alike.
Context {p q : http_parser} (H : alike p q).

Lemma alike_flag f : flag p f = flag q f.
Proof using H. unfold flag. by rewrite (a_flags _ _ H). Qed.

Lemma alike_keep_alive : http_should_keep_alive p = http_should_keep_alive q.
Proof using H.
  unfold http_should_keep_alive. by rewrite !alike_flag, (a_http_major _ _ H), (a_http_minor _ _ H).
Qed.

Lemma alike_new_message : NEW_MESSAGE p = NEW_MESSAGE q.
Proof using H. unfold NEW_MESSAGE, start_state. by rewrite alike_keep_alive, (a_type _ _ H). Qed.

Lemma alike_visible : visible p = visible q.
Proof using H. destruct H. unfold visible. congruence. Qed.

Lemma alike_set_type v : alike (set_hp_type v p) (set_hp_type v q). Proof using H. by destruct H. Qed.
Lemma alike_set_flags v : alike (set_hp_flags v p) (set_hp_flags v q). Proof using H. by destruct H. Qed.
Lemma alike_set_content_length v : alike (set_hp_content_length v p) (set_hp_content_length v q).
Proof using H. by destruct H. Qed.
Lemma alike_set_http_major v : alike (set_hp_http_major v p) (set_hp_http_major v q). Proof using H. by destruct H. Qed.
Lemma alike_set_http_minor v : alike (set_hp_http_minor v p) (set_hp_http_minor v q). Proof using H. by destruct H. Qed.
Lemma alike_set_status_code v : alike (set_hp_status_code v p) (set_hp_status_code v q).
Proof using H. by destruct H. Qed.
Lemma alike_set_method v : alike (set_hp_method v p) (set_hp_method v q). Proof using H. by destruct H. Qed.
Lemma alike_set_upgrade v : alike (set_hp_upgrade v p) (set_hp_upgrade v q). Proof using H. by destruct H. Qed.
Lemma alike_set_state v w : alike (set_hp_state v p) (set_hp_state w q). Proof using H. by destruct H. Qed.
Lemma alike_add_flag f : alike (add_flag f p) (add_flag f q).
Proof using H. unfold add_flag. rewrite (a_flags _ _ H). apply alike_set_flags. Qed.

End Alike.

#[local] Hint Resolve alike_set_type alike_set_flags alike_set_content_length alike_set_http_major alike_set_http_minor
  alike_set_status_code alike_set_method alike_set_upgrade alike_set_state alike_add_flag l_alike : sim.

Section Lifted.
Context {pre : prefix} {x x' : exec} (H : lifted pre x x').

Lemma lifted_parser p p' : alike p p' -> lifted pre (set_x_parser p x) (set_x_parser p' x').
Proof using H. destruct H. by split. Qed.
Lemma lifted_state s : lifted pre (set_x_state s x) (set_x_state s x').
Proof using H. destruct H. by split. Qed.
Lemma lifted_header_state h : lifted pre (set_x_header_state h x) (set_x_header_state h x').
Proof using H. destruct H. by split. Qed.
Lemma lifted_index i : lifted pre (set_x_index i x) (set_x_index i x').
Proof using H. destruct H. by split. Qed.
Lemma lifted_nread n : lifted pre (set_x_nread n x) (set_x_nread n x').
Proof using H. destruct H. by split. Qed.

(** A text starts. *)
Lemma lifted_url t : pf_url pre = None -> lifted pre (set_x_url (Some t) x) (set_x_url (Some t) x').
Proof using H. intros E. destruct H. split; cbn; try done. by rewrite E. Qed.
Lemma lifted_query t : pf_query pre = None -> lifted pre (set_x_query (Some t) x) (set_x_query (Some t) x').
Proof using H. intros E. destruct H. split; cbn; try done. by rewrite E. Qed.
Lemma lifted_field t : pf_field pre = None -> lifted pre (set_x_field (Some t) x) (set_x_field (Some t) x').
Proof using H. intros E. destruct H. split; cbn; try done. by rewrite E. Qed.
Lemma lifted_value t : pf_value pre = None -> lifted pre (set_x_value (Some t) x) (set_x_value (Some t) x').
Proof using H. intros E. destruct H. split; cbn; try done. by rewrite E. Qed.

Lemma joined_push (t m m' : option bytes) ch :
  joined t m m' -> joined t ((fun s => s ++ [ch]) <$> m) ((fun s => s ++ [ch]) <$> m').
Proof using.
  destruct t as [t|]; cbn; [|by intros ->]. intros (s & -> & ->). exists (s ++ [ch]). cbn. by rewrite app_assoc.
Qed.

Lemma lifted_push ch : lifted pre (push ch x) (push ch x').
Proof using H. destruct H. split; cbn; try done; by apply joined_push. Qed.

Lemma sim_next : sim pre (next x) (next x').
Proof using H. split; [done|]. by exists pre. Qed.
Lemma sim_goto s : sim pre (goto s x) (goto s x').
Proof using H. split; [done|]. exists pre. split; [apply lifted_state|done]. Qed.
Lemma sim_error : sim pre (error x) (error x').
Proof using H. split; [apply alike_set_state, H|done]. Qed.

End Lifted.

#[local] Hint Resolve lifted_parser lifted_state lifted_header_state lifted_index lifted_nread lifted_url lifted_query
  lifted_field lifted_value sim_next sim_goto sim_error : sim.

Lemma sim_broken pre f : sim pre (broken f) (broken f).
Proof. done. Qed.
#[local] Hint Resolve sim_broken : sim.

(** A callback whose text one of the runs has handed out in part. *)
Lemma sim_calling pre pre1 cb cb' p p' d k k' :
  (forall v, ahead pre1 (see cb p v) = see cb' p' (ahead pre v)) ->
  sim pre1 k k' -> sim pre (calling (cb, p, d) k) (calling (cb', p', d) k').
Proof.
  intros Hcb. destruct k as [f|[l [y n|q]]], k' as [f'|[l' [y' n'|q']]]; cbn [calling sim]; try done.
  - intros (-> & pre' & Hl & Hv). split; [done|]. exists pre'. split; [done|]. intros v. cbn. by rewrite Hv, Hcb.
  - intros (Ha & Hv). split; [done|]. intros v. cbn. by rewrite Hv, Hcb.
Qed.

Definition without_url (pre : prefix) : prefix := mk_prefix (pf_field pre) (pf_value pre) (pf_query pre) None.
Definition without_query (pre : prefix) : prefix := mk_prefix (pf_field pre) (pf_value pre) None (pf_url pre).
Definition without_field (pre : prefix) : prefix := mk_prefix None (pf_value pre) (pf_query pre) (pf_url pre).
Definition without_value (pre : prefix) : prefix := mk_prefix (pf_field pre) None (pf_query pre) (pf_url pre).

(** What a text contributes when it is handed out at once, or in two pieces. *)
Ltac see_pieces :=
  intros; unfold ahead, ahead_message, see, see_piece, see_message; cbn;
  repeat match goal with m : option bytes |- _ => destruct m end; simplify_eq/=;
  by rewrite ?add_piece_app, ?app_assoc, ?app_nil_r.

Lemma see_url_ahead pre s p p' v :
  ahead (without_url pre) (see (OnUrl (default [] (pf_url pre) ++ s)) p v) = see (OnUrl s) p' (ahead pre v).
Proof. destruct pre, v as [[] ?]. see_pieces. Qed.

Lemma see_query_ahead pre s p p' v :
  ahead (without_query pre) (see (OnQueryString (default [] (pf_query pre) ++ s)) p v) =
  see (OnQueryString s) p' (ahead pre v).
Proof. destruct pre, v as [[] ?]. see_pieces. Qed.

Lemma see_field_ahead pre s p p' v :
  pf_value pre = None ->
  ahead (without_field pre) (see (OnHeaderField (default [] (pf_field pre) ++ s)) p v) =
  see (OnHeaderField s) p' (ahead pre v).
Proof. destruct pre, v as [[] ?]. see_pieces. Qed.

Lemma see_value_ahead pre s p p' v :
  pf_field pre = None ->
  ahead (without_value pre) (see (OnHeaderValue (default [] (pf_value pre) ++ s)) p v) =
  see (OnHeaderValue s) p' (ahead pre v).
Proof. destruct pre, v as [[] ?]. see_pieces. Qed.

(** A mark of both runs: closed in both, or open in both with the text split. *)
Lemma joined_cases pre m m' :
  joined pre m m' -> (pre = None /\ m = None /\ m' = None) \/ exists s, m' = Some s /\ m = Some (default [] pre ++ s).
Proof.
  destruct pre as [t|]; cbn; [intros (s & -> & ->); eauto|]. intros ->. destruct m'; eauto.
Qed.

Ltac sim_mark H :=
  destruct (joined_cases _ _ _ H) as [(E & -> & ->)|(s & -> & ->)]; cbn [CALLBACK].

Lemma sim_url pre x x' k k' :
  lifted pre x x' -> sim (without_url pre) (k (set_x_url None x)) (k' (set_x_url None x')) ->
  sim pre (CALLBACK_url x k) (CALLBACK_url x' k').
Proof.
  intros Hl. unfold CALLBACK_url. sim_mark (l_url _ _ _ Hl).
  - by destruct pre; cbn in E; subst.
  - apply sim_calling. intros v. apply see_url_ahead.
Qed.

Lemma sim_query pre x x' k k' :
  lifted pre x x' -> sim (without_query pre) (k (set_x_query None x)) (k' (set_x_query None x')) ->
  sim pre (CALLBACK_query_string x k) (CALLBACK_query_string x' k').
Proof.
  intros Hl. unfold CALLBACK_query_string. sim_mark (l_query _ _ _ Hl).
  - by destruct pre; cbn in E; subst.
  - apply sim_calling. intros v. apply see_query_ahead.
Qed.

Lemma sim_field pre x x' k k' :
  lifted pre x x' -> pf_value pre = None ->
  sim (without_field pre) (k (set_x_field None x)) (k' (set_x_field None x')) ->
  sim pre (CALLBACK_header_field x k) (CALLBACK_header_field x' k').
Proof.
  intros Hl Hv. unfold CALLBACK_header_field. sim_mark (l_field _ _ _ Hl).
  - by destruct pre; cbn in E; subst.
  - apply sim_calling. intros v. by apply see_field_ahead.
Qed.

Lemma sim_value pre x x' k k' :
  lifted pre x x' -> pf_field pre = None ->
  sim (without_value pre) (k (set_x_value None x)) (k' (set_x_value None x')) ->
  sim pre (CALLBACK_header_value x k) (CALLBACK_header_value x' k').
Proof.
  intros Hl Hv. unfold CALLBACK_header_value. sim_mark (l_value _ _ _ Hl).
  - by destruct pre; cbn in E; subst.
  - apply sim_calling. intros v. by apply see_value_ahead.
Qed.

Lemma lifted_no_url pre x x' : lifted pre x x' -> lifted (without_url pre) (set_x_url None x) (set_x_url None x').
Proof. intros []. by split. Qed.
Lemma lifted_no_query pre x x' : lifted pre x x' -> lifted (without_query pre) (set_x_query None x) (set_x_query None x').
Proof. intros []. by split. Qed.
Lemma lifted_no_field pre x x' : lifted pre x x' -> lifted (without_field pre) (set_x_field None x) (set_x_field None x').
Proof. intros []. by split. Qed.
Lemma lifted_no_value pre x x' : lifted pre x x' -> lifted (without_value pre) (set_x_value None x) (set_x_value None x').
Proof. intros []. by split. Qed.

#[local] Hint Resolve lifted_no_url lifted_no_query lifted_no_field lifted_no_value : sim.

(** Goes through turns of the same shape. *)
Ltac sims :=
  repeat match goal with
    | |- sim _ (if ?b then _ else _) (if ?b then _ else _) => destruct b eqn:?
    | |- sim _ (match ?o with _ => _ end) (match ?o with _ => _ end) => destruct o eqn:?
    | |- sim _ (CALLBACK_url _ _) (CALLBACK_url _ _) => apply sim_url
    | |- sim _ (CALLBACK_query_string _ _) (CALLBACK_query_string _ _) => apply sim_query
    | |- sim _ (CALLBACK_header_field _ _) (CALLBACK_header_field _ _) => apply sim_field
    | |- sim _ (CALLBACK_header_value _ _) (CALLBACK_header_value _ _) => apply sim_value
    end; eauto 20 with sim.

(** The prefix of a mark that is closed. *)
Lemma closed_prefix pre m m' : joined pre m m' -> opened m' = false -> pre = None.
Proof. destruct pre; cbn; [|done]. by intros (s & -> & _). Qed.

(** Rewrites what the first run reads into what the second one does. *)
Ltac same Hl :=
  let Ha := fresh in
  pose proof (l_alike _ _ _ Hl) as Ha;
  rewrite ?(l_state _ _ _ Hl), ?(l_header_state _ _ _ Hl), ?(l_index _ _ _ Hl), ?(l_nread _ _ _ Hl),
    ?(a_type _ _ Ha), ?(a_content_length _ _ Ha), ?(a_http_major _ _ Ha), ?(a_http_minor _ _ Ha),
    ?(a_status_code _ _ Ha), ?(a_method _ _ Ha), ?(a_upgrade _ _ Ha), ?(alike_new_message Ha), ?(alike_keep_alive Ha),
    ?(alike_flag Ha).

Lemma lifted_begin pre x x' : lifted pre x x' -> lifted pre (begin_message x) (begin_message x').
Proof. intros Hl. apply lifted_parser; eauto 10 with sim. Qed.

Lemma start_req_method_assign_sim ch pre x x' :
  lifted pre x x' -> sim pre (start_req_method_assign ch x) (start_req_method_assign ch x').
Proof. intros Hl. unfold start_req_method_assign. cbv zeta. cbn [x_parser set_x_index set_x_parser]. sims. Qed.

Lemma more_digits_sim get set ch pre x x' :
  (forall p q, alike p q -> get p = get q) -> (forall v p q, alike p q -> alike (set v p) (set v q)) ->
  lifted pre x x' -> sim pre (more_digits get set ch x) (more_digits get set ch x').
Proof.
  intros Hg Hs Hl. unfold more_digits. cbv zeta. rewrite (Hg _ _ (l_alike _ _ _ Hl)).
  assert (forall v, lifted pre (set_x_parser (set v (x_parser x)) x) (set_x_parser (set v (x_parser x')) x'))
    by (intros v; apply lifted_parser; [done|apply Hs, Hl]).
  sims.
Qed.

Lemma req_method_sim ch pre x x' : lifted pre x x' -> sim pre (req_method ch x) (req_method ch x').
Proof. intros Hl. unfold req_method. cbv zeta. same Hl. sims. Qed.

Lemma lifted_matching name done c pre x x' :
  lifted pre x x' -> lifted pre (matching name done c x) (matching name done c x').
Proof. intros Hl. unfold matching. cbv zeta. same Hl. repeat case_match; eauto with sim. Qed.

#[local] Hint Resolve lifted_begin start_req_method_assign_sim lifted_matching : sim.

Lemma field_char_sim ch c pre x x' :
  lifted pre x x' ->
  match field_char ch c x, field_char ch c x' with
  | inl f, inl f' => f = f'
  | inr y, inr y' => lifted pre y y'
  | _, _ => False
  end.
Proof.
  intros Hl. unfold field_char. cbv zeta. same Hl. destruct (x_header_state x'); try done; eauto with sim;
    destruct (eqc ch " "); eauto with sim.
Qed.

Lemma header_field_sim ch pre x x' :
  pf_value pre = None -> lifted pre x x' -> sim pre (header_field ch x) (header_field ch x').
Proof.
  intros Hv Hl. unfold header_field. cbv zeta. destruct (negb _); [|sims].
  pose proof (field_char_sim ch (TOKEN ch) _ _ _ Hl) as H.
  destruct (field_char ch (TOKEN ch) x), (field_char ch (TOKEN ch) x'); try done; subst; eauto with sim.
Qed.

Lemma header_value_start_sim ch pre x x' :
  pf_field pre = None -> pf_value pre = None -> lifted pre x x' ->
  sim pre (header_value_start ch x) (header_value_start ch x').
Proof.
  intros Hf Hv Hl. unfold header_value_start. cbv zeta.
  assert (lifted pre (set_x_index 0 (set_x_state s_header_value (set_x_value (Some []) x)))
            (set_x_index 0 (set_x_state s_header_value (set_x_value (Some []) x')))) as Hl1 by eauto 10 with sim.
  revert Hl1. generalize (set_x_index 0 (set_x_state s_header_value (set_x_value (Some []) x))) as y.
  generalize (set_x_index 0 (set_x_state s_header_value (set_x_value (Some []) x'))) as y'. intros y' y Hl1.
  same Hl1. sims.
Qed.

Lemma header_almost_done_sim ch pre x x' :
  lifted pre x x' -> sim pre (header_almost_done ch x) (header_almost_done ch x').
Proof.
  intros Hl. unfold header_almost_done. cbv zeta. cbn [x_header_state x_parser set_x_state]. same Hl. sims.
Qed.

Lemma value_char_sim ch pre x x' : lifted pre x x' -> sim pre (value_char ch x) (value_char ch x').
Proof.
  intros Hl. unfold value_char. cbv zeta. same Hl. sims; destruct (eqc ch " "); eauto with sim.
Qed.

#[local] Hint Resolve header_almost_done_sim value_char_sim : sim.

Lemma header_value_sim ch pre x x' :
  pf_field pre = None -> lifted pre x x' -> sim pre (header_value ch x) (header_value ch x').
Proof. intros Hf Hl. unfold header_value. sims. Qed.

Lemma ahead_none v : ahead no_prefix v = v.
Proof. by destruct v. Qed.

Lemma message_complete_sim p p' d k k' :
  alike p p' -> sim no_prefix k k' ->
  sim no_prefix (calling (OnMessageComplete, p, d) k) (calling (OnMessageComplete, p', d) k').
Proof.
  intros Ha. apply sim_calling. intros v. rewrite !ahead_none. unfold see. by rewrite (alike_visible Ha).
Qed.

Lemma body_piece_sim pre data n p p' d k k' :
  sim pre k k' ->
  sim pre (calling (OnBody (take n data), p, d) k) (calling (OnBody (take n data), p', d) k').
Proof. apply sim_calling. intros v. destruct pre, v as [[] ?]. see_pieces. Qed.

Lemma complete_sim x x' : lifted no_prefix x x' -> sim no_prefix (complete x) (complete x').
Proof. intros Hl. unfold complete. same Hl. apply message_complete_sim; [apply Hl|]. sims. Qed.

#[local] Hint Resolve complete_sim : sim.

Lemma headers_almost_done_sim ch x x' :
  lifted no_prefix x x' -> sim no_prefix (headers_almost_done ch x) (headers_almost_done ch x').
Proof.
  intros Hl. unfold headers_almost_done. cbv zeta. cbn [x_parser set_x_nread]. same Hl. destruct (negb _); [eauto with sim|].
  destruct (flag (x_parser x') F_TRAILING); [eauto with sim|].
  match goal with |- sim _ (if hp_upgrade ?q then _ else _) (if hp_upgrade ?q' then _ else _) =>
    assert (alike q q') as Hq by (case_match; eauto with sim); revert Hq; generalize q as p1; generalize q' as p2
  end. intros p2 p1 Hp.
  assert (lifted no_prefix (set_x_parser p1 (set_x_nread 0 x)) (set_x_parser p2 (set_x_nread 0 x'))) as Hl1 by eauto with sim.
  rewrite (a_upgrade _ _ Hp), !(alike_flag Hp), (a_content_length _ _ Hp), (a_type _ _ Hp), (alike_keep_alive Hp).
  destruct (hp_upgrade p2); [by apply message_complete_sim|]. sims.
Qed.

Lemma header_field_start_sim ch x x' :
  lifted no_prefix x x' -> sim no_prefix (header_field_start ch x) (header_field_start ch x').
Proof.
  intros Hl. unfold header_field_start. cbv zeta. destruct (eqc ch CR); [eauto with sim|].
  destruct (eqc ch LF); [apply headers_almost_done_sim; eauto with sim|]. sims.
Qed.

Lemma chunked_sim pre x x' k k' : lifted pre x x' -> sim pre k k' -> sim pre (chunked x k) (chunked x' k').
Proof. intros Hl Hk. unfold chunked. same Hl. sims. Qed.

Lemma lifted_content pre f x x' : lifted pre x x' -> lifted pre (content f x) (content f x').
Proof. intros Hl. unfold content. same Hl. eauto with sim. Qed.

#[local] Hint Resolve lifted_content : sim.

Lemma sim_skip pre x x' n : lifted pre x x' -> sim pre (inr ([], Next x n)) (inr ([], Next x' n)).
Proof. intros Hl. split; [done|]. by exists pre. Qed.

#[local] Hint Resolve sim_skip : sim.

Lemma body_identity_sim data x x' :
  lifted no_prefix x x' -> sim no_prefix (body_identity data x) (body_identity data x').
Proof.
  intros Hl. unfold body_identity. cbv zeta. same Hl.
  set (to_read := Z.min _ _). pose proof (lifted_content _ (fun n => n - to_read) _ _ Hl) as Hc. same Hc.
  destruct (0 <? to_read); [|eauto with sim]. apply body_piece_sim. destruct (_ =? 0); [|eauto with sim].
  apply message_complete_sim; [apply Hc|]. eauto with sim.
Qed.

Lemma chunk_data_sim data pre x x' : lifted pre x x' -> sim pre (chunk_data data x) (chunk_data data x').
Proof.
  intros Hl. unfold chunk_data. apply chunked_sim; [done|]. cbv zeta. same Hl.
  set (to_read := Z.min _ _). destruct (to_read =? _), (0 <? to_read); try apply body_piece_sim; eauto 10 with sim.
Qed.

Lemma step_sim ch data pre x x' :
  good x' -> lifted pre x x' -> sim pre (step ch data x) (step ch data x').
Proof.
  intros Hg Hl. pose proof (closed_prefix _ _ _ (l_field _ _ _ Hl)) as Pf. rewrite (k_field _ Hg) in Pf.
  pose proof (closed_prefix _ _ _ (l_value _ _ _ Hl)) as Pv. rewrite (k_value _ Hg) in Pv.
  pose proof (closed_prefix _ _ _ (l_query _ _ _ Hl)) as Pq. rewrite (k_query _ Hg) in Pq.
  pose proof (closed_prefix _ _ _ (l_url _ _ _ Hl)) as Pu. rewrite (k_url _ Hg) in Pu.
  assert (in_field (x_state x') || in_value (x_state x') || in_query (x_state x') || in_url (x_state x') = false ->
          pre = no_prefix) as Pn.
  { intros [[[??]%orb_false_iff ?]%orb_false_iff ?]%orb_false_iff. destruct pre; cbn in *. unfold no_prefix. f_equal; auto. }
  unfold step. rewrite (l_state _ _ _ Hl). destruct (x_state x') eqn:Es; cbn in Pf, Pv, Pq, Pu, Pn;
    unfold start_req_or_res, start_req, res_or_resp_H, start_res, expect, first_digit,
      res_status_code, req_spaces_before_url, req_schema, req_host, req_port,
      req_path, req_query_string_start, req_query_string, req_fragment_start, req_fragment, url_end,
      chunk_size_start, chunk_size, chunk_parameters, chunk_size_almost_done, body_identity_eof, body_piece; cbv zeta;
    try (lazymatch goal with |- sim _ (chunked _ _) _ => apply chunked_sim; [done|] end); same Hl;
    sims; try (apply more_digits_sim; by eauto with sim || by intros ?? []).
  - by apply req_method_sim.
  - rewrite Pn in * by done. by apply header_field_start_sim.
  - by apply header_field_sim; auto.
  - by apply header_value_start_sim; auto.
  - by apply header_value_sim; auto.
  - rewrite Pn in * by done. by apply headers_almost_done_sim.
  - by apply chunk_data_sim.
  - rewrite Pn in * by done. by apply body_identity_sim.
  - apply body_piece_sim. eauto with sim.
Qed.

Lemma execute_turn_sim ch data pre x x' :
  good x' -> lifted pre x x' -> sim pre (execute_turn ch data x) (execute_turn ch data x').
Proof.
  intros Hg Hl. unfold execute_turn, parsing_header. cbv zeta. cbn [x_nread set_x_nread]. same Hl.
  destruct (_ && _); [|by apply step_sim]. destruct (Z.ltb_spec HTTP_MAX_HEADER_SIZE (x_nread x' + 1)); [eauto with sim|].
  apply step_sim; [|eauto with sim]. destruct Hg. split; cbn; try done. lia.
Qed.

(** Results that come to the same: as many bytes parsed and the same messages completed;
    and if all [len] bytes were parsed, the same parser and the same texts. *)
Definition same_result (pre : prefix) (off off' len : Z) (r r' : parser_result) : Prop :=
  match r, r' with
  | inl f, inl f' => f = f'
  | inr (l, p, n), inr (l', p', n') =>
      n - off = n' - off' /\ off <= n <= off + len /\ alike p p' /\
      (forall v, v_done (seen l v) = v_done (seen l' (ahead pre v))) /\
      (n = off + len -> p = p' /\ good_parser p' /\ forall v, seen l v = seen l' (ahead pre v))
  | _, _ => False
  end.

Lemma same_preceded pre pre' off off' len l l' r r' :
  (forall v, ahead pre' (seen l v) = seen l' (ahead pre v)) ->
  same_result pre' off off' len r r' -> same_result pre off off' len (preceded l r) (preceded l' r').
Proof.
  intros Hv. destruct r as [f|[[a p] n]], r' as [f'|[[a' p'] n']]; cbn; try done.
  intros (Hn & Hr & Ha & Hd & He). do 3 (split; [done|]). split.
  - intros v. by rewrite !seen_app, Hd, Hv.
  - intros E. destruct (He E) as (-> & Hg & Hs). split; [done|]. split; [done|]. intros v. by rewrite !seen_app, Hs, Hv.
Qed.

Lemma same_shift pre off off' len r r' :
  same_result pre (off + 1) (off' + 1) len r r' -> same_result pre off off' (len + 1) r r'.
Proof.
  destruct r as [f|[[a p] n]], r' as [f'|[[a' p'] n']]; cbn; try done.
  intros (Hn & Hr & Ha & Hd & He). split; [lia|]. split; [lia|]. split; [done|]. split; [done|].
  intros E. apply He. lia.
Qed.

Lemma stored_alike pre x x' : lifted pre x x' -> stored x = stored x'.
Proof.
  intros [Ha Hs Hh Hi Hn _ _ _ _]. unfold stored. rewrite Hs, Hh, Hi, Hn.
  destruct (x_parser x), (x_parser x'), Ha; cbn in *. by subst.
Qed.

Lemma stored_counters x : good x -> u32 (x_nread x) = x_nread x /\ wrap_u 8 (x_index x) = x_index x.
Proof.
  intros Hg. pose proof (k_nread _ Hg) as Hn. unfold HTTP_MAX_HEADER_SIZE in Hn.
  pose proof (index_ok_range _ _ _ (k_index _ Hg)). by rewrite !wrap_u_small by lia.
Qed.

Lemma stored_good x : good x -> good_parser (stored x).
Proof.
  intros Hg. destruct (stored_counters x Hg) as [En Ei]. destruct Hg. unfold stored. rewrite En, Ei. by split.
Qed.

Lemma open_pieces_same pre off off' x x' v :
  good x' -> lifted pre x x' -> seen (open_pieces off x) v = seen (open_pieces off' x') (ahead pre v).
Proof.
  intros Hg [_ _ _ _ _ Hf Hv Hq Hu]. unfold open_pieces.
  assert (opened (x_field x') = false \/ opened (x_value x') = false) as Hfv.
  { rewrite (k_field _ Hg), (k_value _ Hg). destruct (x_state x'); auto. }
  revert Hfv. destruct pre as [f vl q u], v as [[] ?]; cbn [pf_field pf_value pf_query pf_url] in *.
  apply joined_cases in Hf as [(-> & -> & ->)|(? & -> & ->)], Hv as [(-> & -> & ->)|(? & -> & ->)],
    Hq as [(-> & -> & ->)|(? & -> & ->)], Hu as [(-> & -> & ->)|(? & -> & ->)];
    intros Hfv; try (destruct Hfv; discriminate); cbn [from_option app seen fold_left pe_callback pe_parser]; see_pieces.
Qed.

Lemma finish_same pre off off' x x' :
  good x' -> lifted pre x x' -> same_result pre off off' 0 (finish off x) (finish off' x').
Proof.
  intros Hg Hl. cbn [finish same_result]. rewrite (stored_alike _ _ _ Hl). split; [lia|]. split; [lia|]. split; [done|].
  split; [intros v; by rewrite (open_pieces_same _ _ off' _ _ _ Hg Hl)|]. intros _. split; [done|].
  split; [by apply stored_good|]. intros v. by apply open_pieces_same.
Qed.

Lemma loop_same data skip off off' pre x x' :
  good x' -> lifted pre x x' ->
  same_result pre off off' (Z.of_nat (length data)) (execute_loop skip data off x) (execute_loop skip data off' x').
Proof.
  revert skip off off' pre x x'. induction data as [|ch rest IH]; intros skip off off' pre x x' Hg Hl; [by apply finish_same|].
  cbn [execute_loop length]. rewrite Nat2Z.inj_succ, <-Z.add_1_r. destruct skip as [|skip]; [|by apply same_shift, IH].
  pose proof (execute_turn_sim ch (ch :: rest) pre x x' Hg Hl) as Hs.
  pose proof (execute_turn_good ch (ch :: rest) x' Hg) as Ht.
  destruct (execute_turn ch (ch :: rest) x) as [f|[l [y n|p]]], (execute_turn ch (ch :: rest) x') as [f'|[l' [y' n'|p']]];
    cbn in Hs, Ht; try done.
  - destruct Hs as (-> & pre' & Hl' & Hv). eapply same_preceded; [intros v; rewrite !seen_offsets; apply Hv|].
    apply same_shift, IH; [by apply push_good|by apply lifted_push].
  - destruct Hs as (Ha & Hv). cbn. split; [lia|]. split; [lia|]. split; [done|].
    split; [intros v; rewrite !seen_offsets; apply Hv|lia].
Qed.

End Pieces.
