(* ===== verification/Feed.v ===== *)
(** * The parser fed with pieces

    Running the parser over a buffer, or over its first byte and then over the rest, comes
    to the same; so any two ways to cut an input do. *)
From S2P Require Import Prelude Types Http World Pool Cmd Client Parser Pieces.

Local Open Scope Z_scope.

Module Feed.
Import World Client Parser Pieces.

(** ** One byte first *)

(** The results of a call and of the next one, in one; the second is made only when the
    first has parsed all its bytes. *)
Definition joinr (l : list parser_event) (n : Z) (r : parser_result) : parser_result :=
  match r with
  | inl f => inl f
  | inr (l', q, n') => inr (l ++ l', q, n + n')
  end.

Definition then_execute (p : http_parser) (d1 d2 : bytes) : parser_result :=
  match execute p d1 with
  | inl f => inl f
  | inr (l, q, n) => if n =? Z.of_nat (length d1) then joinr l n (execute q d2) else inr (l, q, n)
  end.

Lemma same_join pre len a a' r r' :
  (forall v, ahead pre (seen a v) = seen a' v) -> same_result pre 1 0 len r r' ->
  same_result no_prefix 0 0 (len + 1) (preceded a r) (joinr a' 1 r').
Proof.
  intros Hv. destruct r as [f|[[l p] n]], r' as [f'|[[l' p'] n']]; cbn; try done.
  intros (Hn & Hr & Ha & Hd & He). split; [lia|]. split; [lia|]. split; [done|]. split.
  - intros v. by rewrite !seen_app, Hd, Hv, ahead_none.
  - intros E. destruct He as (-> & Hg & Hs); [lia|]. split; [done|]. split; [done|].
    intros v. by rewrite !seen_app, Hs, Hv, ahead_none.
Qed.

Lemma joinr_preceded a k l r : joinr a k (preceded l r) = joinr (a ++ l) k r.
Proof. destruct r as [f|[[l' p] n]]; cbn; [done|]. by rewrite app_assoc. Qed.

(** The texts that are open when a call ends. *)
Definition marks (x : exec) : prefix := mk_prefix (x_field x) (x_value x) (x_query x) (x_url x).

Lemma open_pieces_marks off x v : seen (open_pieces off x) v = ahead (marks x) v.
Proof. unfold open_pieces, marks. destruct v as [[] ?], (x_field x), (x_value x), (x_query x), (x_url x); done. Qed.

Lemma joined_marks m b : opened m = b -> joined m m (if b then Some [] else None).
Proof. intros <-. destruct m; cbn; [|done]. exists []. by rewrite app_nil_r. Qed.

Lemma enter_stored x : good x -> lifted (marks x) x (enter (stored x)) /\ good (enter (stored x)).
Proof.
  intros Hg. split; [|by apply enter_good, stored_good]. destruct (stored_counters x Hg) as [En Ei].
  destruct Hg as [Kf Kv Kq Ku _ _ _]. split; try done.
  - apply (joined_marks _ _) in Kf. cbn. by destruct (x_state x).
  - apply (joined_marks _ _) in Kv. cbn. by destruct (x_state x).
  - apply (joined_marks _ _) in Kq. cbn. by destruct (x_state x).
  - by apply (joined_marks _ _) in Ku.
Qed.

Lemma alike_refl p : alike p p.
Proof. by split. Qed.

Definition reads_data (s : parser_state) : bool :=
  match s with s_body_identity | s_body_identity_eof | s_chunk_data => true | _ => false end.

(** Every other state looks at one byte. *)
Lemma execute_turn_one ch data data' x :
  reads_data (x_state x) = false -> execute_turn ch data x = execute_turn ch data' x.
Proof.
  intros Hs. unfold execute_turn. assert (forall y, x_state y = x_state x -> step ch data y = step ch data' y) as H.
  { intros y Ey. unfold step. rewrite Ey. by destruct (x_state x). }
  by rewrite !H by done.
Qed.

(** A turn that consumes one byte. *)
Definition one (t : turn) : Prop := match t with inr (_, Next _ n) => n = 1%nat | _ => True end.

Lemma one_calling c k : one k -> one (calling c k).
Proof. by destruct k as [|[l o]]. Qed.

Lemma one_CALLBACK m cb x k : one k -> one (CALLBACK m cb x k).
Proof. destruct m; [apply one_calling|done]. Qed.

Ltac ones :=
  repeat match goal with
    | |- one (CALLBACK _ _ _ _) => apply one_CALLBACK
    | |- one (calling _ _) => apply one_calling
    | |- one (if ?b then _ else _) => destruct b
    | |- one (match ?o with _ => _ end) => destruct o
    end; try done.

Lemma one_header_almost_done ch x : one (header_almost_done ch x).
Proof. unfold header_almost_done. cbv zeta. ones. Qed.

Lemma one_complete x : one (complete x).
Proof. apply one_calling. done. Qed.

Lemma one_headers_almost_done ch x : one (headers_almost_done ch x).
Proof. unfold headers_almost_done, message_complete. cbv zeta. ones; apply one_complete. Qed.

Lemma step_one ch data x : reads_data (x_state x) = false -> one (step ch data x).
Proof.
  intros Hs. unfold step. destruct (x_state x); try discriminate Hs;
    unfold start_req_or_res, start_req, res_or_resp_H, start_res, expect, first_digit, start_req_method_assign,
      res_status_code, more_digits, req_method, req_spaces_before_url, req_schema, req_host, req_port,
      req_path, req_query_string_start, req_query_string, req_fragment_start, req_fragment, url_end,
      chunk_size_start, chunk_size, chunk_parameters, chunk_size_almost_done, chunked, header_field_start, header_field,
      header_value_start, header_value, value_char, CALLBACK_url, CALLBACK_query_string, CALLBACK_header_field,
      CALLBACK_header_value; cbv zeta; ones;
    first [apply one_header_almost_done | apply one_headers_almost_done].
Qed.

Lemma execute_turn_next ch data x : reads_data (x_state x) = false -> one (execute_turn ch data x).
Proof. intros Hs. unfold execute_turn. cbv zeta. ones; by apply step_one. Qed.

Lemma execute_one p ch :
  execute p [ch] =
  match execute_turn ch [ch] (enter p) with
  | inl f => inl f
  | inr (l, Stop q) => inr (map (at_offset 0) l, q, 0)
  | inr (l, Next y n) => inr (map (at_offset 0) l ++ open_pieces 1 (push ch y), stored (push ch y), 1)
  end.
Proof. cbn [execute execute_loop]. by destruct (execute_turn ch [ch] (enter p)) as [f|[l [y n|q]]]. Qed.

Lemma execute_cons p ch rest : execute p (ch :: rest) = execute_loop 0 (ch :: rest) 0 (enter p).
Proof. done. Qed.

(** The call for the first byte ends behind a turn, and the next one goes on from what
    it stored. *)
Lemma peel_next l y rest :
  good y -> rest <> [] ->
  same_result no_prefix 0 0 (Z.of_nat (length rest) + 1) (preceded l (execute_loop 0 rest 1 y))
    (joinr (l ++ open_pieces 1 y) 1 (execute (stored y) rest)).
Proof.
  intros Hy Hr. destruct rest as [|c rest]; [done|]. rewrite execute_cons.
  destruct (enter_stored y Hy) as [Hl Hg]. apply (same_join (marks y)); [|by apply loop_same].
  intros v. by rewrite seen_app, open_pieces_marks.
Qed.

(** A first turn that is the same with and without the bytes behind it. *)
Lemma peel_same p ch rest :
  good_parser p -> rest <> [] ->
  execute_turn ch (ch :: rest) (enter p) = execute_turn ch [ch] (enter p) -> one (execute_turn ch [ch] (enter p)) ->
  same_result no_prefix 0 0 (Z.of_nat (length (ch :: rest))) (execute p (ch :: rest)) (then_execute p [ch] rest).
Proof.
  intros Hp Hr E Hn. unfold then_execute. rewrite execute_one, execute_cons. cbn [execute_loop]. rewrite E.
  pose proof (execute_turn_good ch [ch] (enter p) (enter_good p Hp)) as Hg.
  destruct (execute_turn ch [ch] (enter p)) as [f|[l1 [y1 n|q]]]; [done| |].
  - cbn in Hn, Hg. subst n. cbn [length]. rewrite Nat2Z.inj_succ, <-Z.add_1_r. apply peel_next; [by apply push_good|done].
  - cbn. split; [lia|]. split; [lia|]. split; [apply alike_refl|]. split; [intros v; by rewrite ahead_none|]. lia.
Qed.

(** *** Bodies *)

Lemma body_turn ch data x :
  x_state x = s_body_identity -> execute_turn ch data x = body_identity data x.
Proof. intros Es. unfold execute_turn, parsing_header, step. by rewrite Es. Qed.

(** What a turn in a body does with [m] bytes. *)
Definition body_after (m : Z) (x : exec) : exec :=
  let x' := content (fun n => n - m) x in
  if hp_content_length (x_parser x') =? 0 then set_x_state (NEW_MESSAGE (x_parser x')) x' else x'.

Definition body_calls (m : Z) (data : bytes) (x : exec) : list call :=
  (OnBody (take (Z.to_nat m) data), x_parser x, m - 1) ::
  (if hp_content_length (x_parser x) - m =? 0
   then [(OnMessageComplete, x_parser (content (fun n => n - m) x), m - 1)] else []).

Lemma body_turn_reads ch data x :
  x_state x = s_body_identity -> 1 <= Z.min (Z.of_nat (length data)) (hp_content_length (x_parser x)) ->
  let m := Z.min (Z.of_nat (length data)) (hp_content_length (x_parser x)) in
  execute_turn ch data x = inr (body_calls m data x, Next (body_after m x) (Z.to_nat m)).
Proof.
  intros Es Hm m. rewrite body_turn by done. unfold body_identity, body_calls, body_after, body_piece. cbv zeta. fold m.
  rewrite (proj2 (Z.ltb_lt 0 m)) by (subst m; lia). cbn [x_parser content set_x_parser hp_content_length set_hp_content_length].
  by destruct (_ - m =? 0).
Qed.

(** A byte of a body moves no mark. *)
Lemma push_closed ch x : marks x = no_prefix -> push ch x = x.
Proof. destruct x. unfold marks, push. cbn. by intros [= -> -> -> ->]. Qed.

Lemma body_after_marks m x : marks (body_after m x) = marks x.
Proof. unfold body_after. cbv zeta. by destruct (_ =? 0). Qed.

Lemma content_twice m x : content (fun n => n - (m - 1)) (content (fun n => n - 1) x) = content (fun n => n - m) x.
Proof. unfold content. destruct x as [[] ? ? ? ? ? ? ? ?]. cbn.
  match goal with |- context [?a - 1 - (m - 1)] => by replace (a - 1 - (m - 1)) with (a - m) by lia end.
Qed.

Lemma body_after_lifted m x y :
  lifted no_prefix (content (fun n => n - 1) x) y -> lifted no_prefix (body_after m x) (body_after (m - 1) y).
Proof.
  intros Hl. apply (lifted_content _ (fun n => n - (m - 1))) in Hl. rewrite content_twice in Hl.
  unfold body_after. cbv zeta. same Hl. destruct (_ =? 0); [by apply lifted_state|done].
Qed.

Lemma see_body s t p p' v : see (OnBody t) p' (see (OnBody s) p v) = see (OnBody (s ++ t)) p' v.
Proof. destruct v as [[] ?]. unfold see. cbn. by rewrite app_assoc. Qed.

Lemma seen_body_calls m ch data x p y v :
  2 <= m -> hp_content_length (x_parser y) = hp_content_length (x_parser x) - 1 -> alike (x_parser (content (fun n => n - m) x)) (x_parser (content (fun n => n - (m - 1)) y)) ->
  seen_calls (body_calls m (ch :: data) x) v = seen_calls (body_calls (m - 1) data y) (see (OnBody [ch]) p v).
Proof.
  intros Hm Hc Ha. unfold body_calls. rewrite Hc. replace (hp_content_length (x_parser x) - 1 - (m - 1)) with (hp_content_length (x_parser x) - m) by lia.
  replace (Z.to_nat m) with (S (Z.to_nat (m - 1))) by lia. cbn [take]. cbn [seen_calls fold_left fst snd].
  rewrite see_body. cbn [app]. destruct (_ =? 0); [|done]. cbn [fold_left fst snd].
  unfold see at 1 3. by rewrite (alike_visible Ha).
Qed.

(** A turn that reads [m] bytes of the data against one that reads the first, and the
    next call that reads the others. *)
Lemma peel_reads p ch c rest m y calls calls' after after' :
  let x2 := enter (stored y) in
  good_parser p -> 2 <= m -> marks y = no_prefix ->
  execute_turn ch [ch] (enter p) = inr ([(OnBody [ch], p, 0)], Next y 1) ->
  execute_turn ch (ch :: c :: rest) (enter p) = inr (calls, Next after (Z.to_nat m)) ->
  execute_turn c (c :: rest) x2 = inr (calls', Next after' (Z.to_nat (m - 1))) ->
  (forall v, seen_calls calls v = seen_calls calls' (see (OnBody [ch]) p v)) ->
  marks after = no_prefix -> marks after' = no_prefix -> lifted no_prefix after after' ->
  same_result no_prefix 0 0 (Z.of_nat (length (ch :: c :: rest))) (execute p (ch :: c :: rest))
    (then_execute p [ch] (c :: rest)).
Proof.
  intros x2 Hp Hm Hmy E1 E2 E3 Hv Ma Ma' Hl. pose proof (enter_good p Hp) as Hg.
  pose proof (execute_turn_good ch [ch] _ Hg) as Hgy. rewrite E1 in Hgy. cbn in Hgy.
  destruct (enter_stored _ Hgy) as [Hl2 Hg2]. fold x2 in Hl2, Hg2.
  pose proof (execute_turn_good c (c :: rest) x2 Hg2) as Hg3. rewrite E3 in Hg3. cbn in Hg3.
  unfold then_execute. rewrite execute_one, E1, (push_closed ch y Hmy). cbn [length Z.of_nat Pos.of_succ_nat Z.eqb].
  rewrite !execute_cons. fold x2. cbn [execute_loop]. rewrite E2, E3, !push_closed by done.
  replace (Z.to_nat m - 1)%nat with (S (Z.to_nat (m - 1) - 1)) by lia.
  rewrite joinr_preceded. cbn [length]. rewrite !Nat2Z.inj_succ, <-!Z.add_1_r. apply (same_join no_prefix).
  - intros v. by rewrite ahead_none, !seen_app, !seen_offsets, open_pieces_marks, Hmy, ahead_none.
  - by apply same_shift, loop_same.
Qed.

(** The texts of a parser in a body are closed. *)
Lemma body_marks p : reads_data (hp_state p) = true -> marks (enter p) = no_prefix.
Proof. intros H. unfold marks, enter. by destruct (hp_state p). Qed.

Lemma stored_lifted y : good y -> marks y = no_prefix -> lifted no_prefix y (enter (stored y)).
Proof. intros Hy Hm. rewrite <-Hm. by apply enter_stored. Qed.

Lemma peel_body p ch rest :
  good_parser p -> rest <> [] -> hp_state p = s_body_identity ->
  same_result no_prefix 0 0 (Z.of_nat (length (ch :: rest))) (execute p (ch :: rest)) (then_execute p [ch] rest).
Proof.
  intros Hp Hr Es.
  destruct (Z.le_gt_cases (hp_content_length p) 1) as [Hc|Hc].
  - assert (forall data, execute_turn ch (ch :: data) (enter p) = execute_turn ch [ch] (enter p)) as E.
    { intros data. rewrite !body_turn by done. unfold body_identity. cbv zeta. cbn [x_parser enter].
      assert (Z.min (Z.of_nat (length (ch :: data))) (hp_content_length p) =
              Z.min (Z.of_nat (length [ch])) (hp_content_length p)) as -> by (cbn [length]; lia).
      destruct (Z.ltb_spec 0 (Z.min (Z.of_nat (length [ch])) (hp_content_length p))); [|done].
      cbn [length] in *. replace (Z.min (Z.of_nat 1) (hp_content_length p)) with 1 by lia. done. }
    apply peel_same; [done..| |]; [apply E|]. rewrite body_turn by done. unfold body_identity. cbv zeta. cbn [x_parser enter].
    destruct (Z.ltb_spec 0 (Z.min (Z.of_nat (length [ch])) (hp_content_length p))); [|done].
    cbn [length] in *. replace (Z.min (Z.of_nat 1) (hp_content_length p)) with 1 by lia.
    apply one_calling. destruct (_ =? 0); [by apply one_calling|done].
  - destruct rest as [|c rest]; [done|]. set (x := enter p). set (y := content (fun n => n - 1) x).
    assert (marks x = no_prefix) as Mx by (apply body_marks; by rewrite Es).
    assert (execute_turn ch [ch] x = inr ([(OnBody [ch], p, 0)], Next y 1)) as E1.
    { rewrite body_turn by done. unfold body_identity. cbv zeta. change (x_parser x) with p.
      replace (Z.min (Z.of_nat (length [ch])) (hp_content_length p)) with 1 by (cbn [length]; lia).
      change (0 <? 1) with true. cbv iota. fold y. change (hp_content_length (x_parser y)) with (hp_content_length p - 1).
      by rewrite (proj2 (Z.eqb_neq (hp_content_length p - 1) 0)) by lia. }
    assert (good y) as Hy.
    { pose proof (execute_turn_good ch [ch] x (enter_good p Hp)) as Ht. by rewrite E1 in Ht. }
    pose proof (stored_lifted y Hy Mx) as Hl. set (x2 := enter (stored y)) in *.
    set (m := Z.min (Z.of_nat (length (ch :: c :: rest))) (hp_content_length p)).
    assert (Z.min (Z.of_nat (length (c :: rest))) (hp_content_length (x_parser x2)) = m - 1) as Hm2.
    { change (hp_content_length (x_parser x2)) with (hp_content_length p - 1). subst m. cbn [length]. lia. }
    assert (2 <= m) as Hm by (subst m; cbn [length]; lia).
    apply (peel_reads p ch c rest m y (body_calls m (ch :: c :: rest) x) (body_calls (m - 1) (c :: rest) x2)
             (body_after m x) (body_after (m - 1) x2)); try done.
    + by apply (body_turn_reads ch (ch :: c :: rest) x); [|change (x_parser x) with p; fold m; lia].
    + rewrite <-Hm2. apply (body_turn_reads c (c :: rest) x2); [done|lia].
    + intros v. apply seen_body_calls; [lia|done|]. by split; cbn; try lia.
    + by rewrite body_after_marks.
    + rewrite body_after_marks. apply body_marks. change (hp_state (stored y)) with (hp_state p). by rewrite Es.
    + by apply body_after_lifted.
Qed.

Lemma seen_body_piece m ch data p q r d d' v :
  2 <= m ->
  seen_calls [(OnBody (take (Z.to_nat m) (ch :: data)), p, d)] v =
  seen_calls [(OnBody (take (Z.to_nat (m - 1)) data), q, d')] (see (OnBody [ch]) r v).
Proof.
  intros Hm. replace (Z.to_nat m) with (S (Z.to_nat (m - 1))) by lia. cbn [take].
  cbn [seen_calls fold_left fst snd]. by rewrite see_body.
Qed.

Definition chunk_after (m : Z) (x : exec) : exec :=
  content (fun n => n - m)
    (if m =? hp_content_length (x_parser x) then set_x_state s_chunk_data_almost_done x else x).

Lemma chunk_turn ch data x :
  x_state x = s_chunk_data -> flag (x_parser x) F_CHUNKED = true ->
  let m := Z.min (Z.of_nat (length data)) (hp_content_length (x_parser x)) in
  execute_turn ch data x =
  inr (if 0 <? m then [(OnBody (take (Z.to_nat m) data), x_parser x, m - 1)] else [],
       Next (chunk_after m x) (if 0 <? m then Z.to_nat m else 1)).
Proof.
  intros Es Hf m. unfold execute_turn, parsing_header, step. rewrite Es. cbn [header_phase andb].
  unfold chunk_data, chunked. rewrite Hf. cbv zeta. fold m. unfold body_piece, next, chunk_after. by destruct (0 <? m).
Qed.

Lemma chunk_after_marks m x : marks (chunk_after m x) = marks x.
Proof. unfold chunk_after. by destruct (_ =? _). Qed.

Lemma chunk_after_lifted m x y :
  lifted no_prefix (content (fun n => n - 1) x) y -> lifted no_prefix (chunk_after m x) (chunk_after (m - 1) y).
Proof.
  intros Hl. unfold chunk_after. same Hl. cbn [x_parser content set_x_parser hp_content_length set_hp_content_length].
  replace (m - 1 =? hp_content_length (x_parser y)) with (m =? hp_content_length (x_parser x)).
  2: { rewrite <-(a_content_length _ _ H). cbn.
       destruct (Z.eqb_spec m (hp_content_length (x_parser x))), (Z.eqb_spec (m - 1) (hp_content_length (x_parser x) - 1)); lia || done. }
  destruct (_ =? _); [|apply (lifted_content _ (fun n => n - (m - 1))) in Hl; by rewrite content_twice in Hl].
  pose proof (lifted_state Hl s_chunk_data_almost_done) as Hs.
  apply (lifted_content _ (fun n => n - (m - 1))) in Hs. by rewrite <-content_twice.
Qed.

Lemma peel_chunk p ch rest :
  good_parser p -> rest <> [] -> hp_state p = s_chunk_data ->
  same_result no_prefix 0 0 (Z.of_nat (length (ch :: rest))) (execute p (ch :: rest)) (then_execute p [ch] rest).
Proof.
  intros Hp Hr Es. assert (flag p F_CHUNKED = true) as Hf by (apply (kp_chunked _ Hp); by rewrite Es).
  destruct (Z.le_gt_cases (hp_content_length p) 1) as [Hc|Hc].
  - assert (forall data, execute_turn ch (ch :: data) (enter p) = execute_turn ch [ch] (enter p) /\
                         one (execute_turn ch [ch] (enter p))) as E.
    { intros data. rewrite !chunk_turn by done. cbn [x_parser enter].
      assert (Z.min (Z.of_nat (length (ch :: data))) (hp_content_length p) =
              Z.min (Z.of_nat (length [ch])) (hp_content_length p)) as -> by (cbn [length]; lia).
      destruct (Z.ltb_spec 0 (Z.min (Z.of_nat (length [ch])) (hp_content_length p))); [|done].
      cbn [length] in *. replace (Z.min (Z.of_nat 1) (hp_content_length p)) with 1 by lia. done. }
    apply peel_same; [done..| |]; apply (E rest).
  - destruct rest as [|c rest]; [done|]. set (x := enter p). set (y := content (fun n => n - 1) x).
    assert (marks x = no_prefix) as Mx by (apply body_marks; by rewrite Es).
    assert (execute_turn ch [ch] x = inr ([(OnBody [ch], p, 0)], Next y 1)) as E1.
    { rewrite chunk_turn by done. cbv zeta. change (x_parser x) with p.
      replace (Z.min (Z.of_nat (length [ch])) (hp_content_length p)) with 1 by (cbn [length]; lia).
      unfold chunk_after. change (x_parser x) with p. by rewrite (proj2 (Z.eqb_neq 1 (hp_content_length p))) by lia. }
    assert (good y) as Hy.
    { pose proof (execute_turn_good ch [ch] x (enter_good p Hp)) as Ht. by rewrite E1 in Ht. }
    pose proof (stored_lifted y Hy Mx) as Hl. set (x2 := enter (stored y)) in *.
    set (m := Z.min (Z.of_nat (length (ch :: c :: rest))) (hp_content_length p)).
    assert (Z.min (Z.of_nat (length (c :: rest))) (hp_content_length (x_parser x2)) = m - 1) as Hm2.
    { change (hp_content_length (x_parser x2)) with (hp_content_length p - 1). subst m. cbn [length]. lia. }
    assert (2 <= m) as Hm by (subst m; cbn [length]; lia).
    eapply (peel_reads p ch c rest m y _ _ (chunk_after m x) (chunk_after (m - 1) x2)); try done.
    + fold x. rewrite (chunk_turn ch (ch :: c :: rest) x) by done. change (x_parser x) with p. fold m.
      by rewrite (proj2 (Z.ltb_lt 0 m)) by lia.
    + fold x2. rewrite (chunk_turn c (c :: rest) x2) by done. rewrite Hm2. by rewrite (proj2 (Z.ltb_lt 0 (m - 1))) by lia.
    + intros v. by apply seen_body_piece.
    + by rewrite chunk_after_marks.
    + rewrite chunk_after_marks. apply body_marks. change (hp_state (stored y)) with (hp_state p). by rewrite Es.
    + by apply chunk_after_lifted.
Qed.

Lemma eof_turn ch data x :
  x_state x = s_body_identity_eof ->
  execute_turn ch data x =
  inr ([(OnBody (take (length data) data), x_parser x, Z.of_nat (length data) - 1)], Next x (length data)).
Proof.
  intros Es. unfold execute_turn, parsing_header, step. rewrite Es. cbn [header_phase andb].
  unfold body_identity_eof, body_piece. by rewrite Nat2Z.id.
Qed.

Lemma peel_eof p ch rest :
  good_parser p -> rest <> [] -> hp_state p = s_body_identity_eof ->
  same_result no_prefix 0 0 (Z.of_nat (length (ch :: rest))) (execute p (ch :: rest)) (then_execute p [ch] rest).
Proof.
  intros Hp Hr Es. destruct rest as [|c rest]; [done|]. set (x := enter p). pose proof (enter_good p Hp) as Hg.
  assert (marks x = no_prefix) as Mx by (apply body_marks; by rewrite Es).
  eapply (peel_reads p ch c rest (Z.of_nat (length (ch :: c :: rest))) x _ _ x (enter (stored x))); try done.
  - cbn [length]. lia.
  - fold x. by rewrite (eof_turn ch [ch] x) by done.
  - rewrite Nat2Z.id. by apply eof_turn.
  - replace (Z.to_nat (Z.of_nat (length (ch :: c :: rest)) - 1)) with (length (c :: rest)) by (cbn [length]; lia).
    by apply eof_turn.
  - intros v. pose proof (seen_body_piece (Z.of_nat (length (ch :: c :: rest))) ch (c :: rest)) as Hs.
    rewrite Nat2Z.id in Hs.
    replace (Z.to_nat (Z.of_nat (length (ch :: c :: rest)) - 1)) with (length (c :: rest)) in Hs by (cbn [length]; lia).
    apply Hs. cbn [length]. lia.
  - by apply stored_lifted.
Qed.

(** Calling the parser with a buffer, or with its first byte and then with the rest. *)
Lemma peel p ch rest :
  good_parser p -> rest <> [] ->
  same_result no_prefix 0 0 (Z.of_nat (length (ch :: rest))) (execute p (ch :: rest)) (then_execute p [ch] rest).
Proof.
  intros Hp Hr. destruct (reads_data (hp_state p)) eqn:E.
  - destruct (hp_state p) eqn:Es; try discriminate E; [by apply peel_chunk|by apply peel_body|by apply peel_eof].
  - apply peel_same; [done|done|by apply execute_turn_one|by apply execute_turn_next].
Qed.

(** ** Any pieces *)

(** A call, and then [k] with the parser it leaves, unless it stopped before the end of
    its [len] bytes. *)
Definition bindr (len : Z) (r : parser_result) (k : http_parser -> parser_result) : parser_result :=
  match r with
  | inl f => inl f
  | inr (l, q, n) => if n =? len then joinr l n (k q) else inr (l, q, n)
  end.

(** The parser called with one piece after another. *)
Fixpoint feed (p : http_parser) (pieces : list bytes) : parser_result :=
  match pieces with
  | [] => inr ([], p, 0)
  | d :: rest => bindr (Z.of_nat (length d)) (execute p d) (fun q => feed q rest)
  end.

Definition equiv (len : Z) (r r' : parser_result) : Prop := same_result no_prefix 0 0 len r r'.

Lemma equiv_sym len r r' : equiv len r r' -> equiv len r' r.
Proof.
  destruct r as [f|[[l p] n]], r' as [f'|[[l' p'] n']]; cbn; try done.
  intros (Hn & Hr & Ha & Hd & He). split; [lia|]. split; [lia|].
  split; [destruct Ha; by split|]. split; [intros v; by rewrite ahead_none, Hd, ahead_none|].
  intros E. destruct He as (-> & Hg & Hs); [lia|]. split; [done|]. split; [done|].
  intros v. by rewrite ahead_none, Hs, ahead_none.
Qed.

Lemma equiv_trans len r1 r2 r3 : equiv len r1 r2 -> equiv len r2 r3 -> equiv len r1 r3.
Proof.
  destruct r1 as [f|[[l p] n]], r2 as [f2|[[l2 p2] n2]], r3 as [f3|[[l3 p3] n3]]; cbn; try done; [by intros -> ->|].
  intros (Hn & Hr & Ha & Hd & He) (Hn2 & Hr2 & Ha2 & Hd2 & He2). split; [lia|]. split; [lia|].
  split; [destruct Ha, Ha2; split; congruence|]. split; [intros v; by rewrite Hd, !ahead_none, Hd2, ahead_none|].
  intros E. destruct He as (-> & _ & Hs); [lia|]. destruct He2 as (-> & Hg & Hs2); [lia|]. split; [done|].
  split; [done|]. intros v. by rewrite Hs, !ahead_none, Hs2, ahead_none.
Qed.

Lemma lifted_refl x : lifted no_prefix x x.
Proof. by split. Qed.

Lemma execute_equiv p ch d : good_parser p -> equiv (Z.of_nat (length (ch :: d))) (execute p (ch :: d)) (execute p (ch :: d)).
Proof. intros Hp. rewrite execute_cons. apply loop_same; [by apply enter_good|apply lifted_refl]. Qed.

Lemma bindr_equiv len len' r r' k k' :
  0 <= len' -> equiv len r r' -> (forall q, good_parser q -> equiv len' (k q) (k' q)) ->
  equiv (len + len') (bindr len r k) (bindr len r' k').
Proof.
  intros Hl. destruct r as [f|[[l p] n]], r' as [f'|[[l' p'] n']]; cbn; try done.
  intros (Hn & Hr & Ha & Hd & He) Hk. assert (n' = n) as -> by lia. destruct (Z.eqb_spec n len) as [->|Hne].
  - destruct He as (-> & Hg & Hs); [lia|]. specialize (Hk p' Hg).
    destruct (k p') as [f|[[a q] m]], (k' p') as [f'|[[a' q'] m']]; cbn in *; try done.
    destruct Hk as (Hn' & Hr' & Ha' & Hd' & He'). split; [lia|]. split; [lia|]. split; [done|].
    split; [intros v; by rewrite !seen_app, Hd', Hs, !ahead_none|].
    intros E. destruct He' as (-> & Hg' & Hs'); [lia|]. split; [done|]. split; [done|].
    intros v. by rewrite !seen_app, Hs', Hs, !ahead_none.
  - cbn. split; [lia|]. split; [lia|]. split; [done|]. split; [done|]. lia.
Qed.

Definition bytewise (d : bytes) : list bytes := map (fun c => [c]) d.

(** One call is as good as one call per byte. *)
Lemma execute_bytewise p d : good_parser p -> d <> [] -> equiv (Z.of_nat (length d)) (execute p d) (feed p (bytewise d)).
Proof.
  revert p. induction d as [|ch d IH]; intros p Hp Hd; [done|]. cbn [bytewise map feed]. fold (bytewise d).
  destruct d as [|c d].
  - pose proof (execute_equiv p ch [] Hp) as H. cbn [bytewise map feed].
    destruct (execute p [ch]) as [f|[[l q] n]]; [done|]. cbn [bindr]. destruct (n =? _); [|exact H].
    cbn [joinr]. rewrite app_nil_r, Z.add_0_r. exact H.
  - eapply equiv_trans; [by apply peel|]. cbn [length]. rewrite (Nat2Z.inj_succ (S (length d))), <-Z.add_1_l.
    apply bindr_equiv; [lia|by apply execute_equiv|]. intros q Hq. by apply IH.
Qed.

Lemma feed_bytewise_app p d pieces :
  feed p (bytewise d ++ pieces) = bindr (Z.of_nat (length d)) (feed p (bytewise d)) (fun q => feed q pieces).
Proof.
  revert p. induction d as [|ch d IH]; intros p; cbn [bytewise map app feed].
  - cbn. by destruct (feed p pieces) as [f|[[l q] n]].
  - fold (bytewise d). rewrite execute_one. destruct (execute_turn ch [ch] (enter p)) as [f|[l [y n|q]]]; [done| |done].
    cbn [bindr]. change (1 =? Z.of_nat (length [ch])) with true. cbv iota. rewrite IH.
    destruct (feed (stored (push ch y)) (bytewise d)) as [f|[[l' q] n']]; [done|]. cbn [bindr joinr length].
    rewrite Nat2Z.inj_succ, <-Z.add_1_l. destruct (Z.eqb_spec n' (Z.of_nat (length d))) as [->|Hne].
    + rewrite Z.eqb_refl. destruct (feed q pieces) as [f|[[a r] m]]; cbn; [done|]. by rewrite !app_assoc, Z.add_assoc.
    + by rewrite (proj2 (Z.eqb_neq _ _)) by lia.
Qed.

Lemma feed_pieces p pieces :
  good_parser p -> Forall (fun d => d <> []) pieces ->
  equiv (Z.of_nat (length (concat pieces))) (feed p pieces) (feed p (bytewise (concat pieces))).
Proof.
  intros Hp Hne. revert p Hp. induction Hne as [|d pieces Hd _ IH]; intros p Hp.
  - cbn. split; [lia|]. split; [lia|]. split; [apply alike_refl|]. split; [done|]. intros _. split; [done|].
    split; [done|]. intros v. by rewrite ahead_none.
  - cbn [concat feed]. unfold bytewise. rewrite map_app, length_app, Nat2Z.inj_add. fold (bytewise d) (bytewise (concat pieces)).
    rewrite feed_bytewise_app. apply bindr_equiv; [lia|by apply execute_bytewise|done].
Qed.

Lemma init_good : good_parser (http_parser_init HTTP_REQUEST).
Proof. split; cbn; unfold HTTP_MAX_HEADER_SIZE; done || lia. Qed.

(** C14: how the bytes of a connection are cut into reads does not matter to the HTTP
    parser. For two ways to cut the same input, it parses as many bytes, completes the same
    messages (the same URL, header names and values and body, with the same method,
    version and flags), and, when it parses them all, is left in the same state with the
    same texts of the message under way. *)
Theorem parser_pieces (pieces pieces' : list bytes) :
  Forall (fun d => d <> []) pieces -> Forall (fun d => d <> []) pieces' -> concat pieces = concat pieces' ->
  match feed (http_parser_init HTTP_REQUEST) pieces, feed (http_parser_init HTTP_REQUEST) pieces' with
  | inl f, inl f' => f = f'
  | inr (l, q, n), inr (l', q', n') =>
      n = n' /\ v_done (seen l no_view) = v_done (seen l' no_view) /\
      (n = Z.of_nat (length (concat pieces)) -> q = q' /\ seen l no_view = seen l' no_view)
  | _, _ => False
  end.
Proof.
  intros H1 H2 E. pose proof (feed_pieces _ _ init_good H1) as E1. pose proof (feed_pieces _ _ init_good H2) as E2.
  rewrite <-E in E2. pose proof (equiv_trans _ _ _ _ E1 (equiv_sym _ _ _ E2)) as He.
  destruct (feed _ pieces) as [f|[[l q] n]], (feed _ pieces') as [f'|[[l' q'] n']]; try done.
  destruct He as (Hn & Hr & _ & Hd & Hs). split; [lia|]. split; [by rewrite Hd, ahead_none|].
  intros En. destruct Hs as (-> & _ & Hs); [lia|]. split; [done|]. by rewrite Hs, ahead_none.
Qed.

Definition crlf : bytes := [CR; LF].

Definition sample_request : bytes :=
  lit "PUT /SET/k HTTP/1.1" ++ crlf ++ lit "Host: localhost" ++ crlf ++ lit "Content-Length: 5" ++ crlf ++ crlf ++ lit "hello".

Lemma parser_pieces_witness :
  let pieces := [take 7 sample_request; take 30 (drop 7 sample_request); drop 37 sample_request] in
  match feed (http_parser_init HTTP_REQUEST) pieces, feed (http_parser_init HTTP_REQUEST) [sample_request] with
  | inr (l, q, n), inr (l', q', n') => n = n' /\ v_done (seen l no_view) = v_done (seen l' no_view) /\ v_done (seen l no_view) <> []
  | _, _ => False
  end.
Proof.
  intros pieces. pose proof (parser_pieces pieces [sample_request]) as H.
  assert (Forall (fun d => d <> []) pieces) as H1 by (repeat constructor; by vm_compute).
  assert (Forall (fun d => d <> []) [sample_request]) as H2 by (repeat constructor; by vm_compute).
  specialize (H H1 H2 eq_refl).
  assert (match feed (http_parser_init HTTP_REQUEST) pieces with
          | inr (l, _, _) => bool_decide (v_done (seen l no_view) <> []) | _ => false end = true) as Hne by (vm_compute; reflexivity).
  destruct (feed _ pieces) as [f|[[l q] n]], (feed _ [sample_request]) as [f'|[[l' q'] n']]; try done.
  destruct H as (? & ? & _). split; [done|]. split; [done|]. by apply bool_decide_eq_true in Hne.
Defined.

(** A method that starts like [CONNECT] is compared beyond the end of its name. *)
Example connect_overread : execute (http_parser_init HTTP_REQUEST) (lit "CONNECTION /") = inl OutOfBounds.
Proof. vm_compute. reflexivity. Qed.

End Feed.
