(* ===== verification/Parse.v ===== *)
(** * Requests and the parser

    The text of a request, as a client sends it, and what the parser makes of it: the
    method, the URL, the headers and the body that were sent, whatever the pieces. *)
From S2P Require Import Prelude Types Http World Pool Cmd Client Parser Pieces Feed.

Local Open Scope Z_scope.

Module Parse.
Import World Client Parser Pieces Feed.

(** ** Texts that are read byte by byte *)

(** The turns over a text, as long as each reads one byte. *)
Fixpoint run_text (x : exec) (seg : bytes) : option (list call * exec) :=
  match seg with
  | [] => Some ([], x)
  | ch :: seg' =>
      if reads_data (x_state x) then None
      else
        match execute_turn ch [ch] x with
        | inr (l, Next y _) => '(l', z) ← run_text (push ch y) seg'; Some (l ++ l', z)
        | _ => None
        end
  end.

Lemma seen_calls_app l1 l2 v : seen_calls (l1 ++ l2) v = seen_calls l2 (seen_calls l1 v).
Proof. apply fold_left_app. Qed.

Lemma run_text_app x a b :
  run_text x (a ++ b) = '(l, y) ← run_text x a; '(l', z) ← run_text y b; Some (l ++ l', z).
Proof.
  revert x. induction a as [|ch a IH]; intros x; cbn [app run_text].
  - cbn. by destruct (run_text x b) as [[]|].
  - destruct (reads_data (x_state x)); [done|]. destruct (execute_turn ch [ch] x) as [f|[l [y n|q]]]; [done| |done].
    rewrite IH. destruct (run_text (push ch y) a) as [[l1 y1]|]; [|done]. cbn.
    destruct (run_text y1 b) as [[l2 y2]|]; [|done]. cbn. by rewrite app_assoc.
Qed.

Lemma preceded_app a b r : preceded a (preceded b r) = preceded (a ++ b) r.
Proof. destruct r as [f|[[l p] n]]; cbn; [done|]. by rewrite app_assoc. Qed.

(** The loop goes through the text and then on. *)
Lemma run_text_loop x seg l y rest off :
  run_text x seg = Some (l, y) ->
  exists l', execute_loop 0 (seg ++ rest) off x = preceded l' (execute_loop 0 rest (off + Z.of_nat (length seg)) y) /\
    forall v, seen l' v = seen_calls l v.
Proof.
  revert x l off. induction seg as [|ch seg IH]; intros x l off E; cbn [run_text] in E.
  - injection E as <- <-. exists []. split; [|done]. cbn. rewrite Z.add_0_r.
    by destruct (execute_loop 0 rest off x) as [f|[[a p] n]].
  - destruct (reads_data (x_state x)) eqn:Er; [done|].
    pose proof (execute_turn_next ch [ch] x Er) as Hn. pose proof (execute_turn_one ch (ch :: seg ++ rest) [ch] x Er) as E1.
    destruct (execute_turn ch [ch] x) as [f|[l1 [z n|q]]] eqn:Et; [done| |done]. cbn in Hn. subst n.
    destruct (run_text (push ch z) seg) as [[l2 y2]|] eqn:E2; [|done]. cbn in E. injection E as <- <-.
    destruct (IH _ _ (off + 1) E2) as (l' & El & Hv). exists (map (at_offset off) l1 ++ l'). split.
    + cbn [app execute_loop]. rewrite E1. cbn [Nat.sub]. rewrite El.
      replace (off + 1 + Z.of_nat (length seg)) with (off + Z.of_nat (length (ch :: seg))) by (cbn [length]; lia).
      apply preceded_app.
    + intros v. by rewrite seen_app, seen_offsets, Hv, seen_calls_app.
Qed.

(** The bytes of a header are counted. *)
Lemma header_turn ch x :
  parsing_header x = true -> x_nread x + 1 <= HTTP_MAX_HEADER_SIZE ->
  execute_turn ch [ch] x = step ch [ch] (set_x_nread (x_nread x + 1) x).
Proof.
  intros Hp Hn. unfold execute_turn. rewrite Hp. cbv zeta. cbn [x_nread set_x_nread].
  by rewrite (proj2 (Z.ltb_ge _ _)) by lia.
Qed.

(** A text whose bytes all lead to the same kind of state: [f] is what a byte does. *)
Lemma run_text_all (P : exec -> Prop) (ok : byte -> bool) (f : byte -> exec -> exec) x seg :
  (forall ch x, P x -> ok ch = true -> x_nread x + 1 <= HTTP_MAX_HEADER_SIZE ->
     reads_data (x_state x) = false /\ (exists n, execute_turn ch [ch] x = inr ([], Next (f ch x) n)) /\
     P (push ch (f ch x)) /\ x_nread (f ch x) = x_nread x + 1) ->
  P x -> Forall (fun c => ok c = true) seg -> x_nread x + Z.of_nat (length seg) <= HTTP_MAX_HEADER_SIZE ->
  run_text x seg = Some ([], fold_left (fun x ch => push ch (f ch x)) seg x).
Proof.
  intros Hf. revert x. induction seg as [|ch seg IH]; intros x Hx Hok Hn; [done|].
  apply Forall_cons in Hok as [Hc Hok]. cbn [length] in Hn.
  destruct (Hf ch x Hx Hc) as (Hr & (n & E) & Hp & Hnx); [lia|]. cbn [run_text fold_left]. rewrite Hr, E.
  rewrite IH; [done|done|done|]. cbn. lia.
Qed.

(** ** Requests *)

Record http_request := mk_request {
  q_method : Z;
  q_path : bytes;
  q_query : option bytes;
  q_headers : list (bytes * bytes);
  q_body : bytes }.

Definition crlf : bytes := [CR; LF].

Definition method_name (m : Z) : bytes := default [] (method_strings !! Z.to_nat m).

Definition header_bytes (h : bytes * bytes) : bytes := h.1 ++ lit ": " ++ h.2 ++ crlf.

Definition all_headers (q : http_request) : list (bytes * bytes) :=
  q_headers q ++
  (match q_body q with [] => [] | _ => [(lit "Content-Length", print_nat (Z.of_nat (length (q_body q))))] end).

Definition url_of (q : http_request) : bytes := q_path q ++ from_option (cons x3f) [] (q_query q).

Definition head_bytes (q : http_request) : bytes :=
  (method_name (q_method q) ++ lit " ") ++ url_of q ++ (lit " HTTP/1.1" ++ crlf) ++
  concat (map header_bytes (all_headers q)) ++ crlf.

Definition request_bytes (q : http_request) : bytes := head_bytes q ++ q_body q.

(** The state the parser is in behind the name of a header: only four of them change how
    the value is read. *)
Definition scan_name (hi : option (header_states * Z)) (ch : byte) : option (header_states * Z) :=
  '(h, i) ← hi;
  match field_char ch (TOKEN ch) (mk_exec (http_parser_init HTTP_REQUEST) s_header_field h i 0 None None None None) with
  | inr y => Some (x_header_state y, x_index y)
  | inl _ => None
  end.

Definition name_state (name : bytes) : option header_states :=
  match name with
  | [] => None
  | c :: name' => fst <$> fold_left scan_name name' (Some (first_of_field (TOKEN c), 0))
  end.

Definition special (h : header_states) : bool :=
  match h with h_connection | h_content_length | h_transfer_encoding | h_upgrade => true | _ => false end.

Definition name_ok (name : bytes) : bool :=
  forallb (fun c => negb (TOKEN c =? 0)) name &&
  match name_state name with Some h => negb (special h) | None => false end.

Definition value_byte (c : byte) : bool := negb (eqc c CR) && negb (eqc c LF).

Definition value_ok (v : bytes) : bool :=
  forallb value_byte v && match v with c :: _ => negb (eqc c " ") | [] => true end.

(** Requests in one line of URL, with headers that do not steer the parser; the head is
    no longer than the parser accepts. *)
Definition request_ok (q : http_request) : Prop :=
  0 <= q_method q < 23 /\ q_method q <> HTTP_CONNECT /\
  (exists path, q_path q = x2f :: path /\ Forall (fun c => normal_url_char c = true) path) /\
  Forall (fun c => normal_url_char c = true) (default [] (q_query q)) /\
  Forall (fun h : bytes * bytes => name_ok h.1 = true /\ value_ok h.2 = true) (q_headers q) /\
  Z.of_nat (length (head_bytes q)) <= HTTP_MAX_HEADER_SIZE /\ Z.of_nat (length (q_body q)) < 2 ^ 63.

(** The names and values, from the last to the first. *)
Definition pieces_of (hs : list (bytes * bytes)) : list (bool * bytes) :=
  reverse (concat (map (fun h => [(true, h.1); (false, h.2)]) hs)).

(** What the callbacks should amount to. *)
Definition message_of (q : http_request) : message :=
  mk_message (url_of q) (default [] (q_query q)) (pieces_of (all_headers q)) (q_body q).

(** ** The parts of a request *)

(** The parser while it reads a head. *)
Definition reading (p0 : http_parser) (m cl major minor : Z) : http_parser :=
  mk_http_parser HTTP_REQUEST 0 (hp_state p0) (hp_header_state p0) (hp_index p0) (hp_nread p0) cl major minor
    (hp_status_code p0) m false.

(** Between two messages. *)
Definition idle (x : exec) : Prop :=
  exists p0 m cl major minor h i,
    x = mk_exec (reading p0 m cl major minor) s_start_req h i 0 None None None None.

Lemma run_method x m :
  idle x -> 0 <= m < 23 ->
  exists p0 major minor h i, let n := Z.of_nat (length (method_name m)) + 1 in
    run_text x (method_name m ++ lit " ") =
    Some ([], mk_exec (reading p0 m (-1) major minor) s_req_spaces_before_url h i n None None None None).
Proof.
  intros (p0 & m0 & cl & major & minor & h & i & ->) Hm. exists p0, major, minor, h.
  replace m with (Z.of_nat (Z.to_nat m)) by lia. assert (Z.to_nat m < 23)%nat as Hn by lia.
  generalize dependent (Z.to_nat m). intros k Hk.
  do 23 (destruct k as [|k]; [eexists; vm_compute; reflexivity|]). lia.
Qed.

Lemma run_text_step ch seg x l y n :
  reads_data (x_state x) = false -> parsing_header x = true -> x_nread x + 1 <= HTTP_MAX_HEADER_SIZE ->
  step ch [ch] (set_x_nread (x_nread x + 1) x) = inr (l, Next y n) ->
  run_text x (ch :: seg) = '(l', z) ← run_text (push ch y) seg; Some (l ++ l', z).
Proof. intros Hr Hp Hn E. cbn [run_text]. by rewrite Hr, header_turn, E. Qed.

(** One byte of a head at a state that is known. *)
Ltac tidy :=
  cbv beta iota zeta delta [push set_x_parser set_x_state set_x_header_state set_x_index set_x_nread set_x_field
    set_x_value set_x_query set_x_url x_parser x_state x_header_state x_index x_nread x_field x_value x_query x_url
    fmap option_fmap option_map mbind option_bind flip]; cbn [app].
Ltac hop := erewrite run_text_step; [|reflexivity|reflexivity|cbn; lia|reflexivity]; tidy.

(** Bytes that are kept by the mark that is set. *)
Lemma fold_kept seg p s h i n f v q u :
  fold_left (fun x ch => push ch (set_x_nread (x_nread x + 1) x)) seg (mk_exec p s h i n f v q u) =
  mk_exec p s h i (n + Z.of_nat (length seg)) (flip app seg <$> f) (flip app seg <$> v) (flip app seg <$> q)
    (flip app seg <$> u).
Proof.
  assert (forall m : option bytes, flip app [] <$> m = m) as E0 by (intros [t|]; cbn; by rewrite ?app_nil_r).
  assert (forall (c : byte) cs (m : option bytes), flip app cs <$> ((fun t => t ++ [c]) <$> m) = flip app (c :: cs) <$> m) as E1.
  { intros c cs [t|]; cbn; by rewrite <-?app_assoc. }
  revert n f v q u. induction seg as [|ch seg IH]; intros n f v q u; cbn [fold_left length].
  - by rewrite !E0, Z.add_0_r.
  - unfold push, set_x_nread, set_x_url, set_x_query, set_x_value, set_x_field. cbn -[Z.add]. rewrite IH, !E1.
    by replace (n + 1 + Z.of_nat (length seg)) with (n + Z.of_nat (S (length seg))) by lia.
Qed.

Lemma run_kept (ok : byte -> bool) p s h i n f v q u seg :
  reads_data s = false -> header_phase s = true -> flag p F_TRAILING = false ->
  (forall ch x, ok ch = true -> x_state x = s -> x_header_state x = h -> step ch [ch] x = next x) ->
  Forall (fun c => ok c = true) seg -> n + Z.of_nat (length seg) <= HTTP_MAX_HEADER_SIZE ->
  run_text (mk_exec p s h i n f v q u) seg =
  Some ([], mk_exec p s h i (n + Z.of_nat (length seg)) (flip app seg <$> f) (flip app seg <$> v) (flip app seg <$> q)
              (flip app seg <$> u)).
Proof.
  intros Hr Hh Ht Hs Hok Hn. rewrite <-fold_kept.
  apply (run_text_all (fun x => x_state x = s /\ x_header_state x = h /\ x_parser x = p) ok); [|done..].
  intros ch x (Es & Eh & Ep) Hc Hx. rewrite Es. split; [done|]. split; [|done]. exists 1%nat.
  rewrite header_turn; [|by unfold parsing_header; rewrite Es, Ep, Hh, Ht|done]. by apply Hs.
Qed.

Lemma run_path p0 m cl major minor h i n path :
  let p := reading p0 m cl major minor in
  Forall (fun c => normal_url_char c = true) path ->
  n + Z.of_nat (length (x2f :: path)) <= HTTP_MAX_HEADER_SIZE ->
  run_text (mk_exec p s_req_spaces_before_url h i n None None None None) (x2f :: path) =
  Some ([], mk_exec p s_req_path h i (n + Z.of_nat (length (x2f :: path))) None None None (Some (x2f :: path))).
Proof.
  intros p Hok Hn. cbn [length] in Hn. hop.
  rewrite (run_kept normal_url_char); [|done|done|done| |done|lia].
  - tidy. by replace (n + 1 + Z.of_nat (length path)) with (n + Z.of_nat (length (x2f :: path))) by (cbn [length]; lia).
  - intros ch x Hc Es _. unfold step. rewrite Es. unfold req_path. by rewrite Hc.
Qed.

Lemma run_query p0 m cl major minor h i n u query :
  let p := reading p0 m cl major minor in
  Forall (fun c => normal_url_char c = true) query -> query <> [] ->
  n + Z.of_nat (length (x3f :: query)) <= HTTP_MAX_HEADER_SIZE ->
  run_text (mk_exec p s_req_path h i n None None None (Some u)) (x3f :: query) =
  Some ([], mk_exec p s_req_query_string h i (n + Z.of_nat (length (x3f :: query))) None None (Some query)
              (Some (u ++ x3f :: query))).
Proof.
  intros p Hok Hne Hn. destruct query as [|c query]; [done|]. apply Forall_cons in Hok as [Hc Hok]. cbn [length] in Hn.
  hop. erewrite run_text_step; [|reflexivity|reflexivity|cbn; lia|]; cycle 1.
  { unfold step. cbn [x_state set_x_nread]. unfold req_query_string_start. rewrite Hc. reflexivity. }
  tidy. rewrite (run_kept normal_url_char); [|done|done|done| |done|lia].
  - tidy. replace (n + 1 + 1 + Z.of_nat (length query)) with (n + Z.of_nat (length (x3f :: c :: query))) by (cbn [length]; lia).
    by rewrite <-!app_assoc.
  - intros ch x Hx Es _. unfold step. rewrite Es. unfold req_query_string. by rewrite Hx.
Qed.

(** The version, behind a URL. *)
Lemma run_version p0 m cl major minor s h i n query u :
  let p := reading p0 m cl major minor in
  s = s_req_path /\ query = None \/ s = s_req_query_string_start /\ query = None \/ s = s_req_query_string ->
  n + 11 <= HTTP_MAX_HEADER_SIZE ->
  exists l, run_text (mk_exec p s h i n None None query (Some u)) (lit " HTTP/1.1" ++ crlf) =
    Some (l, mk_exec (reading p0 m cl 1 1) s_header_field_start h i (n + 11) None None None None) /\
    forall d, seen_calls l (mk_view no_message d) = mk_view (mk_message u (default [] query) [] []) d.
Proof.
  intros p Hs Hn. let t := eval vm_compute in (lit " HTTP/1.1" ++ crlf) in change (lit " HTTP/1.1" ++ crlf) with t.
  destruct Hs as [[-> ->]|[[-> ->]| ->]]; [| |destruct query];
    (eexists; split; [do 11 hop; cbn [run_text]; tidy; f_equal; f_equal; f_equal; lia|done]).
Qed.

(** *** Headers *)

(** A byte of a name changes what is recognised and nothing else. *)
Lemma field_char_scan ch p s h i n f v q u :
  field_char ch (TOKEN ch) (mk_exec p s h i n f v q u) =
  match field_char ch (TOKEN ch) (mk_exec (http_parser_init HTTP_REQUEST) s_header_field h i 0 None None None None) with
  | inr y => inr (mk_exec p s (x_header_state y) (x_index y) n f v q u)
  | inl e => inl e
  end.
Proof. destruct h; unfold field_char, matching; cbv zeta; tidy; repeat case_match; done. Qed.

Lemma run_name p0 m cl name h i h' i' n t :
  let p := reading p0 m cl 1 1 in
  Forall (fun c => negb (TOKEN c =? 0) = true) name -> fold_left scan_name name (Some (h, i)) = Some (h', i') ->
  n + Z.of_nat (length name) <= HTTP_MAX_HEADER_SIZE ->
  run_text (mk_exec p s_header_field h i n (Some t) None None None) name =
  Some ([], mk_exec p s_header_field h' i' (n + Z.of_nat (length name)) (Some (t ++ name)) None None None).
Proof.
  intros p Hok. revert h i n t. induction Hok as [|c name Hc _ IH]; intros h i n t Hs Hn.
  - injection Hs as -> ->. cbn [run_text length]. by rewrite Z.add_0_r, app_nil_r.
  - cbn [fold_left] in Hs. cbn [length] in Hn.
    assert (exists h1 i1, scan_name (Some (h, i)) c = Some (h1, i1)) as (h1 & i1 & E1).
    { destruct (scan_name (Some (h, i)) c) as [[h1 i1]|] eqn:E; [eauto|]. exfalso. clear -Hs.
      induction name as [|c name IH]; [done|]. by apply IH. }
    rewrite E1 in Hs. erewrite run_text_step; [|reflexivity|reflexivity|cbn; lia|]; cycle 1.
    { unfold step. cbn [x_state set_x_nread]. unfold header_field. cbv zeta. rewrite Hc. tidy. rewrite field_char_scan.
      cbn [scan_name mbind option_bind] in E1. case_match; [done|]. injection E1 as -> ->. reflexivity. }
    tidy. rewrite IH by (done || lia). tidy.
    replace (n + 1 + Z.of_nat (length name)) with (n + Z.of_nat (length (c :: name))) by (cbn [length]; lia).
    by rewrite <-app_assoc.
Qed.

(** A name and the colon and space behind it. *)
Lemma run_field p0 m cl name h i n h0 i0 :
  let p := reading p0 m cl 1 1 in
  Forall (fun c => negb (TOKEN c =? 0) = true) name ->
  match name with [] => None | c :: name' => fold_left scan_name name' (Some (first_of_field (TOKEN c), 0)) end = Some (h, i) ->
  n + Z.of_nat (length name) + 2 <= HTTP_MAX_HEADER_SIZE ->
  run_text (mk_exec p s_header_field_start h0 i0 n None None None None) (name ++ lit ": ") =
  Some ([(OnHeaderField name, p, 0)],
        mk_exec p s_header_value_start h i (n + Z.of_nat (length name) + 2) None None None None).
Proof.
  intros p Hok Hs Hn. destruct name as [|c name]; [done|]. apply Forall_cons in Hok as [Hc Hok].
  cbn [length app] in *. erewrite run_text_step; [|reflexivity|reflexivity|cbn; lia|]; cycle 1.
  { unfold step. cbn [x_state set_x_nread]. unfold header_field_start. cbv zeta.
    assert (eqc c CR = false /\ eqc c LF = false) as [-> ->].
    { clear -Hc. unfold eqc. split; apply byte_eqb_neq; intros ->; by vm_compute in Hc. }
    rewrite (proj1 (negb_true_iff _) Hc). reflexivity. }
  tidy. rewrite run_text_app, (run_name p0 m cl name _ _ h i) by (done || lia).
  change (lit ": ") with [":"%byte; " "%byte]. tidy. hop. hop. cbn [run_text]. tidy.
  replace (n + 1 + Z.of_nat (length name) + 1 + 1) with (n + Z.of_nat (S (length name)) + 2) by lia. done.
Qed.

Lemma forallb_all {A} (f : A -> bool) l : forallb f l = true -> Forall (fun a => f a = true) l.
Proof. intros H. apply Forall_forall. intros a Ha. rewrite forallb_forall in H. by apply H, list_elem_of_In. Qed.

(** The value of a header that means nothing to the parser, to the end of its line. *)
Lemma run_value p0 m cl v h i n :
  let p := reading p0 m cl 1 1 in
  special h = false -> value_ok v = true -> n + Z.of_nat (length v) + 2 <= HTTP_MAX_HEADER_SIZE ->
  exists l i', run_text (mk_exec p s_header_value_start h i n None None None None) (v ++ crlf) =
    Some (l, mk_exec p s_header_field_start h_general i' (n + Z.of_nat (length v) + 2) None None None None) /\
    forall w, seen_calls l w = see (OnHeaderValue v) p w.
Proof.
  intros p Hh Hv Hn. apply andb_true_iff in Hv as [Hb Hf]. apply forallb_all in Hb.
  change crlf with [CR; LF]. destruct v as [|c v].
  - replace (n + Z.of_nat (length (@nil byte)) + 2) with (n + 1 + 1) by (cbn [length]; lia).
    cbn [app]. hop. hop. cbn [run_text]. tidy. by eexists _, _.
  - apply Forall_cons in Hb as [Hc Hb]. cbn [app length] in *.
    erewrite run_text_step; [|reflexivity|reflexivity|cbn; lia|]; cycle 1.
    { unfold step. cbn [x_state set_x_nread]. unfold header_value_start. cbv zeta.
      apply andb_true_iff in Hc as [Hc1 Hc2]. apply negb_true_iff in Hc1, Hc2, Hf. rewrite Hc1, Hc2, Hf. tidy.
      destruct h; try discriminate Hh; reflexivity. }
    tidy. rewrite run_text_app, (run_kept value_byte); [|done|done|done| |done|lia].
    + replace (n + Z.of_nat (S (length v)) + 2) with (n + 1 + Z.of_nat (length v) + 1 + 1) by lia.
      tidy. hop. hop. cbn [run_text]. tidy. by eexists _, _.
    + intros ch x Hx Es Eh. unfold step. rewrite Es. unfold header_value, value_char. rewrite Eh.
      apply andb_true_iff in Hx as [Hx1 Hx2]. apply negb_true_iff in Hx1, Hx2. by rewrite Hx1, Hx2.
Qed.

(** *** The length of a body *)

Lemma undigits_le ds a : 0 <= a -> Forall (fun d => 0 <= d < 10) ds -> a <= fold_left (fun a d => a * 10 + d) ds a.
Proof. intros Ha Hd. revert a Ha. induction Hd as [|d ds Hd _ IH]; intros a Ha; cbn; [lia|]. specialize (IH (a * 10 + d)). lia. Qed.

Lemma digit_char_byte d : 0 <= d < 10 ->
  isdigit (digit_char d) = true /\ ord (digit_char d) - 48 = d /\ eqc (digit_char d) " " = false /\
  eqc (digit_char d) CR = false /\ eqc (digit_char d) LF = false.
Proof.
  intros Hd. pose proof (forall_below 10 (fun d => isdigit (digit_char d) && (ord (digit_char d) - 48 =? d) &&
    negb (eqc (digit_char d) " ") && negb (eqc (digit_char d) CR) && negb (eqc (digit_char d) LF))) as H.
  specialize (H eq_refl d Hd). cbv beta in H. rewrite !andb_true_iff, !negb_true_iff, Z.eqb_eq in H. tauto.
Qed.

Lemma run_digits p0 m ds a i n t :
  Forall (fun d => 0 <= d < 10) ds -> 0 <= a -> fold_left (fun a d => a * 10 + d) ds a < 2 ^ 63 ->
  n + Z.of_nat (length ds) <= HTTP_MAX_HEADER_SIZE ->
  run_text (mk_exec (reading p0 m a 1 1) s_header_value h_content_length i n None (Some t) None None) (map digit_char ds) =
  Some ([], mk_exec (reading p0 m (fold_left (fun a d => a * 10 + d) ds a) 1 1) s_header_value h_content_length i
              (n + Z.of_nat (length ds)) None (Some (t ++ map digit_char ds)) None None).
Proof.
  intros Hd. revert a n t. induction Hd as [|d ds Hd Hds IH]; intros a n t Ha Hb Hn; cbn [map fold_left length].
  - cbn [run_text]. by rewrite Z.add_0_r, app_nil_r.
  - cbn [fold_left] in Hb. cbn [length] in Hn. pose proof (undigits_le ds (a * 10 + d) ltac:(lia) Hds) as Hle.
    destruct (digit_char_byte d Hd) as (E1 & E2 & E3 & E4 & E5).
    erewrite run_text_step; [|reflexivity|reflexivity|cbn; lia|]; cycle 1.
    { unfold step. cbn [x_state set_x_nread]. unfold header_value, value_char. rewrite E4, E5. tidy. rewrite E3, E1, E2.
      cbn [reading hp_content_length]. rewrite wrap_s_small by lia. reflexivity. }
    tidy. change (set_hp_content_length (a * 10 + d) (reading p0 m a 1 1)) with (reading p0 m (a * 10 + d) 1 1).
    rewrite IH by lia. tidy. rewrite <-app_assoc.
    by replace (n + 1 + Z.of_nat (length ds)) with (n + Z.of_nat (S (length ds))) by lia.
Qed.

Lemma run_length p0 m cl len i n :
  0 < len < 2 ^ 63 -> n + Z.of_nat (length (print_nat len)) + 2 <= HTTP_MAX_HEADER_SIZE ->
  exists l i', run_text (mk_exec (reading p0 m cl 1 1) s_header_value_start h_content_length i n None None None None)
      (print_nat len ++ crlf) =
    Some (l, mk_exec (reading p0 m len 1 1) s_header_field_start h_content_length i'
               (n + Z.of_nat (length (print_nat len)) + 2) None None None None) /\
    forall w, seen_calls l w = see (OnHeaderValue (print_nat len)) (reading p0 m len 1 1) w.
Proof.
  intros Hl Hn. pose proof (undigits_digits 10 len ltac:(lia) ltac:(lia)) as Hu.
  pose proof (digits_range 10 len ltac:(lia) ltac:(lia)) as Hr. unfold print_nat in *.
  destruct (digits 10 len) as [|d ds] eqn:Ed; [by apply digits_nonempty in Ed|]. apply Forall_cons in Hr as [Hd Hr].
  change crlf with [CR; LF]. cbn [map length app] in *. rewrite length_map in *. unfold undigits in Hu. cbn [fold_left] in Hu.
  change (0 * 10 + d) with d in Hu. destruct (digit_char_byte d Hd) as (E1 & E2 & E3 & E4 & E5).
  erewrite run_text_step; [|reflexivity|reflexivity|cbn; lia|]; cycle 1.
  { unfold step. cbn [x_state set_x_nread]. unfold header_value_start. cbv zeta. rewrite E3, E4, E5. tidy.
    rewrite E1, E2. reflexivity. }
  tidy. change (set_hp_content_length d (reading p0 m cl 1 1)) with (reading p0 m d 1 1).
  rewrite run_text_app, run_digits by (done || lia). rewrite Hu.
  replace (n + Z.of_nat (S (length ds)) + 2) with (n + 1 + Z.of_nat (length ds) + 1 + 1) by lia.
  tidy. hop. hop. cbn [run_text]. tidy. by eexists _, _.
Qed.

(** *** The head *)

Lemma pieces_of_app hs hs' : pieces_of (hs ++ hs') = pieces_of hs' ++ pieces_of hs.
Proof. unfold pieces_of. by rewrite map_app, concat_app, reverse_app. Qed.

(** What a header adds to a message whose last piece is a value. *)
Definition with_headers (g : message) (hs : list (bytes * bytes)) : message :=
  mk_message (g_url g) (g_query g) (pieces_of hs ++ g_headers g) (g_body g).

Definition ready (g : message) : Prop := match g_headers g with (true, _) :: _ => False | _ => True end.

Lemma with_header_ready g h : ready (with_headers g [h]).
Proof. done. Qed.

Lemma with_headers_cons g h hs : with_headers (with_headers g [h]) hs = with_headers g (h :: hs).
Proof. unfold with_headers. change (h :: hs) with ([h] ++ hs). cbn [g_url g_query g_headers g_body]. by rewrite pieces_of_app, app_assoc. Qed.

Lemma see_header g name v p p' d :
  ready g -> see (OnHeaderValue v) p (see (OnHeaderField name) p' (mk_view g d)) = mk_view (with_headers g [(name, v)]) d.
Proof.
  unfold ready. destruct g as [u q hs b]. cbn [g_headers]. intros H. unfold see, with_headers, pieces_of. cbn.
  destruct hs as [|[[|] t] hs]; done.
Qed.

(** The texts of a run follow each other. *)
Lemma run_text_seq x a b l y l' z :
  run_text x a = Some (l, y) -> run_text y b = Some (l', z) -> run_text x (a ++ b) = Some (l ++ l', z).
Proof. intros E1 E2. rewrite run_text_app, E1. cbn. by rewrite E2. Qed.

Lemma length_header h : Z.of_nat (length (header_bytes h)) = Z.of_nat (length h.1) + 2 + (Z.of_nat (length h.2) + 2).
Proof. unfold header_bytes, crlf. rewrite !length_app. cbn [length]. change (length (lit ": ")) with 2%nat. lia. Qed.

Lemma run_header p0 m cl hd h0 i0 n :
  let p := reading p0 m cl 1 1 in
  name_ok hd.1 = true -> value_ok hd.2 = true -> n + Z.of_nat (length (header_bytes hd)) <= HTTP_MAX_HEADER_SIZE ->
  exists l h i, run_text (mk_exec p s_header_field_start h0 i0 n None None None None) (header_bytes hd) =
    Some (l, mk_exec p s_header_field_start h i (n + Z.of_nat (length (header_bytes hd))) None None None None) /\
    forall g d, ready g -> seen_calls l (mk_view g d) = mk_view (with_headers g [hd]) d.
Proof.
  intros p Hnm Hv. rewrite length_header. intros Hn. destruct hd as [name v]. cbn [fst snd] in *.
  apply andb_true_iff in Hnm as [Ht Hs]. apply forallb_all in Ht. unfold name_state in Hs.
  destruct name as [|c name]; [done|]. destruct (fold_left scan_name name (Some (first_of_field (TOKEN c), 0))) as [[h i]|] eqn:Ef; [|done].
  cbn in Hs. apply negb_true_iff in Hs.
  pose proof (run_field p0 m cl (c :: name) h i n h0 i0 Ht Ef ltac:(lia)) as R1.
  destruct (run_value p0 m cl v h i (n + Z.of_nat (length (c :: name)) + 2) Hs Hv ltac:(lia)) as (l & i' & R2 & Hl).
  unfold header_bytes. cbn [fst snd]. rewrite (app_assoc (c :: name)). eexists _, _, _. split.
  - rewrite !Z.add_assoc. exact (run_text_seq _ _ _ _ _ _ _ R1 R2).
  - intros g d Hg. rewrite seen_calls_app, Hl. by apply see_header.
Qed.

Lemma run_headers p0 m cl hs h0 i0 n :
  let p := reading p0 m cl 1 1 in
  Forall (fun h : bytes * bytes => name_ok h.1 = true /\ value_ok h.2 = true) hs ->
  let text := concat (map header_bytes hs) in
  n + Z.of_nat (length text) <= HTTP_MAX_HEADER_SIZE ->
  exists l h i, run_text (mk_exec p s_header_field_start h0 i0 n None None None None) text =
    Some (l, mk_exec p s_header_field_start h i (n + Z.of_nat (length text)) None None None None) /\
    forall g d, ready g ->
      seen_calls l (mk_view g d) = mk_view (with_headers g hs) d /\ ready (with_headers g hs).
Proof.
  intros p Hok. revert h0 i0 n. induction Hok as [|hd hs [Hnm Hv] _ IH]; intros h0 i0 n; cbn [map concat length]; intros Hn.
  - exists [], h0, i0. rewrite Z.add_0_r. split; [done|]. intros [] d Hg. done.
  - rewrite length_app, Nat2Z.inj_add in *.
    destruct (run_header p0 m cl hd h0 i0 n Hnm Hv ltac:(lia)) as (l1 & h1 & i1 & R1 & S1).
    destruct (IH h1 i1 (n + Z.of_nat (length (header_bytes hd))) ltac:(lia)) as (l2 & h2 & i2 & R2 & S2).
    exists (l1 ++ l2), h2, i2. split; [rewrite Z.add_assoc; exact (run_text_seq _ _ _ _ _ _ _ R1 R2)|].
    intros g d Hg. destruct (S2 (with_headers g [hd]) d) as [E Hr]; [done|].
    rewrite seen_calls_app, S1, E by done. by rewrite with_headers_cons in *.
Qed.

(** The header that announces the body. *)
Lemma run_announce p0 m cl len h0 i0 n :
  let hd := (lit "Content-Length", print_nat len) in
  0 < len < 2 ^ 63 -> n + Z.of_nat (length (header_bytes hd)) <= HTTP_MAX_HEADER_SIZE ->
  exists l h i, run_text (mk_exec (reading p0 m cl 1 1) s_header_field_start h0 i0 n None None None None) (header_bytes hd) =
    Some (l, mk_exec (reading p0 m len 1 1) s_header_field_start h i (n + Z.of_nat (length (header_bytes hd))) None None None None) /\
    forall g d, ready g -> seen_calls l (mk_view g d) = mk_view (with_headers g [hd]) d.
Proof.
  intros hd Hl. rewrite length_header. intros Hn. cbn [fst snd hd] in *.
  assert (exists i, fold_left scan_name (lit "ontent-Length") (Some (first_of_field (TOKEN "C"), 0)) = Some (h_content_length, i)) as [i Ef].
  { eexists. vm_compute. reflexivity. }
  assert (Forall (fun c => negb (TOKEN c =? 0) = true) (lit "Content-Length")) as Ht by (apply forallb_all; vm_compute; reflexivity).
  pose proof (run_field p0 m cl (lit "Content-Length") h_content_length i n h0 i0 Ht Ef ltac:(lia)) as R1.
  destruct (run_length p0 m cl len i (n + Z.of_nat (length (lit "Content-Length")) + 2) Hl ltac:(lia)) as (l & i' & R2 & Hs).
  unfold header_bytes. cbn [fst snd hd]. rewrite (app_assoc (lit "Content-Length")). eexists _, _, _. split.
  - rewrite !Z.add_assoc. exact (run_text_seq _ _ _ _ _ _ _ R1 R2).
  - intros g d Hg. rewrite seen_calls_app, Hs. by apply see_header.
Qed.

(** The empty line: a message without a body is complete, a body follows otherwise. *)
Lemma run_end p0 m h i n :
  m <> HTTP_CONNECT -> n + 2 <= HTTP_MAX_HEADER_SIZE ->
  run_text (mk_exec (reading p0 m (-1) 1 1) s_header_field_start h i n None None None None) crlf =
  Some ([(OnMessageComplete, reading p0 m (-1) 1 1, 0)], mk_exec (reading p0 m (-1) 1 1) s_start_req h i 0 None None None None).
Proof.
  intros Hm Hn. change crlf with [CR; LF]. hop. erewrite run_text_step; [|reflexivity|reflexivity|cbn; lia|]; cycle 1.
  { unfold step. cbn [x_state set_x_nread]. unfold headers_almost_done. tidy. change (eqc LF LF) with true. cbn [negb].
    change (flag (reading p0 m (-1) 1 1) F_TRAILING) with false. change (flag (reading p0 m (-1) 1 1) F_UPGRADE) with false.
    cbn [hp_method reading orb]. rewrite (proj2 (Z.eqb_neq m HTTP_CONNECT)) by done. reflexivity. }
  done.
Qed.

Lemma run_end_body p0 m len h i n :
  m <> HTTP_CONNECT -> 0 < len -> n + 2 <= HTTP_MAX_HEADER_SIZE ->
  run_text (mk_exec (reading p0 m len 1 1) s_header_field_start h i n None None None None) crlf =
  Some ([], mk_exec (reading p0 m len 1 1) s_body_identity h i 0 None None None None).
Proof.
  intros Hm Hl Hn. change crlf with [CR; LF]. hop. erewrite run_text_step; [|reflexivity|reflexivity|cbn; lia|]; cycle 1.
  { unfold step. cbn [x_state set_x_nread]. unfold headers_almost_done. tidy. change (eqc LF LF) with true. cbn [negb].
    change (flag (reading p0 m len 1 1) F_TRAILING) with false. change (flag (reading p0 m len 1 1) F_UPGRADE) with false.
    cbn [hp_method reading orb]. rewrite (proj2 (Z.eqb_neq m HTTP_CONNECT)) by done. fold (reading p0 m len 1 1).
    change (flag (reading p0 m len 1 1) F_SKIPBODY) with false. change (flag (reading p0 m len 1 1) F_CHUNKED) with false.
    cbn [hp_upgrade hp_content_length reading].
    rewrite (proj2 (Z.eqb_neq len 0)), (proj2 (Z.ltb_lt 0 len)) by lia. reflexivity. }
  done.
Qed.

Lemma run_url p0 m h i n q :
  (exists path, q_path q = x2f :: path /\ Forall (fun c => normal_url_char c = true) path) ->
  Forall (fun c => normal_url_char c = true) (default [] (q_query q)) ->
  n + Z.of_nat (length (url_of q)) + 11 <= HTTP_MAX_HEADER_SIZE ->
  forall major minor, exists l,
  run_text (mk_exec (reading p0 m (-1) major minor) s_req_spaces_before_url h i n None None None None)
    (url_of q ++ (lit " HTTP/1.1" ++ crlf)) =
  Some (l, mk_exec (reading p0 m (-1) 1 1) s_header_field_start h i (n + Z.of_nat (length (url_of q)) + 11) None None None None) /\
  forall d, seen_calls l (mk_view no_message d) = mk_view (mk_message (url_of q) (default [] (q_query q)) [] []) d.
Proof.
  intros (path & Ep & Hp) Hq Hn major minor. unfold url_of in *. rewrite Ep in *. rewrite length_app in *.
  pose proof (run_path p0 m (-1) major minor h i n path Hp ltac:(lia)) as R1.
  destruct (q_query q) as [[|c query]|]; cbn [from_option default] in *.
  - destruct (run_version p0 m (-1) major minor s_req_query_string_start h i (n + Z.of_nat (length (x2f :: path)) + 1) None
                (x2f :: path ++ [x3f])) as (l & R2 & Hl); [tauto|cbn [length] in *; lia|]. exists l. split; [|done].
    rewrite <-app_assoc. replace (n + Z.of_nat (length (x2f :: path) + length [x3f]) + 11) with (n + Z.of_nat (length (x2f :: path)) + 1 + 11) by (cbn [length]; lia).
    change l with ([] ++ l). eapply run_text_seq; [exact R1|]. change ([x3f] ++ ?t) with (x3f :: t).
    erewrite run_text_step; [|reflexivity|reflexivity|cbn [length] in *; cbn; lia|reflexivity]. tidy. cbn [app] in R2. by rewrite R2.
  - pose proof (run_query p0 m (-1) major minor h i (n + Z.of_nat (length (x2f :: path))) (x2f :: path) (c :: query) Hq ltac:(done) ltac:(lia)) as R2.
    destruct (run_version p0 m (-1) major minor s_req_query_string h i
                (n + Z.of_nat (length (x2f :: path)) + Z.of_nat (length (x3f :: c :: query))) (Some (c :: query))
                ((x2f :: path) ++ x3f :: c :: query)) as (l & R3 & Hl); [tauto|lia|]. exists l. split; [|done].
    rewrite Nat2Z.inj_add, Z.add_assoc. change l with (([] ++ []) ++ l).
    eapply run_text_seq; [|exact R3]. eapply run_text_seq; [exact R1|exact R2].
  - destruct (run_version p0 m (-1) major minor s_req_path h i (n + Z.of_nat (length (x2f :: path))) None (x2f :: path))
      as (l & R2 & Hl); [tauto|cbn [length] in *; lia|]. exists l. rewrite app_nil_r, Nat.add_0_r. split; [|done].
    change l with ([] ++ l). eapply run_text_seq; [exact R1|exact R2].
Qed.

Definition body_header (q : http_request) : list (bytes * bytes) :=
  match q_body q with [] => [] | _ => [(lit "Content-Length", print_nat (Z.of_nat (length (q_body q))))] end.

(** The request line and the headers of the request. *)
Definition lines (q : http_request) : bytes :=
  (method_name (q_method q) ++ lit " ") ++ (url_of q ++ (lit " HTTP/1.1" ++ crlf)) ++ concat (map header_bytes (q_headers q)).

Lemma head_lines q : head_bytes q = lines q ++ concat (map header_bytes (body_header q)) ++ crlf.
Proof. unfold head_bytes, lines, all_headers. fold (body_header q). by rewrite map_app, concat_app, <-!app_assoc. Qed.

Lemma run_lines x q :
  idle x -> request_ok q ->
  exists p0 l h i,
    run_text x (lines q) =
    Some (l, mk_exec (reading p0 (q_method q) (-1) 1 1) s_header_field_start h i (Z.of_nat (length (lines q))) None None None None) /\
    forall d, let g := with_headers (mk_message (url_of q) (default [] (q_query q)) [] []) (q_headers q) in
      seen_calls l (mk_view no_message d) = mk_view g d /\ ready g.
Proof.
  intros Hx (Hm & _ & Hp & Hq & Hh & Hlen & _). rewrite head_lines in Hlen.
  destruct (run_method x _ Hx Hm) as (p0 & major & minor & h & i & R1).
  assert (Z.of_nat (length (lit " HTTP/1.1" ++ crlf)) = 11) as E11 by done.
  unfold lines in *. rewrite !length_app in *. change (length (lit " ")) with 1%nat in *.
  set (n1 := Z.of_nat (length (method_name (q_method q))) + 1) in R1.
  destruct (run_url p0 (q_method q) h i n1 q Hp Hq ltac:(lia) major minor) as (l1 & R2 & S2).
  set (n2 := n1 + Z.of_nat (length (url_of q)) + 11) in R2.
  destruct (run_headers p0 (q_method q) (-1) (q_headers q) h i n2 Hh ltac:(lia)) as (l2 & h2 & i2 & R3 & S3).
  exists p0, ([] ++ (l1 ++ l2)), h2, i2. split.
  - rewrite (run_text_seq _ _ _ _ _ _ _ R1 (run_text_seq _ _ _ _ _ _ _ R2 R3)). subst n1 n2. do 3 f_equal. lia.
  - intros d. cbn [app]. rewrite seen_calls_app, S2. by apply S3.
Qed.

(** What is seen of the parser when the message is complete. *)
Definition shown (q : http_request) : Z * Z * Z * Z * bool := (0, 1, 1, q_method q, false).

Lemma run_head x q :
  idle x -> request_ok q ->
  match q_body q with
  | [] => exists l y, idle y /\ run_text x (head_bytes q) = Some (l, y) /\
      forall d, seen_calls l (mk_view no_message d) = mk_view no_message (d ++ [(message_of q, shown q)])
  | _ :: _ => exists p0 l h i,
      run_text x (head_bytes q) =
      Some (l, mk_exec (reading p0 (q_method q) (Z.of_nat (length (q_body q))) 1 1) s_body_identity h i 0 None None None None) /\
      forall d, seen_calls l (mk_view no_message d) =
        mk_view (mk_message (url_of q) (default [] (q_query q)) (pieces_of (all_headers q)) []) d
  end.
Proof.
  intros Hx Hq. destruct (run_lines x q Hx Hq) as (p0 & l & h & i & R1 & S1).
  destruct Hq as (_ & Hm & _ & _ & _ & Hlen & Hbody). unfold message_of, all_headers. rewrite head_lines in *. fold (body_header q).
  rewrite !length_app in Hlen. change (length crlf) with 2%nat in Hlen. unfold body_header in *.
  set (b := Z.of_nat (length (q_body q))) in *. assert (b = Z.of_nat (length (q_body q))) as Eb by done. clearbody b.
  destruct (q_body q) as [|c body]; cbn [map concat length app] in *.
  - rewrite app_nil_r. pose proof (run_end p0 (q_method q) h i (Z.of_nat (length (lines q))) Hm ltac:(lia)) as R2.
    eexists _, _. split; [|split; [exact (run_text_seq _ _ _ _ _ _ _ R1 R2)|]].
    + by exists p0, (q_method q), (-1), 1, 1, h, i.
    + intros d. destruct (S1 d) as [E _]. rewrite seen_calls_app, E. unfold with_headers. cbn [g_headers g_url g_query g_body].
      by rewrite app_nil_r.
  - rewrite app_nil_r in *. destruct (run_announce p0 (q_method q) (-1) b h i (Z.of_nat (length (lines q)))) as (l2 & h2 & i2 & R2 & S2).
    { lia. } { lia. }
    pose proof (run_end_body p0 (q_method q) b h2 i2 _ Hm ltac:(lia)
                  ltac:(instantiate (1 := Z.of_nat (length (lines q)) + Z.of_nat (length (header_bytes (lit "Content-Length", print_nat b)))); lia)) as R3.
    eexists p0, _, _, _. split; [exact (run_text_seq _ _ _ _ _ _ _ R1 (run_text_seq _ _ _ _ _ _ _ R2 R3))|].
    intros d. destruct (S1 d) as [E Hr]. rewrite !seen_calls_app, E, S2 by done. cbn [seen_calls fold_left].
    unfold with_headers. cbn [g_headers g_url g_query g_body]. by rewrite pieces_of_app, app_nil_r.
Qed.

(** ** Whole requests *)

Lemma loop_skip a rest off x :
  execute_loop (length a) (a ++ rest) off x = execute_loop 0 rest (off + Z.of_nat (length a)) x.
Proof.
  revert off. induction a as [|c a IH]; intros off; cbn [length app execute_loop]; [by rewrite Z.add_0_r|].
  rewrite IH. f_equal. lia.
Qed.

Lemma body_loop p0 m body rest off h i :
  body <> [] ->
  let x := mk_exec (reading p0 m (Z.of_nat (length body)) 1 1) s_body_identity h i 0 None None None None in
  exists l y, idle y /\
    execute_loop 0 (body ++ rest) off x = preceded l (execute_loop 0 rest (off + Z.of_nat (length body)) y) /\
    forall g d, g_body g = [] -> seen l (mk_view g d) =
      mk_view no_message (d ++ [(mk_message (g_url g) (g_query g) (g_headers g) body, (0, 1, 1, m, false))]).
Proof.
  intros Hb x. destruct body as [|c body]; [done|]. set (b := Z.of_nat (length (c :: body))) in *.
  assert (Z.min (Z.of_nat (length ((c :: body) ++ rest))) (hp_content_length (x_parser x)) = b) as Em.
  { cbn [x_parser x reading hp_content_length]. rewrite length_app. lia. }
  pose proof (body_turn_reads c ((c :: body) ++ rest) x eq_refl) as Et. cbv zeta in Et. rewrite Em in Et.
  specialize (Et ltac:(subst b; cbn [length]; lia)).
  assert (body_after b x = mk_exec (reading p0 m 0 1 1) s_start_req h i 0 None None None None) as Ea.
  { unfold body_after, content. cbn. fold b. by rewrite !Z.sub_diag. }
  exists (map (at_offset off) (body_calls b ((c :: body) ++ rest) x)), (body_after b x). split; [|split].
  - rewrite Ea. by exists p0, m, 0, 1, 1, h, i.
  - cbn [app execute_loop]. cbn [app] in Et. rewrite Et, push_closed by (by rewrite Ea).
    replace (Z.to_nat b - 1)%nat with (length body) by (subst b; cbn [length]; lia).
    rewrite loop_skip. do 2 f_equal. subst b. cbn [length]. lia.
  - intros g d Hg. rewrite seen_offsets. unfold body_calls. cbn [x_parser x reading hp_content_length]. fold b.
    rewrite Z.sub_diag. cbn [Z.eqb]. unfold b. rewrite Nat2Z.id, take_app_length. unfold seen_calls, see. cbn.
    by rewrite Hg.
Qed.

(** One request takes the parser from between two messages to there again. *)
Lemma request_loop x q rest off :
  idle x -> request_ok q ->
  exists l y, idle y /\
    execute_loop 0 (request_bytes q ++ rest) off x =
      preceded l (execute_loop 0 rest (off + Z.of_nat (length (request_bytes q))) y) /\
    forall d, seen l (mk_view no_message d) = mk_view no_message (d ++ [(message_of q, shown q)]).
Proof.
  intros Hx Hq. pose proof (run_head x q Hx Hq) as Hh. unfold request_bytes, message_of.
  destruct (q_body q) as [|c body] eqn:Eb.
  - destruct Hh as (l & y & Hy & R & S). rewrite app_nil_r.
    destruct (run_text_loop x _ _ _ rest off R) as (l' & El & Hl). exists l', y. split; [done|]. split; [done|].
    intros d. rewrite Hl, S. unfold message_of. by rewrite Eb.
  - destruct Hh as (p0 & l & h & i & R & S).
    destruct (run_text_loop x _ _ _ ((c :: body) ++ rest) off R) as (l1 & E1 & Hl).
    destruct (body_loop p0 (q_method q) (c :: body) rest (off + Z.of_nat (length (head_bytes q))) h i) as (l2 & y & Hy & E2 & H2); [done|].
    exists (l1 ++ l2), y. split; [done|]. split.
    + rewrite <-app_assoc, E1, E2, preceded_app, length_app, Nat2Z.inj_add. by rewrite Z.add_assoc.
    + intros d. rewrite seen_app, Hl, S, H2 by done. done.
Qed.

Lemma requests_loop x qs off :
  idle x -> Forall request_ok qs ->
  exists l y, let text := concat (map request_bytes qs) in
    execute_loop 0 text off x = inr (l, stored y, off + Z.of_nat (length text)) /\ idle y /\
    forall d, seen l (mk_view no_message d) = mk_view no_message (d ++ map (fun q => (message_of q, shown q)) qs).
Proof.
  intros Hx Hok. revert x off Hx. induction Hok as [|q qs Hq _ IH]; intros x off Hx; cbn [map concat].
  - exists [], x. cbn [length Z.of_nat execute_loop]. rewrite Z.add_0_r. split; [|split; [done|intros d; by rewrite app_nil_r]].
    by destruct Hx as (p0 & m & cl & major & minor & h & i & ->).
  - destruct (request_loop x q (concat (map request_bytes qs)) off Hx Hq) as (l1 & y & Hy & E & S).
    destruct (IH y (off + Z.of_nat (length (request_bytes q))) Hy) as (l2 & z & E2 & Hz & S2).
    exists (l1 ++ l2), z. split; [|split; [done|]].
    + rewrite E, E2. cbn. by rewrite length_app, Nat2Z.inj_add, Z.add_assoc.
    + intros d. by rewrite seen_app, S, S2, <-app_assoc.
Qed.

(** C13: the HTTP parser reads back what a client writes. Requests sent one after another
    on a connection (a known method other than [CONNECT], an absolute path with or without a
    query string, headers that the parser gives no meaning to, and a body announced by
    [Content-Length]), cut into reads in any way, are parsed to the last byte: one message is
    completed per request, in order, with its URL, query string, header names and values
    and body, its method and version 1.1, and nothing is left over for the next message. *)
Theorem requests_parsed (qs : list http_request) (pieces : list bytes) :
  Forall request_ok qs -> Forall (fun d => d <> []) pieces -> concat pieces = concat (map request_bytes qs) ->
  exists l p, feed (http_parser_init HTTP_REQUEST) pieces = inr (l, p, Z.of_nat (length (concat pieces))) /\
    hp_state p = s_start_req /\
    seen l no_view = mk_view no_message (map (fun q => (message_of q, (0, 1, 1, q_method q, false))) qs).
Proof.
  intros Hok Hne Hc. set (p1 := http_parser_init HTTP_REQUEST).
  destruct (requests_loop (enter p1) qs 0) as (l & y & E & Hy & S); [|done|].
  { by exists p1, 0, 0, 0, 0, h_general, 0. }
  rewrite <-Hc in E. destruct (concat pieces) as [|c text] eqn:Et.
  - assert (pieces = []) as -> by (destruct Hne as [|[]]; done). destruct qs as [|q qs]; [by exists [], p1|].
    exfalso. cbn [map concat] in Hc. symmetry in Hc. apply app_eq_nil in Hc as [Hc _]. apply Forall_cons in Hok as [Hq _].
    unfold request_bytes, head_bytes in Hc. by destruct (method_name (q_method q)).
  - rewrite <-execute_cons in E. pose proof (feed_pieces p1 pieces init_good Hne) as E1. rewrite Et in E1.
    pose proof (execute_bytewise p1 (c :: text) init_good ltac:(done)) as E2.
    pose proof (equiv_trans _ _ _ _ E1 (equiv_sym _ _ _ E2)) as E3. rewrite E in E3.
    destruct (feed p1 pieces) as [f|[[l1 q1] n1]]; [done|]. destruct E3 as (Hn & _ & _ & _ & He).
    destruct He as (-> & _ & Hs); [lia|]. exists l1, (stored y). split; [f_equal; f_equal; lia|]. split.
    + by destruct Hy as (p0 & m & cl & major & minor & h & i & ->).
    + rewrite Hs, ahead_none. apply (S []).
Qed.

Definition sample_requests : list http_request :=
  [mk_request HTTP_GET (lit "/GET/k") (Some (lit "type=text/plain")) [(lit "Host", lit "localhost"); (lit "Accept", [])] [];
   mk_request HTTP_PUT (lit "/SET/k") None [(lit "Host", lit "localhost")] (lit "hello, world")].

Lemma requests_parsed_witness :
  let text := concat (map request_bytes sample_requests) in
  let pieces := [take 11 text; take 60 (drop 11 text); drop 71 text] in
  exists l p, feed (http_parser_init HTTP_REQUEST) pieces = inr (l, p, Z.of_nat (length text)) /\
    hp_state p = s_start_req /\
    seen l no_view = mk_view no_message (map (fun q => (message_of q, (0, 1, 1, q_method q, false))) sample_requests).
Proof.
  intros text pieces. assert (concat pieces = text) as E by (vm_compute; reflexivity). rewrite <-E.
  apply (requests_parsed sample_requests pieces); [|by repeat constructor|exact E].
  repeat apply Forall_cons_2; [..|by apply Forall_nil];
    (split; [vm_compute; done|split; [done|split; [eexists; split; [reflexivity|by repeat constructor]|
     split; [by repeat constructor|split; [by repeat constructor|split; vm_compute; done]]]]]).
Defined.

End Parse.
