(* ===== verification/WebSocket.v ===== *)
(** * WebSocket clients: src/websocket.c and [raw_ws_extract] of src/formats/raw.c

    An upgraded client is answered with the handshake of RFC 6455 and then owns a
    connection to Redis; every message is a command in JSON or in the protocol of
    Redis, which is checked, sent on that connection, and answered with frames. Two
    one-shot events drive it, one for input and one for output; the object is freed
    once neither is pending. The frames themselves are in [WsFrame], the sending of
    frames in [Format]. *)
From S2P Require Import Prelude Types Base64 Acl WsFrame Http Raw Resp Digest Uri Json JsonReply Msgpack World Slog Pool Cmd Format Hiredis Client.

Local Open Scope Z_scope.

Module WebSocket.
Import Base64 Acl WsFrame Http Raw Digest Uri Json JsonReply Msgpack World Pool Cmd Format Hiredis Client.

(** ** The handshake *)

Definition magic : bytes := lit "258EAFA5-E914-47DA-95CA-C5AB0DC85B11".

(** The words of the digest in network order; [memcpy] lays them out in the order
    of the host. *)
Definition digest_bytes (digest : list Z) : bytes := flat_map (fun x => le_bytes 4 (ntohl x)) digest.

Definition ws_accept (key : bytes) : bytes :=
  let ctx := SHA1Input SHA1Reset (key ++ magic) in
  let ctx := default ctx (SHA1Result ctx) in
  let out := cstr (base64_encode_all (digest_bytes (Message_Digest ctx))) in
  if bool_decide (last out = Some x0a) then take (length out - 1) out else out.

Definition ws_compute_handshake (c : loc) : M (option bytes) :=
  cl ← get_client c;
  let bad := slog WEBDIS_WARNING (lit "Invalid Sec-WebSocket-Key") ;; mret None in
  match client_get_header cl (lit "Sec-WebSocket-Key") with
  | None => bad
  | Some v =>
      let key := cstr v in
      if (length key <? 16)%nat || (32 <? length key)%nat then bad
      else
        ok ← alloc_ok;
        if (ok : bool) then mret (Some (ws_accept key))
        else slog WEBDIS_ERROR (lit "Failed to allocate memory for WS header") ;; mret None
  end.

Definition template_start : bytes :=
  lit "HTTP/1.1 101 Switching Protocols" ++ CRLF ++ lit "Upgrade: websocket" ++ CRLF ++ lit "Connection: Upgrade".
Definition template_accept : bytes := CRLF ++ lit "Sec-WebSocket-Accept: ".
Definition template_sec_origin : bytes := CRLF ++ lit "Sec-WebSocket-Origin: ".
Definition template_loc : bytes := CRLF ++ lit "Sec-WebSocket-Location: ws://".
Definition template_end : bytes := CRLF ++ CRLF.

(** The text of the answer. *)
Definition handshake_text (accept : bytes) (origin : option bytes) (host path : bytes) : bytes :=
  template_start ++ template_accept ++ accept ++
  match origin with
  | Some ((_ :: _) as o) => template_sec_origin ++ o
  | _ => []
  end ++ template_loc ++ host ++ path ++ template_end.

Definition ws_handshake_reply (ws : loc) : M bool :=
  x ← get_ws ws;
  c ← deref (ws_http_client x);
  cl ← get_client c;
  let origin := cstr <$> match client_get_header cl (lit "Origin") with
                         | Some o => Some o
                         | None => client_get_header cl (lit "Sec-WebSocket-Origin")
                         end in
  let host := default [] (cstr <$> client_get_header cl (lit "Host")) in
  let path := default [] (hc_path cl) in
  if bool_decide (host = []) || bool_decide (path = []) then
    slog WEBDIS_WARNING (lit "Missing headers for WS handshake") ;; mret false
  else
    handshake ← ws_compute_handshake c;
    match handshake with
    | None => slog WEBDIS_WARNING (lit "Failed to compute handshake") ;; mret false
    | Some accept =>
        buffer ← alloc_ok;
        if negb buffer then slog WEBDIS_ERROR (lit "Failed to allocate buffer for WS handshake") ;; mret false
        else
          added ← alloc_ok;
          if negb added then slog WEBDIS_ERROR (lit "Failed to add response for WS handshake") ;; mret false
          else
            upd_ws ws (fun x => set_ws_wbuf (ws_wbuf x ++ handshake_text accept origin host path) x) ;;
            ws_schedule_write ws
    end.

(** ** Messages *)

(** raw.c, [raw_ws_extract]: the elements of the array as arguments. An integer is
    printed into a buffer of [integer_length] bytes and the terminator. *)
Fixpoint raw_fill (element : list redisReply) (argv : list bytes) : M (option (list bytes)) :=
  match element with
  | [] => mret (Some argv)
  | REPLY_STRING s :: rest => raw_fill rest (argv ++ [s])
  | REPLY_INTEGER z :: rest =>
      let text := print_int z in
      let n := Z.to_nat (integer_length z) in
      if (n <? length text)%nat then fail OutOfBounds
      else raw_fill rest (argv ++ [text ++ replicate (n - length text) x00])
  | _ :: _ => mret None
  end.

Section Execute.
Context `{Packer} `{Resp.Strtod}.

(** The reader returns no reply, without error, for a text that is not complete:
    [reply->type] then reads through [NULL]. *)
Definition raw_ws_extract (c : loc) (p : bytes) : M (option loc) :=
  match Resp.redisReaderGetReply (Resp.redisReaderFeed Resp.redisReaderCreate p) with
  | (false, _, _) => mret None
  | (true, None, _) => fail NullDeref
  | (true, Some (REPLY_ARRAY element), _) =>
      cm ← cmd_new (Some c) (length element);
      argv ← raw_fill element [];
      match argv with
      | Some argv => upd_cmd cm (set_cmd_argv argv) ;; mret (Some cm)
      | None => cmd_free cm ;; mret None
      end
  | (true, Some _, _) => mret None
  end.

Definition json_ws_command (c : loc) (p : bytes) : M (option loc) :=
  match json_ws_extract p with
  | None => mret None
  | Some argv =>
      cm ← cmd_new (Some c) (length argv);
      upd_cmd cm (set_cmd_argv argv) ;;
      mret (Some cm)
  end.

(** The choice of the functions from the path of the handshake; [raw_reply] stands
    for the three of raw.c, [json_reply] for the three of json.c. *)
Definition ws_format (path : bytes) : option formatting_fun :=
  if bytes_eqb path (lit "/") || strncmp_eq 6 path (lit "/.json") then Some json_reply
  else if strncmp_eq 5 path (lit "/.raw") then Some raw_reply
  else None.

Definition ws_extract (f : formatting_fun) (c : loc) (p : bytes) : M (option loc) :=
  match f with raw_reply => raw_ws_extract c p | _ => json_ws_command c p end.

Definition ws_error (f : formatting_fun) (code : Z) (msg : bytes) : option bytes :=
  match f with raw_reply => Some (raw_ws_error msg) | _ => json_ws_error code msg end.

(** The arguments of a log line, in the room left in its buffer. *)
Fixpoint log_args (room : nat) (argv : list bytes) : bytes :=
  match room, argv with
  | S room, arg :: rest => x2f :: take room arg ++ log_args (room - length arg) rest
  | _, _ => []
  end.

Definition ws_log_cmd (ws cm : loc) : M unit :=
  b ← slog_enabled WEBDIS_DEBUG;
  if negb b then skip
  else
    x ← get_cmd cm;
    if cmd_count x <=? Z.of_nat (length (cmd_argv x)) then
      slog WEBDIS_DEBUG (lit "WS: " ++ log_args (Slog.SLOG_MSG_MAX_LEN - 5) (take (Z.to_nat (cmd_count x)) (cmd_argv x)))
    else fail OutOfBounds.

Definition ws_log_unauthorized (ws : loc) : M unit := slog WEBDIS_DEBUG (lit "WS: 403").

(** The command of the connection: the first one is kept, the later ones only give
    it their arguments. *)
Definition ws_adopt (ws c cm : loc) : M loc :=
  x ← get_ws ws;
  match ws_cmd x with
  | Some old =>
      cmd_free_argv old ;;
      y ← get_cmd cm;
      upd_cmd old (fun o => set_cmd_pub_sub_client (Some c)
                              (set_cmd_argv (cmd_argv y) (set_cmd_count (cmd_count y) o))) ;;
      upd_cmd cm (fun y => set_cmd_count 0 (set_cmd_argv [] y)) ;;
      cmd_free cm ;;
      mret old
  | None =>
      cmd_setup cm c ;;
      upd_cmd cm (set_cmd_ac (ws_ac x)) ;;
      upd_ws ws (set_ws_cmd (Some cm)) ;;
      upd_cmd cm (set_cmd_pub_sub_client (Some c)) ;;
      mret cm
  end.

(** The checks, and the command itself. *)
Definition ws_run (ws c cm : loc) (f : formatting_fun) : M unit :=
  y ← get_cmd cm;
  cl ← get_client c;
  x ← get_ws ws;
  cfg ← gets w_cfg;
  let is_subscribe := cmd_is_subscribe_args y in
  let is_unsubscribe := cmd_is_unsubscribe_args y in
  if negb (acl_allow_command y cfg cl) then
    error ← deref (ws_error f 403 (lit "Forbidden"));
    _ ← ws_frame_and_send_response ws WS_BINARY_FRAME error;
    ws_log_cmd ws cm ;;
    ws_log_unauthorized ws
  else if ws_ran_subscribe x && negb is_subscribe && negb is_unsubscribe then
    _ ← ws_frame_and_send_response ws WS_BINARY_FRAME (lit "Command not allowed after subscribe");
    skip
  else
    ws_log_cmd ws cm ;;
    cmd_send cm f ;;
    upd_ws ws (set_ws_ran_subscribe is_subscribe).

(** Whether the code returns 0. *)
Definition ws_execute (ws : loc) (msg : ws_msg) : M bool :=
  x ← get_ws ws;
  c ← deref (ws_http_client x);
  cl ← get_client c;
  path ← deref (hc_path cl);
  match ws_format path with
  | None => mret false
  | Some f =>
      cm ← ws_extract f c (msg_payload msg);
      match cm with
      | None => mret false
      | Some cm =>
          upd_cmd cm (set_cmd_is_websocket true) ;;
          cm ← ws_adopt ws c cm;
          ws_run ws c cm f ;;
          mret true
      end
  end.

(** ** Input *)

Definition unmasked_reason : bytes :=
  [x03; xea] ++ lit "Received a frame without a mask from the client (violates RFC6455, 5.1. Overview).".

(** [ws_peek_data] with [out_msg] (if [out]) or without. *)
Definition ws_peek_data (ws : loc) (out : bool) : M (ws_state * option ws_msg) :=
  x ← get_ws ws;
  if (length (ws_rbuf x) <? 2)%nat then mret (WS_READING, None)
  else
    frame ← alloc_ok;
    if negb frame then mret (WS_ERROR, None)
    else
      match ws_peek (ws_rbuf x) with
      | PeekReading => mret (WS_READING, None)
      | PeekUnmasked =>
          upd_ws ws (set_ws_close_after_events true) ;;
          _ ← ws_frame_and_send_response ws WS_CONNECTION_CLOSE unmasked_reason;
          mret (WS_ERROR, None)
      | PeekFrame h =>
          let state := if fh_fin h then WS_MSG_COMPLETE else WS_READING in
          if negb out then mret (state, None)
          else
            msg ← alloc_ok;
            if negb msg then mret (WS_ERROR, None)
            else
              payload ← alloc_ok;
              if negb payload then mret (WS_ERROR, Some (mk_ws_msg (fh_type h) [] 0))
              else
                upd_ws ws (set_ws_rbuf (drop (fh_size h) (ws_rbuf x))) ;;
                mret (state, Some (ws_take_msg (ws_rbuf x) h))
      end.

(** What a message does. *)
Definition ws_dispatch (ws : loc) (msg : ws_msg) : M bool :=
  if (msg_type msg =? WS_TEXT_FRAME) || (msg_type msg =? WS_BINARY_FRAME) then ws_execute ws msg
  else if msg_type msg =? WS_PING then
    _ ← ws_frame_and_send_response ws WS_PONG (msg_payload msg); mret true
  else if msg_type msg =? WS_CONNECTION_CLOSE then
    upd_ws ws (set_ws_close_after_events true) ;;
    _ ← ws_frame_and_send_response ws WS_CONNECTION_CLOSE (msg_payload msg);
    mret true
  else
    slog WEBDIS_WARNING (lit "Received unexpected WS frame type: 0x" ++ print_hex (msg_type msg)) ;; mret true.

(** The loop of [ws_process_read_data], from the state the last peek returned: every
    turn drains a frame of six bytes or more, unless an allocation fails, so the
    bytes read and the failures to come bound the turns. *)
Fixpoint process_frames (fuel : nat) (ws : loc) (state : ws_state) : M ws_state :=
  match state, fuel with
  | WS_MSG_COMPLETE, O => fail OutOfFuel
  | WS_MSG_COMPLETE, S fuel =>
      '(_, msg) ← ws_peek_data ws true;
      ret ← match msg with Some msg => ws_dispatch ws msg | None => mret true end;
      if (ret : bool) then
        '(state, _) ← ws_peek_data ws false;
        process_frames fuel ws state
      else
        slog WEBDIS_DEBUG (lit "ws_process_read_data: ws_execute failed") ;;
        mret WS_ERROR
  | _, _ => mret state
  end.

Definition ws_process_read_data (ws : loc) : M ws_state :=
  '(state, _) ← ws_peek_data ws false;
  x ← get_ws ws;
  w ← get;
  process_frames (S (length (ws_rbuf x) + length (w_alloc w))) ws state.

(** ** Ends and events *)

Definition ws_client_new (c : loc) : M (option loc) :=
  cfg ← gets w_cfg;
  ws_ok ← alloc_ok;
  rbuf ← alloc_ok;
  wbuf ← alloc_ok;
  ac ← pool_connect (cfg_database cfg) false;
  if negb ((ws_ok : bool) && rbuf && wbuf) then
    slog WEBDIS_ERROR (lit "Failed to allocate memory for WS client") ;;
    match ac with Some ac => redisAsyncFree ac | None => skip end ;;
    mret None
  else
    ws ← fresh;
    put_ws ws (mk_ws (Some c) false false [] [] ac None false false) ;;
    upd_client c (set_hc_ws (Some ws)) ;;
    mret (Some ws).

Definition ws_client_free (ws : loc) : M unit :=
  upd_ws ws (set_ws_close_after_events true) ;;
  x ← get_ws ws;
  pool_free_context (ws_ac x) ;;
  x ← get_ws ws;
  (match ws_http_client x with
   | Some c =>
       cl ← get_client c;
       emit (EvClose (hc_fd cl)) ;;
       put_client c (set_hc_ws None cl)
   | None => skip
   end) ;;
  (match ws_cmd x with
   | Some cm => upd_cmd cm (set_cmd_ac None) ;; cmd_free cm
   | None => skip
   end) ;;
  del_ws ws ;;
  match ws_http_client x with
  | Some c => http_client_free c
  | None => skip
  end.

Definition ws_close_if_able (ws : loc) : M unit :=
  upd_ws ws (set_ws_close_after_events true) ;;
  x ← get_ws ws;
  if ws_scheduled_read x || ws_scheduled_write x then skip else ws_client_free ws.

(** [ws_can_read]; [data] is what [evbuffer_read] delivers, nothing when the peer
    has closed or the read fails. *)
Definition ws_can_read (ws : loc) (data : bytes) : M unit :=
  upd_ws ws (fun x => set_ws_rbuf (ws_rbuf x ++ data) (set_ws_scheduled_read false x)) ;;
  x ← get_ws ws;
  if bool_decide (data = []) || ws_close_after_events x then ws_close_if_able ws
  else
    state ← ws_process_read_data ws;
    match state with
    | WS_READING => _ ← ws_monitor_input ws; skip
    | WS_ERROR => ws_close_if_able ws
    | WS_MSG_COMPLETE => skip
    end.

(** [ws_can_write]; [n] is the number of bytes [evbuffer_write_atmost] writes to [fd]
    (0 when it fails). *)
Definition ws_can_write (fd : Z) (ws : loc) (n : nat) : M unit :=
  x ← get_ws ws;
  let sent := take n (ws_wbuf x) in
  put_ws ws (set_ws_wbuf (drop n (ws_wbuf x)) (set_ws_scheduled_write false x)) ;;
  if bool_decide (sent = []) then ws_close_if_able ws
  else
    emit (EvWrite fd sent) ;;
    if negb (bool_decide (drop n (ws_wbuf x) = [])) then _ ← ws_schedule_write ws; skip
    else if ws_close_after_events x then ws_close_if_able ws
    else
      _ ← ws_process_read_data ws;
      _ ← ws_monitor_input ws;
      skip.

End Execute.

(** ** The handshake of RFC 6455 *)

(** Section 4.2.2: the key with the GUID behind it, hashed, in base64. *)
Definition rfc_accept (key : bytes) : bytes :=
  b64 (flat_map (be_bytes 4) (sha1_spec (key ++ lit "258EAFA5-E914-47DA-95CA-C5AB0DC85B11"))).

Lemma digest_bytes_be d : digest_bytes d = flat_map (be_bytes 4) d.
Proof. apply flat_map_ext. intros x. apply le_bytes_bswap. Qed.

Lemma base64_line l : Z.of_nat (length l) < 3072 -> base64_encode_all l = b64 l ++ [x0a].
Proof. intros Hl. unfold base64_encode_all. pose proof (one_line l Hl). by destruct (base64_encode_block l _). Qed.

Lemma ws_accept_rfc key : (length key <= 32)%nat -> ws_accept key = rfc_accept key.
Proof.
  intros Hk. unfold ws_accept, rfc_accept. fold magic. cbv zeta.
  destruct (sha1_once (key ++ magic)) as (c & Hc & Hd); [rewrite length_app; cbn; lia|].
  rewrite Hc. cbn [from_option]. unfold id. rewrite Hd, digest_bytes_be. set (d := flat_map _ _).
  assert (length d = 20%nat) as Hlen.
  { subst d. clear. pose proof (length_sha1_spec (key ++ magic)) as Hl.
    destruct (sha1_spec (key ++ magic)) as [|a1 [|a2 [|a3 [|a4 [|a5 [|]]]]]]; try discriminate Hl.
    cbn [flat_map]. by rewrite !length_app, !length_be_bytes. }
  rewrite base64_line by lia. clearbody d.
  rewrite cstr_id by (unfold no_nul; rewrite elem_of_app, list_elem_of_singleton; intros [Hin|]; [by apply (b64_no_nul d)|done]).
  rewrite last_snoc, bool_decide_true by done. rewrite length_app. cbn [length].
  by rewrite Nat.add_sub, take_app_length.
Qed.

(** The headers of the answer. *)
Definition handshake_headers (accept : bytes) (origin : option bytes) (host path : bytes) : list http_header :=
  [mk_header (lit "Upgrade") (lit "websocket") 0; mk_header (lit "Connection") (lit "Upgrade") 0;
   mk_header (lit "Sec-WebSocket-Accept") accept 0] ++
  match origin with
  | Some ((_ :: _) as o) => [mk_header (lit "Sec-WebSocket-Origin") o 0]
  | _ => []
  end ++ [mk_header (lit "Sec-WebSocket-Location") (lit "ws://" ++ host ++ path) 0].

Lemma handshake_text_lines accept origin host path :
  handshake_text accept origin host path =
  lit "HTTP/1.1 101 Switching Protocols" ++ CRLF ++
  concat (map header_line (handshake_headers accept origin host path)) ++ CRLF ++ [].
Proof.
  unfold handshake_text, handshake_headers, template_start, template_accept, template_sec_origin, template_loc, template_end.
  rewrite !map_app, !concat_app. unfold header_line. cbn [map concat h_key h_val].
  destruct origin as [[|o os]|]; cbn [map concat h_key h_val]; rewrite ?app_nil_r, <-!app_assoc; cbn [lit]; reflexivity.
Qed.

Lemma handshake_text_parse accept origin host path :
  x0d ∉ accept -> (forall o, origin = Some o -> x0d ∉ o) -> x0d ∉ host -> x0d ∉ path ->
  parse_response (handshake_text accept origin host path) =
  Some (lit "1", 101, lit "Switching Protocols",
        map (fun h => (h_key h, h_val h)) (handshake_headers accept origin host path), []).
Proof.
  intros Ha Ho Hh Hp. rewrite handshake_text_lines. unfold parse_response.
  rewrite split_crlf_app by by_decide. cbn [mbind option_bind].
  change (bytes_eqb _ _) with true. cbv iota.
  change (parse_digits 10 _) with (Some 101). cbn [mbind option_bind].
  rewrite header_lines_parse; [done| |].
  - assert (forall k v, bool_decide (k <> [] /\ x3a ∉ k /\ x0d ∉ k) = true -> x0d ∉ v -> wf_header (mk_header k v 0)) as Hw.
    { intros k v Hk%bool_decide_eq_true Hv. unfold wf_header. cbn. tauto. }
    unfold handshake_headers. repeat apply Forall_app_2; repeat apply Forall_cons_2; try apply Forall_nil_2;
      try (apply Hw; [by vm_compute|first [done|by_decide]]).
    + destruct origin as [[|o os]|]; [constructor| |constructor]. apply Forall_singleton, Hw; [by vm_compute|exact (Ho _ eq_refl)].
    + apply Hw; [by vm_compute|]. rewrite !not_elem_of_app. repeat split; [by_decide|done|done].
  - rewrite !length_app. change (length (lit "HTTP/1.1 101 Switching Protocols")) with 32%nat.
    enough (length (handshake_headers accept origin host path) <= 5)%nat by lia.
    unfold handshake_headers. destruct origin as [[|o os]|]; cbn; lia.
Qed.

Section Handshake.
Context (w : world) (Halloc : w_alloc w = []).

Lemma alloc_succeeds {A} (k : bool -> M A) : (alloc_ok ≫= k) w = k true w.
Proof using Halloc. apply bind_eq. unfold alloc_ok. rewrite (bind_eq get _ w w w) by done. by rewrite Halloc. Qed.

Lemma schedule_write_runs ws x c cl :
  w_wss w !! ws = Some x -> ws_http_client x = Some c -> w_clients w !! c = Some cl -> ws_scheduled_write x = false ->
  ws_schedule_write ws w =
  Ok true (set_w_pending (w_pending w ++ [OnWsWrite ws])
             (set_w_wss (<[ws := set_ws_scheduled_write true x]> (w_wss w)) w)).
Proof using Halloc.
  intros Hx Hc Hcl Hs. unfold ws_schedule_write. rewrite (run_get_ws _ _ _ _ Hx), Hs, Hc. unfold put_ws, deref.
  M_run. unfold event_base_once, alloc_ok. M_run. rewrite Halloc. M_run. done.
Qed.
End Handshake.

(** The origin a client names, under either header. *)
Definition client_origin (cl : http_client) : option bytes :=
  match client_get_header cl (lit "Origin") with
  | Some o => Some o
  | None => client_get_header cl (lit "Sec-WebSocket-Origin")
  end.

(** C12: the opening handshake of RFC 6455. A client that gives a key of 16 to 32
    bytes, a host and a path gets, in one piece behind what was queued and with the
    write event registered, an HTTP/1.1 answer with status 101 whose headers are
    those the standard requires: the upgrade, and as Sec-WebSocket-Accept the base64
    of the SHA-1 of the key followed by the standard's GUID. *)
Theorem ws_handshake ws w x c cl key host path :
  w_wss w !! ws = Some x -> ws_http_client x = Some c -> w_clients w !! c = Some cl -> w_alloc w = [] ->
  ws_scheduled_write x = false ->
  client_get_header cl (lit "Sec-WebSocket-Key") = Some key -> no_nul key -> (16 <= length key <= 32)%nat ->
  client_get_header cl (lit "Host") = Some host -> no_nul host -> host <> [] -> x0d ∉ host ->
  hc_path cl = Some path -> path <> [] -> x0d ∉ path ->
  (forall o, client_origin cl = Some o -> no_nul o /\ x0d ∉ o) ->
  exists text, parse_response text =
    Some (lit "1", 101, lit "Switching Protocols",
          [(lit "Upgrade", lit "websocket"); (lit "Connection", lit "Upgrade");
           (lit "Sec-WebSocket-Accept", rfc_accept key)] ++
          match client_origin cl with
          | Some ((_ :: _) as o) => [(lit "Sec-WebSocket-Origin", o)]
          | _ => []
          end ++ [(lit "Sec-WebSocket-Location", lit "ws://" ++ host ++ path)], []) /\
    ws_handshake_reply ws w =
    Ok true (set_w_pending (w_pending w ++ [OnWsWrite ws])
               (set_w_wss (<[ws := set_ws_scheduled_write true (set_ws_wbuf (ws_wbuf x ++ text) x)]> (w_wss w)) w)).
Proof.
  intros Hx Hc Hcl Ha Hs Hkey Hkn Hkl Hhost Hhn Hh0 Hhr Hpath Hp0 Hpr Ho.
  exists (handshake_text (rfc_accept key) (client_origin cl) host path). split.
  - rewrite handshake_text_parse; [|..].
    + unfold handshake_headers. rewrite !map_app. cbn [map h_key h_val].
      by destruct (client_origin cl) as [[|]|].
    + intros Hin. unfold rfc_accept in Hin.
      assert (Forall (fun c => c <> x0d) (b64 (flat_map (be_bytes 4) (sha1_spec (key ++ lit "258EAFA5-E914-47DA-95CA-C5AB0DC85B11"))))) as Hf.
      { apply b64_chars; [|done]. intros v Hv. apply byte_eqb_neq, negb_true_iff. revert v Hv. apply forall_below.
        vm_compute. reflexivity. }
      rewrite Forall_forall in Hf. by apply (Hf x0d).
    + intros o E. by apply Ho.
    + done.
    + done.
  - unfold ws_handshake_reply. rewrite (run_get_ws _ _ _ _ Hx), Hc. unfold deref. M_run.
    rewrite Hhost, Hpath. cbn [fmap option_fmap option_map default from_option]. rewrite (cstr_id host) by done.
    unfold id. rewrite !bool_decide_false by done. cbn [orb].
    unfold ws_compute_handshake. M_run. rewrite Hkey, (cstr_id key) by done.
    rewrite (proj2 (Nat.ltb_ge _ _)), (proj2 (Nat.ltb_ge _ _)) by lia. cbn [orb].
    rewrite M_bind_assoc, alloc_succeeds by done. M_run. rewrite alloc_succeeds by done. cbn [negb].
    rewrite alloc_succeeds by done. cbn [negb].
    M_run. fold (client_origin cl). rewrite ws_accept_rfc by lia.
    assert (cstr <$> client_origin cl = client_origin cl) as ->.
    { destruct (client_origin cl) as [o|]; [|done]. cbn. f_equal. apply cstr_id. by apply Ho. }
    erewrite schedule_write_runs; [|done|apply lookup_insert_eq|done|done|done]. world_norm. done.
Qed.

(** The example of RFC 6455, section 1.3. *)
Definition handshake_client : http_client :=
  set_hc_path (Some (lit "/chat")) (set_hc_headers
    [mk_req_header (lit "Host") (Some (lit "server.example.com"));
     mk_req_header (lit "Sec-WebSocket-Key") (Some (lit "dGhlIHNhbXBsZSBub25jZQ=="));
     mk_req_header (lit "Origin") (Some (lit "http://example.com"))] a_client).

Definition handshake_world : world :=
  set_w_wss {[ 11%positive := mk_ws (Some 4%positive) false false [] [] None None false false ]}
    (set_w_clients {[ 4%positive := handshake_client ]} a_world).

Lemma ws_handshake_witness :
  rfc_accept (lit "dGhlIHNhbXBsZSBub25jZQ==") = lit "s3pPLMBiTxaQ9kYGzzhZRbK+xOo=" /\
  exists text w', ws_handshake_reply 11 handshake_world = Ok true w' /\
    ws_wbuf <$> w_wss w' !! 11%positive = Some text /\
    exists hs, parse_response text = Some (lit "1", 101, lit "Switching Protocols", hs, []) /\
      (lit "Sec-WebSocket-Accept", lit "s3pPLMBiTxaQ9kYGzzhZRbK+xOo=") ∈ hs.
Proof.
  split; [vm_compute; reflexivity|].
  destruct (ws_handshake 11 handshake_world (mk_ws (Some 4%positive) false false [] [] None None false false) 4
              handshake_client (lit "dGhlIHNhbXBsZSBub25jZQ==") (lit "server.example.com") (lit "/chat"))
    as (text & Ht & E);
    try (first [reflexivity | by_decide | vm_compute; lia | discriminate]).
  { intros o [= <-]. split; by_decide. }
  eexists text, _. split; [exact E|]. split; [vm_compute; reflexivity|].
  eexists. split; [exact Ht|]. apply elem_of_app. left. right. right. vm_compute. left.
Defined.

End WebSocket.
