(* ===== verification/WsExec.v ===== *)
(** * What the messages of a WebSocket client do

    A message becomes a command, which is refused by the access control, refused
    because the connection has subscribed, or sent on the client's own connection
    to Redis; frames are executed in the order they arrive, however the input was
    cut. The properties are stated for a connection to Redis that is up. *)
From S2P Require Import Prelude Types Base64 Acl WsFrame Http Raw Resp Digest Uri Json JsonReply Msgpack World Pool Cmd Format Hiredis Client WebSocket.

Local Open Scope Z_scope.

Module WsExec.
Import Base64 Acl WsFrame Http Raw Digest Uri Json JsonReply Msgpack World Pool Cmd Format Hiredis Client WebSocket.

(** ** The arguments of a message *)

Definition raw_argument (r : redisReply) : option bytes :=
  match r with
  | REPLY_STRING s => Some s
  | REPLY_INTEGER z => if bool_decide (small_int z) then Some (print_int z) else None
  | _ => None
  end.

Section Exec.
Context `{Packer} `{Resp.Strtod}.

(** The argument vector in a payload, in the format of the path. *)
Definition ws_argv (f : formatting_fun) (p : bytes) : option (list bytes) :=
  match f with
  | raw_reply =>
      match Resp.redisReaderGetReply (Resp.redisReaderFeed Resp.redisReaderCreate p) with
      | (true, Some (REPLY_ARRAY element), _) => mapM raw_argument element
      | _ => None
      end
  | _ => json_ws_extract p
  end.

Lemma raw_fill_runs l acc argv w :
  mapM raw_argument l = Some argv -> raw_fill l acc w = Ok (Some (acc ++ argv)) w.
Proof using.
  revert acc argv. induction l as [|r l IH]; intros acc argv E; cbn in E.
  { injection E as <-. by rewrite app_nil_r. }
  destruct (raw_argument r) as [a|] eqn:Ea; [|done]. cbn in E. destruct (mapM raw_argument l) as [as_|]; [|done].
  injection E as <-. destruct r; cbn [raw_argument raw_fill] in Ea |- *; try done.
  - injection Ea as <-. rewrite (IH _ as_) by done. by rewrite <-app_assoc.
  - destruct (bool_decide (small_int integer)) eqn:Hz; [|done]. injection Ea as <-. apply bool_decide_eq_true in Hz.
    rewrite integer_length_print, Nat2Z.id by done. rewrite (proj2 (Nat.ltb_ge _ _)) by done.
    rewrite (IH _ as_) by done. by rewrite Nat.sub_diag, app_nil_r, <-app_assoc.
Qed.

(** The new command object. *)
Definition ws_new_cmd (c : loc) (argv : list bytes) : cmd :=
  mk_cmd 0 (Z.of_nat (length argv)) argv None false None None None None false false false 0 0 (Some c) None None.

Definition with_new_cmd (c : loc) (cl : http_client) (argv : list bytes) (w : world) : world :=
  with_cmd c (w_next w) (ws_new_cmd c argv) (set_hc_last_cmd (Some (w_next w)) cl) w.

Lemma json_command_runs c p w cl argv :
  w_clients w !! c = Some cl -> json_ws_extract p = Some argv ->
  json_ws_command c p w = Ok (Some (w_next w)) (with_new_cmd c cl argv w).
Proof using. intros Hcl E. destruct w. unfold json_ws_command. rewrite E. unfold cmd_new. M_run. done. Qed.

Lemma ws_extract_runs f c p w cl argv :
  w_clients w !! c = Some cl -> ws_argv f p = Some argv ->
  ws_extract f c p w = Ok (Some (w_next w)) (with_new_cmd c cl argv w).
Proof using.
  intros Hcl Ha. unfold ws_extract, ws_argv in *. destruct f; try by apply json_command_runs.
  unfold raw_ws_extract. destruct (Resp.redisReaderGetReply _) as [[[|] [[]|]] ?]; try done.
  assert (length element = length argv) as Hlen by (by eapply length_mapM).
  destruct w. unfold cmd_new. M_run. erewrite bind_eq; [|by apply raw_fill_runs]. M_run. rewrite Hlen. done.
Qed.

(** ** A client at work *)

(** An upgraded client whose connection to Redis is up: its objects are alive, and
    the command it keeps uses that connection. *)
Record ws_open (ws c ac : loc) (x : ws_client) (cl : http_client) (ctx : redis_ctx) (w : world) : Prop := {
  o_ws : w_wss w !! ws = Some x;
  o_client : ws_http_client x = Some c;
  o_http : w_clients w !! c = Some cl;
  o_headers : headers_complete cl;
  o_alloc : w_alloc w = [];
  o_fresh : w_cmds w !! w_next w = None;
  o_ac : ws_ac x = Some ac;
  o_ctx : w_acs w !! ac = Some ctx;
  o_live : ac_disconnecting ctx = false /\ ac_freeing ctx = false;
  o_cmd old : ws_cmd x = Some old -> exists y, w_cmds w !! old = Some y /\ cmd_ac y = Some ac }.

(** The connections, the trace, the answers and the registrations are the same. *)
Definition same_io (w w' : world) : Prop :=
  w_acs w' = w_acs w /\ w_trace w' = w_trace w /\ w_alloc w' = w_alloc w /\ w_cfg w' = w_cfg w /\
  w_pending w' = w_pending w.

(** The command holds the arguments and the connection. *)
Record adopted (ws c cm ac : loc) (x : ws_client) (cl : http_client) (argv : list bytes) (w w1 : world) : Prop := {
  a_cmd : exists y, w_cmds w1 !! cm = Some y /\ cmd_argv y = argv /\ cmd_count y = Z.of_nat (length argv) /\
    cmd_ac y = Some ac;
  a_http : exists cl1, w_clients w1 !! c = Some cl1 /\ hc_headers cl1 = hc_headers cl /\ hc_addr cl1 = hc_addr cl;
  a_ws : w_wss w1 !! ws = Some (set_ws_cmd (Some cm) x);
  a_io : same_io w w1 }.

Lemma set_ws_cmd_same x cm : ws_cmd x = Some cm -> set_ws_cmd (Some cm) x = x.
Proof using. destruct x. cbn. by intros ->. Qed.

Lemma ws_adopt_runs ws c ac x cl ctx argv w :
  ws_open ws c ac x cl ctx w ->
  exists cm w1,
    (upd_cmd (w_next w) (set_cmd_is_websocket true) ;; ws_adopt ws c (w_next w)) (with_new_cmd c cl argv w) = Ok cm w1 /\
    adopted ws c cm ac x cl argv w w1.
Proof using.
  intros [O1 O2 O3 O4 O5 O6 O7 O8 [O9 O10] O11]. unfold with_new_cmd, with_cmd, ws_adopt.
  destruct w as [cfg clients cmds wss acs pool next pending trace connect alloc logged]. cbn in *. M_run.
  destruct (ws_cmd x) as [old|] eqn:Hc.
  - destruct (O11 old eq_refl) as (y & Hy & Hac). assert (next <> old) as Hne by congruence.
    unfold cmd_free_argv. M_run.
    erewrite bind_eq; [|eapply cmd_free_unconnected; [world_lookup|done|done|world_lookup|done]].
    eexists old, _. split; [reflexivity|]. split; cbn.
    + eexists. split; [rewrite lookup_delete_ne, lookup_insert_ne, lookup_insert_eq by done; reflexivity|done].
    + eexists. split; [apply lookup_insert_eq|done].
    + by rewrite set_ws_cmd_same.
    + done.
  - match goal with |- context [mbind _ (cmd_setup ?cm ?l) ?w0] =>
      edestruct (cmd_setup_spec cm l w0) as (y & Hy & E); [world_lookup|world_lookup|exact O4|rewrite (bind_eq _ _ _ _ _ E)] end.
    clear E. M_run. unfold cmd_core in Hy. injection Hy as Hy1 Hy2 _ _ _ _.
    eexists next, _. split; [reflexivity|]. split; cbn.
    + eexists. split; [apply lookup_insert_eq|]. cbn. by rewrite Hy1, Hy2, O7.
    + eexists. split; [apply lookup_insert_eq|done].
    + by rewrite lookup_insert_eq.
    + done.
Qed.

(** *** Names and subscriptions *)

Lemma acl_loop_ext perms cl cl' ip name auth :
  hc_headers cl' = hc_headers cl -> acl_loop perms cl' ip name auth = acl_loop perms cl ip name auth.
Proof using.
  intros Hh. revert auth. induction perms as [|a perms IH]; intros auth; [done|]. cbn [acl_loop].
  assert (acl_match_client a cl' ip = acl_match_client a cl ip) as ->
    by (unfold acl_match_client, client_get_header; by rewrite Hh).
  destruct (acl_match_client a cl ip); apply IH.
Qed.

Lemma acl_allow_argv y cfg cl cl' argv :
  cmd_argv y = argv -> cmd_count y = Z.of_nat (length argv) -> hc_headers cl' = hc_headers cl -> hc_addr cl' = hc_addr cl ->
  acl_allow_command y cfg cl' = match argv with [] => false | name :: _ => name_allowed cfg cl name end.
Proof using.
  intros Ha Hn Hh Hd. unfold name_allowed, acl_allow_command. rewrite Ha, Hn, Hd. cbn [cmd_count cmd_argv].
  destruct argv as [|name rest]; [done|]. rewrite (proj2 (Z.eqb_neq _ _)) by (cbn [length]; lia).
  change (1 =? 0) with false. cbn [head]. cbv iota. cbn [from_option]. unfold id. by rewrite (acl_loop_ext _ cl cl').
Qed.

(** The tests of cmd.c on an argument vector. *)
Definition is_subscribe (argv : list bytes) : bool := cmd_is_subscribe_args (ws_new_cmd 1 argv).
Definition is_unsubscribe (argv : list bytes) : bool := cmd_is_unsubscribe_args (ws_new_cmd 1 argv).

Lemma subscribe_argv y argv :
  cmd_argv y = argv -> cmd_count y = Z.of_nat (length argv) ->
  cmd_is_subscribe_args y = is_subscribe argv /\ cmd_is_unsubscribe_args y = is_unsubscribe argv.
Proof using.
  intros Ha Hn. unfold is_subscribe, is_unsubscribe, cmd_is_subscribe_args, cmd_is_unsubscribe_args.
  by rewrite Ha, Hn.
Qed.

(** *** Output *)

(** A frame is queued behind the others. *)
Lemma ws_frame_runs ws x c cl t p w :
  w_alloc w = [] -> w_wss w !! ws = Some x -> ws_http_client x = Some c -> w_clients w !! c = Some cl ->
  exists w', ws_frame_and_send_response ws t p w = Ok true w' /\
    w_wss w' = <[ws := set_ws_scheduled_write true (set_ws_wbuf (ws_wbuf x ++ ws_frame t p) x)]> (w_wss w) /\
    w_pending w' = w_pending w ++ (if ws_scheduled_write x then [] else [OnWsWrite ws]) /\
    w_acs w' = w_acs w /\ w_trace w' = w_trace w /\ w_alloc w' = [] /\ w_cfg w' = w_cfg w /\ w_cmds w' = w_cmds w /\
    w_clients w' = w_clients w.
Proof using.
  intros Ha Hx Hc Hcl. unfold ws_frame_and_send_response. do 2 (rewrite alloc_succeeds by done; cbn [negb]).
  erewrite run_upd_ws by exact Hx. set (y := set_ws_wbuf _ x). destruct (ws_scheduled_write x) eqn:Hs.
  - unfold ws_schedule_write. erewrite run_get_ws by apply lookup_insert_eq.
    assert (ws_scheduled_write y = true) as -> by done. eexists. split; [reflexivity|]. cbn.
    assert (set_ws_scheduled_write true y = y) as -> by (unfold y; destruct x; cbn in *; by rewrite Hs).
    by rewrite app_nil_r.
  - erewrite schedule_write_runs; [|done|apply lookup_insert_eq|done|done|done].
    eexists. split; [reflexivity|]. cbn. by rewrite insert_insert_eq.
Qed.

(** *** Redis *)

(** The commands handed to hiredis, with their connections. *)
Definition redis_events (l : list event) : list (loc * list bytes) :=
  omap (fun e => match e with EvRedis ac argv => Some (ac, argv) | _ => None end) l.

(** hiredis drops an [UNSUBSCRIBE] on a connection without subscriptions. *)
Definition accepted (ctx : redis_ctx) (argv : list bytes) : bool :=
  match argv with
  | [] => false
  | name :: args =>
      let cstr := if Byte.eqb (tolower (default x0d (head name))) x70 then tail name else name in
      (negb (bool_decide (args = [])) && command_is cstr (lit "subscribe")) ||
      negb (command_is cstr (lit "unsubscribe")) || ac_subscribed ctx
  end.

Lemma command_sent ac cb argv w ctx :
  w_acs w !! ac = Some ctx -> ac_disconnecting ctx = false -> ac_freeing ctx = false -> argv <> [] ->
  exists w', redisAsyncCommandArgv ac cb argv w = Ok (accepted ctx argv) w' /\
    w_trace w' = w_trace w ++ (if accepted ctx argv then [EvRedis ac argv] else []) /\
    w_wss w' = w_wss w.
Proof using.
  intros Hx Hd Hf Hne. unfold redisAsyncCommandArgv, accepted, append_command. M_run. rewrite Hd, Hf. cbn [orb].
  destruct argv as [|name args]; [done|]. cbv zeta. set (cs := if Byte.eqb _ _ then _ else _).
  assert (forall x : redis_ctx, exists w', (put_ac ac x ;; emit (EvRedis ac (name :: args)) ;; mret true) w = Ok true w' /\
    w_trace w' = w_trace w ++ [EvRedis ac (name :: args)] /\ w_wss w' = w_wss w) as Happ.
  { intros x. unfold put_ac, emit. M_run. eexists. split; [reflexivity|]. done. }
  destruct (negb _ && _); [apply Happ|]. destruct (command_is cs (lit "unsubscribe")); cbn [negb orb].
  { destruct (ac_subscribed ctx); cbn [negb]; [apply Happ|]. exists w. by rewrite app_nil_r. }
  destruct (command_is cs (lit "monitor")); [apply Happ|]. destruct (ac_subscribed ctx); apply Happ.
Qed.

Lemma slog_runs level body w :
  exists logs, slog level body w = Ok () (set_w_trace (w_trace w ++ logs) w) /\ redis_events logs = [].
Proof using.
  unfold slog, slog_enabled. rewrite (bind_eq (gets _) _ _ (level <=? cfg_verbosity (w_cfg w)) w) by reflexivity.
  destruct (level <=? _); [by exists [EvLog level body]|]. exists []. rewrite app_nil_r. by destruct w.
Qed.

Lemma ws_log_cmd_runs ws cm y w :
  w_cmds w !! cm = Some y -> cmd_count y = Z.of_nat (length (cmd_argv y)) ->
  exists logs, ws_log_cmd ws cm w = Ok () (set_w_trace (w_trace w ++ logs) w) /\ redis_events logs = [].
Proof using.
  intros Hy Hn. unfold ws_log_cmd, slog_enabled. rewrite (bind_eq (gets _) _ _ _ w) by reflexivity.
  destruct (negb _).
  - exists []. rewrite app_nil_r. destruct w. done.
  - rewrite (run_get_cmd _ _ _ _ Hy), (proj2 (Z.leb_le _ _)) by lia. apply slog_runs.
Qed.

(** ** The outcome of a message *)

Inductive verdict_t := Forbidden | NotAfterSubscribe | Allowed.

Definition ws_verdict (cfg : conf) (cl : http_client) (ran_subscribe : bool) (argv : list bytes) : verdict_t :=
  if negb (match argv with [] => false | name :: _ => name_allowed cfg cl name end) then Forbidden
  else if ran_subscribe && negb (is_subscribe argv) && negb (is_unsubscribe argv) then NotAfterSubscribe
  else Allowed.

(** What the message leaves behind, for each verdict. *)
Definition ws_outcome (v : verdict_t) (f : formatting_fun) (ws ac : loc) (x : ws_client) (ctx : redis_ctx)
  (argv : list bytes) (w w' : world) : Prop :=
  exists x', w_wss w' !! ws = Some x' /\
  let answers p := ws_wbuf x' = ws_wbuf x ++ ws_frame WS_BINARY_FRAME p /\ ws_scheduled_write x' = true /\
                   w_acs w' = w_acs w /\ redis_events (w_trace w') = redis_events (w_trace w) /\
                   ws_ran_subscribe x' = ws_ran_subscribe x in
  match v with
  | Forbidden => exists error, ws_error f 403 (lit "Forbidden") = Some error /\ answers error
  | NotAfterSubscribe => answers (lit "Command not allowed after subscribe")
  | Allowed => ws_wbuf x' = ws_wbuf x /\ ws_ran_subscribe x' = is_subscribe argv /\
      redis_events (w_trace w') = redis_events (w_trace w) ++ if accepted ctx argv then [(ac, argv)] else []
  end.

Lemma redis_events_app l1 l2 : redis_events (l1 ++ l2) = redis_events l1 ++ redis_events l2.
Proof using. apply omap_app. Qed.

Lemma ws_run_outcome ws c cm ac x cl ctx argv f w w1 :
  ws_open ws c ac x cl ctx w -> adopted ws c cm ac x cl argv w w1 ->
  exists w', ws_run ws c cm f w1 = Ok () w' /\
    ws_outcome (ws_verdict (w_cfg w) cl (ws_ran_subscribe x) argv) f ws ac x ctx argv w w'.
Proof using.
  intros [O1 O2 O3 O4 O5 O6 O7 O8 [O9 O10] O11] [(y & Hy & Hya & Hyn & Hyc) (cl1 & Hcl & Hch & Hca) Hws (Ia & It & Il & Ig & Ip)].
  unfold ws_run. rewrite (run_get_cmd _ _ _ _ Hy), (run_get_client _ _ _ _ Hcl), (run_get_ws _ _ _ _ Hws).
  rewrite (bind_eq (gets w_cfg) _ w1 _ w1) by reflexivity.
  rewrite (acl_allow_argv y _ cl cl1 argv), Ig by done. destruct (subscribe_argv y argv Hya Hyn) as [-> ->].
  unfold ws_verdict. cbn [ws_ran_subscribe set_ws_cmd].
  destruct (negb (match argv with [] => false | name :: _ => name_allowed (w_cfg w) cl name end)) eqn:Hallow.
  - assert (exists e, ws_error f 403 (lit "Forbidden") = Some e) as [e He].
    { destruct f; eexists; vm_compute; reflexivity. }
    rewrite He. cbn [deref]. rewrite (bind_eq (mret e) _ w1 e w1) by reflexivity.
    destruct (ws_frame_runs ws (set_ws_cmd (Some cm) x) c cl1 WS_BINARY_FRAME e w1) as (w2 & E2 & F1 & F2 & F3 & F4 & F5 & F6 & F7 & F8);
      [congruence|done|done|done|]. rewrite (bind_eq _ _ _ _ _ E2).
    destruct (ws_log_cmd_runs ws cm y w2) as (l1 & E3 & L1); [congruence|congruence|]. rewrite (bind_eq _ _ _ _ _ E3).
    unfold ws_log_unauthorized. destruct (slog_runs WEBDIS_DEBUG (lit "WS: 403") (set_w_trace (w_trace w2 ++ l1) w2)) as (l2 & E4 & L2).
    eexists. split; [exact E4|]. eexists. split; [cbn; rewrite F1; apply lookup_insert_eq|].
    exists e. split; [done|]. cbn. split; [done|]. split; [done|]. split; [congruence|]. split; [|done].
    rewrite !redis_events_app, L1, L2, F4, It, !app_nil_r. done.
  - destruct (ws_ran_subscribe x && _ && _) eqn:Hsub.
    + edestruct (ws_frame_runs ws (set_ws_cmd (Some cm) x) c cl1 WS_BINARY_FRAME) as (w2 & E2 & F1 & F2 & F3 & F4 & F5 & F6 & F7 & F8);
        [| | | |rewrite (bind_eq _ _ _ _ _ E2)]; [congruence|done|done|done|].
      eexists. split; [reflexivity|]. eexists. split; [rewrite F1; apply lookup_insert_eq|].
      cbn. split; [done|]. split; [done|]. split; [congruence|]. split; [by rewrite F4, It|done].
    + destruct (ws_log_cmd_runs ws cm y w1) as (l1 & E3 & L1); [done|congruence|]. rewrite (bind_eq _ _ _ _ _ E3).
      set (w2 := set_w_trace _ w1). unfold cmd_send. rewrite M_bind_assoc, (run_get_cmd w2 _ _ _ Hy), Hyc.
      cbn [deref]. rewrite M_bind_assoc, (bind_eq (mret ac) _ w2 ac w2) by reflexivity.
      rewrite (proj2 (Z.leb_le _ _)) by (rewrite Hyn, Hya; lia). rewrite Hyn, Hya, Nat2Z.id, firstn_all.
      assert (argv <> []) as Hne by (by intros ->).
      destruct (command_sent ac (CB_REPLY f cm) argv w2 ctx) as (w3 & E4 & T3 & S3);
        [by change (w_acs w2) with (w_acs w1); rewrite Ia|done..|].
      rewrite M_bind_assoc, (bind_eq _ _ _ _ _ E4). unfold skip. rewrite (bind_eq (mret ()) _ w3 () w3) by reflexivity.
      erewrite upd_ws_eq by (rewrite S3; exact Hws). eexists. split; [reflexivity|].
      eexists. split; [apply lookup_insert_eq|]. cbn. split; [done|]. split; [done|].
      rewrite T3. cbn. rewrite !redis_events_app, L1, app_nil_r, It. f_equal. by destruct (accepted ctx argv).
Qed.


End Exec.

(** ** An execution *)

(** A client of the path [/] that has subscribed, for which only [DEBUG] is disabled. *)
Definition open_client : http_client := set_hc_path (Some (lit "/")) a_client.
Definition open_ctx : redis_ctx := set_ac_connected true (new_ctx None false).
Definition open_ws : ws_client := mk_ws (Some 4%positive) false false [] [] (Some 30%positive) None false false.

Definition open_world (x : ws_client) : world :=
  set_w_wss {[ 11%positive := x ]}
    (set_w_clients {[ 4%positive := open_client ]}
       (set_w_acs {[ 30%positive := open_ctx ]}
          (set_w_cfg (set_cfg_perms [mk_acl false 0 0 None [] [lit "DEBUG"]] (conf_defaults 0 0)) a_world))).

Lemma open_world_open x :
  ws_http_client x = Some 4%positive -> ws_ac x = Some 30%positive -> ws_cmd x = None ->
  ws_open 11 4 30 x open_client open_ctx (open_world x).
Proof.
  intros H1 H2 H3. split; try done; try (by rewrite H3). repeat constructor. by eexists.
Qed.

Definition json_message (s : bytes) : ws_msg := mk_ws_msg WS_TEXT_FRAME s 0.


End WsExec.
