(* ===== verification/Worker.v ===== *)
(** * The worker thread: src/worker.c

    A worker runs an event loop over its clients and its connections to Redis.
    [worker_can_read] is the handler of an HTTP client's socket: it reads, parses and
    executes what has arrived, answers what is wrong with it, and then closes the
    client, hands it to the WebSocket code or waits for more. The loop itself is a
    step relation: any event that is registered may fire next, with whatever the
    sockets deliver. *)
From S2P Require Import Prelude Types Base64 Acl WsFrame Http Raw Resp Digest Uri Json JsonReply Msgpack World Pool Cmd Format Hiredis Client WebSocket.

Local Open Scope Z_scope.

Module Worker.
Import Http World Pool Cmd Msgpack Format Hiredis Client WebSocket.

Section Worker.
Context `{Packer} `{Resp.Strtod} `{HttpParser}.

(** [worker_monitor_input]: [event_set] and [event_add] of the client's own event. *)
Definition worker_monitor_input (c : loc) : M unit := _ ← get_client c; register (OnClientRead c).

(** The upgrade of a client. *)
Definition worker_upgrade (c : loc) : M unit :=
  ws ← ws_client_new c;
  match ws with
  | None => upd_client c (fun x => set_hc_broken true (set_hc_ws None x))
  | Some ws =>
      upd_client c (fun x => set_hc_buffer [] (set_hc_ws (Some ws) x)) ;;
      ok ← ws_handshake_reply ws;
      if negb ok then
        upd_ws ws (set_ws_http_client None) ;;
        ws_close_if_able ws ;;
        upd_client c (set_hc_broken true)
      else
        state ← ws_process_read_data ws;
        match state with
        | WS_ERROR => upd_client c (set_hc_broken true)
        | _ => skip
        end
  end ;;
  upd_client c (set_hc_buffer []).

(** What follows the parser; [ret] is the number of bytes read, [nparsed] the number
    parsed. *)
Definition worker_check (c : loc) (ret nparsed : Z) : M unit :=
  x ← get_client c;
  cfg ← gets w_cfg;
  if hc_failed_alloc x then log_error c 503 (lit "Service Unavailable")
  else if negb (Z.land (hp_flags (hc_parser x)) F_CONNECTION_CLOSE =? 0) && hc_fully_read x
  then put_client c (set_hc_broken true x)
  else if hc_is_websocket x then worker_upgrade c
  else if negb (nparsed =? ret) then log_error c 400 (lit "Bad Request")
  else if cfg_http_max_request_size cfg <? hc_request_sz x then log_error c 413 (lit "Request Entity Too Large")
  else skip.

Definition worker_can_read (c : loc) (data : bytes) : M unit :=
  ret ← http_client_read c data;
  match ret with
  | CLIENT_DISCONNECTED => skip
  | CLIENT_OOM => log_error c 503 (lit "Service Unavailable")
  | ReadBytes ret =>
      x ← get_client c;
      (if hc_is_websocket x then skip
       else nparsed ← http_client_execute c; worker_check c ret nparsed) ;;
      x ← get_client c;
      if hc_broken x then
        when (hc_is_websocket x) (emit (EvClose (hc_fd x))) ;;
        http_client_free c
      else when (negb (hc_is_websocket x)) (worker_monitor_input c)
  end.

(** [worker_on_new_client] and the part of [server_can_accept] that makes the
    client it receives. *)
Definition worker_on_new_client (fd addr : Z) : M unit :=
  c ← http_client_new fd addr;
  worker_monitor_input c.

(** ** The event loop *)

(** An input of the loop: an event that fires with what the socket delivers, a new
    client, or activity of a connection to Redis. *)
Inductive input :=
| NewClient (fd addr : Z)
| ClientReadable (c : loc) (data : bytes)
| WsReadable (ws : loc) (data : bytes)
| WsWritable (fd : Z) (ws : loc) (n : nat)
| ReconnectTimer
| RedisReadable (ac : loc) (s : connect_status) (i : bytes + (list redisReply * option bytes))
| RedisWritable (ac : loc) (s : connect_status) (o : bytes + nat).

Definition handle (i : input) : M unit :=
  match i with
  | NewClient fd addr => worker_on_new_client fd addr
  | ClientReadable c data => worker_can_read c data
  | WsReadable ws data => ws_can_read ws data
  | WsWritable fd ws n => ws_can_write fd ws n
  | ReconnectTimer => pool_can_connect
  | RedisReadable ac s i => redisAsyncHandleRead ac s i
  | RedisWritable ac s o => redisAsyncHandleWrite ac s o
  end.

(** The registration an input consumes: the events are one-shot. *)
Definition fires (i : input) : option pending :=
  match i with
  | ClientReadable c _ => Some (OnClientRead c)
  | WsReadable ws _ => Some (OnWsRead ws)
  | WsWritable _ ws _ => Some (OnWsWrite ws)
  | ReconnectTimer => Some OnReconnect
  | _ => None
  end.

(** The first occurrence of an event, removed. *)
Fixpoint remove_pending (p : pending) (l : list pending) : option (list pending) :=
  match l with
  | [] => None
  | q :: l' => if decide (q = p) then Some l' else cons q <$> remove_pending p l'
  end.

Definition dispatch (i : input) (w : world) : result unit :=
  match fires i with
  | None => handle i w
  | Some p =>
      match remove_pending p (w_pending w) with
      | Some l => handle i (set_w_pending l w)
      | None => Ok () w
      end
  end.

Inductive reachable (cfg : conf) : world -> Prop :=
| reach_start connects allocs w :
    worker_pool_connect (worker_new cfg connects allocs) = Ok () w -> reachable cfg w
| reach_step w i w' : reachable cfg w -> dispatch i w = Ok () w' -> reachable cfg w'.

End Worker.

End Worker.
