(* ===== verification/Events.v ===== *)
(** * Events and the objects they refer to

    The event loop holds plain pointers: an event that fires for a freed object is
    a use after free. This file shows that it never does, for every execution of a
    worker. Most of the code only reads and updates live objects; that is the
    relation [steady], which every such function is shown to satisfy by composing
    the lemmas of its parts. The few functions that register, free or create are
    then compared with the invariant [events_ok]. *)
From S2P Require Import Prelude Types Base64 Acl WsFrame Http Raw Resp Digest Uri Json JsonReply Msgpack World Pool Cmd Format Hiredis Client WebSocket Worker.

Local Open Scope Z_scope.

Module Events.
Import Http Uri World Pool Cmd Msgpack Format Hiredis Client WebSocket Worker.

(** ** Computations within a relation *)

Definition within {A} (R : relation world) (m : M A) : Prop := forall w r w', m w = Ok r w' -> R w w'.

Section Within.
Context (R : relation world) `{PreOrder world R}.

Lemma within_bind {A B} (m : M A) (f : A -> M B) :
  within R m -> (forall a, within R (f a)) -> within R (m ≫= f).
Proof using All. intros Hm Hf w b w' (a & w1 & H1 & H2)%bind_ok. etrans; [by eapply Hm|by eapply Hf]. Qed.

Lemma within_read {A} (m : M A) : (forall w r w', m w = Ok r w' -> w = w') -> within R m.
Proof using All. intros Hm w r w' ->%Hm. done. Qed.
End Within.

(** ** The relation *)

Definition b2n (b : bool) : nat := if b then 1 else 0.

(** How often an event is registered. *)
Fixpoint count (p : pending) (l : list pending) : nat :=
  match l with
  | [] => 0
  | q :: l' => if decide (q = p) then S (count p l') else count p l'
  end.

Definition registered (p : pending) (w : world) : nat := count p (w_pending w).

(** Whether the WebSocket client believes its event to be registered. *)
Definition scheduled (p : pending) (w : world) : nat :=
  match p with
  | OnWsRead ws => from_option (fun x => b2n (ws_scheduled_read x)) 0%nat (w_wss w !! ws)
  | OnWsWrite ws => from_option (fun x => b2n (ws_scheduled_write x)) 0%nat (w_wss w !! ws)
  | _ => 0%nat
  end.

Lemma scheduled_le p w : (scheduled p w <= 1)%nat.
Proof.
  destruct p as [|ws|ws|]; cbn; try lia; destruct (w_wss w !! ws) as [x|]; cbn; try lia;
    [destruct (ws_scheduled_read x)|destruct (ws_scheduled_write x)]; cbn; lia.
Qed.

Definition is_ws_event (p : pending) : bool :=
  match p with OnWsRead _ | OnWsWrite _ => true | _ => false end.

(** What the code outside of the events' own functions does to them: a WebSocket
    event is only registered with its flag, no object is freed, and the WebSocket
    clients keep their HTTP clients. *)
Record keeps (w w' : world) : Prop := {
  k_ws p : is_ws_event p = true -> (registered p w' + scheduled p w <= registered p w + scheduled p w')%nat;
  k_client c : registered (OnClientRead c) w' = registered (OnClientRead c) w;
  k_live c : is_Some (w_clients w !! c) -> is_Some (w_clients w' !! c);
  k_owner : ws_http_client <$> w_wss w' = ws_http_client <$> w_wss w;
  k_next : (w_next w <= w_next w')%positive }.

(** Moreover the read buffers stay as they are, and answers of the allocator are only
    consumed. *)
Record steady (w w' : world) : Prop := {
  s_keeps : keeps w w';
  s_rbuf : ws_rbuf <$> w_wss w' = ws_rbuf <$> w_wss w;
  s_alloc : (length (w_alloc w') <= length (w_alloc w))%nat }.

#[global] Instance keeps_preorder : PreOrder keeps.
Proof.
  split.
  - intros w. by split.
  - intros w1 w2 w3 [A1 A2 A3 A4 A5] [B1 B2 B3 B4 B5]. split.
    + intros p Hp. specialize (A1 p Hp). specialize (B1 p Hp). lia.
    + intros c. by rewrite B2, A2.
    + auto.
    + by rewrite B4, A4.
    + lia.
Qed.

#[global] Instance steady_preorder : PreOrder steady.
Proof.
  split.
  - by split.
  - intros w1 w2 w3 [A1 A2 A3] [B1 B2 B3]. split; [by etrans|by rewrite B2, A2|lia].
Qed.

Lemma within_keeps {A} (m : M A) : within steady m -> within keeps m.
Proof. intros Hm w r w' E. by apply (s_keeps _ _ (Hm _ _ _ E)). Qed.

(** ** Primitives *)

(** A change of the parts of the state the relation does not speak about. *)
Lemma steady_other w w' :
  w_clients w' = w_clients w -> w_wss w' = w_wss w -> w_pending w' = w_pending w ->
  w_next w' = w_next w -> w_alloc w' = w_alloc w -> steady w w'.
Proof.
  intros E1 E2 E3 E4 E5. split; [split| |].
  - intros p Hp. unfold registered. rewrite E3. destruct p; cbn; rewrite ?E2; lia.
  - intros c. unfold registered. by rewrite E3.
  - intros c. by rewrite E1.
  - by rewrite E2.
  - by rewrite E4.
  - by rewrite E2.
  - by rewrite E5.
Qed.

Lemma steady_ret {A} (a : A) : within steady (mret a).
Proof. intros w r w' E. M_inv. done. Qed.
Lemma steady_fail {A} e : within steady (@fail A e).
Proof. intros w r w' E. M_inv. Qed.
Lemma steady_get : within steady get.
Proof. intros w r w' E. M_inv. done. Qed.
Lemma steady_gets {A} (f : world -> A) : within steady (gets f).
Proof. intros w r w' E. M_inv. done. Qed.
Lemma steady_get_client l : within steady (get_client l).
Proof. intros w r w' E. M_inv. done. Qed.
Lemma steady_get_cmd l : within steady (get_cmd l).
Proof. intros w r w' E. M_inv. done. Qed.
Lemma steady_get_ws l : within steady (get_ws l).
Proof. intros w r w' E. M_inv. done. Qed.
Lemma steady_get_ac l : within steady (get_ac l).
Proof. intros w r w' E. M_inv. done. Qed.
Lemma steady_deref {A} (o : option A) : within steady (deref o).
Proof. destruct o; [apply steady_ret|apply steady_fail]. Qed.
Lemma steady_in_bounds {A} (o : option A) : within steady (in_bounds o).
Proof. destruct o; [apply steady_ret|apply steady_fail]. Qed.
Lemma steady_put_cmd l x : within steady (put_cmd l x).
Proof. intros w r w' E. unfold put_cmd in E. M_inv. by apply steady_other. Qed.
Lemma steady_put_ac l x : within steady (put_ac l x).
Proof. intros w r w' E. unfold put_ac in E. M_inv. by apply steady_other. Qed.
Lemma steady_emit e : within steady (emit e).
Proof. intros w r w' E. unfold emit in E. M_inv. by apply steady_other. Qed.
Lemma steady_pool (p : world -> pool) : within steady (modify (fun w => set_w_pool (p w) w)).
Proof. intros w r w' E. M_inv. by apply steady_other. Qed.
Lemma steady_set_pool p : within steady (modify (set_w_pool p)).
Proof. intros w r w' E. M_inv. by apply steady_other. Qed.
Lemma steady_auth_logged b : within steady (modify (set_w_auth_logged b)).
Proof. intros w r w' E. M_inv. by apply steady_other. Qed.
Lemma steady_connect_answer : within steady connect_answer.
Proof.
  intros w r w' E. unfold connect_answer in E. M_inv.
  destruct (w_connect w); M_inv; [done|by apply steady_other].
Qed.
Lemma steady_del_cmd l : within steady (del_cmd l).
Proof. intros w r w' E. unfold del_cmd in E. M_inv. by apply steady_other. Qed.
Lemma steady_del_ac l : within steady (del_ac l).
Proof. intros w r w' E. unfold del_ac in E. M_inv. by apply steady_other. Qed.

Lemma steady_put_client l x : within steady (put_client l x).
Proof.
  intros w r w' E. unfold put_client in E. M_inv. split; [split|done|done]; try done.
  intros c [y Hy]. cbn. destruct (decide (l = c)) as [->|]; [by rewrite lookup_insert_eq|].
    rewrite lookup_insert_ne by done. by rewrite Hy.
Qed.

Lemma steady_fresh : within steady fresh.
Proof.
  intros w r w' E. unfold fresh in E. M_inv. split; [split|done|done]; try done.
  cbn. apply Pos.lt_le_incl, Pos.lt_succ_diag_r.
Qed.

Lemma steady_alloc_ok : within steady alloc_ok.
Proof.
  intros w r w' E. unfold alloc_ok in E. M_inv. destruct (w_alloc w) eqn:Ha; M_inv; [done|].
  split; [by split|done|rewrite Ha; cbn; lia].
Qed.

Lemma count_app p l1 l2 : count p (l1 ++ l2) = (count p l1 + count p l2)%nat.
Proof. induction l1 as [|q l1 IH]; cbn; [done|]. destruct (decide (q = p)); lia. Qed.

Lemma registered_register p q w :
  registered p (set_w_pending (w_pending w ++ [q]) w) = (registered p w + if decide (q = p) then 1 else 0)%nat.
Proof. unfold registered. cbn. rewrite count_app. cbn. by destruct (decide (q = p)). Qed.

Lemma steady_register_timer : within steady (register OnReconnect).
Proof.
  intros w r w' E. unfold register in E. M_inv. split; [split|done|done]; try done.
  - intros p Hp. rewrite registered_register, decide_False by (by intros <-).
    destruct p; cbn [scheduled w_wss set_w_pending]; lia.
  - intros c. rewrite registered_register, decide_False by done. lia.
Qed.

Create HintDb steady.
#[export] Hint Resolve steady_ret steady_fail steady_get steady_gets steady_get_client steady_get_cmd steady_get_ws
  steady_get_ac steady_deref steady_in_bounds steady_put_cmd steady_put_ac steady_emit steady_pool steady_set_pool
  steady_auth_logged steady_connect_answer steady_del_cmd steady_del_ac steady_put_client steady_fresh
  steady_alloc_ok steady_register_timer : steady.

(** Walks over a computation; the leaves are lemmas of the database. *)
Ltac steady :=
  repeat match goal with
    | _ => solve [auto with steady]
    | |- within _ (mbind _ _) => apply within_bind; [apply steady_preorder| |intros]
    | |- within _ (match ?x with _ => _ end) => destruct x
    | |- within _ skip => apply steady_ret
    | |- within _ (when ?b _) => unfold when; destruct b
    end.

(** The relation for a computation that has run. *)
Ltac steady_in E :=
  match type of E with
  | ?m ?w = Ok _ ?w' =>
      let W := fresh in assert (within steady m) as W by steady; apply W in E; clear W
  end.

Lemma steady_upd_client l f : within steady (upd_client l f).
Proof. unfold upd_client. steady. Qed.
Lemma steady_upd_cmd l f : within steady (upd_cmd l f).
Proof. unfold upd_cmd. steady. Qed.
Lemma steady_upd_ac l f : within steady (upd_ac l f).
Proof. unfold upd_ac. steady. Qed.
Lemma steady_slog level body : within steady (slog level body).
Proof. unfold slog, slog_enabled. steady. Qed.
#[export] Hint Resolve steady_upd_client steady_upd_cmd steady_upd_ac steady_slog : steady.

(** An update of a WebSocket client that leaves its flags, its HTTP client and its
    read buffer alone. *)
Lemma keeps_upd_ws l f w x :
  w_wss w !! l = Some x ->
  ws_scheduled_read (f x) = ws_scheduled_read x -> ws_scheduled_write (f x) = ws_scheduled_write x ->
  ws_http_client (f x) = ws_http_client x ->
  keeps w (set_w_wss (<[l := f x]> (w_wss w)) w).
Proof.
  intros Hx Hr Hw Ho. split; try done.
  - intros p Hp. unfold registered. cbn [w_pending set_w_wss].
    destruct p as [|ws|ws|]; try done; cbn [scheduled w_wss set_w_wss];
      (destruct (decide (l = ws)) as [->|]; [rewrite lookup_insert_eq, Hx; cbn [from_option]; rewrite ?Hr, ?Hw; done
                                            |by rewrite lookup_insert_ne]).
  - cbn. rewrite fmap_insert, Ho. apply insert_id. by rewrite lookup_fmap, Hx.
Qed.

Definition calm (f : ws_client -> ws_client) : Prop :=
  forall x, ws_scheduled_read (f x) = ws_scheduled_read x /\ ws_scheduled_write (f x) = ws_scheduled_write x /\
    ws_http_client (f x) = ws_http_client x /\ ws_rbuf (f x) = ws_rbuf x.

Lemma steady_upd_ws l f : calm f -> within steady (upd_ws l f).
Proof.
  intros Hf w r w' E. unfold upd_ws, put_ws in E. M_inv. match goal with H : w_wss w !! l = Some ?x |- _ => rename H into Hx; destruct (Hf x) as (? & ? & ? & Hb) end.
  split; [by apply keeps_upd_ws| |done].
  cbn. rewrite fmap_insert, Hb. apply insert_id. by rewrite lookup_fmap, Hx.
Qed.

Lemma calm_close b : calm (set_ws_close_after_events b).
Proof. done. Qed.
Lemma calm_ran b : calm (set_ws_ran_subscribe b).
Proof. done. Qed.
Lemma calm_cmd b : calm (set_ws_cmd b).
Proof. done. Qed.
Lemma calm_wbuf f : calm (fun x => set_ws_wbuf (f x) x).
Proof. done. Qed.
#[export] Hint Resolve steady_upd_ws calm_close calm_ran calm_cmd calm_wbuf : steady.

(** Scheduling: the flag goes up with the registration, or without it when there is
    no memory. *)
Section Schedule.
Variables (ws : loc) (p : pending) (up : ws_client -> ws_client).
Hypothesis Hp : is_ws_event p = true.
Hypothesis Hup : forall x w q, w_wss w !! ws = Some x ->
  scheduled q (set_w_wss (<[ws := up x]> (w_wss w)) w) = if decide (q = p) then 1%nat else scheduled q w.
Hypothesis Hkeep : forall x, ws_http_client (up x) = ws_http_client x /\ ws_rbuf (up x) = ws_rbuf x.

Lemma steady_up w x : w_wss w !! ws = Some x -> steady w (set_w_wss (<[ws := up x]> (w_wss w)) w).
Proof using All.
  intros Hx. destruct (Hkeep x) as [Ho Hb]. split; [split|..]; try done.
  - intros q Hq. rewrite (Hup x) by done. unfold registered. cbn [w_pending set_w_wss].
    destruct (decide (q = p)) as [->|]; [|done]. apply Nat.add_le_mono_l. apply scheduled_le.
  - cbn. rewrite fmap_insert, Ho. apply insert_id. by rewrite lookup_fmap, Hx.
  - cbn. rewrite fmap_insert, Hb. apply insert_id. by rewrite lookup_fmap, Hx.
Qed.

Lemma steady_schedule w x r w' :
  w_wss w !! ws = Some x -> scheduled p w = 0%nat ->
  (put_ws ws (up x) ;; c ← deref (ws_http_client x); _ ← get_client c; event_base_once p) w = Ok r w' ->
  steady w w'.
Proof using All.
  intros Hx H0 E. apply bind_ok in E as (? & w1 & E1 & E2). unfold put_ws in E1.
  injection E1 as _ <-. pose proof (steady_up w x Hx) as Hs1. pose proof (Hup x w p Hx) as Hone. rewrite decide_True in Hone by done.
  set (w1 := set_w_wss _ w) in *. unfold event_base_once in E2.
  apply bind_ok in E2 as (c & w2 & ?%steady_deref & E2). apply bind_ok in E2 as (? & w3 & ?%steady_get_client & E2).
  apply bind_ok in E2 as (ok & w4 & ?%steady_alloc_ok & E2).
  assert (steady w1 w4) as Hs4 by (do 2 (etrans; [eassumption|]); done). unfold when in E2.
  destruct ok; unfold register in E2; M_inv; [|by etrans].
  assert (registered p w1 = registered p w) as Hr by done. clearbody w1.
  assert (steady w w4) as [[K1 K2 K3 K4 K5] K6 K7] by (by etrans). destruct Hs4 as [[J1 _ _ _ _] _ _].
  split; [split|done|done]; try done.
  - intros q Hq. rewrite registered_register. change (scheduled q (set_w_pending _ w4)) with (scheduled q w4).
    specialize (K1 q Hq). specialize (J1 q Hq). destruct (decide (p = q)) as [<-|]; lia.
  - intros c'. rewrite registered_register, decide_False; [by rewrite K2, Nat.add_0_r|by intros ->].
Qed.
End Schedule.

Lemma steady_ws_schedule_write ws : within steady (ws_schedule_write ws).
Proof.
  intros w r w' E. unfold ws_schedule_write in E. apply bind_ok in E as (x & ? & ?%get_ws_ok & E).
  destruct_and?. subst. destruct (ws_scheduled_write x) eqn:Hf; [M_inv; done|].
  eapply (steady_schedule ws (OnWsWrite ws) (set_ws_scheduled_write true)); [done| |done|eassumption| |exact E].
  - intros y w0 q Hy. destruct q as [|ws'|ws'|]; cbn; try done.
    + destruct (decide (ws = ws')) as [->|]; [rewrite lookup_insert_eq, Hy; done|by rewrite lookup_insert_ne].
    + destruct (decide (ws = ws')) as [->|].
      * by rewrite lookup_insert_eq, decide_True.
      * rewrite lookup_insert_ne, decide_False by congruence. done.
  - cbn. match goal with H : w_wss _ !! ws = Some _ |- _ => rewrite H end. cbn. by rewrite Hf.
Qed.

Lemma steady_ws_monitor_input ws : within steady (ws_monitor_input ws).
Proof.
  intros w r w' E. unfold ws_monitor_input in E. apply bind_ok in E as (x & ? & ?%get_ws_ok & E).
  destruct_and?. subst. destruct (ws_scheduled_read x) eqn:Hf; [M_inv; done|].
  eapply (steady_schedule ws (OnWsRead ws) (set_ws_scheduled_read true)); [done| |done|eassumption| |exact E].
  - intros y w0 q Hy. destruct q as [|ws'|ws'|]; cbn; try done.
    + destruct (decide (ws = ws')) as [->|].
      * by rewrite lookup_insert_eq, decide_True.
      * rewrite lookup_insert_ne, decide_False by congruence. done.
    + destruct (decide (ws = ws')) as [->|]; [rewrite lookup_insert_eq, Hy; done|by rewrite lookup_insert_ne].
  - cbn. match goal with H : w_wss _ !! ws = Some _ |- _ => rewrite H end. cbn. by rewrite Hf.
Qed.
#[export] Hint Resolve steady_ws_schedule_write steady_ws_monitor_input : steady.

(** ** The code that leaves the events alone *)

Lemma steady_http_response_write r fd : within steady (World.http_response_write r fd).
Proof. unfold World.http_response_write. steady. Qed.
#[export] Hint Resolve steady_http_response_write : steady.

(** *** pool.c *)

Lemma steady_append_command ac x argv : within steady (append_command ac x argv).
Proof. unfold append_command. steady. Qed.
#[export] Hint Resolve steady_append_command : steady.
Lemma steady_redisAsyncCommandArgv ac cb argv : within steady (redisAsyncCommandArgv ac cb argv).
Proof. unfold redisAsyncCommandArgv. steady. Qed.
#[export] Hint Resolve steady_redisAsyncCommandArgv : steady.
Lemma steady_log_alloc level body : within steady (log_alloc level body).
Proof. unfold log_alloc. steady. Qed.
Lemma steady_pool_schedule_reconnect : within steady pool_schedule_reconnect.
Proof. apply steady_register_timer. Qed.
#[export] Hint Resolve steady_log_alloc steady_pool_schedule_reconnect : steady.
Lemma steady_pool_on_connect ac b : within steady (pool_on_connect ac b).
Proof. unfold pool_on_connect. steady. Qed.
Lemma steady_pool_on_disconnect ac b : within steady (pool_on_disconnect ac b).
Proof. unfold pool_on_disconnect. steady. Qed.
Lemma steady_pool_on_auth_complete r : within steady (pool_on_auth_complete r).
Proof. unfold pool_on_auth_complete. steady. Qed.
Lemma steady_pool_authenticate ac : within steady (pool_authenticate ac).
Proof. unfold pool_authenticate. steady. Qed.
Lemma steady_pool_select ac db : within steady (pool_select ac db).
Proof. unfold pool_select. steady. Qed.
#[export] Hint Resolve steady_pool_on_connect steady_pool_on_disconnect steady_pool_on_auth_complete
  steady_pool_authenticate steady_pool_select : steady.
Lemma steady_pool_connect db attach : within steady (pool_connect db attach).
Proof. unfold pool_connect. steady. Qed.
#[export] Hint Resolve steady_pool_connect : steady.
Lemma steady_pool_can_connect : within steady pool_can_connect.
Proof. unfold pool_can_connect. steady. Qed.
Lemma steady_connect_loop n db : within steady (connect_loop n db).
Proof. induction n; cbn [connect_loop]; steady. Qed.
Lemma steady_pool_get_context : within steady pool_get_context.
Proof. unfold pool_get_context. steady. Qed.
#[export] Hint Resolve steady_pool_can_connect steady_connect_loop steady_pool_get_context : steady.

(** *** cmd.c and the formats, for a disconnection that does as much *)

Section Level.
Context `{AsyncDisconnect} `{Packer}.
Hypothesis steady_disconnect : forall ac, within steady (redisAsyncDisconnect ac).
Hint Resolve steady_disconnect : steady.

Lemma steady_cmd_free c : within steady (cmd_free c).
Proof using steady_disconnect. unfold cmd_free, pool_free_context, cmd_free_argv. steady. Qed.
Hint Resolve steady_cmd_free : steady.

Lemma steady_cmd_new cl n : within steady (cmd_new cl n).
Proof using. unfold cmd_new. steady. Qed.
Lemma steady_setup_headers hs x : within steady (setup_headers hs x).
Proof using. revert x. induction hs; intros x; cbn [setup_headers]; steady. Qed.
Hint Resolve steady_cmd_new steady_setup_headers : steady.
Lemma steady_cmd_setup c cl : within steady (cmd_setup c cl).
Proof using. unfold cmd_setup. steady. Qed.
Lemma steady_cmd_send c f : within steady (cmd_send c f).
Proof using. unfold cmd_send. steady. Qed.
Hint Resolve steady_cmd_setup steady_cmd_send : steady.
Lemma steady_cmd_run cl buf uri len body : within steady (cmd_run cl buf uri len body).
Proof using steady_disconnect. unfold cmd_run, cmd_prepare, cmd_connect, cmd_finish. steady. Qed.

Lemma steady_ws_frame_and_send_response ws t p : within steady (ws_frame_and_send_response ws t p).
Proof using. unfold ws_frame_and_send_response. steady. Qed.
Hint Resolve steady_ws_frame_and_send_response : steady.
Lemma steady_format_send_error c code msg : within steady (format_send_error c code msg).
Proof using steady_disconnect. unfold format_send_error, cmd_ws. steady. Qed.
Hint Resolve steady_format_send_error : steady.
Lemma steady_format_send_reply c p ct : within steady (format_send_reply c p ct).
Proof using steady_disconnect. unfold format_send_reply, cmd_ws, etag_new. steady. Qed.
Hint Resolve steady_format_send_reply : steady.
Lemma steady_run_cb cb r : within steady (run_cb cb r).
Proof using steady_disconnect.
  unfold run_cb, run_format, json_reply_cb, raw_reply_cb, msgpack_reply_cb, custom_type_reply_cb, custom_bad_request.
  steady.
Qed.
Hint Resolve steady_run_cb : steady.

(** *** hiredis *)

Lemma steady_run_callback ac cb r : within steady (__redisRunCallback ac cb r).
Proof using steady_disconnect. unfold __redisRunCallback. steady. Qed.
Hint Resolve steady_run_callback : steady.
Lemma steady_fail_all shift n ac : within steady shift -> within steady (fail_all shift n ac).
Proof using steady_disconnect. intros Hs. induction n; cbn [fail_all]; steady. Qed.
Lemma steady_run_subscriptions ac d : within steady (run_subscriptions ac d).
Proof using steady_disconnect. induction d as [|[? [? ?]] d IH]; cbn [run_subscriptions]; steady. Qed.
Lemma steady_shift_reply ac : within steady (shift_reply ac).
Proof using. unfold shift_reply. steady. Qed.
Lemma steady_shift_invalid ac : within steady (shift_invalid ac).
Proof using. unfold shift_invalid. steady. Qed.
Hint Resolve steady_fail_all steady_run_subscriptions steady_shift_reply steady_shift_invalid : steady.
Lemma steady_async_free ac : within steady (__redisAsyncFree ac).
Proof using steady_disconnect. unfold __redisAsyncFree. steady. Qed.
Hint Resolve steady_async_free : steady.
Lemma steady_redisAsyncFree ac : within steady (redisAsyncFree ac).
Proof using steady_disconnect. unfold redisAsyncFree. steady. Qed.
Lemma steady_async_disconnect ac : within steady (__redisAsyncDisconnect ac).
Proof using steady_disconnect. unfold __redisAsyncDisconnect. steady. Qed.
Hint Resolve steady_async_disconnect : steady.
Lemma steady_disconnect_step ac : within steady (redisAsyncDisconnect_step ac).
Proof using steady_disconnect. unfold redisAsyncDisconnect_step. steady. Qed.
Lemma steady_subscribe_callback ac r cb : within steady (__redisGetSubscribeCallback ac r cb).
Proof using. unfold __redisGetSubscribeCallback, subscription_update. steady. Qed.
Hint Resolve steady_subscribe_callback : steady.
Lemma steady_process_loop ac cb rs ended : within steady (process_loop ac cb rs ended).
Proof using steady_disconnect. revert cb. induction rs as [|r rs IH]; intros cb; cbn [process_loop]; steady. Qed.
Hint Resolve steady_process_loop : steady.
Lemma steady_handle_connected ac s k : within steady k -> within steady (handle_connected ac s k).
Proof using steady_disconnect.
  intros Hk. unfold handle_connected, __redisAsyncHandleConnect, __redisAsyncHandleConnectFailure. steady.
Qed.
Lemma steady_handle_read ac s i : within steady (redisAsyncHandleRead ac s i).
Proof using steady_disconnect.
  apply steady_handle_connected. unfold redisAsyncRead, redisProcessCallbacks. steady.
Qed.
Lemma steady_handle_write ac s o : within steady (redisAsyncHandleWrite ac s o).
Proof using steady_disconnect. apply steady_handle_connected. unfold redisAsyncWrite. steady. Qed.
End Level.

Lemma steady_disconnect_at `{Packer} n ac : within steady (redisAsyncDisconnect (AsyncDisconnect := disconnect_at n) ac).
Proof.
  revert ac. induction n as [|n IH]; intros ac; [apply steady_fail|]. by apply steady_disconnect_step.
Qed.

Lemma steady_hiredis `{Packer} ac : within steady (redisAsyncDisconnect ac).
Proof. apply steady_disconnect_at. Qed.

#[export] Hint Resolve steady_hiredis steady_cmd_free steady_cmd_new steady_cmd_setup steady_cmd_send steady_cmd_run
  steady_ws_frame_and_send_response steady_redisAsyncFree steady_handle_read steady_handle_write : steady.

(** *** client.c *)

Section Clients.
Context `{Packer} `{Resp.Strtod} `{HttpParser}.

Lemma steady_send_now c resp : within steady (send_now c resp).
Proof using. unfold send_now, http_client_reset. steady. Qed.
Hint Resolve steady_send_now : steady.
Lemma steady_log_error c code msg : within steady (log_error c code msg).
Proof using. unfold log_error, http_send_error. steady. Qed.
Hint Resolve steady_log_error : steady.
Lemma steady_process_client c : within steady (worker_process_client c).
Proof using. unfold worker_process_client, run_path, process_result, http_crossdomain, http_send_options. steady. Qed.
Hint Resolve steady_process_client : steady.
Lemma steady_run_callbacks c l final n : within steady (run_callbacks c l final n).
Proof using.
  assert (forall lost k, within steady k -> within steady (CHECK_ALLOC c lost k)) as Hca
    by (intros; unfold CHECK_ALLOC; steady).
  induction l as [|e l IH]; cbn [run_callbacks];
    unfold run_callback, http_client_on_url, http_client_on_query_string, http_client_on_header_name,
      http_client_on_header_value, http_client_on_body, http_client_add_to_body, http_client_on_message_complete,
      http_client_reset; steady; apply Hca; steady.
Qed.
Hint Resolve steady_run_callbacks : steady.
Lemma steady_execute c : within steady (http_client_execute c).
Proof using. unfold http_client_execute. steady. Qed.

(** *** websocket.c *)

Lemma steady_handshake ws : within steady (ws_handshake_reply ws).
Proof using. unfold ws_handshake_reply, ws_compute_handshake. steady. Qed.
Lemma steady_raw_fill l argv : within steady (raw_fill l argv).
Proof using. revert argv. induction l as [|[] l IH]; intros argv; cbn [raw_fill]; steady. Qed.
Hint Resolve steady_raw_fill : steady.
Lemma steady_ws_extract f c p : within steady (ws_extract f c p).
Proof using. unfold ws_extract, raw_ws_extract, json_ws_command. steady. Qed.
Hint Resolve steady_ws_extract : steady.
Lemma steady_ws_log_cmd ws c : within steady (ws_log_cmd ws c).
Proof using. unfold ws_log_cmd, slog_enabled. steady. Qed.
Hint Resolve steady_ws_log_cmd : steady.
Lemma steady_ws_adopt ws c cm : within steady (ws_adopt ws c cm).
Proof using. unfold ws_adopt, cmd_free_argv. steady. Qed.
Lemma steady_ws_run ws c cm f : within steady (ws_run ws c cm f).
Proof using. unfold ws_run, ws_log_unauthorized. steady. Qed.
Hint Resolve steady_ws_adopt steady_ws_run : steady.
Lemma steady_ws_dispatch ws m : within steady (ws_dispatch ws m).
Proof using. unfold ws_dispatch, ws_execute. steady. Qed.
Lemma steady_ws_peek ws : within steady (ws_peek_data ws false).
Proof using. unfold ws_peek_data. cbn [negb]. steady. Qed.

(** Extracting a message takes it out of the buffer, which is all that is not
    steady. *)
Lemma keeps_ws_peek ws : within keeps (ws_peek_data ws true).
Proof using.
  unfold ws_peek_data. cbn [negb].
  repeat match goal with
    | |- within _ (upd_ws _ (set_ws_rbuf _)) =>
        intros w r w' E; unfold upd_ws, put_ws in E; M_inv; by apply keeps_upd_ws
    | |- within _ (mbind _ _) => apply within_bind; [apply keeps_preorder| |intros]
    | |- within _ (match ?x with _ => _ end) => destruct x
    | _ => apply within_keeps; solve [steady]
    end.
Qed.

Lemma keeps_process_frames n ws st : within keeps (process_frames n ws st).
Proof using.
  revert st. induction n as [|n IH]; intros []; cbn [process_frames]; try (apply within_keeps; steady; fail).
  apply within_bind; [apply keeps_preorder|apply keeps_ws_peek|intros [? m]].
  apply within_bind; [apply keeps_preorder| |intros ret].
  { apply within_keeps. destruct m; [apply steady_ws_dispatch|apply steady_ret]. }
  destruct ret; [|apply within_keeps; steady].
  apply within_bind; [apply keeps_preorder|apply within_keeps, steady_ws_peek|intros [? ?]; apply IH].
Qed.

Lemma keeps_process_read_data ws : within keeps (ws_process_read_data ws).
Proof using.
  unfold ws_process_read_data.
  apply within_bind; [apply keeps_preorder|apply within_keeps, steady_ws_peek|intros [? ?]].
  do 2 (apply within_bind; [apply keeps_preorder|apply within_keeps; steady|intros]).
  apply keeps_process_frames.
Qed.
End Clients.

#[export] Hint Resolve steady_log_error steady_execute steady_handshake : steady.

(** ** Closing clients are left alone *)

(** While a connection to Redis is freed, its callbacks run with [NULL] replies.
    They do nothing to a WebSocket client that is closing. *)
Definition quiet (w w' : world) : Prop :=
  forall ws x, w_wss w !! ws = Some x -> ws_close_after_events x = true ->
    w_wss w' !! ws = Some x /\ registered (OnWsRead ws) w' = registered (OnWsRead ws) w /\
    registered (OnWsWrite ws) w' = registered (OnWsWrite ws) w.

#[global] Instance quiet_preorder : PreOrder quiet.
Proof.
  split; [by intros w ws x|]. intros w1 w2 w3 H1 H2 ws x Hx Hc.
  destruct (H1 ws x Hx Hc) as (A1 & A2 & A3). destruct (H2 ws x A1 Hc) as (B1 & B2 & B3).
  by rewrite B1, B2, B3, A2, A3.
Qed.

Lemma quiet_other w w' : w_wss w' = w_wss w -> w_pending w' = w_pending w -> quiet w w'.
Proof. intros E1 E2 ws x Hx _. unfold registered. by rewrite E1, E2. Qed.

(** What only touches the other parts of the state. *)
Lemma quiet_apart {A} (m : M A) :
  (forall w r w', m w = Ok r w' -> w_wss w' = w_wss w /\ w_pending w' = w_pending w) -> within quiet m.
Proof. intros Hm w r w' E. destruct (Hm _ _ _ E). by apply quiet_other. Qed.

Ltac apart := apply quiet_apart; intros ? ? ? E; repeat unfold put_cmd, put_ac, put_client, emit, del_cmd, del_ac in E; M_inv; done.

Lemma quiet_ret {A} (a : A) : within quiet (mret a). Proof. apart. Qed.
Lemma quiet_fail {A} e : within quiet (@fail A e). Proof. apart. Qed.
Lemma quiet_get : within quiet get. Proof. apart. Qed.
Lemma quiet_gets {A} (f : world -> A) : within quiet (gets f). Proof. apart. Qed.
Lemma quiet_get_client l : within quiet (get_client l). Proof. apart. Qed.
Lemma quiet_get_cmd l : within quiet (get_cmd l). Proof. apart. Qed.
Lemma quiet_get_ws l : within quiet (get_ws l). Proof. apart. Qed.
Lemma quiet_get_ac l : within quiet (get_ac l). Proof. apart. Qed.
Lemma quiet_put_cmd l x : within quiet (put_cmd l x). Proof. apart. Qed.
Lemma quiet_put_ac l x : within quiet (put_ac l x). Proof. apart. Qed.
Lemma quiet_put_client l x : within quiet (put_client l x). Proof. apart. Qed.
Lemma quiet_emit e : within quiet (emit e). Proof. apart. Qed.
Lemma quiet_del_cmd l : within quiet (del_cmd l). Proof. apart. Qed.
Lemma quiet_del_ac l : within quiet (del_ac l). Proof. apart. Qed.
Lemma quiet_pool (p : world -> pool) : within quiet (modify (fun w => set_w_pool (p w) w)). Proof. apart. Qed.
Lemma quiet_deref {A} (o : option A) : within quiet (deref o).
Proof. destruct o; [apply quiet_ret|apply quiet_fail]. Qed.
Lemma quiet_alloc_ok : within quiet alloc_ok.
Proof. apply quiet_apart. intros w r w' E. unfold alloc_ok in E. M_inv. by destruct (w_alloc w); M_inv. Qed.
Lemma quiet_timer : within quiet pool_schedule_reconnect.
Proof.
  intros w r w' E ws x Hx _. unfold pool_schedule_reconnect, register in E. M_inv. rewrite !registered_register.
  rewrite !decide_False by done. cbn. by rewrite !Nat.add_0_r.
Qed.

Create HintDb quiet.
#[export] Hint Resolve quiet_ret quiet_fail quiet_get quiet_gets quiet_get_client quiet_get_cmd quiet_get_ws quiet_get_ac
  quiet_put_cmd quiet_put_ac quiet_put_client quiet_emit quiet_del_cmd quiet_del_ac quiet_pool quiet_deref
  quiet_alloc_ok quiet_timer : quiet.

Ltac quiet :=
  repeat match goal with
    | _ => solve [auto with quiet]
    | |- within _ (mbind _ _) => apply within_bind; [apply quiet_preorder| |intros]
    | |- within _ (match ?x with _ => _ end) => destruct x
    | |- within _ skip => apply quiet_ret
    | |- within _ (when ?b _) => unfold when; destruct b
    end.

Lemma quiet_upd_client l f : within quiet (upd_client l f).
Proof. unfold upd_client. quiet. Qed.
Lemma quiet_upd_cmd l f : within quiet (upd_cmd l f).
Proof. unfold upd_cmd. quiet. Qed.
Lemma quiet_upd_ac l f : within quiet (upd_ac l f).
Proof. unfold upd_ac. quiet. Qed.
Lemma quiet_slog level body : within quiet (slog level body).
Proof. unfold slog, slog_enabled. quiet. Qed.
#[export] Hint Resolve quiet_upd_client quiet_upd_cmd quiet_upd_ac quiet_slog : quiet.

(** An update of a WebSocket client that is not closing, and an event for it. *)
Lemma quiet_put_ws ws y w x :
  w_wss w !! ws = Some x -> ws_close_after_events x = false -> quiet w (set_w_wss (<[ws := y]> (w_wss w)) w).
Proof.
  intros Hx Hc ws' x' Hx' Hc'. cbn. rewrite lookup_insert_ne by (intros ->; congruence). done.
Qed.

Lemma quiet_register_ws ws p w x :
  w_wss w !! ws = Some x -> ws_close_after_events x = false -> p = OnWsWrite ws ->
  quiet w (set_w_pending (w_pending w ++ [p]) w).
Proof.
  intros Hx Hc -> ws' x' Hx' Hc'. rewrite !registered_register. rewrite !decide_False by (intros [=]; congruence).
  cbn. by rewrite !Nat.add_0_r.
Qed.

Lemma quiet_frame ws t p w x r w' :
  w_wss w !! ws = Some x -> ws_close_after_events x = false ->
  ws_frame_and_send_response ws t p w = Ok r w' -> quiet w w'.
Proof.
  intros Hx Hc E. unfold ws_frame_and_send_response in E.
  assert (forall w1 b w2, alloc_ok w1 = Ok b w2 -> quiet w1 w2 /\ w_wss w2 = w_wss w1) as Halloc.
  { intros w1 b w2 Ea. split; [by eapply quiet_alloc_ok|]. unfold alloc_ok in Ea. M_inv.
    by destruct (w_alloc w1); M_inv. }
  apply bind_ok in E as (f & w1 & [Q1 W1]%Halloc & E). destruct f; cbn [negb] in E; [|M_inv; done].
  apply bind_ok in E as (f & w2 & [Q2 W2]%Halloc & E). etrans; [exact Q1|]. etrans; [exact Q2|].
  rewrite <-W1, <-W2 in Hx. clear Q1 Q2 W1 W2. destruct f; cbn [negb] in E.
  2: { revert E. apply (within_bind quiet); [quiet|intros; quiet]. }
  apply bind_ok in E as (? & w3 & E3 & E). rewrite (upd_ws_eq _ _ _ _ Hx) in E3. injection E3 as _ <-.
  set (y := set_ws_wbuf _ x) in *.
  etrans; [by eapply (quiet_put_ws ws y)|]. set (w4 := set_w_wss _ w2) in *.
  assert (w_wss w4 !! ws = Some y) as Hy by apply lookup_insert_eq.
  assert (ws_close_after_events y = false) as Hcy by done. clearbody y w4. clear Hx Hc.
  unfold ws_schedule_write in E. rewrite (run_get_ws _ _ _ _ Hy) in E.
  destruct (ws_scheduled_write y); [M_inv; done|]. unfold put_ws in E.
  apply bind_ok in E as (? & w5 & E5 & E). injection E5 as _ <-.
  etrans; [by eapply (quiet_put_ws ws (set_ws_scheduled_write true y))|]. set (w5 := set_w_wss _ w4) in *.
  assert (w_wss w5 !! ws = Some (set_ws_scheduled_write true y)) as Hz by apply lookup_insert_eq. clearbody w5.
  apply bind_ok in E as (c & w6 & E6 & E). destruct (ws_http_client y); [|discriminate E6].
  injection E6 as <- <-. apply bind_ok in E as (? & ? & [? <-]%get_client_ok & E). unfold event_base_once in E.
  apply bind_ok in E as (ok & w7 & [Q7 W7]%Halloc & E). etrans; [exact Q7|]. rewrite <-W7 in Hz. unfold when in E.
  destruct ok; unfold register in E; M_inv; [|done]. by eapply quiet_register_ws.
Qed.

Section Quiet.
Context `{AsyncDisconnect} `{Packer}.
Hypothesis quiet_disconnect : forall ac, within quiet (redisAsyncDisconnect ac).
Hint Resolve quiet_disconnect : quiet.

Lemma quiet_cmd_free c : within quiet (cmd_free c).
Proof using quiet_disconnect. unfold cmd_free, pool_free_context, cmd_free_argv. quiet. Qed.
Hint Resolve quiet_cmd_free : quiet.

Lemma quiet_error_frame ws msg :
  within quiet (wsx ← get_ws ws;
                if ws_close_after_events wsx then skip
                else _ ← ws_frame_and_send_response ws WS_BINARY_FRAME msg; skip).
Proof using.
  intros w r w' E. apply bind_ok in E as (x & ? & [Hx <-]%get_ws_ok & E).
  destruct (ws_close_after_events x) eqn:Hc; [M_inv; done|]. apply bind_ok in E as (? & w1 & E1 & E). M_inv.
  by eapply quiet_frame.
Qed.
Hint Resolve quiet_error_frame : quiet.

Lemma quiet_format_send_error c code msg : within quiet (format_send_error c code msg).
Proof using quiet_disconnect. unfold format_send_error, cmd_ws, World.http_response_write. quiet. Qed.
Hint Resolve quiet_format_send_error : quiet.

Lemma quiet_run_callback ac cb : within quiet (__redisRunCallback ac cb None).
Proof using quiet_disconnect.
  unfold __redisRunCallback, run_cb, run_format, json_reply_cb, raw_reply_cb, msgpack_reply_cb, custom_type_reply_cb,
    pool_on_auth_complete. quiet.
Qed.
Hint Resolve quiet_run_callback : quiet.

Lemma quiet_fail_all shift n ac : within quiet shift -> within quiet (fail_all shift n ac).
Proof using quiet_disconnect. intros Hs. induction n; cbn [fail_all]; quiet. Qed.
Lemma quiet_run_subscriptions ac d : within quiet (run_subscriptions ac d).
Proof using quiet_disconnect. induction d as [|[? [? ?]] d IH]; cbn [run_subscriptions]; quiet. Qed.
Lemma quiet_shift_reply ac : within quiet (shift_reply ac).
Proof using. unfold shift_reply. quiet. Qed.
Lemma quiet_shift_invalid ac : within quiet (shift_invalid ac).
Proof using. unfold shift_invalid. quiet. Qed.
Hint Resolve quiet_fail_all quiet_run_subscriptions quiet_shift_reply quiet_shift_invalid : quiet.

Lemma quiet_disconnect_step ac : within quiet (redisAsyncDisconnect_step ac).
Proof using quiet_disconnect.
  unfold redisAsyncDisconnect_step, __redisAsyncDisconnect, __redisAsyncFree, pool_on_disconnect, log_alloc. quiet.
Qed.
End Quiet.

Lemma quiet_hiredis `{Packer} ac : within quiet (redisAsyncDisconnect ac).
Proof.
  enough (forall n ac, within quiet (redisAsyncDisconnect (AsyncDisconnect := disconnect_at n) ac)) as Hn by apply Hn.
  clear ac. intros n. induction n as [|n IH]; intros ac; [apply quiet_fail|]. by apply quiet_disconnect_step.
Qed.
#[export] Hint Resolve quiet_hiredis quiet_cmd_free : quiet.

(** ** The invariant *)

Definition owner (w : world) : gmap loc (option loc) := ws_http_client <$> w_wss w.

Record events_ok (w : world) : Prop := {
  e_ws p : is_ws_event p = true -> (registered p w <= scheduled p w)%nat;
  e_once c : (registered (OnClientRead c) w <= 1)%nat;
  e_live c : (0 < registered (OnClientRead c) w)%nat ->
    is_Some (w_clients w !! c) /\ (c < w_next w)%positive /\ forall ws, owner w !! ws <> Some (Some c);
  e_owner ws c : owner w !! ws = Some (Some c) -> (c < w_next w)%positive;
  e_fresh ws : is_Some (owner w !! ws) -> (ws < w_next w)%positive }.

(** A client that is being handled: its event has fired and nothing else waits for
    it. *)
Record idle (c : loc) (w : world) : Prop := {
  i_live : is_Some (w_clients w !! c);
  i_next : (c < w_next w)%positive;
  i_unregistered : registered (OnClientRead c) w = 0%nat;
  i_unowned ws : owner w !! ws <> Some (Some c) }.

Lemma events_keeps w w' : keeps w w' -> events_ok w -> events_ok w'.
Proof.
  intros [K1 K2 K3 K4 K5] [E1 E2 E3 E4 E6].
  split; unfold owner in *; rewrite ?K4; try done.
  - intros p Hp. specialize (K1 p Hp). specialize (E1 p Hp). lia.
  - intros c. by rewrite K2.
  - intros c. rewrite K2. intros (? & ? & ?)%E3. repeat split; [auto|lia|done].
  - intros ws c ?%E4. lia.
  - intros ws Hws%E6. lia.
Qed.

Lemma idle_keeps c w w' : keeps w w' -> idle c w -> idle c w'.
Proof.
  intros [K1 K2 K3 K4 K5] [I1 I2 I3 I4]. split; unfold owner in *; rewrite ?K4, ?K2; auto. lia.
Qed.

Lemma events_del_client c w :
  events_ok w -> registered (OnClientRead c) w = 0%nat -> events_ok (set_w_clients (delete c (w_clients w)) w).
Proof.
  intros [E1 E2 E3 E4 E5] Hc. split; try done.
  intros c' Hc'. change (registered _ _) with (registered (OnClientRead c') w) in Hc'.
  destruct (E3 c' Hc') as (L & ? & ?). repeat split; [|done..].
  cbn. rewrite lookup_delete_ne; [done|]. intros ->. lia.
Qed.

Lemma events_http_client_free c w r w' :
  events_ok w -> registered (OnClientRead c) w = 0%nat -> http_client_free c w = Ok r w' -> events_ok w'.
Proof.
  intros He Hc E. unfold http_client_free, http_client_reset in E. apply bind_ok in E as (? & w1 & E1%steady_upd_client & E).
  apply s_keeps in E1. apply (events_keeps _ _ E1) in He. rewrite <-(k_client _ _ E1 c) in Hc.
  unfold del_client in E. M_inv. by apply events_del_client.
Qed.

(** Freeing a WebSocket client whose events are not scheduled. *)
Lemma scheduled_del p ws w :
  scheduled p (set_w_wss (delete ws (w_wss w)) w) =
  if decide (p = OnWsRead ws \/ p = OnWsWrite ws) then 0%nat else scheduled p w.
Proof.
  destruct p as [|ws'|ws'|]; cbn; try (by rewrite decide_False by (by intros [])).
  - destruct (decide (ws = ws')) as [->|].
    + by rewrite lookup_delete_eq, decide_True by auto.
    + rewrite lookup_delete_ne, decide_False; [done|by intros [[=]|]|done].
  - destruct (decide (ws = ws')) as [->|].
    + by rewrite lookup_delete_eq, decide_True by auto.
    + rewrite lookup_delete_ne, decide_False; [done|by intros [|[=]]|done].
Qed.

Lemma owner_del ws w ws' o :
  owner (set_w_wss (delete ws (w_wss w)) w) !! ws' = Some o <-> owner w !! ws' = Some o /\ ws' <> ws.
Proof. unfold owner. cbn. rewrite fmap_delete, lookup_delete_Some. naive_solver. Qed.

Lemma events_del_ws ws w :
  events_ok w -> registered (OnWsRead ws) w = 0%nat -> registered (OnWsWrite ws) w = 0%nat ->
  events_ok (set_w_wss (delete ws (w_wss w)) w).
Proof.
  intros [E1 E2 E3 E4 E5] Hr Hw. split; try done.
  - intros p Hp. change (registered p _) with (registered p w). rewrite scheduled_del.
    destruct (decide _) as [[-> | ->]|]; [lia..|by apply E1].
  - intros c Hc. destruct (E3 c Hc) as (? & ? & Hn). repeat split; [done..|].
    intros ws' [? ?]%owner_del. by apply (Hn ws').
  - intros ws' c [? ?]%owner_del. by apply (E4 ws').
  - intros ws' [o [? ?]%owner_del]. apply E5. by eexists.
Qed.

Lemma owner_lookup w ws x : w_wss w !! ws = Some x -> owner w !! ws = Some (ws_http_client x).
Proof. intros Hx. unfold owner. by rewrite lookup_fmap, Hx. Qed.

(** The HTTP client of a WebSocket client is not waited for. *)
Lemma owned_unregistered ws c w :
  events_ok w -> owner w !! ws = Some (Some c) -> registered (OnClientRead c) w = 0%nat.
Proof.
  intros He Ho. destruct (registered (OnClientRead c) w) eqn:Hr; [done|].
  destruct (e_live _ He c ltac:(lia)) as (_ & _ & Hn). by destruct (Hn ws).
Qed.

Lemma registered_http_client_free c w r w' p :
  http_client_free c w = Ok r w' -> registered (OnClientRead p) w' = registered (OnClientRead p) w.
Proof.
  intros E. unfold http_client_free, http_client_reset in E.
  apply bind_ok in E as (? & w1 & E1%steady_upd_client%s_keeps & E). rewrite <-(k_client _ _ E1).
  unfold del_client in E. M_inv. done.
Qed.

Section Closing.
Context `{Packer} `{Resp.Strtod} `{HttpParser}.

(** The part of [ws_client_free] before the memory is released. *)
Definition ws_detach (ws : loc) (x : ws_client) : M unit :=
  (match ws_http_client x with
   | Some c =>
       cl ← get_client c;
       emit (EvClose (hc_fd cl)) ;;
       put_client c (set_hc_ws None cl)
   | None => skip
   end) ;;
  match ws_cmd x with
  | Some cm => upd_cmd cm (set_cmd_ac None) ;; cmd_free cm
  | None => skip
  end.

Lemma steady_ws_detach ws x : within steady (ws_detach ws x).
Proof using. unfold ws_detach. steady. Qed.
Lemma quiet_ws_detach ws x : within quiet (ws_detach ws x).
Proof using. unfold ws_detach. quiet. Qed.

Lemma ws_client_free_eq ws w :
  ws_client_free ws w =
  (upd_ws ws (set_ws_close_after_events true) ;;
   x ← get_ws ws;
   pool_free_context (ws_ac x) ;;
   x ← get_ws ws;
   ws_detach ws x ;;
   del_ws ws ;;
   match ws_http_client x with Some c => http_client_free c | None => skip end) w.
Proof using.
  unfold ws_client_free, ws_detach, mbind, M_bind.
  destruct (upd_ws _ _ w) as [? w1|]; [|done]. destruct (get_ws ws w1) as [x w2|]; [|done].
  destruct (pool_free_context _ w2) as [? w3|]; [|done]. destruct (get_ws ws w3) as [y w4|]; [|done].
  destruct (ws_http_client y) as [c|]; [|done]. destruct (get_client c w4) as [? w5|]; [|done]. done.
Qed.

Lemma ws_client_free_ok ws w r w' :
  events_ok w -> scheduled (OnWsRead ws) w = 0%nat -> scheduled (OnWsWrite ws) w = 0%nat ->
  ws_client_free ws w = Ok r w' ->
  events_ok w' /\ forall c, registered (OnClientRead c) w' = registered (OnClientRead c) w.
Proof using.
  intros He Hr Hw E. rewrite ws_client_free_eq in E.
  pose proof (e_ws _ He (OnWsRead ws) eq_refl). pose proof (e_ws _ He (OnWsWrite ws) eq_refl).
  apply bind_ok in E as ([] & w1 & E1 & E).
  assert (steady w w1) as S1 by (eapply steady_upd_ws; [apply calm_close|exact E1]).
  unfold upd_ws, put_ws in E1. apply bind_ok in E1 as (x & ? & [Hx <-]%get_ws_ok & E1). injection E1 as E1.
  set (x1 := set_ws_close_after_events true x) in *.
  assert (w_wss w1 !! ws = Some x1) as Hx1 by (rewrite <-E1; apply lookup_insert_eq).
  assert (registered (OnWsRead ws) w1 = 0%nat /\ registered (OnWsWrite ws) w1 = 0%nat) as [R1 R2]
    by (rewrite <-E1; unfold registered in *; cbn; lia).
  rewrite (run_get_ws _ _ _ _ Hx1) in E. apply bind_ok in E as ([] & w2 & E2 & E).
  assert (steady w1 w2 /\ quiet w1 w2) as [S2 Q2].
  { unfold pool_free_context in E2. destruct (ws_ac x1); [split; [by eapply steady_hiredis|by eapply quiet_hiredis]|].
    M_inv. done. }
  destruct (Q2 ws x1 Hx1 eq_refl) as (Hx2 & R3 & R4). rewrite (run_get_ws _ _ _ _ Hx2) in E.
  apply bind_ok in E as ([] & w3 & E3 & E).
  assert (steady w w3) as S3 by (etrans; [exact S1|]; etrans; [exact S2|]; by eapply steady_ws_detach).
  destruct (quiet_ws_detach _ _ _ _ _ E3 ws x1 Hx2 eq_refl) as (Hx3 & R5 & R6).
  apply s_keeps in S3. assert (events_ok w3) as He3 by (by eapply events_keeps).
  apply bind_ok in E as ([] & w4 & E4 & E). unfold del_ws in E4. rewrite (run_get_ws _ _ _ _ Hx3) in E4.
  injection E4 as <-.
  assert (events_ok (set_w_wss (delete ws (w_wss w3)) w3)) as He4 by (apply events_del_ws; [done|congruence..]).
  pose proof (owner_lookup _ _ _ Hx3) as Ho. destruct (ws_http_client x1) as [c|].
  - split; [eapply events_http_client_free; [exact He4|by apply (owned_unregistered ws c w3)|done]|].
    intros c'. rewrite (registered_http_client_free _ _ _ _ c' E). apply (k_client _ _ S3).
  - M_inv. split; [done|]. intros c'. apply (k_client _ _ S3).
Qed.

Lemma ws_close_if_able_ok ws w r w' :
  events_ok w -> ws_close_if_able ws w = Ok r w' -> events_ok w' /\ forall c, registered (OnClientRead c) w' = registered (OnClientRead c) w.
Proof using.
  intros He E. unfold ws_close_if_able in E. apply bind_ok in E as ([] & w1 & E1 & E).
  assert (keeps w w1) as K by (eapply s_keeps, steady_upd_ws; [apply calm_close|exact E1]).
  assert (events_ok w1) as He1 by (by eapply events_keeps).
  apply bind_ok in E as (x & ? & [Hx <-]%get_ws_ok & E).
  destruct (ws_scheduled_read x || ws_scheduled_write x) eqn:Hs.
  - M_inv. split; [done|]. apply (k_client _ _ K).
  - apply orb_false_iff in Hs as [Hs1 Hs2].
    destruct (ws_client_free_ok ws w1 r w') as [? Hi]; [done|cbn; rewrite Hx; cbn; by rewrite ?Hs1, ?Hs2..|done|].
    split; [done|]. intros c. by rewrite Hi, (k_client _ _ K).
Qed.
(** *** Handlers *)

Lemma count_remove p l l' q :
  remove_pending p l = Some l' -> count q l = (count q l' + if decide (p = q) then 1 else 0)%nat.
Proof using.
  revert l'. induction l as [|a l IH]; intros l'; cbn [remove_pending]; [done|].
  destruct (decide (a = p)) as [->|Hne].
  - intros [= <-]. cbn. destruct (decide (p = q)); lia.
  - destruct (remove_pending p l) as [l1|]; [|done]. intros [= <-]. cbn. rewrite (IH l1) by done.
    destruct (decide (a = q)); lia.
Qed.

Lemma registered_fired p l w q :
  remove_pending p (w_pending w) = Some l ->
  registered q w = (registered q (set_w_pending l w) + if decide (p = q) then 1 else 0)%nat.
Proof using. intros Hl. unfold registered. cbn. by apply count_remove. Qed.

(** The event of a WebSocket client has fired, and its flag is reset. *)
Lemma events_fired ws p l w x y :
  events_ok w -> is_ws_event p = true -> remove_pending p (w_pending w) = Some l -> w_wss w !! ws = Some x ->
  ws_http_client y = ws_http_client x ->
  (forall q, scheduled q (set_w_wss (<[ws := y]> (w_wss w)) w) = if decide (p = q) then 0%nat else scheduled q w) ->
  events_ok (set_w_wss (<[ws := y]> (w_wss w)) (set_w_pending l w)).
Proof using.
  intros [E1 E2 E3 E4 E5] Hp Hl Hx Hy Hs.
  assert (owner (set_w_wss (<[ws := y]> (w_wss w)) (set_w_pending l w)) = owner w) as Ho.
  { unfold owner. cbn. rewrite fmap_insert, Hy. apply insert_id. by rewrite lookup_fmap, Hx. }
  assert (forall c, registered (OnClientRead c) (set_w_pending l w) = registered (OnClientRead c) w) as Hr.
  { intros c. rewrite (registered_fired p l w _ Hl), decide_False; [lia|by intros ->]. }
  split; rewrite ?Ho; try done.
  - intros q Hq. change (registered q _) with (registered q (set_w_pending l w)).
    change (scheduled q _) with (scheduled q (set_w_wss (<[ws := y]> (w_wss w)) w)). rewrite Hs.
    specialize (E1 q Hq). rewrite (registered_fired p l w q Hl) in E1. pose proof (scheduled_le q w).
    destruct (decide (p = q)) as [<-|]; lia.
  - intros c. change (registered _ _) with (registered (OnClientRead c) (set_w_pending l w)). by rewrite Hr.
  - intros c. change (registered _ _) with (registered (OnClientRead c) (set_w_pending l w)). by rewrite Hr; apply E3.
Qed.

Lemma ws_can_read_ok ws data l w r w' :
  events_ok w -> remove_pending (OnWsRead ws) (w_pending w) = Some l ->
  ws_can_read ws data (set_w_pending l w) = Ok r w' -> events_ok w'.
Proof using.
  intros He Hl E. unfold ws_can_read in E. apply bind_ok in E as ([] & w1 & E1 & E).
  apply bind_ok in E1 as (x & ? & [Hx <-]%get_ws_ok & E1). injection E1 as E1. cbn in Hx, E1.
  set (y := set_ws_rbuf _ _) in *.
  assert (events_ok w1) as He1.
  { rewrite <-E1. eapply (events_fired ws (OnWsRead ws)); [done|reflexivity|done|exact Hx|done|].
    intros q. destruct q as [|ws'|ws'|]; cbn; try done.
    - destruct (decide (ws = ws')) as [->|].
      + rewrite lookup_insert_eq, decide_True by done. done.
      + rewrite lookup_insert_ne, decide_False by congruence. done.
    - destruct (decide (ws = ws')) as [->|]; [by rewrite lookup_insert_eq, Hx|by rewrite lookup_insert_ne]. }
  clear E1 He. apply bind_ok in E as (z & ? & [Hz <-]%get_ws_ok & E). destruct (_ || _).
  { by eapply ws_close_if_able_ok. }
  apply bind_ok in E as (st & w2 & E2%keeps_process_read_data & E).
  apply (events_keeps _ _ E2) in He1. destruct st.
  - by eapply ws_close_if_able_ok.
  - apply bind_ok in E as (b & w3 & E3%steady_ws_monitor_input & E). M_inv.
    by eapply events_keeps; [apply s_keeps|].
  - M_inv. done.
Qed.

Lemma ws_can_write_ok fd ws n l w r w' :
  events_ok w -> remove_pending (OnWsWrite ws) (w_pending w) = Some l ->
  ws_can_write fd ws n (set_w_pending l w) = Ok r w' -> events_ok w'.
Proof using.
  intros He Hl E. unfold ws_can_write in E. apply bind_ok in E as (x & ? & [Hx <-]%get_ws_ok & E).
  apply bind_ok in E as ([] & w1 & E1 & E). injection E1 as E1. cbn in Hx, E1.
  set (y := set_ws_wbuf _ _) in *.
  assert (events_ok w1) as He1.
  { rewrite <-E1. eapply (events_fired ws (OnWsWrite ws)); [done|reflexivity|done|exact Hx|done|].
    intros q. destruct q as [|ws'|ws'|]; cbn; try done.
    - destruct (decide (ws = ws')) as [->|]; [by rewrite lookup_insert_eq, Hx|by rewrite lookup_insert_ne].
    - destruct (decide (ws = ws')) as [->|].
      + rewrite lookup_insert_eq, decide_True by done. done.
      + rewrite lookup_insert_ne, decide_False by congruence. done. }
  clear E1 He. destruct (bool_decide (take n (ws_wbuf x) = [])); [by eapply ws_close_if_able_ok|].
  apply bind_ok in E as ([] & w2 & E2%steady_emit & E). apply s_keeps in E2. apply (events_keeps _ _ E2) in He1.
  destruct (negb _).
  { apply bind_ok in E as (b & w3 & E3%steady_ws_schedule_write & E). M_inv.
    by eapply events_keeps; [apply s_keeps|]. }
  destruct (ws_close_after_events x); [by eapply ws_close_if_able_ok|].
  apply bind_ok in E as (st & w3 & E3%keeps_process_read_data & E). apply (events_keeps _ _ E3) in He1.
  apply bind_ok in E as (b & w4 & E4%steady_ws_monitor_input & E). M_inv.
  by eapply events_keeps; [apply s_keeps|].
Qed.

(** *** HTTP clients *)

Lemma events_client_fired c l w :
  events_ok w -> remove_pending (OnClientRead c) (w_pending w) = Some l ->
  events_ok (set_w_pending l w) /\ idle c (set_w_pending l w).
Proof using.
  intros [E1 E2 E3 E4 E5] Hl. pose proof (fun q => registered_fired _ l w q Hl) as Hr.
  pose proof (Hr (OnClientRead c)) as Hc. rewrite decide_True in Hc by done.
  destruct (E3 c ltac:(lia)) as (? & ? & ?). specialize (E2 c) as Hone. split; split; try done; try lia.
  - intros p Hp. specialize (E1 p Hp). rewrite Hr, decide_False in E1; [|by intros <-].
    change (scheduled p _) with (scheduled p w). lia.
  - intros c'. specialize (E2 c'). rewrite Hr in E2. lia.
  - intros c' Hc'. apply E3. rewrite Hr. lia.
Qed.

Lemma client_disconnect_ok c w r w' :
  events_ok w -> registered (OnClientRead c) w = 0%nat -> client_disconnect c w = Ok r w' -> events_ok w'.
Proof using.
  intros He Hc E.
  assert (exists w1, keeps w w1 /\ http_client_free c w1 = Ok r w') as (w1 & K & Ef).
  { unfold client_disconnect in E. apply bind_ok in E as (x & w1 & E1%steady_get_client & E).
    apply bind_ok in E as (? & w2 & E2 & E). steady_in E2.
    apply bind_ok in E as (y & w3 & E3%steady_get_client & E).
    apply bind_ok in E as (? & w4 & E4 & E). steady_in E4.
    apply bind_ok in E as (? & w5 & E5%steady_emit & E). exists w5. split; [|done].
    apply s_keeps. by do 4 (etrans; [eassumption|]). }
  eapply events_http_client_free; [by eapply events_keeps| |done]. by rewrite (k_client _ _ K).
Qed.

(** *** The upgrade *)

Lemma events_new_ws c w x :
  events_ok w -> idle c w -> ws_http_client x = Some c -> ws_scheduled_read x = false -> ws_scheduled_write x = false ->
  events_ok (set_w_wss (<[w_next w := x]> (w_wss w)) (set_w_next (Pos.succ (w_next w)) w)).
Proof using.
  intros [E1 E2 E3 E4 E5] [I1 I2 I3 I4] Hx Hr Hw. set (n := w_next w) in *.
  assert (w_wss w !! n = None) as Hn.
  { destruct (w_wss w !! n) as [y|] eqn:Hy; [|done]. apply owner_lookup in Hy. specialize (E5 n ltac:(by eexists)). lia. }
  assert (forall ws o, owner (set_w_wss (<[n := x]> (w_wss w)) (set_w_next (Pos.succ n) w)) !! ws = Some o ->
    ws = n /\ o = Some c \/ owner w !! ws = Some o) as Ho.
  { intros ws o. unfold owner. cbn. rewrite fmap_insert, Hx. intros [[<- <-]|[_ ?]]%lookup_insert_Some; auto. }
  split; try done.
  - intros p Hp. specialize (E1 p Hp). change (registered p _) with (registered p w).
    destruct p as [|ws|ws|]; try done; cbn in *;
      (destruct (decide (n = ws)) as [<-|]; [rewrite Hn in E1; cbn in E1; lia|by rewrite lookup_insert_ne]).
  - intros c' Hc'. destruct (E3 c' Hc') as (? & ? & Hu). cbn. repeat split; [done|lia|].
    intros ws [[-> [= ->]]|?]%Ho; [|by apply (Hu ws)].
    change (registered _ _) with (registered (OnClientRead c) w) in Hc'. lia.
  - intros ws c' [[-> [= ->]]|Hc]%Ho; cbn; [lia|]. specialize (E4 _ _ Hc). lia.
  - intros ws [o [[-> ->]|?]%Ho]; cbn; [lia|]. specialize (E5 ws ltac:(by eexists)). lia.
Qed.

Lemma events_disown ws z w :
  events_ok w -> w_wss w !! ws = Some z ->
  events_ok (set_w_wss (<[ws := set_ws_http_client None z]> (w_wss w)) w).
Proof using.
  intros [E1 E2 E3 E4 E5] Hz. set (w1 := set_w_wss _ w).
  assert (forall q, scheduled q w1 = scheduled q w) as Hs.
  { intros [|ws'|ws'|]; cbn; try done;
      (destruct (decide (ws = ws')) as [->|]; [by rewrite lookup_insert_eq, Hz|by rewrite lookup_insert_ne]). }
  assert (forall ws' o, owner w1 !! ws' = Some o -> ws' = ws /\ o = None \/ owner w !! ws' = Some o) as Ho.
  { intros ws' o. unfold owner, w1. cbn. rewrite fmap_insert. intros [[<- <-]|[_ ?]]%lookup_insert_Some; auto. }
  split; try done.
  - intros p Hp. rewrite Hs. by apply E1.
  - intros c Hc. destruct (E3 c Hc) as (? & ? & Hu). repeat split; [done..|]. intros ws' [[? ?]|?]%Ho; [done|by apply (Hu ws')].
  - intros ws' c [[? ?]|?]%Ho; [done|by eapply E4].
  - intros ws' [o [[-> ->]|?]%Ho]; apply E5; [|by eexists]. exists (ws_http_client z). by apply owner_lookup.
Qed.

Lemma process_nothing ws x w :
  w_wss w !! ws = Some x -> ws_rbuf x = [] -> ws_process_read_data ws w = Ok WS_READING w.
Proof using.
  intros Hx Hb. assert (ws_peek_data ws false w = Ok (WS_READING, None) w) as Hp.
  { unfold ws_peek_data. rewrite (run_get_ws _ _ _ _ Hx), Hb. done. }
  unfold ws_process_read_data. rewrite (bind_eq _ _ _ _ _ Hp), (run_get_ws _ _ _ _ Hx). done.
Qed.

(** The handshake leaves the HTTP clients alone. *)
Definition same_clients (w w' : world) : Prop := w_clients w' = w_clients w.

Lemma same_clients_handshake ws : within same_clients (ws_handshake_reply ws).
Proof using.
  assert (PreOrder same_clients) as Hpre by (split; [done|]; unfold same_clients; intros ? ? ?; congruence).
  assert (within same_clients alloc_ok) as Ha.
  { intros w r w' E. unfold alloc_ok in E. M_inv. by destruct (w_alloc w); M_inv. }
  assert (forall level b, within same_clients (slog level b)) as Hl.
  { intros level b w r w' E. unfold slog, slog_enabled, when in E. M_inv.
    destruct (level <=? _); unfold emit in *; M_inv; done. }
  assert (forall A (o : option A), within same_clients (deref o)) as Hd.
  { intros A [] w r w' E; [|discriminate E]. unfold deref in E. M_inv. done. }
  unfold ws_handshake_reply, ws_compute_handshake, ws_schedule_write, event_base_once, when, upd_ws.
  repeat match goal with
    | _ => solve [auto]
    | |- within _ (mbind _ _) => apply within_bind; [done| |intros]
    | |- within _ (match ?x with _ => _ end) => destruct x
    | |- within _ _ => intros ? ? ? E; unfold put_ws, register, skip in E; M_inv; done
    end.
Qed.

(** What [worker_can_read] finds after the upgrade: the client is closed next, or is
    left to the WebSocket code. *)
Definition handed_over (c : loc) (w : world) : Prop :=
  exists x, w_clients w !! c = Some x /\ (hc_broken x = true \/ hc_is_websocket x = true).

Definition upgraded (c : loc) (w : world) : Prop :=
  events_ok w /\ registered (OnClientRead c) w = 0%nat /\ handed_over c w.

Lemma upd_client_inv l f w r w' :
  upd_client l f w = Ok r w' ->
  exists x, w_clients w !! l = Some x /\ w' = set_w_clients (<[l := f x]> (w_clients w)) w.
Proof using. intros E. unfold upd_client, put_client in E. M_inv. by eexists. Qed.

Lemma upgraded_upd c f w r w' :
  events_ok w -> registered (OnClientRead c) w = 0%nat -> upd_client c f w = Ok r w' ->
  (forall x, w_clients w !! c = Some x -> hc_broken (f x) = true \/ hc_is_websocket (f x) = true) -> upgraded c w'.
Proof using.
  intros He Hr E Hf. pose proof E as K%steady_upd_client%s_keeps. split; [by eapply events_keeps|].
  rewrite (k_client _ _ K). split; [done|]. apply upd_client_inv in E as (x & Hx & ->).
  exists (f x). split; [apply lookup_insert_eq|auto].
Qed.

(** A new WebSocket client: its state, and that of its HTTP client. *)
Lemma ws_client_new_ok c w o w1 x :
  events_ok w -> idle c w -> w_clients w !! c = Some x -> ws_client_new c w = Ok o w1 ->
  events_ok w1 /\ registered (OnClientRead c) w1 = 0%nat /\
  match o with
  | Some ws => exists y, w_clients w1 !! c = Some (set_hc_ws (Some ws) x) /\ w_wss w1 !! ws = Some y /\
      ws_rbuf y = [] /\ ws_http_client y = Some c
  | None => True
  end.
Proof using.
  intros He Hi Hx E. unfold ws_client_new in E.
  apply bind_ok in E as (cfg & ? & E0 & E). injection E0 as _ <-.
  apply bind_ok in E as (b1 & w2 & E2 & E). apply bind_ok in E as (b2 & w3 & E3 & E).
  apply bind_ok in E as (b3 & w4 & E4 & E). apply bind_ok in E as (ac & w5 & E5 & E).
  assert (w_clients w5 = w_clients w) as Hc.
  { etrans; [by eapply frame_pool_connect|]. etrans; [by eapply frame_alloc_ok|].
    etrans; [by eapply frame_alloc_ok|]. by eapply frame_alloc_ok. }
  apply steady_alloc_ok in E2, E3, E4. apply steady_pool_connect in E5.
  assert (keeps w w5) as K by (apply s_keeps; by do 3 (etrans; [eassumption|])). clear E2 E3 E4 E5.
  apply (events_keeps _ _ K) in He. apply (idle_keeps _ _ _ K) in Hi. rewrite <-Hc in Hx. clear K Hc w2 w3 w4.
  destruct (negb _).
  - apply bind_ok in E as ([] & w6 & E6%steady_slog & E). apply bind_ok in E as ([] & w7 & E7 & E). steady_in E7. M_inv.
    assert (keeps w5 w7) as K by (apply s_keeps; by etrans).
    split; [by eapply events_keeps|]. by destruct (idle_keeps _ _ _ K Hi).
  - rewrite (bind_eq fresh _ _ (w_next w5) (set_w_next (Pos.succ (w_next w5)) w5)) in E by done.
    apply bind_ok in E as ([] & w6 & E6 & E). unfold put_ws in E6. injection E6 as E6.
    set (y := mk_ws _ _ _ _ _ _ _ _ _) in *.
    assert (events_ok w6) as He6 by (rewrite <-E6; by eapply events_new_ws).
    apply bind_ok in E as ([] & w7 & E7 & E). injection E as <- <-.
    pose proof E7 as K%steady_upd_client%s_keeps. split; [by eapply events_keeps|].
    rewrite (k_client _ _ K). split; [rewrite <-E6; apply (i_unregistered _ _ Hi)|].
    apply upd_client_inv in E7 as (x6 & Hx6 & ->). rewrite <-E6 in Hx6. cbn in Hx6. rewrite Hx in Hx6. injection Hx6 as <-.
    exists y. rewrite <-E6. cbn. by rewrite !lookup_insert_eq.
Qed.

Lemma worker_upgrade_ok c w r w' x :
  events_ok w -> idle c w -> w_clients w !! c = Some x -> hc_is_websocket x = true ->
  worker_upgrade c w = Ok r w' -> upgraded c w'.
Proof using.
  intros He Hi Hx Hm E. unfold worker_upgrade in E.
  apply bind_ok in E as (o & w1 & E1 & E). apply bind_ok in E as ([] & w2 & E2 & E).
  enough (upgraded c w2) as (He2 & Hr2 & x2 & Hx2 & Hb2).
  { eapply upgraded_upd; [done..|]. intros y Hy. rewrite Hx2 in Hy. by injection Hy as <-. }
  clear E. destruct (ws_client_new_ok c w o w1 x) as (He1 & Hr1 & Ho); [done..|]. clear E1 He Hi Hx.
  destruct o as [ws|]; [|eapply upgraded_upd; eauto].
  destruct Ho as (y & Hx1 & Hy & Hb & Ho).
  apply bind_ok in E2 as ([] & w3 & E3 & E2). pose proof E3 as S3%steady_upd_client.
  apply upd_client_inv in E3 as (x1 & Hx1' & ->). rewrite Hx1 in Hx1'. injection Hx1' as <-.
  set (w3 := set_w_clients _ w1) in *.
  assert (w_clients w3 !! c = Some (set_hc_buffer [] (set_hc_ws (Some ws) (set_hc_ws (Some ws) x)))) as Hx3
    by apply lookup_insert_eq.
  assert (w_wss w3 !! ws = Some y) as Hy3 by done. clearbody w3.
  apply bind_ok in E2 as (ok & w4 & E4 & E2). pose proof E4 as S4%steady_handshake.
  apply same_clients_handshake in E4. unfold same_clients in E4. rewrite <-E4 in Hx3. clear E4.
  assert (steady w1 w4) as S by (by etrans). apply s_keeps in S as K.
  apply (events_keeps _ _ K) in He1. rewrite <-(k_client _ _ K) in Hr1.
  assert (exists z, w_wss w4 !! ws = Some z /\ ws_rbuf z = []) as (z & Hz & Hzb).
  { pose proof (f_equal (.!! ws) (s_rbuf _ _ S)) as Hz. cbn beta in Hz. rewrite !lookup_fmap, Hy in Hz.
    destruct (w_wss w4 !! ws) as [z|]; cbn in Hz; [|done]. exists z. split; [done|]. injection Hz. congruence. }
  destruct ok; cbn [negb] in E2.
  - rewrite (bind_eq _ _ _ _ _ (process_nothing ws z w4 Hz Hzb)) in E2. M_inv. split; [done|]. split; [done|].
    eexists. split; [exact Hx3|]. by right.
  - apply bind_ok in E2 as ([] & w5 & E5 & E2). apply bind_ok in E2 as ([] & w6 & E6 & E2).
    unfold upd_ws, put_ws in E5. rewrite (run_get_ws _ _ _ _ Hz) in E5. injection E5 as E5.
    assert (events_ok w5) as He5 by (rewrite <-E5; by apply events_disown).
    destruct (ws_close_if_able_ok ws w5 () w6 He5 E6) as [He6 Hi6].
    eapply upgraded_upd; [done|rewrite Hi6, <-E5; exact Hr1|done|]. auto.
Qed.

(** *** The worker *)

Lemma events_monitor c w r w' :
  events_ok w -> idle c w -> worker_monitor_input c w = Ok r w' -> events_ok w'.
Proof using.
  intros [E1 E2 E3 E4 E5] [I1 I2 I3 I4] E. unfold worker_monitor_input, register in E. M_inv.
  split; try done.
  - intros p Hp. rewrite registered_register, decide_False by (by intros <-). rewrite Nat.add_0_r. by apply E1.
  - intros c'. rewrite registered_register. destruct (decide _) as [[= <-]|]; [lia|]. specialize (E2 c'). lia.
  - intros c'. rewrite registered_register. destruct (decide _) as [[= <-]|]; [done|].
    intros Hc'. apply E3. lia.
Qed.

Lemma worker_check_ok c ret n w r w' :
  events_ok w -> idle c w -> worker_check c ret n w = Ok r w' -> (events_ok w' /\ idle c w') \/ upgraded c w'.
Proof using.
  intros He Hi E.
  assert (steady w w' -> (events_ok w' /\ idle c w') \/ upgraded c w') as Hk.
  { intros K%s_keeps. left. split; [by eapply events_keeps|by eapply idle_keeps]. }
  unfold worker_check in E. apply bind_ok in E as (x & ? & [Hx <-]%get_client_ok & E).
  apply bind_ok in E as (cfg & ? & E0 & E). injection E0 as _ <-.
  destruct (hc_failed_alloc x); [apply Hk; by eapply steady_log_error|].
  destruct (_ && _); [apply Hk; by eapply steady_put_client|].
  destruct (hc_is_websocket x) eqn:Hw; [right; by eapply worker_upgrade_ok|].
  apply Hk. steady_in E. done.
Qed.

Lemma worker_can_read_ok c data w r w' :
  events_ok w -> idle c w -> worker_can_read c data w = Ok r w' -> events_ok w'.
Proof using.
  intros He Hi E. unfold worker_can_read in E. apply bind_ok in E as (ret & w1 & E1 & E).
  destruct data as [|d data]; cbn [http_client_read] in E1.
  { apply bind_ok in E1 as ([] & w2 & E2 & E1). M_inv. by eapply client_disconnect_ok; [|apply i_unregistered|]. }
  steady_in E1. apply s_keeps in E1. apply (events_keeps _ _ E1) in He. apply (idle_keeps _ _ _ E1) in Hi. clear E1.
  destruct ret as [| |ret].
  - M_inv. done.
  - apply steady_log_error, s_keeps in E. by eapply events_keeps.
  - apply bind_ok in E as (x & ? & [_ <-]%get_client_ok & E). apply bind_ok in E as ([] & w2 & E2 & E).
    assert ((events_ok w2 /\ idle c w2) \/ upgraded c w2) as Hpost.
    { destruct (hc_is_websocket x); [M_inv; by left|]. apply bind_ok in E2 as (n & w3 & E3%steady_execute%s_keeps & E2).
      eapply worker_check_ok; [by eapply events_keeps|by eapply idle_keeps|done]. }
    clear He Hi E2 x. apply bind_ok in E as (x & ? & [Hx <-]%get_client_ok & E).
    assert (events_ok w2 /\ registered (OnClientRead c) w2 = 0%nat) as [He Hr]
      by (destruct Hpost as [[? []]|[? []]]; done).
    destruct (hc_broken x) eqn:Hb.
    + apply bind_ok in E as ([] & w3 & E3 & E). steady_in E3. apply s_keeps in E3.
      eapply events_http_client_free; [by eapply events_keeps|by rewrite (k_client _ _ E3)|done].
    + destruct (hc_is_websocket x) eqn:Hw; cbn [negb when] in E; [M_inv; done|].
      destruct Hpost as [[_ Hi]|(_ & _ & x' & Hx' & Hor)]; [by eapply events_monitor|].
      rewrite Hx in Hx'. injection Hx' as <-. destruct Hor; congruence.
Qed.

Lemma worker_on_new_client_ok fd addr w r w' :
  events_ok w -> worker_on_new_client fd addr w = Ok r w' -> events_ok w'.
Proof using.
  intros He E. unfold worker_on_new_client, http_client_new in E.
  apply bind_ok in E as (c & w1 & E1 & E).
  rewrite (bind_eq fresh _ _ (w_next w) (set_w_next (Pos.succ (w_next w)) w)) in E1 by done.
  apply bind_ok in E1 as ([] & w2 & E2 & E1). injection E1 as <- <-. injection E2 as E2.
  assert (keeps w w2) as K.
  { rewrite <-E2. set (x := mk_client _ _ _ _ _ _ _ _ _ _ _ _ _ _ _ _ _ _ _ _ _ _).
    transitivity (set_w_next (Pos.succ (w_next w)) w).
    - apply s_keeps. by apply (steady_fresh w (w_next w)).
    - apply s_keeps. by apply (steady_put_client (w_next w) x _ ()). }
  eapply events_monitor; [by eapply events_keeps| |done].
  assert (registered (OnClientRead (w_next w)) w = 0%nat) as Hnone.
  { destruct (registered _ w) eqn:Hr; [done|]. destruct (e_live _ He (w_next w) ltac:(lia)) as (_ & ? & _). lia. }
  split; rewrite <-?E2; cbn; [by rewrite lookup_insert_eq|lia|exact Hnone|].
  intros ws Ho. unfold owner in Ho. cbn in Ho. apply (e_owner _ He) in Ho. lia.
Qed.

Lemma dispatch_ok i w w' : events_ok w -> dispatch i w = Ok () w' -> events_ok w'.
Proof using.
  intros He E. unfold dispatch in E. destruct i; cbn [fires handle] in E.
  - by eapply worker_on_new_client_ok.
  - destruct (remove_pending _ _) as [l|] eqn:Hl; [|by injection E as <-].
    destruct (events_client_fired _ _ _ He Hl). by eapply worker_can_read_ok.
  - destruct (remove_pending _ _) as [l|] eqn:Hl; [by eapply ws_can_read_ok|by injection E as <-].
  - destruct (remove_pending _ _) as [l|] eqn:Hl; [by eapply ws_can_write_ok|by injection E as <-].
  - destruct (remove_pending _ _) as [l|] eqn:Hl; [|by injection E as <-].
    apply steady_pool_can_connect, s_keeps in E. eapply events_keeps; [done|].
    pose proof (fun q => registered_fired _ l w q Hl) as Hr. destruct He as [E1 E2 E3 E4 E5]. split; try done.
    + intros p Hp. specialize (E1 p Hp). rewrite Hr in E1. change (scheduled p _) with (scheduled p w). lia.
    + intros c. specialize (E2 c). rewrite Hr in E2. lia.
    + intros c Hc. apply E3. rewrite Hr. lia.
  - apply steady_handle_read, s_keeps in E; [by eapply events_keeps|apply steady_hiredis].
  - apply steady_handle_write, s_keeps in E; [by eapply events_keeps|apply steady_hiredis].
Qed.

Lemma reachable_ok cfg w : reachable cfg w -> events_ok w.
Proof using.
  induction 1 as [connects allocs w E|w i w' _ He E]; [|by eapply dispatch_ok].
  unfold worker_pool_connect in E. apply bind_ok in E as (? & ? & E0 & E). injection E0 as <- <-.
  apply steady_connect_loop, s_keeps in E. eapply events_keeps; [done|].
  assert (forall ws, owner (worker_new cfg connects allocs) !! ws = None) as Ho.
  { intros ws. unfold owner. cbn. by rewrite lookup_fmap, lookup_empty. }
  split; unfold registered; cbn; try lia.
  - intros ws c. by rewrite Ho.
  - intros ws [o Hws]. by rewrite Ho in Hws.
Qed.

(** ** The property *)

Lemma count_filter p l : (count p (filter (fun q => q <> OnReconnect) l) <= count p l)%nat.
Proof using.
  induction l as [|q l IH]; [done|]. rewrite filter_cons. destruct (decide (q <> OnReconnect)); cbn;
    destruct (decide (q = p)); lia.
Qed.

Lemma count_elem p l : p ∈ l -> (0 < count p l)%nat.
Proof using.
  induction l as [|q l IH]; [by intros ?%elem_of_nil|].
  intros [->|Hin]%elem_of_cons; cbn; [rewrite decide_True by done; lia|].
  specialize (IH Hin). destruct (decide (q = p)); lia.
Qed.

Lemma count_nodup l : (forall p, p ∈ l -> count p l <= 1)%nat -> NoDup l.
Proof using.
  induction l as [|q l IH]; intros Hl; [constructor|]. constructor.
  - intros Hin%count_elem. specialize (Hl q ltac:(by left)). cbn in Hl. rewrite decide_True in Hl by done. lia.
  - apply IH. intros p Hp. specialize (Hl p ltac:(by right)). cbn in Hl. destruct (decide (q = p)); lia.
Qed.

(** The object an event is registered for. *)
Definition target_live (p : pending) (w : world) : Prop :=
  match p with
  | OnClientRead c => is_Some (w_clients w !! c)
  | OnWsRead ws | OnWsWrite ws => is_Some (w_wss w !! ws)
  | OnReconnect => True
  end.

(** C8: no event ever fires for a freed object. In every execution of a worker
    (whatever the clients send, the parser makes of it, Redis answers, and the
    allocator and the connections to Redis do), every event that is registered with
    the event loop is registered once and refers to an HTTP or WebSocket client that
    is still allocated; and a client that was handed to the WebSocket code is not
    read by the HTTP code any more. *)
Theorem no_dangling_events cfg w :
  reachable cfg w ->
  (forall p, p ∈ w_pending w -> target_live p w) /\
  NoDup (filter (fun p => p <> OnReconnect) (w_pending w)) /\
  (forall ws x c, w_wss w !! ws = Some x -> ws_http_client x = Some c -> OnClientRead c ∉ w_pending w).
Proof using.
  intros He%reachable_ok. split; [|split].
  - intros p Hp%count_elem. destruct p as [c|ws|ws|]; cbn; [by apply (e_live _ He)| | |done];
      [pose proof (e_ws _ He (OnWsRead ws) eq_refl) as Hs|pose proof (e_ws _ He (OnWsWrite ws) eq_refl) as Hs];
      unfold registered in Hs; cbn in Hs; destruct (w_wss w !! ws); [done|cbn in Hs; lia|done|cbn in Hs; lia].
  - apply count_nodup. intros p [Hne Hp]%list_elem_of_filter. etrans; [apply count_filter|].
    destruct p as [c|ws|ws|]; [apply (e_once _ He)| | |done];
      (etrans; [apply (e_ws _ He); done|apply scheduled_le]).
  - intros ws x c Hx Ho Hin%count_elem. pose proof (owned_unregistered ws c w He) as Hu.
    rewrite (owner_lookup _ _ _ Hx), Ho in Hu. specialize (Hu eq_refl). unfold registered in Hu. lia.
Qed.

End Closing.

(** ** Executions *)

(** A parser that knows a few inputs: an upgrade request, a request of HTTP/1.0, and
    one whose [Connection: Keep-Alive] comes in two pieces, with an upgrade request
    behind it. *)
Definition upgrade_request : list parser_callback :=
  [OnUrl (lit "/"); OnHeaderField (lit "Host"); OnHeaderValue (lit "localhost");
   OnHeaderField (lit "Sec-WebSocket-Key"); OnHeaderValue (lit "dGhlIHNhbXBsZSBub25jZQ=="); OnMessageComplete].

Definition upgrading : http_parser := mk_parser 16 1 1 HTTP_GET true.
Definition keep_alive_10 : http_parser := mk_parser 2 1 0 HTTP_GET false.

Definition example_parser : HttpParser := fun p b =>
  let upgrade := map (fun cb => mk_event cb upgrading 0) upgrade_request in
  if bytes_eqb b (lit "upgrade") then inr (upgrade, upgrading, 7)
  else if bytes_eqb b (lit "first") then
    inr (map (fun cb => mk_event cb keep_alive_10 0)
       [OnUrl (lit "/PING"); OnHeaderField (lit "Connection"); OnHeaderValue (lit "Keep-")], keep_alive_10, 5)
  else if bytes_eqb b (lit "second") then
    inr (map (fun cb => mk_event cb keep_alive_10 0) [OnHeaderValue (lit "Alive"); OnMessageComplete] ++ upgrade, upgrading, 6)
  else if bytes_eqb b (lit "close") then
    inr (map (fun cb => mk_event cb (mk_parser 0 1 0 HTTP_GET false) 0) [OnUrl (lit "/PING"); OnMessageComplete],
     mk_parser 0 1 0 HTTP_GET false, 5)
  else inr ([], p, Z.of_nat (length b)).

Definition websocket_conf : conf := set_cfg_pool_size_per_thread 1 (set_cfg_websockets true (conf_defaults 0 0)).

(** The inputs in turn. *)
Fixpoint dispatch_all `{Packer} `{Resp.Strtod} `{HttpParser} (l : list input) (w : world) : result unit :=
  match l with
  | [] => Ok () w
  | i :: l' => match dispatch i w with Ok _ w' => dispatch_all l' w' | Fault e => Fault e end
  end.

Definition example_run (l : list input) : result unit :=
  let P : Packer := fun _ => [] in
  let S : Resp.Strtod := fun _ => false in
  let H : HttpParser := example_parser in
  match worker_pool_connect (worker_new websocket_conf [] []) with
  | Ok _ w => dispatch_all l w
  | Fault e => Fault e
  end.

Lemma dispatch_all_reachable `{Packer} `{Resp.Strtod} `{HttpParser} cfg l w w' :
  reachable cfg w -> dispatch_all l w = Ok () w' -> reachable cfg w'.
Proof.
  revert w. induction l as [|i l IH]; intros w Hw; cbn [dispatch_all]; [by intros [= <-]|].
  destruct (dispatch i w) as [[] w1|] eqn:E; [|done]. apply IH. by eapply reach_step.
Qed.

Definition upgrade_inputs : list input := [NewClient 9 0; ClientReadable 2 (lit "upgrade")].

Lemma no_dangling_events_witness :
  let P : Packer := fun _ => [] in
  let S : Resp.Strtod := fun _ => false in
  let H : HttpParser := example_parser in
  exists w ws, example_run upgrade_inputs = Ok () w /\ OnWsWrite ws ∈ w_pending w /\ is_Some (w_wss w !! ws) /\
    OnClientRead 2 ∉ w_pending w.
Proof.
  intros P S H. destruct (example_run upgrade_inputs) as [[] w|] eqn:E; [|vm_compute in E; discriminate E].
  assert (reachable websocket_conf w) as Hr.
  { unfold example_run in E. destruct (worker_pool_connect _) as [[] w0|] eqn:E0; [|discriminate E].
    eapply dispatch_all_reachable; [by eapply reach_start|exact E]. }
  destruct (no_dangling_events websocket_conf w Hr) as (Hlive & _ & Hws).
  exists w, 4%positive. split; [done|]. vm_compute in E. injection E as <-.
  assert (OnWsWrite 4 ∈ [OnWsWrite 4]) as Hin by (by left).
  split; [exact Hin|]. split; [exact (Hlive (OnWsWrite 4) Hin)|]. eapply (Hws 4%positive); vm_compute; reflexivity.
Defined.

(** A client that the first request marked as broken, and the second one upgraded, is
    freed while the WebSocket client that refers to it waits for its socket. *)
Example broken_upgrade :
  let inputs := [NewClient 9 0; ClientReadable 2 (lit "first"); ClientReadable 2 (lit "second")] in
  match example_run inputs with
  | Ok _ w => w_pending w = [OnWsWrite 5] /\ (ws_http_client <$> w_wss w !! 5%positive) = Some (Some 2%positive) /\
      w_clients w !! 2%positive = None
  | Fault _ => False
  end /\
  example_run (inputs ++ [WsWritable 9 5 4096]) = Fault UseAfterFree.
Proof. vm_compute. done. Qed.

End Events.
