(* ===== verification/WsStream.v ===== *)
(** * The stream of a WebSocket client

    [ws_process_read_data] executes the complete frames of the read buffer one by
    one, in order, and leaves the incomplete one for the next read. *)
From S2P Require Import Prelude Types Base64 Acl WsFrame Http Raw Resp Digest Uri Json JsonReply Msgpack World Pool Cmd Format Hiredis Client WebSocket WsExec Worker Events.

Local Open Scope Z_scope.

Module WsStream.
Import WsFrame Http World Pool Cmd Msgpack Format Hiredis Client WebSocket WsExec Worker Events.

(** A frame of a client: its type, mask and payload; the last one of its message. *)
Record client_frame := mk_frame {
  cf_type : Z;
  cf_mask : bytes;
  cf_payload : bytes }.

Definition cf_bytes (f : client_frame) : bytes := rfc_client_frame true (cf_type f) (cf_mask f) (cf_payload f).

Definition cf_ok (f : client_frame) : Prop :=
  0 <= cf_type f < 16 /\ length (cf_mask f) = 4%nat /\ Z.of_nat (length (cf_payload f)) < 2 ^ 64.

Definition stream (fs : list client_frame) (rest : bytes) : bytes := concat (map cf_bytes fs) ++ rest.

(** The start of a frame that has not arrived in full. *)
Definition incomplete (rest : bytes) : Prop :=
  exists fin op mask payload, 0 <= op < 16 /\ length mask = 4%nat /\ Z.of_nat (length payload) < 2 ^ 64 /\
    rest `prefix_of` rfc_client_frame fin op mask payload /\ rest <> rfc_client_frame fin op mask payload.

Section Stream.
Context `{Packer} `{Resp.Strtod}.

(** The messages one after the other: each is taken out of the buffer, then acts. *)
Fixpoint run_frames (ws : loc) (fs : list client_frame) (rest : bytes) : M ws_state :=
  match fs with
  | [] => mret WS_READING
  | f :: fs =>
      upd_ws ws (set_ws_rbuf (stream fs rest)) ;;
      ret ← ws_dispatch ws (mk_ws_msg (cf_type f) (cf_payload f) 0);
      if (ret : bool) then run_frames ws fs rest
      else
        slog WEBDIS_DEBUG (lit "ws_process_read_data: ws_execute failed") ;;
        mret WS_ERROR
  end.

Lemma dispatch_size ws m : ws_dispatch ws m = ws_dispatch ws (mk_ws_msg (msg_type m) (msg_payload m) 0).
Proof using. by destruct m. Qed.

Lemma length_cf_bytes f : cf_ok f -> (6 <= length (cf_bytes f))%nat.
Proof using.
  intros (_ & Hm & _). unfold cf_bytes, rfc_client_frame, rfc_length. cbn [length]. rewrite !length_app.
  repeat case_match; cbn [length]; lia.
Qed.

(** A peek at the stream, without and with extraction. *)
Section Peek.
Context (ws : loc) (w : world) (x : ws_client) (Hx : w_wss w !! ws = Some x) (Halloc : w_alloc w = []).

Lemma peek_rest rest : ws_rbuf x = rest -> incomplete rest -> ws_peek_data ws false w = Ok (WS_READING, None) w.
Proof using Hx Halloc.
  intros Hr (fin & op & mask & payload & Hop & Hmask & Hlen & Hpre & Hne).
  unfold ws_peek_data. rewrite (run_get_ws _ _ _ _ Hx), Hr. destruct (length rest <? 2)%nat; [done|].
  rewrite alloc_succeeds by done. cbn [negb]. by rewrite (peek_prefix fin op mask payload rest).
Qed.

Lemma peek_frame_head f fs rest out :
  cf_ok f -> ws_rbuf x = stream (f :: fs) rest ->
  exists m, msg_type m = cf_type f /\ msg_payload m = cf_payload f /\
    ws_peek_data ws out w =
    if out then Ok (WS_MSG_COMPLETE, Some m) (set_w_wss (<[ws := set_ws_rbuf (stream fs rest) x]> (w_wss w)) w)
    else Ok (WS_MSG_COMPLETE, None) w.
Proof using Hx Halloc.
  intros Hok Hr. pose proof Hok as (Hop & Hmask & Hlen). pose proof (length_cf_bytes f Hok) as Hl.
  assert (stream (f :: fs) rest = cf_bytes f ++ stream fs rest) as Es by (unfold stream; cbn [map concat]; by rewrite app_assoc).
  destruct (peek_frame true (cf_type f) (cf_mask f) (cf_payload f) (stream fs rest) Hop Hmask Hlen)
    as (h & Hp & Hfin & Ht & Hpl & Hd). fold (cf_bytes f) in *. rewrite <-Es in *.
  eexists. split; [exact Ht|]. split; [exact Hpl|].
  unfold ws_peek_data. rewrite (run_get_ws _ _ _ _ Hx), Hr.
  rewrite (proj2 (Nat.ltb_ge _ _)) by (rewrite Es, length_app; lia).
  rewrite alloc_succeeds by done. cbn [negb]. rewrite Hp, Hfin. destruct out; [|done]. cbn [negb].
  do 2 (rewrite alloc_succeeds by done; cbn [negb]). erewrite run_upd_ws by exact Hx. by rewrite Hd.
Qed.
End Peek.

Lemma process_frames_run ws fs rest n w x :
  Forall cf_ok fs -> incomplete rest -> (length fs < n)%nat ->
  w_wss w !! ws = Some x -> w_alloc w = [] -> ws_rbuf x = stream fs rest ->
  process_frames n ws (if fs then WS_READING else WS_MSG_COMPLETE) w = run_frames ws fs rest w.
Proof using.
  intros Hok Hrest. revert n w x. induction Hok as [|f fs Hf Hfs IH]; intros n w x Hn Hx Ha Hr.
  { by destruct n. }
  destruct n as [|n]; [cbn in Hn; lia|]. cbn [process_frames run_frames].
  destruct (peek_frame_head ws w x Hx Ha f fs rest true Hf Hr) as (m & Ht & Hp & E).
  rewrite (bind_eq _ _ _ _ _ E). erewrite run_upd_ws by exact Hx.
  set (w1 := set_w_wss _ w). rewrite dispatch_size, Ht, Hp.
  assert (w_wss w1 !! ws = Some (set_ws_rbuf (stream fs rest) x)) as Hx1 by apply lookup_insert_eq.
  assert (w_alloc w1 = []) as Ha1 by done. clearbody w1.
  destruct (ws_dispatch ws (mk_ws_msg (cf_type f) (cf_payload f) 0) w1) as [ret w2|] eqn:Ed.
  2: { unfold mbind, M_bind. by rewrite Ed. }
  rewrite !(bind_eq _ _ _ _ _ Ed). destruct ret; [|done].
  pose proof (steady_ws_dispatch _ _ _ _ _ Ed) as [_ Sb Sa]. rewrite Ha1 in Sa.
  assert (w_alloc w2 = []) as Ha2 by (destruct (w_alloc w2); [done|cbn in Sa; lia]).
  assert (exists y, w_wss w2 !! ws = Some y /\ ws_rbuf y = stream fs rest) as (y & Hy & Hyr).
  { pose proof (f_equal (.!! ws) Sb) as Hz. cbn beta in Hz. rewrite !lookup_fmap, Hx1 in Hz.
    destruct (w_wss w2 !! ws) as [y|]; cbn in Hz; [|done]. exists y. split; [done|]. by injection Hz. }
  rewrite <-(IH n w2 y) by (done || (cbn in Hn; lia)).
  destruct fs as [|g fs].
  - by rewrite (bind_eq _ _ _ _ _ (peek_rest ws w2 y Hy Ha2 rest Hyr Hrest)).
  - inversion Hfs as [|? ? Hg _]; subst. destruct (peek_frame_head ws w2 y Hy Ha2 g fs rest false Hg Hyr) as (? & _ & _ & E2).
    by rewrite (bind_eq _ _ _ _ _ E2).
Qed.

(** C11: the complete frames in the read buffer of a WebSocket client are executed in
    the order they were sent, each exactly once, and nothing of the incomplete frame
    behind them is taken: processing the buffer terminates, and is the execution of
    the frames' messages one after the other up to the first one that cannot be
    executed. *)
Theorem ws_frames_in_order ws fs rest w x :
  Forall cf_ok fs -> incomplete rest ->
  w_wss w !! ws = Some x -> w_alloc w = [] -> ws_rbuf x = stream fs rest ->
  ws_process_read_data ws w = run_frames ws fs rest w.
Proof using.
  intros Hok Hrest Hx Ha Hr. unfold ws_process_read_data.
  assert (ws_peek_data ws false w = Ok (if fs then WS_READING else WS_MSG_COMPLETE, None) w) as E.
  { destruct fs as [|f fs]; [by eapply peek_rest|]. inversion Hok as [|? ? Hf _]; subst.
    by destruct (peek_frame_head ws w x Hx Ha f fs rest false Hf Hr) as (? & _ & _ & E). }
  rewrite (bind_eq _ _ _ _ _ E), (run_get_ws _ _ _ _ Hx), (bind_eq get _ w w w) by done.
  eapply process_frames_run; try done.
  rewrite Hr. unfold stream. rewrite length_app. clear - Hok.
  assert (length fs <= length (concat (map cf_bytes fs)))%nat; [|lia].
  induction Hok as [|f fs Hf _ IH]; cbn; [lia|]. rewrite length_app. apply length_cf_bytes in Hf. lia.
Qed.

(** A frame that is not the last one of its message stays in the buffer, and keeps
    every frame behind it there. *)
Lemma fragment_blocks ws w x op mask payload rest :
  0 <= op < 16 -> length mask = 4%nat -> Z.of_nat (length payload) < 2 ^ 64 ->
  w_wss w !! ws = Some x -> w_alloc w = [] -> ws_rbuf x = rfc_client_frame false op mask payload ++ rest ->
  ws_process_read_data ws w = Ok WS_READING w.
Proof using.
  intros Hop Hm Hl Hx Ha Hr.
  assert (ws_peek_data ws false w = Ok (WS_READING, None) w) as E.
  { unfold ws_peek_data. rewrite (run_get_ws _ _ _ _ Hx), Hr.
    destruct (length _ <? 2)%nat; [done|]. rewrite alloc_succeeds by done. cbn [negb].
    destruct (peek_frame false op mask payload rest Hop Hm Hl) as (h & -> & -> & _). done. }
  unfold ws_process_read_data. rewrite (bind_eq _ _ _ _ _ E), (run_get_ws _ _ _ _ Hx). done.
Qed.

End Stream.

(** Two commands and the first bytes of a third. *)
Definition two_frames : list client_frame :=
  [mk_frame WS_TEXT_FRAME (lit "mask") (lit "[" ++ [x22] ++ lit "PING" ++ [x22] ++ lit "]");
   mk_frame WS_PING (lit "abcd") (lit "hello")].

Definition third : bytes := rfc_client_frame true WS_TEXT_FRAME (lit "mask") (lit "[1]").

Lemma ws_frames_in_order_witness :
  let P : Packer := fun _ => [] in
  let S : Resp.Strtod := fun _ => false in
  let x := set_ws_rbuf (stream two_frames (take 7 third)) open_ws in
  exists w' y, ws_process_read_data 11 (open_world x) = Ok WS_READING w' /\
    run_frames 11 two_frames (take 7 third) (open_world x) = Ok WS_READING w' /\
    w_wss w' !! 11%positive = Some y /\ ws_rbuf y = take 7 third /\
    ws_wbuf y = ws_frame WS_PONG (lit "hello") /\
    redis_events (w_trace w') = redis_events (w_trace (open_world x)) ++ [(30%positive, [lit "PING"])].
Proof.
  intros P S x.
  pose proof (ws_frames_in_order 11 two_frames (take 7 third) (open_world x) x) as E.
  destruct (run_frames 11 two_frames (take 7 third) (open_world x)) as [st w'|] eqn:Er; [|vm_compute in Er; discriminate Er].
  exists w'. vm_compute in Er. injection Er as <- <-. eexists.
  split; [apply E; [repeat constructor; by vm_compute| |done|done|done]|].
  - clear. exists true, WS_TEXT_FRAME, (lit "mask"), (lit "[1]"). do 3 (split; [by vm_compute|]).
    split; [exists (drop 7 third); by vm_compute|]. vm_compute. discriminate.
  - repeat split; vm_compute; reflexivity.
Defined.

End WsStream.
