(* ===== verification/Hazards.v ===== *)
(** * Executions that reach freed memory

    The event loop's own pointers are safe ([Events]); those between the objects are
    not. Each execution here is one of the whole worker, from its start, and ends in
    a fault of the model or in an answer that is not the one asked for. *)
From S2P Require Import Prelude Types Base64 Acl WsFrame Http Raw Resp Digest Uri Json JsonReply Msgpack World Pool Cmd Format Hiredis Client WebSocket WsExec Worker Events WsStream.

Local Open Scope Z_scope.

Module Hazards.
Import WsFrame Http World Pool Cmd Msgpack Format Hiredis Client WebSocket Worker Events WsStream.

(** The pool's connection is made. *)
Definition connected : list input := [RedisWritable 1 ConnectDone (inr 0%nat)].

(** A request without keep-alive: [worker_can_read] frees the client as soon as the
    command is sent, and [cmd_free] reads [last_cmd] of the freed client when the
    reply arrives. *)
Example reply_after_close :
  let inputs := connected ++ [NewClient 9 0; ClientReadable 2 (lit "close")] in
  match example_run inputs with
  | Ok _ w => w_clients w = ∅ /\ cmd_http_client <$> w_cmds w !! 3%positive = Some (Some 2%positive)
  | Fault _ => False
  end /\
  example_run (inputs ++ [RedisReadable 1 ConnectDone (inr ([REPLY_STATUS (lit "PONG")], None))]) = Fault UseAfterFree.
Proof. vm_compute. done. Qed.

(** An upgraded client, its connection to Redis (3) made and its answer sent. *)
Definition open_socket : list input :=
  connected ++ upgrade_inputs ++ [RedisWritable 3 ConnectDone (inr 0%nat); WsWritable 9 4 4096].

Definition text_frame (s : bytes) : bytes := rfc_client_frame true WS_TEXT_FRAME (lit "mask") s.
Definition quoted (s : bytes) : bytes := [x22] ++ s ++ [x22].
Definition ping : bytes := lit "[" ++ quoted (lit "PING") ++ lit "]".
Definition get_k : bytes := lit "[" ++ quoted (lit "GET") ++ lit "," ++ quoted (lit "k") ++ lit "]".

Definition pong : bytes + (list redisReply * option bytes) := inr ([REPLY_STATUS (lit "PONG")], None).

(** A WebSocket client that leaves while a reply is due: [redisAsyncDisconnect] waits
    for the reply, whose callback gets the command that was freed with the client. *)
Example close_while_waiting :
  let inputs := open_socket ++ [WsReadable 4 (text_frame ping); WsReadable 4 []] in
  match example_run inputs with
  | Ok _ w => w_wss w = ∅ /\ w_cmds w = ∅ /\
      ac_replies <$> w_acs w !! 3%positive = Some [CB_REPLY json_reply 5%positive]
  | Fault _ => False
  end /\
  example_run (inputs ++ [RedisReadable 3 ConnectDone pong]) = Fault UseAfterFree.
Proof. vm_compute. done. Qed.

(** A WebSocket client whose connection to Redis is lost: hiredis frees the context,
    the client keeps the pointer, and its end frees the context again. *)
Example redis_lost :
  let inputs := open_socket ++ [RedisReadable 3 ConnectDone (inl (lit "Server closed the connection"))] in
  match example_run inputs with
  | Ok _ w => w_acs w !! 3%positive = None /\ ws_ac <$> w_wss w !! 4%positive = Some (Some 3%positive)
  | Fault _ => False
  end /\
  example_run (inputs ++ [WsReadable 4 []]) = Fault UseAfterFree /\
  example_run (inputs ++ [WsReadable 4 (text_frame ping)]) = Fault UseAfterFree.
Proof. vm_compute. done. Qed.

(** A WebSocket client that sends a second command before the first one was answered:
    both replies carry the name of the second. *)
Example mislabelled_reply :
  match example_run (open_socket ++ [WsReadable 4 (text_frame ping ++ text_frame get_k);
                                     RedisReadable 3 ConnectDone (inr ([REPLY_STATUS (lit "PONG")], None))]) with
  | Ok _ w => ws_wbuf <$> w_wss w !! 4%positive =
      Some (ws_frame WS_BINARY_FRAME
              (lit "{" ++ quoted (lit "GET") ++ lit ":[true," ++ quoted (lit "PONG") ++ lit "]}"))
  | Fault _ => False
  end.
Proof. vm_compute. reflexivity. Qed.

(** A message in the protocol of Redis that is not complete: the reader has no reply
    and no error, and [raw_ws_extract] reads the type of the reply it did not get. *)
Example incomplete_raw_message w :
  let S : Resp.Strtod := fun _ => false in
  let P : Packer := fun _ => [] in
  raw_ws_extract 2 (lit "*2" ++ CRLF ++ lit "$3" ++ CRLF ++ lit "GET" ++ CRLF) w = Fault NullDeref /\
  raw_ws_extract 2 [] w = Fault NullDeref.
Proof. done. Qed.

End Hazards.
