(* ===== verification/Request.v ===== *)
(** * An HTTP request, from the last callback of the parser to its answer

    [http_client_on_message_complete] executes a request and makes the client ready
    for the next one. The property says what comes of a request: one response at
    once, or one command whose reply will be the response ([Replies]). *)
From S2P Require Import Prelude Types Acl Http Uri World Pool Cmd Format Hiredis Client WebSocket WsExec Worker Events.

Local Open Scope Z_scope.

Module Request.
Import Acl Http Uri World Pool Cmd Client WsExec Events.

(** ** Responses *)

(** The responses handed to the event loop: the descriptor and the code. *)
Definition response_codes (l : list event) : list (Z * Z) :=
  omap (fun e => match e with EvResponse fd r => Some (fd, r_code r) | _ => None end) l.

Lemma response_codes_app l1 l2 : response_codes (l1 ++ l2) = response_codes l1 ++ response_codes l2.
Proof. apply omap_app. Qed.

(** A client but for the commands that it points to, and the fields that move to them. *)
Definition hc_core (x : http_client) : http_client :=
  set_hc_type None (set_hc_jsonp None (set_hc_separator None (set_hc_filename None
    (set_hc_reused_cmd None (set_hc_last_cmd None x))))).

(** No response is sent, and the clients stay and keep their core. *)
Record silent (w w' : world) : Prop := {
  s_responses : response_codes (w_trace w') = response_codes (w_trace w);
  s_clients c x : w_clients w !! c = Some x -> exists x', w_clients w' !! c = Some x' /\ hc_core x' = hc_core x;
  s_cfg : w_cfg w' = w_cfg w;
  s_alloc : w_alloc w = [] -> w_alloc w' = [] }.

#[global] Instance silent_preorder : PreOrder silent.
Proof.
  split; [split; eauto|]. intros w1 w2 w3 [A1 A2 A3 A4] [B1 B2 B3 B4]. split; [by rewrite B1| |congruence|tauto].
  intros c x (y & Hy & Ey)%A2. destruct (B2 c y Hy) as (z & Hz & Ez). exists z. split; [done|congruence].
Qed.

Lemma silent_same {A} (m : M A) :
  (forall w r w', m w = Ok r w' -> w_trace w' = w_trace w /\ w_clients w' = w_clients w /\ w_cfg w' = w_cfg w /\
     (w_alloc w = [] -> w_alloc w' = [])) -> within silent m.
Proof. intros Hm w r w' E. destruct (Hm _ _ _ E) as (E1 & E2 & E3 & E4). split; [by rewrite E1| |done|done]. rewrite E2. eauto. Qed.

Ltac same := apply silent_same; intros ? ? ? E;
  repeat unfold put_cmd, put_ac, put_client, del_cmd, del_ac, fresh, register in E; M_inv; done.

Lemma silent_ret {A} (a : A) : within silent (mret a). Proof. same. Qed.
Lemma silent_fail {A} e : within silent (@fail A e). Proof. same. Qed.
Lemma silent_get : within silent get. Proof. same. Qed.
Lemma silent_gets {A} (f : world -> A) : within silent (gets f). Proof. same. Qed.
Lemma silent_get_client l : within silent (get_client l). Proof. same. Qed.
Lemma silent_get_cmd l : within silent (get_cmd l). Proof. same. Qed.
Lemma silent_get_ac l : within silent (get_ac l). Proof. same. Qed.
Lemma silent_put_cmd l x : within silent (put_cmd l x). Proof. same. Qed.
Lemma silent_put_ac l x : within silent (put_ac l x). Proof. same. Qed.
Lemma silent_del_cmd l : within silent (del_cmd l). Proof. same. Qed.
Lemma silent_del_ac l : within silent (del_ac l). Proof. same. Qed.
Lemma silent_fresh : within silent fresh. Proof. same. Qed.
Lemma silent_register p : within silent (register p). Proof. same. Qed.
Lemma silent_set_pool p : within silent (modify (set_w_pool p)). Proof. same. Qed.
Lemma silent_deref {A} (o : option A) : within silent (deref o).
Proof. destruct o; [apply silent_ret|apply silent_fail]. Qed.
Lemma silent_in_bounds {A} (o : option A) : within silent (in_bounds o).
Proof. destruct o; [apply silent_ret|apply silent_fail]. Qed.
Lemma silent_alloc_ok : within silent alloc_ok.
Proof. apply silent_same. intros w r w' E. unfold alloc_ok in E. M_inv. destruct (w_alloc w) eqn:Ha; M_inv; split_and!; done || congruence. Qed.
Lemma silent_connect_answer : within silent connect_answer.
Proof. apply silent_same. intros w r w' E. unfold connect_answer in E. M_inv. by destruct (w_connect w); M_inv. Qed.
Lemma silent_log level body : within silent (emit (EvLog level body)).
Proof. intros w r w' E. unfold emit in E. M_inv. split; [cbn; by rewrite response_codes_app, app_nil_r|eauto|done|done]. Qed.
Lemma silent_redis ac argv : within silent (emit (EvRedis ac argv)).
Proof. intros w r w' E. unfold emit in E. M_inv. split; [cbn; by rewrite response_codes_app, app_nil_r|eauto|done|done]. Qed.

Create HintDb silent.
#[export] Hint Resolve silent_ret silent_fail silent_get silent_gets silent_get_client silent_get_cmd silent_get_ac
  silent_put_cmd silent_put_ac silent_del_cmd silent_del_ac silent_fresh silent_register silent_set_pool
  silent_deref silent_in_bounds silent_alloc_ok silent_connect_answer silent_log silent_redis : silent.

Ltac silent :=
  repeat match goal with
    | _ => solve [auto with silent]
    | |- within _ (mbind _ _) => apply within_bind; [apply silent_preorder| |intros]
    | |- within _ (match ?x with _ => _ end) => destruct x
    | |- within _ skip => apply silent_ret
    | |- within _ (when ?b _) => unfold when; destruct b
    end.

Lemma silent_upd_client l f : (forall x, hc_core (f x) = hc_core x) -> within silent (upd_client l f).
Proof.
  intros Hf w r w' (x & Hx & ->)%upd_client_inv. split; [done| |done|done]. intros c y Hy. cbn.
  destruct (decide (l = c)) as [->|]; [|rewrite lookup_insert_ne by done; eauto].
  rewrite lookup_insert_eq. exists (f x). split; [done|]. rewrite Hf. congruence.
Qed.
Lemma silent_upd_cmd l f : within silent (upd_cmd l f).
Proof. unfold upd_cmd. silent. Qed.
Lemma silent_slog level body : within silent (slog level body).
Proof. unfold slog, slog_enabled. silent. Qed.
#[export] Hint Resolve silent_upd_client silent_upd_cmd silent_slog : silent.

Lemma silent_command ac cb argv : within silent (redisAsyncCommandArgv ac cb argv).
Proof. unfold redisAsyncCommandArgv, append_command. silent. Qed.
#[export] Hint Resolve silent_command : silent.
Lemma silent_pool_connect db attach : within silent (pool_connect db attach).
Proof. unfold pool_connect, pool_authenticate, pool_select, log_alloc, pool_schedule_reconnect. silent. Qed.
Lemma silent_pool_get_context : within silent pool_get_context.
Proof. unfold pool_get_context. silent. Qed.
#[export] Hint Resolve silent_pool_connect silent_pool_get_context : silent.

Lemma silent_connect cl c : within silent (cmd_connect cl c).
Proof. unfold cmd_connect. silent. Qed.
Lemma silent_send c f : within silent (cmd_send c f).
Proof. unfold cmd_send. silent. Qed.
#[export] Hint Resolve silent_connect silent_send : silent.

Section Run.
Context `{AsyncDisconnect}.

(** A command without a connection is freed without a word. *)
Lemma silent_cmd_free c w x r w' :
  w_cmds w !! c = Some x -> cmd_ac x = None -> cmd_free c w = Ok r w' -> silent w w'.
Proof using.
  intros Hx Hac E. unfold cmd_free in E. rewrite (run_get_cmd _ _ _ _ Hx), Hac in E.
  match type of E with ?m w = _ => assert (within silent m) as Hm end; [|by eapply Hm].
  unfold cmd_free_argv. silent.
Qed.

Lemma silent_finish cl c f u n np body : within silent (cmd_finish cl c f u n np body).
Proof using.
  intros w r w' E. unfold cmd_finish in E. destruct (np_slash np).
  - apply bind_ok in E as (x & ? & [Hx <-]%get_cmd_ok & E). apply bind_ok in E as (argv & w1 & E1 & E).
    assert (w1 = w) as -> by (destruct (record_args _ _ _ _ _); [by injection E1|discriminate E1]).
    apply bind_ok in E as ([] & w2 & E2 & E). injection E2 as <-. etrans; [by apply (silent_put_cmd c (set_cmd_argv argv x) w ())|].
    set (w2 := set_w_cmds _ w) in *. assert (w_cmds w2 !! c = Some (set_cmd_argv argv x)) as Hx2 by apply lookup_insert_eq.
    destruct (cmd_ac x) as [ac|] eqn:Hac.
    + match type of E with ?m w2 = _ => assert (within silent m) as Hm by silent; by eapply Hm end.
    + apply bind_ok in E as ([] & w3 & E3 & E). etrans; [by eapply (silent_cmd_free c w2)|].
      match type of E with ?m w3 = _ => assert (within silent m) as Hm by silent; by eapply Hm end.
  - apply bind_ok in E as (x & ? & [Hx <-]%get_cmd_ok & E). destruct (cmd_ac x) as [ac|] eqn:Hac.
    + match type of E with ?m w = _ => assert (within silent m) as Hm by silent; by eapply Hm end.
    + apply bind_ok in E as ([] & w3 & E3 & E). M_inv. by eapply silent_cmd_free.
Qed.

Lemma silent_cmd_run client pre u body w cl r w' :
  w_clients w !! client = Some cl -> headers_complete cl -> (before_query u = [] -> last pre = Some x2f) ->
  cmd_run client (pre ++ u ++ [x00]) (length pre) (length u) body w = Ok r w' -> silent w w'.
Proof using.
  intros Hcl Hh Hpre E. destruct (cmd_run_eq client pre u body w cl Hcl Hh Hpre) as (t & post & x & _ & _ & _ & Hx & Eq).
  rewrite Eq in E. clear Eq. unfold cmd_core in Hx. injection Hx as _ _ _ _ _ Hac.
  destruct (_ =? 0)%nat; [by injection E as <- <-|].
  transitivity (with_cmd client (w_next w) x (client_with_cmd (w_next w) cl) w).
  { split; [done| |done|done]. intros c y Hy. cbn. destruct (decide (client = c)) as [->|]; [|rewrite lookup_insert_ne by done; eauto].
    rewrite lookup_insert_eq. eexists. split; [done|]. rewrite Hcl in Hy. by injection Hy as <-. }
  set (w1 := with_cmd _ _ _ _ w) in *. assert (w_cmds w1 !! w_next w = Some x) as Hx by apply lookup_insert_eq.
  destruct (negb _).
  - apply bind_ok in E as ([] & w2 & E2 & E). M_inv. by eapply silent_cmd_free.
  - apply bind_ok in E as ([] & w2 & E2%silent_connect & E). etrans; [exact E2|]. by eapply silent_finish.
Qed.
End Run.

(** ** The answers *)

Lemma set_header_code r k v copy : r_code (http_response_set_header r k v copy) = r_code r.
Proof. unfold http_response_set_header. repeat case_match; done. Qed.

Lemma write_headers_code r : r_code (write_headers r) = r_code r.
Proof.
  unfold write_headers. generalize (r_headers r). intros l. revert r.
  induction l as [|h l IH]; intros r; [done|]. cbn [fold_left]. rewrite IH. by destruct (is_keep_alive_header h).
Qed.

Lemma http_response_write_code r fd : 0 <= fd -> exists r', Http.http_response_write r fd = Some r' /\ r_code r' = r_code r.
Proof.
  intros Hfd. unfold Http.http_response_write. rewrite (proj2 (Z.ltb_ge _ _)) by done. eexists. split; [reflexivity|].
  set (r1 := set_content_length _).
  assert (r_code r1 = r_code r) as Hr1.
  { unfold r1, set_content_length. repeat case_match; rewrite ?set_header_code; done. }
  cbn [set_r_sent r_code]. repeat case_match; cbn; rewrite write_headers_code; exact Hr1.
Qed.

(** A canned response goes out, and the client is reset. *)
Lemma send_now_runs c resp w x :
  w_clients w !! c = Some x -> 0 <= hc_fd x ->
  exists r, r_code r = r_code (resp x) /\
    send_now c resp w =
    Ok () (set_w_clients (<[c := reset_client x]> (w_clients w)) (set_w_trace (w_trace w ++ [EvResponse (hc_fd x) r]) w)).
Proof.
  intros Hx Hfd. destruct (http_response_write_code (resp x) (hc_fd x) Hfd) as (r & Hr & Hc).
  exists r. split; [done|]. unfold send_now, World.http_response_write, http_client_reset, emit.
  rewrite (run_get_client _ _ _ _ Hx), Hr. M_run. by erewrite upd_client_eq by world_lookup.
Qed.

Lemma error_code x code msg : r_code (error_response x code msg) = code.
Proof.
  unfold error_response, http_response_set_connection_header, http_response_set_keep_alive, http_response_init.
  cbn [http_response_set_body set_r_body r_code].
  destruct (hc_keep_alive x); rewrite set_header_code; cbn [set_r_keep_alive set_r_http_version r_code];
    rewrite !set_header_code; done.
Qed.

(** What is answered at once. *)
Definition answer (res : cmd_response_t) : list Z :=
  match res with
  | CMD_SENT => []
  | CMD_REDIS_UNAVAIL => [503]
  | CMD_ACL_FAIL | CMD_PARAM_ERROR => [403]
  end.

Lemma slog_silent level body w :
  exists logs, slog level body w = Ok () (set_w_trace (w_trace w ++ logs) w) /\ response_codes logs = [].
Proof.
  unfold slog, slog_enabled. rewrite (bind_eq (gets _) _ _ (level <=? cfg_verbosity (w_cfg w)) w) by reflexivity.
  destruct (level <=? _); [by exists [EvLog level body]|]. exists []. rewrite app_nil_r. by destruct w.
Qed.

(** Answering only touches the client, which may be reset, and the trace. *)
Definition answered (c : loc) (x : http_client) (codes : list (Z * Z)) (w w' : world) : Prop :=
  exists y tr, w' = set_w_clients (<[c := y]> (w_clients w)) (set_w_trace tr w) /\
    (y = x \/ y = reset_client x) /\ response_codes tr = response_codes (w_trace w) ++ codes.

Lemma log_error_runs c code msg w x :
  w_clients w !! c = Some x -> 0 <= hc_fd x ->
  exists w', log_error c code msg w = Ok () w' /\ answered c x [(hc_fd x, code)] w w'.
Proof.
  intros Hx Hfd. unfold log_error. destruct (slog_silent WEBDIS_DEBUG (print_int code) w) as (logs & E & Hl).
  rewrite (bind_eq _ _ _ _ _ E). unfold http_send_error.
  destruct (send_now_runs c (fun x => error_response x code msg) (set_w_trace (w_trace w ++ logs) w) x Hx Hfd)
    as (r & Hr & E2). rewrite error_code in Hr. eexists. split; [exact E2|].
  exists (reset_client x). eexists. split; [reflexivity|]. split; [by right|]. cbn.
  rewrite !response_codes_app, Hl, app_nil_r. cbn. by rewrite Hr.
Qed.

Lemma process_result_runs c res w x :
  w_clients w !! c = Some x -> 0 <= hc_fd x ->
  exists w', process_result c res w = Ok () w' /\ answered c x (map (pair (hc_fd x)) (answer res)) w w'.
Proof.
  intros Hx Hfd. unfold process_result. destruct res; try by apply log_error_runs.
  exists w. split; [done|]. exists x, (w_trace w). cbn. rewrite insert_id, app_nil_r by done. split; [by destruct w|]. by split; [left|].
Qed.

(** ** The request *)

(** The client as it executes the request: the connection is kept alive unless the
    request says otherwise, and the configured document stands for the root. *)
Definition completed (cfg : conf) (x : http_client) : http_client :=
  let p := hc_parser x in
  let x :=
    if negb (Z.land (hp_flags p) F_CONNECTION_CLOSE =? 0)
    then set_hc_fully_read true (set_hc_keep_alive false x)
    else if (hp_http_major p =? 1) && (hp_http_minor p =? 1) then set_hc_keep_alive true x
    else x in
  let x := set_hc_http_version (hp_http_minor p) x in
  match hc_path x, cfg_default_root cfg with
  | Some path, Some root => if bytes_eqb path (lit "/") then set_hc_path (Some root) x else x
  | _, _ => x
  end.

Lemma completed_fields cfg x :
  hc_parser (completed cfg x) = hc_parser x /\ hc_body (completed cfg x) = hc_body x /\
  hc_headers (completed cfg x) = hc_headers x /\ hc_fd (completed cfg x) = hc_fd x /\
  hc_type (completed cfg x) = hc_type x.
Proof. unfold completed. cbv zeta. repeat case_match; done. Qed.

(** The text of the command in a request, with the character before it, and the
    argument in its body: GET and PUT have it in the path, POST in the body. *)
Definition request_text (method : Z) (path : bytes) (body : option bytes) : option (bytes * bytes * option bytes) :=
  match path with
  | c :: u =>
      if method =? HTTP_GET then Some ([c], u, None)
      else if method =? HTTP_PUT then Some ([c], u, body)
      else if method =? HTTP_POST then (fun b => ([], b, None)) <$> body
      else None
  | [] => None
  end.

(** Nothing of the request is left. *)
Definition request_cleared (x : http_client) : Prop :=
  hc_path x = None /\ hc_headers x = [] /\ hc_body x = None /\ hc_type x = None /\ hc_jsonp x = None /\
  hc_filename x = None /\ hc_request_sz x = 0.

Lemma core_fd x y : hc_core x = hc_core y -> hc_fd x = hc_fd y.
Proof. by intros [= ->]. Qed.

Lemma core_reset x y : hc_core x = hc_core y -> hc_core (reset_client x) = hc_core (reset_client y).
Proof. destruct x, y. intros [= -> -> -> -> -> -> -> -> -> -> -> -> -> -> -> ->]. unfold reset_client. cbv zeta. cbn. by case_match. Qed.

Lemma core_reset_twice x : hc_core (reset_client (reset_client x)) = hc_core (reset_client x).
Proof. by destruct x as [? ? ? ? ? ? []]. Qed.

Section Outcome.
Context `{AsyncDisconnect}.

Lemma process_client_runs c w x path pre u body :
  w_clients w !! c = Some x -> hc_path x = Some path ->
  request_text (hp_method (hc_parser x)) path (hc_body x) = Some (pre, u, body) ->
  (hp_method (hc_parser x) = HTTP_GET -> path <> lit "/crossdomain.xml") ->
  worker_process_client c w =
  (slog WEBDIS_DEBUG path ;;
   ret ← cmd_run c (pre ++ u ++ [x00]) (length pre) (length u) body;
   process_result c ret) w.
Proof using.
  intros Hx Hp Hr Hcd. unfold worker_process_client. rewrite (run_get_client _ _ _ _ Hx), Hp. cbn [deref].
  destruct path as [|a path]; [done|]. cbn [request_text] in Hr.
  destruct (hp_method (hc_parser x) =? HTTP_GET) eqn:Eg.
  - injection Hr as <- <- <-. rewrite (bind_eq (mret _) _ w (a :: path) w) by reflexivity.
    apply Z.eqb_eq in Eg. destruct (bytes_eqb (a :: path) _) eqn:Eb; [by apply bytes_eqb_eq, (Hcd Eg) in Eb|].
    cbn [run_path length]. by rewrite Nat.sub_succ, Nat.sub_0_r.
  - destruct (hp_method (hc_parser x) =? HTTP_PUT) eqn:Ep.
    + apply Z.eqb_eq in Ep. rewrite Ep. change (HTTP_PUT =? HTTP_POST) with false. cbv iota.
      injection Hr as <- <- <-. rewrite (bind_eq (mret _) _ w (a :: path) w) by reflexivity.
      cbn [run_path length]. by rewrite Nat.sub_succ, Nat.sub_0_r.
    + destruct (hp_method (hc_parser x) =? HTTP_POST) eqn:Eo; [|done].
      rewrite (bind_eq (mret _) _ w (a :: path) w) by reflexivity.
      destruct (hc_body x) as [b|]; [|done]. by injection Hr as <- <- <-.
Qed.

Lemma message_complete_eq c w x :
  w_clients w !! c = Some x -> hp_upgrade (hc_parser x) && cfg_websockets (w_cfg w) = false ->
  http_client_on_message_complete c w =
  (worker_process_client c ;; http_client_reset c ;; mret true)
    (set_w_clients (<[c := completed (w_cfg w) x]> (w_clients w)) w).
Proof using.
  intros Hx Hup. unfold http_client_on_message_complete. rewrite (run_get_client _ _ _ _ Hx).
  rewrite (bind_eq (gets w_cfg) _ w (w_cfg w) w), Hup by reflexivity. cbv zeta. reflexivity.
Qed.

Lemma request_outcome c w x path pre u body :
  w_clients w !! c = Some x -> headers_complete x -> 0 <= hc_fd x -> w_cmds w !! w_next w = None -> ready w ->
  hp_upgrade (hc_parser x) && cfg_websockets (w_cfg w) = false ->
  hc_path (completed (w_cfg w) x) = Some path ->
  request_text (hp_method (hc_parser x)) path (hc_body x) = Some (pre, u, body) ->
  (before_query u = [] -> last pre = Some x2f) ->
  (hp_method (hc_parser x) = HTTP_GET -> path <> lit "/crossdomain.xml") ->
  let allowed := name_allowed (w_cfg w) x (rq_name (run_request u)) in
  exists res w' x',
    http_client_on_message_complete c w = Ok true w' /\ w_clients w' !! c = Some x' /\
    hc_core x' = hc_core (reset_client (completed (w_cfg w) x)) /\ request_cleared x' /\
    w_cfg w' = w_cfg w /\ (w_alloc w = [] -> w_alloc w' = []) /\
    response_codes (w_trace w') = response_codes (w_trace w) ++ map (pair (hc_fd x)) (answer res) /\
    match res with
    | CMD_PARAM_ERROR => run_slots u body = O /\ w_acs w' = w_acs w /\ w_cmds w' = w_cmds w
    | CMD_ACL_FAIL => (allowed = false \/ run_count u body = 0) /\ w_acs w' = w_acs w /\ w_cmds w' = w_cmds w
    | CMD_REDIS_UNAVAIL => allowed = true /\ w_cmds w' = w_cmds w
    | CMD_SENT => allowed = true /\ exists w0 w1 ac,
        w_acs w0 = w_acs w /\ w_cfg w0 = w_cfg w /\ w_pool w0 = w_pool w /\ w_cmds w0 = w_cmds w /\
        w_next w0 = w_next w /\ sent_on u body (text_format (hc_type x) (before_query u)) w0 w1 ac /\
        w_acs w' = w_acs w1 /\ w_cmds w' = w_cmds w1
    end.
Proof using.
  intros Hx Hh Hfd Hfresh Hready Hup Hp Hr Hpre Hcd allowed.
  destruct (completed_fields (w_cfg w) x) as (F1 & F2 & F3 & F4 & F5).
  rewrite (message_complete_eq c w x Hx Hup). set (y := completed (w_cfg w) x) in *.
  set (w0 := set_w_clients (<[c := y]> (w_clients w)) w).
  assert (w_clients w0 !! c = Some y) as Hy by apply lookup_insert_eq.
  destruct (slog_silent WEBDIS_DEBUG path w0) as (logs & El & Hl). set (w1 := set_w_trace (w_trace w0 ++ logs) w0) in *.
  destruct (cmd_run_result c pre u body w1 y) as (res & w2 & E2 & Hres);
    [exact Hy|unfold headers_complete; by rewrite F3|done|done| |].
  { destruct Hready as [[I1 I2 I3 I4 I5] R2 R3 R4]. by repeat split. }
  pose proof (silent_cmd_run c pre u body w1 y res w2 Hy ltac:(unfold headers_complete; by rewrite F3) Hpre E2) as [S1 S2 S3 S4].
  destruct (S2 c y Hy) as (z & Hz & Ez).
  destruct (process_result_runs c res w2 z) as (w3 & E3 & v & tr & -> & Hv & Htr); [done|by rewrite (core_fd _ _ Ez), F4|].
  assert (worker_process_client c w0 = Ok () (set_w_clients (<[c := v]> (w_clients w2)) (set_w_trace tr w2))) as E.
  { rewrite (process_client_runs c w0 y path pre u body) by (rewrite ?F1, ?F2; done).
    by rewrite (bind_eq _ _ _ _ _ El), (bind_eq _ _ _ _ _ E2), E3. }
  exists res. rewrite (bind_eq _ _ _ _ _ E). unfold http_client_reset.
  erewrite run_upd_client by apply lookup_insert_eq. eexists _, (reset_client v).
  split; [reflexivity|]. split; [apply lookup_insert_eq|].
  split; [rewrite <-(core_reset _ _ Ez); destruct Hv as [-> | ->]; [done|apply core_reset_twice]|].
  split; [unfold request_cleared, reset_client; cbv zeta; by destruct (hc_keep_alive _)|]. split; [done|]. split; [done|]. split.
  { change (response_codes tr = response_codes (w_trace w) ++ map (pair (hc_fd x)) (answer res)).
    rewrite Htr, S1, (core_fd _ _ Ez), F4. f_equal. change (w_trace w1) with (w_trace w ++ logs).
    by rewrite response_codes_app, Hl, app_nil_r. }
  assert (name_allowed (w_cfg w) y (rq_name (run_request u)) = allowed) as Ha.
  { unfold allowed, name_allowed, acl_allow_command. cbn [cmd_count cmd_argv].
    rewrite (acl_loop_ext _ x y) by done. unfold y, completed. cbv zeta. repeat case_match; done. }
  change (w_cfg w1) with (w_cfg w) in Hres. clearbody allowed.
  destruct res; rewrite ?Ha in Hres.
  - destruct Hres as [? [ac Hs]]. split; [done|]. rewrite <-F5. exists w1, w2, ac. done.
  - destruct Hres as [? ->]. done.
  - destruct Hres as (? & _ & ? & ?). done.
  - done.
Qed.

End Outcome.

(** A request that is sent, and one whose name is always refused. *)
Definition request_world (path : bytes) : world :=
  set_w_clients {[ 4%positive := set_hc_path (Some path) a_client ]} a_world.

Lemma request_world_ready path : ready (request_world path).
Proof. destruct a_world_ready as [[I1 I2 I3 I4 I5] R2 R3 R4]. by repeat split. Qed.


End Request.
