(* ===== verification/Serve.v ===== *)
(** * From the bytes of a request to Redis

    The parts put together: the event loop reads what a client has sent, in pieces of any
    size, the parser calls back, the callbacks fill the client, and the request is
    executed. [Parse] says what the callbacks amount to, [Request] what becomes of a
    complete request; here the callbacks are run, and the handler around them. *)
From S2P Require Import Prelude Types Base64 Acl WsFrame Http Raw Resp Digest Uri Json JsonReply Msgpack World Pool Cmd Format Hiredis Client Parser Pieces Feed Parse WebSocket WsExec Worker Events Request.

Local Open Scope Z_scope.

Module Serve.
Import Acl Http Uri World Pool Msgpack Cmd Format Hiredis Client Parser Pieces Feed Parse Worker Request.

(** ** A client and the message it has been told of *)

(** The headers, from their names and values (the last one first). *)
Fixpoint headers_of (l : list (bool * bytes)) : list req_header :=
  match l with
  | [] => []
  | (true, n) :: l => headers_of l ++ [mk_req_header n None]
  | (false, v) :: l => default [] (set_last_header (fun h => mk_req_header (rh_key h) (Some v)) (headers_of l))
  end.

Definition last_cb_of (l : list (bool * bytes)) : last_cb_t :=
  match l with
  | [] => LAST_CB_NONE
  | (true, _) :: _ => LAST_CB_KEY
  | (false, _) :: _ => LAST_CB_VAL
  end.

(** The first of them is a name. *)
Definition named (l : list (bool * bytes)) : Prop := forall v, last l <> Some (false, v).

Record shows (x : http_client) (g : message) : Prop := {
  sh_path : default [] (hc_path x) = g_url g;
  sh_body : default [] (hc_body x) = g_body g;
  sh_headers : hc_headers x = headers_of (g_headers g);
  sh_last : hc_last_cb x = last_cb_of (g_headers g);
  sh_type : g_query g = [] -> hc_type x = None }.

(** What no callback changes before the last one. *)
Definition standing (x : http_client) :=
  (hc_fd x, hc_addr x, hc_buffer x, hc_request_sz x, hc_broken x, hc_fully_read x, hc_is_websocket x, hc_failed_alloc x,
   hc_reused_cmd x, hc_last_cmd x, hc_ws x).

(** Only the client and the trace change, and no response is sent. *)
Definition at_client (c : loc) (y : http_client) (w w' : world) : Prop :=
  exists tr, w' = set_w_clients (<[c := y]> (w_clients w)) (set_w_trace tr w) /\
    response_codes tr = response_codes (w_trace w).

Lemma at_client_refl c x w : w_clients w !! c = Some x -> at_client c x w w.
Proof. intros Hx. exists (w_trace w). rewrite insert_id by done. by destruct w. Qed.

Lemma at_client_trans c y z w1 w2 w3 : at_client c y w1 w2 -> at_client c z w2 w3 -> at_client c z w1 w3.
Proof.
  intros (t1 & -> & E1) (t2 & -> & E2). exists t2. split; [cbn; by rewrite insert_insert_eq|]. etrans; [exact E2|exact E1].
Qed.

Lemma at_client_lookup c y w w' : at_client c y w w' -> w_clients w' !! c = Some y.
Proof. intros (t & -> & _). apply lookup_insert_eq. Qed.

Lemma at_client_put c y w : at_client c y w (set_w_clients (<[c := y]> (w_clients w)) w).
Proof. exists (w_trace w). by destruct w. Qed.

Lemma at_client_alloc c y w w' : at_client c y w w' -> w_alloc w' = w_alloc w.
Proof. by intros (t & -> & _). Qed.

Lemma at_client_cfg c y w w' : at_client c y w w' -> w_cfg w' = w_cfg w.
Proof. by intros (t & -> & _). Qed.

(** ** Headers *)

Lemma set_last_snoc f l h : set_last_header f (l ++ [h]) = Some (l ++ [f h]).
Proof. unfold set_last_header. rewrite reverse_app. change (reverse [h] ++ reverse l) with (h :: reverse l). cbv iota. by rewrite reverse_involutive. Qed.

Lemma named_cons p q l : named (p :: q :: l) <-> named (q :: l).
Proof. unfold named. cbn [last]. done. Qed.

(** The last header of a list that starts with a name. *)
Lemma headers_last p l :
  named (p :: l) ->
  exists hs h, headers_of (p :: l) = hs ++ [h] /\ rh_val h = (if p.1 then None else Some p.2) /\
    forall t, headers_of ((p.1, p.2 ++ t) :: l) = hs ++ [if p.1 then add_to_key t h else add_to_val t h].
Proof.
  revert p. induction l as [|q l IH]; intros [[] t] Hn.
  - exists [], (mk_req_header t None). split; [done|]. by split.
  - by destruct (Hn t).
  - exists (headers_of (q :: l)), (mk_req_header t None). split; [done|]. by split.
  - destruct (IH q) as (hs & h & E & _ & _); [by apply named_cons in Hn|].
    exists hs, (mk_req_header (rh_key h) (Some t)).
    change (headers_of ((false, t) :: q :: l)) with (default [] (set_last_header (fun h => mk_req_header (rh_key h) (Some t)) (headers_of (q :: l)))).
    rewrite E, set_last_snoc. split; [done|]. split; [done|]. intros t'. cbn [fst snd].
    change (headers_of ((false, t ++ t') :: q :: l)) with (default [] (set_last_header (fun h => mk_req_header (rh_key h) (Some (t ++ t'))) (headers_of (q :: l)))).
    by rewrite E, set_last_snoc.
Qed.

Lemma add_piece_named name t l : named (add_piece name t l) -> named l /\ (name = false -> l <> []).
Proof.
  destruct l as [|[n s] l]; cbn [add_piece].
  - intros Hn. split; [by intros v|]. intros -> _. by apply (Hn t).
  - intros Hn. split; [|done]. intros v Hv. destruct (Bool.eqb n name) eqn:E.
    + apply Bool.eqb_prop in E as ->. destruct l as [|q l]; [cbn in Hv; injection Hv as -> _; by apply (Hn (s ++ t))|].
      by apply (Hn v).
    + by apply (Hn v).
Qed.

(** A state that was written with the setters. *)
Ltac at_client :=
  match goal with |- at_client _ _ ?w _ => exists (w_trace w); split; [cbn; rewrite ?insert_insert_eq; reflexivity|done] end.

(** ** The callbacks *)

Section Callbacks.
Context (c : loc) (w : world) (x : http_client) (Hx : w_clients w !! c = Some x) (Ha : w_alloc w = []).

Lemma alloc_run {A} (k : bool -> M A) v : w_alloc v = [] -> (alloc_ok ≫= k) v = k true v.
Proof using. intros E. unfold alloc_ok. M_run. by rewrite E. Qed.

Lemma check_alloc_run lost k v : w_alloc v = [] -> CHECK_ALLOC c lost k v = k v.
Proof using. intros E. unfold CHECK_ALLOC. by rewrite alloc_run. Qed.

(** A callback does its work: it returns, and the client shows the message with what it
    was told. *)
Definition told (cb : parser_callback) (m : M bool) (g : message) : Prop :=
  exists w' y, m w = Ok true w' /\ at_client c y w w' /\ shows y (see_message cb g) /\ standing y = standing x.

Lemma on_url_told t g : shows x g -> told (OnUrl t) (http_client_on_url c t) g.
Proof using All.
  intros [S1 S2 S3 S4 S5]. unfold told, http_client_on_url. rewrite check_alloc_run by done. M_run.
  eexists _, _. split; [reflexivity|]. split; [apply at_client_put|]. split; [|done]. split; try done. cbn. by rewrite S1.
Qed.

Lemma on_body_told t g : shows x g -> told (OnBody t) (_ ← http_client_on_body c t; mret true) g.
Proof using All.
  intros [S1 S2 S3 S4 S5]. unfold told, http_client_on_body, http_client_add_to_body.
  erewrite bind_eq; [|rewrite check_alloc_run by done; M_run; reflexivity].
  eexists _, _. split; [reflexivity|]. split; [apply at_client_put|]. split; [|done]. split; try done. cbn. by rewrite S2.
Qed.

Lemma query_pair_kept key val y :
  exists t j s f, query_pair key val y = set_hc_type t (set_hc_jsonp j (set_hc_separator s (set_hc_filename f y))).
Proof using.
  set (z := query_pair key val y). exists (hc_type z), (hc_jsonp z), (hc_separator z), (hc_filename z). subst z. destruct y.
  unfold query_pair. repeat case_match; reflexivity.
Qed.

Lemma query_loop_kept fuel p y :
  exists t j s f, query_loop fuel p y = set_hc_type t (set_hc_jsonp j (set_hc_separator s (set_hc_filename f y))).
Proof using.
  revert p y. induction fuel as [|fuel IH]; intros p y; [destruct y; eexists _, _, _, _; reflexivity|]. cbn [query_loop]. cbv zeta.
  case_match; [|destruct y; eexists _, _, _, _; reflexivity]. case_match; [|apply query_pair_kept].
  match goal with |- context [query_loop fuel ?p ?y] => destruct (IH p y) as (t & j & s & f & ->) end.
  match goal with |- context [query_pair ?k ?v y] => destruct (query_pair_kept k v y) as (t' & j' & s' & f' & ->) end.
  by exists t, j, s, f.
Qed.

Lemma on_query_told t g : shows x g -> told (OnQueryString t) (http_client_on_query_string c t) g.
Proof using All.
  intros [S1 S2 S3 S4 S5]. unfold told, http_client_on_query_string. M_run.
  eexists _, _. split; [reflexivity|]. split; [apply at_client_put|].
  destruct (query_loop_kept (length t) t x) as (ty & j & s & f & E). split; [|by rewrite E].
  split; cbn [see_message g_url g_body g_headers g_query]; [rewrite E; done..|].
  intros [Hg ->]%app_eq_nil. cbn. by apply S5.
Qed.

Lemma on_field_told t g :
  shows x g -> named (add_piece true t (g_headers g)) -> told (OnHeaderField t) (http_client_on_header_name c t) g.
Proof using All.
  intros [S1 S2 S3 S4 S5] Hn. unfold told, http_client_on_header_name. M_run. rewrite S4.
  destruct (g_headers g) as [|[[] s] l] eqn:Eg; cbn [last_cb_of].
  - rewrite M_bind_assoc, alloc_run by done. M_run. rewrite check_alloc_run by done. M_run. cbn [hc_headers set_hc_headers].
    rewrite set_last_snoc. cbn [in_bounds]. M_run. eexists _, _. split; [reflexivity|]. split; [at_client|].
    split; [|done]. split; try done. all: cbn; rewrite Eg; cbn; rewrite ?S3; done.
  - destruct (headers_last (true, s) l) as (hs & h & E & _ & Ht); [by apply add_piece_named in Hn as [Hn _]|].
    M_run. rewrite check_alloc_run by done. M_run. rewrite S3, E, set_last_snoc. cbn [in_bounds]. M_run.
    eexists _, _. split; [reflexivity|]. split; [at_client|]. split; [|done].
    split; try done; cbn [see_message g_headers]; rewrite Eg; first [done|symmetry; apply Ht].
  - rewrite M_bind_assoc, alloc_run by done. M_run. rewrite check_alloc_run by done. M_run. cbn [hc_headers set_hc_headers].
    rewrite set_last_snoc. cbn [in_bounds]. M_run. eexists _, _. split; [reflexivity|]. split; [at_client|].
    split; [|done]. split; try done; cbn [see_message g_headers]; rewrite Eg; [|done]. cbn [hc_headers set_hc_headers set_hc_last_cb].
    by rewrite S3.
Qed.

Lemma on_value_told t g :
  shows x g -> named (add_piece false t (g_headers g)) -> told (OnHeaderValue t) (http_client_on_header_value c t) g.
Proof using All.
  intros [S1 S2 S3 S4 S5] Hn. unfold told, http_client_on_header_value. rewrite check_alloc_run by done. M_run.
  destruct (add_piece_named _ _ _ Hn) as [Hg Hne]. destruct (g_headers g) as [|[n s] l] eqn:Eg; [by destruct Hne|].
  destruct (headers_last (n, s) l Hg) as (hs & h & E & Hv & Ht).
  assert (headers_of (add_piece false t ((n, s) :: l)) = hs ++ [add_to_val t h]) as El.
  { destruct n; cbn [add_piece Bool.eqb]; [|apply Ht]. cbn [headers_of] in E |- *. rewrite E, set_last_snoc. unfold add_to_val.
    by rewrite Hv. }
  rewrite S3, E, set_last_snoc. cbn [in_bounds]. M_run.
  set (y := set_hc_last_cb LAST_CB_VAL (set_hc_headers (hs ++ [add_to_val t h]) x)).
  assert (shows y (see_message (OnHeaderValue t) g) /\ standing y = standing x) as [Hy Hs].
  { split; [|done]. split; try done; cbn [see_message g_headers]; rewrite Eg; [by rewrite El|]. by destruct n. }
  assert (shows (set_hc_keep_alive true y) (see_message (OnHeaderValue t) g)) as Hk by (destruct Hy; by split).
  unfold when. destruct (strncmp_eq _ _ _); [destruct (_ && _)|destruct (strncasecmp_eq _ _ _); [destruct (_ && _)|]].
  - unfold emit. M_run. eexists _, y. split; [reflexivity|]. split; [|done].
    eexists. split; [cbn; reflexivity|]. by rewrite response_codes_app, app_nil_r.
  - M_run. eexists _, y. split; [reflexivity|]. split; [at_client|done].
  - M_run. eexists _, _. split; [reflexivity|]. split; [at_client|]. split; [exact Hk|done].
  - M_run. eexists _, y. split; [reflexivity|]. split; [at_client|done].
  - M_run. eexists _, y. split; [reflexivity|]. split; [at_client|done].
Qed.

Lemma callback_told `{AsyncDisconnect} cb g :
  cb <> OnMessageComplete -> shows x g -> named (g_headers (see_message cb g)) -> told cb (run_callback c cb) g.
Proof using All.
  intros Hc Hs Hn. destruct cb; cbn [run_callback]; [by apply on_url_told|by apply on_query_told|by apply on_field_told|
    by apply on_value_told|by apply on_body_told|done].
Qed.

End Callbacks.

(** ** The callbacks of a call *)

Definition read_all (l : list parser_event) (g : message) : message :=
  fold_left (fun g e => see_message (pe_callback e) g) l g.

Definition unfinished (l : list parser_event) : Prop := Forall (fun e => pe_callback e <> OnMessageComplete) l.

Lemma see_named cb g : cb <> OnMessageComplete -> named (g_headers (see_message cb g)) -> named (g_headers g).
Proof. intros Hc. destruct cb; cbn; try done; by intros [? _]%add_piece_named. Qed.

Lemma read_named l g : unfinished l -> named (g_headers (read_all l g)) -> named (g_headers g).
Proof. intros Hl. revert g. induction Hl as [|e l He _ IH]; intros g; [done|]. intros H%IH. by eapply see_named. Qed.

Lemma callbacks_told `{AsyncDisconnect} c l rest final n w x g :
  unfinished l -> w_clients w !! c = Some x -> w_alloc w = [] -> shows x g -> named (g_headers (read_all l g)) ->
  exists w' y, run_callbacks c (l ++ rest) final n w = run_callbacks c rest final n w' /\ at_client c y w w' /\
    shows y (read_all l g) /\ standing y = standing x.
Proof.
  intros Hl. revert w x g. induction Hl as [|e l He Hl IH]; intros w x g Hx Ha Hs Hn.
  - exists w, x. split; [done|]. split; [by apply at_client_refl|done].
  - cbn [app run_callbacks]. rewrite (run_upd_client w _ _ _ _ Hx). set (w1 := set_w_clients _ w).
    destruct (callback_told c w1 (set_hc_parser (pe_parser e) x) (lookup_insert_eq _ _ _) Ha (pe_callback e) g)
      as (w2 & y & E & Hy & Sy & Ty); [done|by destruct Hs|by eapply read_named|].
    rewrite (bind_eq _ _ _ _ _ E).
    destruct (IH w2 y (see_message (pe_callback e) g)) as (w3 & z & E3 & Hz & Sz & Tz);
      [by eapply at_client_lookup|by rewrite (at_client_alloc _ _ _ _ Hy)|done|done|].
    exists w3, z. split; [exact E3|]. split; [|split; [done|by rewrite Tz, Ty]].
    eapply at_client_trans; [apply at_client_put|]. by eapply at_client_trans.
Qed.

(** The messages that a call completes. *)
Lemma seen_unfinished l g d : unfinished l -> seen l (mk_view g d) = mk_view (read_all l g) d.
Proof.
  intros Hl. revert g. induction Hl as [|e l He _ IH]; intros g; [done|]. cbn [seen fold_left read_all].
  change (seen l (see (pe_callback e) (pe_parser e) (mk_view g d)) = mk_view (read_all l (see_message (pe_callback e) g)) d).
  rewrite <-IH. f_equal. unfold see. by destruct (pe_callback e).
Qed.

Lemma complete_dec e : pe_callback e = OnMessageComplete \/ pe_callback e <> OnMessageComplete.
Proof. destruct (pe_callback e); by (left; done) || (right; done). Qed.

Lemma first_complete l :
  unfinished l \/ exists l1 e l2, l = l1 ++ e :: l2 /\ unfinished l1 /\ pe_callback e = OnMessageComplete.
Proof.
  induction l as [|e l IH]; [left; constructor|]. destruct (complete_dec e) as [E|E]; [right; exists [], e, l; repeat split; [constructor|done]|].
  destruct IH as [H|(l1 & e' & l2 & -> & H1 & H2)]; [left; by constructor|].
  right. exists (e :: l1), e', l2. split; [done|]. split; [by constructor|done].
Qed.

Lemma seen_done l v : exists d, v_done (seen l v) = v_done v ++ d /\ (d = [] -> unfinished l).
Proof.
  revert v. induction l as [|e l IH]; intros v; [exists []; rewrite app_nil_r; by repeat constructor|].
  destruct (IH (see (pe_callback e) (pe_parser e) v)) as (d & Ed & Hd).
  change (seen (e :: l) v) with (seen l (see (pe_callback e) (pe_parser e) v)). rewrite Ed. destruct (complete_dec e) as [E|E].
  - unfold see. rewrite E. cbn [v_done]. rewrite <-app_assoc. eexists. split; [reflexivity|]. by intros [? ?]%app_eq_nil.
  - exists d. split; [unfold see; cbn [v_done]; by destruct (pe_callback e)|]. intros ?. constructor; [done|by apply Hd].
Qed.

(** The callbacks that amount to one message. *)
Lemma one_message l1 e l2 g v G vis :
  seen (l1 ++ e :: l2) (mk_view g []) = mk_view v [(G, vis)] -> unfinished l1 -> pe_callback e = OnMessageComplete ->
  unfinished l2 /\ read_all l1 g = G /\ visible (pe_parser e) = vis /\ read_all l2 no_message = v.
Proof.
  intros E H1 He. rewrite seen_app, seen_unfinished in E by done.
  change (seen (e :: l2) (mk_view (read_all l1 g) [])) with (seen l2 (see (pe_callback e) (pe_parser e) (mk_view (read_all l1 g) []))) in E.
  unfold see in E. rewrite He in E. cbn [see_message v_current v_done app] in E.
  destruct (seen_done l2 (mk_view no_message [(read_all l1 g, visible (pe_parser e))])) as (d & Ed & Hd).
  rewrite E in Ed. cbn [v_done app] in Ed. injection Ed as -> -> <-. specialize (Hd eq_refl).
  rewrite seen_unfinished in E by done. injection E as ->. done.
Qed.

Lemma one_named l g v G vis :
  seen l (mk_view g []) = mk_view v [(G, vis)] -> named (g_headers G) -> named (g_headers g).
Proof.
  intros E. destruct (first_complete l) as [Hl|(l1 & e & l2 & -> & H1 & He)]; [by rewrite seen_unfinished in E by done|].
  destruct (one_message _ _ _ _ _ _ _ E H1 He) as (_ & <- & _). by apply read_named.
Qed.

(** ** The pieces of an input *)

Lemma feed_cons p d ds l q :
  good_parser p -> d <> [] -> feed p (d :: ds) = inr (l, q, Z.of_nat (length (concat (d :: ds)))) ->
  exists la p1 lb, execute p d = inr (la, p1, Z.of_nat (length d)) /\ good_parser p1 /\
    feed p1 ds = inr (lb, q, Z.of_nat (length (concat ds))) /\ l = la ++ lb.
Proof.
  intros Hp Hd E. pose proof (execute_bytewise p d Hp Hd) as Hb.
  pose proof (equiv_trans _ _ _ _ Hb (equiv_sym _ _ _ Hb)) as He. cbn [feed concat] in E. rewrite length_app, Nat2Z.inj_add in E.
  destruct (execute p d) as [f|[[la p1] n]]; [done|]. destruct He as (_ & Hn & _ & _ & He). cbn [bindr] in E.
  destruct (Z.eqb_spec n (Z.of_nat (length d))) as [Hn'|Hne]; [|injection E; intros; lia].
  destruct He as (_ & Hg & _); [lia|]. destruct (feed p1 ds) as [f|[[lb q1] m]] eqn:Ef; [done|]. cbn [joinr] in E. injection E as <- -> Em.
  exists la, p1, lb. split; [by rewrite Hn'|]. split; [done|]. split; [|done]. rewrite Ef. f_equal. f_equal. lia.
Qed.

(** A client that takes part in no protocol but this one, and has been answered well. *)
Definition live (x : http_client) : Prop :=
  hc_broken x = false /\ hc_fully_read x = false /\ hc_is_websocket x = false /\ hc_failed_alloc x = false.

(** Several reads, one after another. *)
Section Reads.
Context `{Msgpack.Packer} `{Resp.Strtod}.
#[local] Existing Instance execute.

Fixpoint arrive (c : loc) (pieces : list bytes) (w : world) : result unit :=
  match pieces with
  | [] => Ok () w
  | d :: pieces =>
      match dispatch (ClientReadable c d) w with
      | Ok _ w => arrive c pieces w
      | Fault f => Fault f
      end
  end.

Definition with_data (d : bytes) (x : http_client) : http_client :=
  set_hc_request_sz (hc_request_sz x + Z.of_nat (length d)) (set_hc_buffer (hc_buffer x ++ d) x).

Lemma can_read_runs c d w x l q w2 y :
  w_clients w !! c = Some x -> w_alloc w = [] -> live x -> hc_buffer x = [] -> d <> [] ->
  execute (hc_parser x) d = inr (l, q, Z.of_nat (length d)) ->
  run_callbacks c l q (Z.of_nat (length d)) (set_w_clients (<[c := with_data d x]> (w_clients w)) w) =
    Ok (Z.of_nat (length d)) w2 ->
  w_clients w2 !! c = Some y -> live y -> hc_request_sz y <= cfg_http_max_request_size (w_cfg w2) ->
  worker_can_read c d w =
    Ok () (set_w_pending (w_pending w2 ++ [OnClientRead c])
             (set_w_clients (<[c := set_hc_buffer [] y]> (w_clients w2)) w2)).
Proof using.
  intros Hx Ha (L1 & L2 & L3 & L4) Hb Hd Ep Er Hy (Y1 & Y2 & Y3 & Y4) Hm. unfold worker_can_read.
  assert (http_client_read c d w = Ok (ReadBytes (Z.of_nat (length d))) (set_w_clients (<[c := with_data d x]> (w_clients w)) w)) as E.
  { destruct d; [done|]. unfold http_client_read. rewrite alloc_run by done. by M_run. }
  rewrite (bind_eq _ _ _ _ _ E). set (w1 := set_w_clients _ w) in *.
  assert (w_clients w1 !! c = Some (with_data d x)) as Hx1 by apply lookup_insert_eq.
  rewrite (run_get_client _ _ _ _ Hx1). change (hc_is_websocket (with_data d x)) with (hc_is_websocket x). rewrite L3.
  assert (http_client_execute c w1 = Ok (Z.of_nat (length d)) (set_w_clients (<[c := set_hc_buffer [] y]> (w_clients w2)) w2)) as Ee.
  { unfold http_client_execute. rewrite (run_get_client _ _ _ _ Hx1). unfold http_parser_execute.
    change (hc_parser (with_data d x)) with (hc_parser x). change (hc_buffer (with_data d x)) with (hc_buffer x ++ d).
    rewrite Hb, app_nil_l, Ep, (bind_eq _ _ _ _ _ Er), (run_upd_client _ _ _ _ _ Hy). by rewrite Y3. }
  set (w3 := set_w_clients _ w2) in *. assert (w_clients w3 !! c = Some (set_hc_buffer [] y)) as Hx3 by apply lookup_insert_eq.
  assert (worker_check c (Z.of_nat (length d)) (Z.of_nat (length d)) w3 = Ok () w3) as Ec.
  { unfold worker_check. rewrite (run_get_client _ _ _ _ Hx3), (bind_eq (gets w_cfg) _ w3 (w_cfg w3) w3) by reflexivity.
    cbn [hc_failed_alloc hc_fully_read hc_is_websocket set_hc_buffer hc_request_sz]. rewrite Y4, Y2, Y3, andb_false_r, Z.eqb_refl. cbn [negb].
    by rewrite (proj2 (Z.ltb_ge _ _)) by done. }
  rewrite M_bind_assoc, (bind_eq _ _ _ _ _ Ee), (bind_eq _ _ _ _ _ Ec), (run_get_client _ _ _ _ Hx3).
  cbn [hc_broken hc_is_websocket set_hc_buffer]. rewrite Y1, Y3. cbn [negb when]. unfold worker_monitor_input.
  by rewrite (run_get_client _ _ _ _ Hx3).
Qed.

(** *** Reads that complete no message *)

(** Only the client, the trace and the registrations of clients change, and the client
    waits for more. *)
Record reads (c : loc) (y : http_client) (w w' : world) : Prop := {
  rd_world : exists tr l, w' = set_w_pending l (set_w_clients (<[c := y]> (w_clients w)) (set_w_trace tr w));
  rd_codes : response_codes (w_trace w') = response_codes (w_trace w);
  rd_waits : OnClientRead c ∈ w_pending w';
  rd_timers : reconnects w' = reconnects w }.

Lemma reads_trans c y z w1 w2 w3 : reads c y w1 w2 -> reads c z w2 w3 -> reads c z w1 w3.
Proof using.
  intros [(t1 & l1 & ->) C1 P1 T1] [(t2 & l2 & ->) C2 P2 T2]. split; [|by rewrite C2|done|by rewrite T2].
  exists t2, l2. cbn. by rewrite insert_insert_eq.
Qed.

Lemma reads_refl c x w : w_clients w !! c = Some x -> OnClientRead c ∈ w_pending w -> reads c x w w.
Proof using.
  intros Hx Hp. split; [|done..]. exists (w_trace w), (w_pending w). rewrite insert_id by done. by destruct w.
Qed.

Lemma reads_lookup c y w w' : reads c y w w' -> w_clients w' !! c = Some y.
Proof using. intros [(t & l & ->) _ _ _]. apply lookup_insert_eq. Qed.

(** What a read leaves alone. *)
Lemma reads_same c y w w' :
  reads c y w w' -> w_acs w' = w_acs w /\ w_cmds w' = w_cmds w /\ w_cfg w' = w_cfg w /\ w_pool w' = w_pool w /\
  w_next w' = w_next w /\ w_connect w' = w_connect w /\ w_alloc w' = w_alloc w.
Proof using. by intros [(t & l & ->) _ _ _]. Qed.

Lemma remove_waiting c l :
  OnClientRead c ∈ l -> exists l', remove_pending (OnClientRead c) l = Some l' /\
    filter (fun p => p = OnReconnect) l' = filter (fun p => p = OnReconnect) l.
Proof using.
  induction l as [|p l IH]; [by intros ?%elem_of_nil|]. intros Hin. cbn [remove_pending]. destruct (decide (p = OnClientRead c)) as [->|Hp].
  - exists l. split; [done|]. by rewrite filter_cons_False by done.
  - destruct IH as (l' & -> & E); [by apply elem_of_cons in Hin as [?|?]; [subst|]|]. exists (p :: l'). split; [done|].
    rewrite !filter_cons. by case_decide; rewrite E.
Qed.

(** The event fires, and the handler runs. *)
Lemma dispatch_read c d w :
  OnClientRead c ∈ w_pending w ->
  exists l, dispatch (ClientReadable c d) w = worker_can_read c d (set_w_pending l w) /\
    filter (fun p => p = OnReconnect) l = filter (fun p => p = OnReconnect) (w_pending w).
Proof using. intros (l & E & Hl)%remove_waiting. exists l. split; [|done]. unfold dispatch. cbn [fires]. by rewrite E. Qed.

(** What a client keeps from one read to the next. *)
Record next_read (d : bytes) (q : http_parser) (g : message) (x y : http_client) : Prop := {
  nr_live : live y;
  nr_fd : hc_fd y = hc_fd x;
  nr_addr : hc_addr y = hc_addr x;
  nr_buffer : hc_buffer y = [];
  nr_size : hc_request_sz y = hc_request_sz x + Z.of_nat (length d);
  nr_parser : hc_parser y = q;
  nr_shows : shows y g }.

Lemma read_unfinished c d w x g l q :
  w_clients w !! c = Some x -> w_alloc w = [] -> live x -> hc_buffer x = [] -> d <> [] -> shows x g ->
  OnClientRead c ∈ w_pending w ->
  hc_request_sz x + Z.of_nat (length d) <= cfg_http_max_request_size (w_cfg w) ->
  execute (hc_parser x) d = inr (l, q, Z.of_nat (length d)) -> unfinished l -> named (g_headers (read_all l g)) ->
  exists w' y, dispatch (ClientReadable c d) w = Ok () w' /\ reads c y w w' /\ next_read d q (read_all l g) x y.
Proof using.
  intros Hx Ha (L1 & L2 & L3 & L4) Hb Hd Hs Hp Hm Ep Hl Hn. destruct (dispatch_read c d w Hp) as (pl & -> & Ht).
  set (w0 := set_w_pending pl w). set (w1 := set_w_clients (<[c := with_data d x]> (w_clients w0)) w0).
  destruct (callbacks_told c l [] q (Z.of_nat (length d)) w1 (with_data d x) g) as (w2 & y & E & Hy & Sy & Ty);
    [done|apply lookup_insert_eq|done|by destruct Hs|done|].
  rewrite app_nil_r in E. cbn [run_callbacks] in E. rewrite (run_upd_client _ _ _ _ _ (at_client_lookup _ _ _ _ Hy)) in E.
  unfold standing in Ty. cbn [with_data hc_fd hc_addr hc_buffer hc_request_sz hc_broken hc_fully_read hc_is_websocket hc_failed_alloc
    hc_reused_cmd hc_last_cmd hc_ws set_hc_request_sz set_hc_buffer] in Ty. injection Ty as T1 T2 T3 T4 T5 T6 T7 T8 _ _ _.
  erewrite (can_read_runs c d w0 x l q _ (set_hc_parser q y)); [|done|done|done|done|done|done|exact E|apply lookup_insert_eq| |].
  - eexists _, _. split; [reflexivity|]. destruct Hy as (tr & -> & Hc). split.
    + split.
      * exists tr. eexists. cbn. rewrite !insert_insert_eq. reflexivity.
      * exact Hc.
      * cbn. apply elem_of_app. right. by left.
      * unfold reconnects. cbn. rewrite filter_app, length_app. cbn. by rewrite Nat.add_0_r, Ht.
    + split; try done; try (cbn; congruence); [|by destruct Sy]. unfold live. cbn. by rewrite T5, T6, T7, T8.
  - unfold live. cbn. by rewrite T5, T6, T7, T8.
  - cbn. by rewrite (at_client_cfg _ _ _ _ Hy), T4.
Qed.

Lemma arrive_unfinished c ds w x g l q :
  w_clients w !! c = Some x -> w_alloc w = [] -> live x -> hc_buffer x = [] -> Forall (fun d => d <> []) ds -> shows x g ->
  OnClientRead c ∈ w_pending w -> good_parser (hc_parser x) ->
  hc_request_sz x + Z.of_nat (length (concat ds)) <= cfg_http_max_request_size (w_cfg w) ->
  feed (hc_parser x) ds = inr (l, q, Z.of_nat (length (concat ds))) -> unfinished l -> named (g_headers (read_all l g)) ->
  exists w' y, arrive c ds w = Ok () w' /\ reads c y w w' /\ next_read (concat ds) q (read_all l g) x y.
Proof using.
  intros Hx Ha HL Hb Hd. revert w x g l Hx Ha HL Hb. induction Hd as [|d ds Hd Hds IH]; intros w x g l Hx Ha HL Hb Hs Hp Hg Hm Ef Hl Hn.
  - cbn in Ef. injection Ef as <- <-. exists w, x. split; [done|]. split; [by apply reads_refl|]. split; try done. cbn [concat length]. lia.
  - destruct (feed_cons _ _ _ _ _ Hg Hd Ef) as (la & p1 & lb & Ee & Hg1 & Ef1 & ->). apply Forall_app in Hl as [Hla Hlb].
    unfold read_all in Hn |- *. rewrite fold_left_app in Hn |- *. fold (read_all la g) in Hn |- *. fold (read_all lb (read_all la g)) in Hn |- *.
    cbn [concat] in Hm. rewrite length_app in Hm.
    destruct (read_unfinished c d w x g la p1) as (w1 & y & E1 & R1 & N1); [done..|lia|done|done|by eapply read_named|].
    destruct (reads_same _ _ _ _ R1) as (_ & _ & Ec & _ & _ & _ & Ea).
    destruct (IH w1 y (read_all la g) lb) as (w2 & z & E2 & R2 & N2);
      [by eapply reads_lookup|by rewrite Ea|by destruct N1..|by apply (rd_waits _ _ _ _ R1)|by rewrite (nr_parser _ _ _ _ _ N1)| |
       by rewrite (nr_parser _ _ _ _ _ N1)|done|done|].
    { rewrite Ec, (nr_size _ _ _ _ _ N1). lia. }
    exists w2, z. cbn [arrive]. rewrite E1. split; [done|]. split; [by eapply reads_trans|].
    destruct N1, N2. split; try done; try congruence. cbn [concat]. rewrite length_app. lia.
Qed.

(** *** The read that completes the message *)

(** The path that is served for a URL. *)
Definition served_path (cfg : conf) (url : bytes) : bytes :=
  match cfg_default_root cfg with
  | Some root => if bytes_eqb url (lit "/") then root else url
  | None => url
  end.

Lemma completed_path cfg x url :
  hc_path x = Some url -> hc_path (completed cfg x) = Some (served_path cfg url).
Proof using.
  intros Hp. unfold completed, served_path. cbv zeta. set (y := set_hc_http_version _ _).
  assert (hc_path y = Some url) as Hy by (unfold y; repeat case_match; done). rewrite Hy.
  destruct (cfg_default_root cfg) as [r|]; [|done]. by destruct (bytes_eqb url (lit "/")).
Qed.

Lemma core_reset_path p x : hc_core (reset_client (set_hc_path p x)) = hc_core (reset_client x).
Proof using. destruct x as [? ? ? ? ? ? []]; vm_compute; reflexivity. Qed.

(** An HTTP/1.1 request without a [Connection: close]. *)
Lemma completed_keeps cfg x m :
  visible (hc_parser x) = (0, 1, 1, m, false) ->
  hc_core (reset_client (completed cfg x)) =
  hc_core (reset_client (set_hc_http_version 1 (set_hc_keep_alive true x))).
Proof using.
  intros [= E1 E2 E3 E4 E5]. unfold completed. cbv zeta. rewrite E1, E2, E3. change (negb (Z.land 0 F_CONNECTION_CLOSE =? 0)) with false.
  change ((1 =? 1) && (1 =? 1)) with true. cbv iota. set (y := set_hc_http_version 1 _).
  destruct (hc_path y), (cfg_default_root cfg); try reflexivity. destruct (bytes_eqb _ _); [apply core_reset_path|reflexivity].
Qed.

(** An empty body may or may not have been announced by a callback. *)
Lemma request_text_body m path ob b pre u body :
  default [] ob = b -> (m = HTTP_POST -> b <> []) -> request_text m path (Some b) = Some (pre, u, body) ->
  exists body', request_text m path ob = Some (pre, u, body') /\ put_body_of body' = put_body_of body.
Proof using.
  destruct path as [|a path]; [done|]. cbn [request_text]. intros Hb Hp. destruct ob as [b'|]; cbn in Hb; subst b; [eauto|].
  destruct (m =? HTTP_GET); [intros [= <- <- <-]; eauto|]. destruct (m =? HTTP_PUT); [intros [= <- <- <-]; eauto|].
  destruct (Z.eqb_spec m HTTP_POST) as [->|]; [by destruct Hp|done].
Qed.

Lemma sent_on_body u body body' f w w' ac :
  put_body_of body' = put_body_of body -> sent_on u body' f w w' ac -> sent_on u body f w w' ac.
Proof using. intros E. unfold sent_on, run_argv, run_count, run_slots. by rewrite E. Qed.

Lemma name_allowed_ext cfg x y name :
  hc_headers y = hc_headers x -> hc_addr y = hc_addr x -> name_allowed cfg y name = name_allowed cfg x name.
Proof using.
  intros Hh Ea. unfold name_allowed, acl_allow_command. cbn [cmd_count cmd_argv]. by rewrite (WsExec.acl_loop_ext _ x y), Ea.
Qed.

Lemma ready_same w w' :
  w_acs w' = w_acs w -> w_pool w' = w_pool w -> w_next w' = w_next w -> w_cfg w' = w_cfg w -> w_connect w' = w_connect w ->
  reconnects w' = reconnects w -> Cmd.ready w -> Cmd.ready w'.
Proof using.
  intros E1 E2 E3 E4 E5 E6 [R1 R2 R3 R4]. split; [|by rewrite E2|by rewrite E4|by rewrite E5].
  apply pool_inv_of in R1. apply pool_inv_of. unfold views. by rewrite E1, E2, E3, E6.
Qed.

(** What comes of a request whose command is [u], sent with headers [hs]: as in
    [http_request_outcome]. *)
Definition outcome (hs : list req_header) (query u : bytes) (body : option bytes) (x : http_client) (w w' : world) : Prop :=
  let allowed := name_allowed (w_cfg w) (set_hc_headers hs x) (rq_name (run_request u)) in
  exists res, response_codes (w_trace w') = response_codes (w_trace w) ++ map (pair (hc_fd x)) (answer res) /\
    match res with
    | CMD_PARAM_ERROR => run_slots u body = O /\ w_acs w' = w_acs w /\ w_cmds w' = w_cmds w
    | CMD_ACL_FAIL => (allowed = false \/ run_count u body = 0) /\ w_acs w' = w_acs w /\ w_cmds w' = w_cmds w
    | CMD_REDIS_UNAVAIL => allowed = true /\ w_cmds w' = w_cmds w
    | CMD_SENT => allowed = true /\ exists w0 w1 ac t,
        w_acs w0 = w_acs w /\ w_cfg w0 = w_cfg w /\ w_pool w0 = w_pool w /\ w_cmds w0 = w_cmds w /\
        w_next w0 = w_next w /\ (query = [] -> t = None) /\ sent_on u body (text_format t (before_query u)) w0 w1 ac /\
        w_acs w' = w_acs w1 /\ w_cmds w' = w_cmds w1
    end.

Lemma outcome_before hs query u body x y w w1 w' :
  hc_fd y = hc_fd x -> hc_addr y = hc_addr x -> w_acs w1 = w_acs w -> w_cmds w1 = w_cmds w -> w_cfg w1 = w_cfg w ->
  w_pool w1 = w_pool w -> w_next w1 = w_next w -> response_codes (w_trace w1) = response_codes (w_trace w) ->
  outcome hs query u body y w1 w' -> outcome hs query u body x w w'.
Proof using.
  intros Ef Ed E1 E2 E3 E4 E5 E6 (res & Hr & Hres). exists res. rewrite <-E6, <-Ef. split; [done|].
  rewrite E3, (name_allowed_ext (w_cfg w) (set_hc_headers hs x) (set_hc_headers hs y)), E1, E2 in Hres by done.
  destruct res; try done. destruct Hres as (Hn & w0 & w2 & ac & t & F1 & F2 & F3 & F4 & F5 & F). split; [done|].
  exists w0, w2, ac, t. rewrite F1, F2, F3, F4, F5. done.
Qed.

Lemma outcome_after hs query u body x w w1 w' :
  w_acs w' = w_acs w1 -> w_cmds w' = w_cmds w1 -> response_codes (w_trace w') = response_codes (w_trace w1) ->
  outcome hs query u body x w w1 -> outcome hs query u body x w w'.
Proof using. intros E1 E2 E3 (res & Hr & Hres). exists res. rewrite E1, E2, E3. done. Qed.

(** A request that the server runs: its parts as the theorem gives them. *)
Record served (w : world) (m : Z) (G : message) (pre u : bytes) (body : option bytes) : Prop := {
  sv_url : g_url G <> [];
  sv_headers : Forall (fun h => is_Some (rh_val h)) (headers_of (g_headers G));
  sv_text : request_text m (served_path (w_cfg w) (g_url G)) (Some (g_body G)) = Some (pre, u, body);
  sv_post : m = HTTP_POST -> g_body G <> [];
  sv_slash : before_query u = [] -> last pre = Some x2f;
  sv_get : m = HTTP_GET -> served_path (w_cfg w) (g_url G) <> lit "/crossdomain.xml" }.

(** What the worker must be able to do. *)
Record able (w : world) (x : http_client) : Prop := {
  ab_alloc : w_alloc w = [];
  ab_fd : 0 <= hc_fd x;
  ab_fresh : w_cmds w !! w_next w = None;
  ab_ready : Cmd.ready w }.

(** A client that is ready for the next message. *)
Record rested (q : http_parser) (x : http_client) : Prop := {
  rs_live : live x;
  rs_buffer : hc_buffer x = [];
  rs_parser : hc_parser x = q;
  rs_shows : shows x no_message }.

Lemma reset_fields x y :
  hc_core y = hc_core (reset_client (set_hc_http_version 1 (set_hc_keep_alive true x))) ->
  hc_fd y = hc_fd x /\ hc_addr y = hc_addr x /\ hc_request_sz y = 0 /\ hc_last_cb y = LAST_CB_NONE /\
  hc_broken y = hc_broken x /\ hc_fully_read y = hc_fully_read x /\ hc_is_websocket y = hc_is_websocket x /\
  hc_failed_alloc y = hc_failed_alloc x.
Proof using. destruct x, y. vm_compute. intros E. injection E as -> -> -> -> -> -> -> -> -> -> -> -> -> -> -> ->. repeat split. Qed.

Lemma complete_told c w x e G pre u body m :
  w_clients w !! c = Some x -> able w x -> live x -> shows x G -> pe_callback e = OnMessageComplete ->
  visible (pe_parser e) = (0, 1, 1, m, false) -> served w m G pre u body ->
  exists w' y,
    (forall l q n, run_callbacks c (e :: l) q n w = run_callbacks c l q n w') /\ w_clients w' !! c = Some y /\
    live y /\ hc_fd y = hc_fd x /\ hc_addr y = hc_addr x /\ hc_request_sz y = 0 /\ shows y no_message /\
    w_cfg w' = w_cfg w /\ w_alloc w' = [] /\ outcome (headers_of (g_headers G)) (g_query G) u body x w w'.
Proof using.
  intros Hx [Ha Hfd Hf Hr] (L1 & L2 & L3 & L4) [S1 S2 S3 S4 S5] Ee Ev [V1 V2 V3 V4 V5 V6].
  set (x1 := set_hc_parser (pe_parser e) x). set (w1 := set_w_clients (<[c := x1]> (w_clients w)) w).
  assert (Em : hp_method (pe_parser e) = m /\ hp_upgrade (pe_parser e) = false) by (by injection Ev as ? ? ? ? ?).
  destruct Em as [Em Eu].
  destruct (request_text_body m (served_path (w_cfg w) (g_url G)) (hc_body x) (g_body G) pre u body) as (body' & Et & Eb); [done..|].
  assert (hc_path x = Some (g_url G)) as Hp by (destruct (hc_path x); cbn in S1; congruence).
  destruct (request_outcome c w1 x1 (served_path (w_cfg w) (g_url G)) pre u body') as (res & w2 & y & E & Hy & Hc & (C1 & C2 & C3 & C4 & _) & Hcf & Hal & Hcodes & Hres);
    [apply lookup_insert_eq|unfold headers_complete; cbn; by rewrite S3|done|done| |by cbn; rewrite Eu|by apply completed_path|by cbn; rewrite Em|done|by cbn; rewrite Em|].
  { by apply (ready_same w). }
  rewrite (completed_keeps _ x1 m Ev) in Hc.
  exists w2, y. split.
  { intros l q n. cbn [run_callbacks]. rewrite (run_upd_client _ _ _ _ _ Hx), Ee. cbn [run_callback]. by rewrite (bind_eq _ _ _ _ _ E). }
  split; [done|]. destruct (reset_fields _ _ Hc) as (D1 & D2 & D3 & D4 & D5 & D6 & D7 & D8).
  split; [unfold live; rewrite D5, D6, D7, D8; by split_and!|]. split; [done|]. split; [done|]. split; [done|].
  split; [by split; rewrite ?C1, ?C2, ?C3, ?C4, ?D4|]. split; [done|]. split; [by apply Hal|].
  exists res. split; [exact Hcodes|].
  rewrite (name_allowed_ext _ (set_hc_headers (headers_of (g_headers G)) x) x1) in Hres by (cbn; done).
  destruct res.
  - destruct Hres as (Hn & w0 & w3 & ac & F1 & F2 & F3 & F4 & F5 & F6 & F7 & F8). split; [done|].
    exists w0, w3, ac, (hc_type x1). do 5 (split; [done|]). split; [done|]. split; [by eapply sent_on_body|done].
  - unfold run_count, run_slots in *. by rewrite ?Eb in Hres.
  - unfold run_count, run_slots in *. by rewrite ?Eb in Hres.
  - unfold run_count, run_slots in *. by rewrite ?Eb in Hres.
Qed.

Lemma read_complete c d w x g l1 e l2 q pre u body m :
  w_clients w !! c = Some x -> able w x -> live x -> hc_buffer x = [] -> d <> [] -> shows x g ->
  OnClientRead c ∈ w_pending w -> 0 <= cfg_http_max_request_size (w_cfg w) ->
  execute (hc_parser x) d = inr (l1 ++ e :: l2, q, Z.of_nat (length d)) ->
  unfinished l1 -> pe_callback e = OnMessageComplete -> unfinished l2 -> named (g_headers (read_all l1 g)) ->
  named (g_headers (read_all l2 no_message)) ->
  visible (pe_parser e) = (0, 1, 1, m, false) -> served w m (read_all l1 g) pre u body ->
  exists w' y, dispatch (ClientReadable c d) w = Ok () w' /\ w_clients w' !! c = Some y /\
    live y /\ hc_buffer y = [] /\ hc_parser y = q /\ shows y (read_all l2 no_message) /\ hc_request_sz y = 0 /\
    OnClientRead c ∈ w_pending w' /\ w_cfg w' = w_cfg w /\ w_alloc w' = [] /\
    outcome (headers_of (g_headers (read_all l1 g))) (g_query (read_all l1 g)) u body x w w'.
Proof using.
  intros Hx Hab HL Hb Hd Hs Hp Hm Ep Hl1 He Hl2 Hn1 Hn2 Ev Hsv. destruct (dispatch_read c d w Hp) as (pl & -> & Ht).
  set (w0 := set_w_pending pl w). set (w1 := set_w_clients (<[c := with_data d x]> (w_clients w0)) w0).
  destruct Hab as [Ha Hfd Hf Hr].
  destruct (callbacks_told c l1 (e :: l2) q (Z.of_nat (length d)) w1 (with_data d x) g) as (w2 & y & E & Hy & Sy & Ty);
    [done|apply lookup_insert_eq|done|by destruct Hs|done|].
  unfold standing in Ty. injection Ty as T1 T2 _ _ T5 T6 T7 T8 _ _ _.
  change (hc_fd y = hc_fd x) in T1. change (hc_addr y = hc_addr x) in T2.
  assert (live y) as HLy by (destruct HL as (K1 & K2 & K3 & K4); unfold live; rewrite T5, T6, T7, T8; by split_and!).
  destruct (complete_told c w2 y e (read_all l1 g) pre u body m) as (w3 & z & E3 & Hz & HLz & F1 & F2 & F3 & Sz & F4 & F5 & Ho);
    [by eapply at_client_lookup| |done|done|done|done| |].
  { destruct Hy as (tr & -> & _). split; [done|by rewrite T1|done|]. apply (ready_same w); try done.
    unfold reconnects. cbn. by rewrite Ht. }
  { destruct Hsv. split; try done; by rewrite (at_client_cfg _ _ _ _ Hy). }
  destruct (callbacks_told c l2 [] q (Z.of_nat (length d)) w3 z no_message) as (w4 & v & E4 & Hv & Sv & Tv); [done..|].
  unfold standing in Tv. injection Tv as U1 U2 _ U4 U5 U6 U7 U8 _ _ _.
  assert (live v) as HLv by (destruct HLz as (K1 & K2 & K3 & K4); unfold live; rewrite U5, U6, U7, U8; by split_and!).
  rewrite app_nil_r in E4. cbn [run_callbacks] in E4. rewrite (run_upd_client _ _ _ _ _ (at_client_lookup _ _ _ _ Hv)) in E4.
  rewrite E3, E4 in E. pose proof (at_client_cfg _ _ _ _ Hv) as Ec4. pose proof (at_client_cfg _ _ _ _ Hy) as Ec2.
  erewrite (can_read_runs c d w0 x _ q _ (set_hc_parser q v)); [|done|done|done|done|done|done|exact E|apply lookup_insert_eq|done|].
  - eexists _, _. split; [reflexivity|]. split; [apply lookup_insert_eq|]. split; [done|]. split; [done|]. split; [done|].
    split; [by destruct Sv|]. split; [by etrans|]. split; [apply elem_of_app; right; by left|].
    split; [cbn; by rewrite Ec4, F4, Ec2|]. split; [cbn; by rewrite (at_client_alloc _ _ _ _ Hv)|].
    apply (outcome_after _ _ _ _ _ _ w3); [by destruct Hv as (? & -> & _)..|by destruct Hv as (? & -> & Hc)|].
    destruct Hy as (tr & -> & Hc). by eapply outcome_before, Ho.
  - cbn. rewrite Ec4, F4, Ec2. etrans; [|exact Hm]. by rewrite U4, F3.
Qed.

Lemma arrive_complete c ds w x g l q pre u body m G :
  w_clients w !! c = Some x -> able w x -> live x -> hc_buffer x = [] -> Forall (fun d => d <> []) ds -> shows x g ->
  OnClientRead c ∈ w_pending w -> good_parser (hc_parser x) ->
  0 <= hc_request_sz x -> hc_request_sz x + Z.of_nat (length (concat ds)) <= cfg_http_max_request_size (w_cfg w) ->
  feed (hc_parser x) ds = inr (l, q, Z.of_nat (length (concat ds))) ->
  seen l (mk_view g []) = mk_view no_message [(G, (0, 1, 1, m, false))] -> named (g_headers G) -> served w m G pre u body ->
  exists w' y, arrive c ds w = Ok () w' /\ w_clients w' !! c = Some y /\ rested q y /\ OnClientRead c ∈ w_pending w' /\
    outcome (headers_of (g_headers G)) (g_query G) u body x w w'.
Proof using.
  intros Hx Hab HL Hb Hd. revert w x g l Hx Hab HL Hb.
  induction Hd as [|d ds Hd Hds IH]; intros w x g l Hx Hab HL Hb Hs Hp Hg Hz Hm Ef El Hn Hsv; [by injection Ef as <- _|].
  destruct (feed_cons _ _ _ _ _ Hg Hd Ef) as (la & p1 & lb & Ee & Hg1 & Ef1 & ->).
  cbn [concat] in Hm. rewrite length_app in Hm. cbn [arrive]. destruct (first_complete la) as [Hla|Hc].
  - rewrite seen_app, seen_unfinished in El by done. assert (Hab' := Hab). destruct Hab' as [A1 A2 A3 A4].
    destruct (read_unfinished c d w x g la p1) as (w1 & y & E1 & R1 & N1); [done..|lia|done|done|by eapply one_named|].
    destruct (reads_same _ _ _ _ R1) as (X1 & X2 & X3 & X4 & X5 & X6 & X7). destruct N1 as [N1 N2 N3 N4 N5 N6 N7].
    destruct (IH w1 y (read_all la g) lb) as (w2 & z & E2 & Hz2 & R2 & P2 & O2);
      [by eapply reads_lookup| |done|done|done|by apply (rd_waits _ _ _ _ R1)|by rewrite N6|lia| |by rewrite N6|done|done| |].
    + split; [by rewrite X7|by rewrite N2|by rewrite X2, X5|]. apply (ready_same w); try done. by apply (rd_timers _ _ _ _ R1).
    + rewrite X3, N5. lia.
    + destruct Hsv. split; try done; by rewrite X3.
    + exists w2, z. rewrite E1. do 4 (split; [done|]). eapply (outcome_before _ _ _ _ x y w w1); try done. by apply (rd_codes _ _ _ _ R1).
  - destruct Hc as (l1 & e & l2 & -> & H1 & He). rewrite <-app_assoc in El. cbn [app] in El.
    destruct (one_message _ _ _ _ _ _ _ El H1 He) as (H2 & <- & Ev & Er). apply Forall_app in H2 as [H2 H3].
    unfold read_all in Er. rewrite fold_left_app in Er. fold (read_all l2 no_message) in Er. fold (read_all lb (read_all l2 no_message)) in Er.
    assert (named (g_headers (read_all lb (read_all l2 no_message)))) as Hnb by (by rewrite Er).
    destruct (read_complete c d w x g l1 e l2 p1 pre u body m) as (w1 & y & E1 & Hy & L1 & B1 & P1 & S1 & Z1 & W1 & C1 & A1 & O1);
      [done..|lia|done|done|done|done|done|by eapply read_named|done|done|].
    destruct (arrive_unfinished c ds w1 y (read_all l2 no_message) lb q) as (w2 & z & E2 & R2 & N2);
      [done..|by rewrite P1|rewrite C1, Z1; lia|by rewrite P1|done|done|].
    exists w2, z. rewrite E1. split; [done|]. split; [by eapply reads_lookup|].
    split; [destruct N2; split; try done; by rewrite <-Er|]. split; [apply (rd_waits _ _ _ _ R2)|].
    destruct (reads_same _ _ _ _ R2) as (X1 & X2 & _). apply (outcome_after _ _ _ _ _ _ w1); [done|done|apply (rd_codes _ _ _ _ R2)|done].
Qed.

(** ** A request *)

(** The parser is between two messages. *)
Definition between (p : http_parser) : Prop := good_parser p /\ idle (enter p).

Lemma request_fed p q pieces :
  between p -> request_ok q -> Forall (fun d => d <> []) pieces -> concat pieces = request_bytes q ->
  exists l p', feed p pieces = inr (l, p', Z.of_nat (length (concat pieces))) /\ between p' /\
    seen l no_view = mk_view no_message [(message_of q, (0, 1, 1, q_method q, false))].
Proof using.
  intros [Hg Hi] Hq Hne Hc. destruct (requests_loop (enter p) [q] 0 Hi) as (l & y & E & Hy & S); [by apply Forall_singleton|].
  cbn [map concat] in E. rewrite app_nil_r, <-Hc in E. destruct (concat pieces) as [|b text] eqn:Et.
  - exfalso. unfold request_bytes, head_bytes in Hc. by destruct (method_name (q_method q)).
  - rewrite <-execute_cons in E. pose proof (feed_pieces p pieces Hg Hne) as E1. rewrite Et in E1.
    pose proof (execute_bytewise p (b :: text) Hg ltac:(done)) as E2.
    pose proof (equiv_trans _ _ _ _ E1 (equiv_sym _ _ _ E2)) as E3. rewrite E in E3.
    destruct (feed p pieces) as [f|[[l1 q1] n1]]; [done|]. destruct E3 as (Hn & _ & _ & _ & He).
    destruct He as (-> & Hg1 & Hs); [lia|]. exists l1, (stored y). split; [f_equal; f_equal; lia|]. split.
    + split; [done|]. destruct Hy as (p0 & m & cl & major & minor & h & i & ->).
      match goal with |- idle (enter ?p) => by exists p, m, cl, major, minor, h, (wrap_u 8 i) end.
    + rewrite Hs, ahead_none. apply (S []).
Qed.

Lemma pieces_of_snoc hs h : pieces_of (hs ++ [h]) = (false, h.2) :: (true, h.1) :: pieces_of hs.
Proof using. unfold pieces_of. rewrite map_app, concat_app, reverse_app. done. Qed.

Lemma headers_of_pieces hs :
  headers_of (pieces_of hs) = map (fun h => mk_req_header h.1 (Some h.2)) hs /\ named (pieces_of hs).
Proof using.
  induction hs as [|h hs [IH1 IH2]] using rev_ind; [done|]. rewrite pieces_of_snoc. split.
  - cbn [headers_of]. rewrite set_last_snoc, map_app, IH1. done.
  - destruct (pieces_of hs); [done|]. by apply named_cons, named_cons.
Qed.


End Reads.

(** A client that has just connected to a worker with one connection to Redis. *)
Definition new_client : http_client :=
  mk_client 5 0 (http_parser_init HTTP_REQUEST) [] 0 LAST_CB_NONE false false false false 0 false
    None [] None None None None None None None None.

Definition serving : world := set_w_pending (OnClientRead 4 :: w_pending a_world) (set_w_clients {[ 4%positive := new_client ]} a_world).

Definition sample_put : http_request :=
  mk_request HTTP_PUT (lit "/SET/a%20key") None [(lit "Host", lit "localhost")] (lit "hello, world").


End Serve.
