(* ===== verification/Server.v ===== *)
(** * The server: src/server.c and the pipes of src/worker.c

    The main thread accepts connections and deals them to the workers in turn: it writes
    the pointer of a new client into the pipe of the worker ([worker_add_client]), whose
    event loop reads it ([worker_on_new_client]). The threads run in any order, so an
    execution is a sequence of inputs: a connection that is accepted, a pipe that is
    read, an event of a worker. *)
From S2P Require Import Prelude Types Uri Msgpack World Conf Pool Cmd Format Hiredis Client WebSocket Worker Events Resp.

Local Open Scope Z_scope.

Module Server.
Import World Conf Pool Msgpack Client Worker Events.

(** [struct server]: the configuration, the worker that gets the next client, and for
    every worker its thread's state and the clients written into its pipe, as the
    descriptor and the address they are made from. *)
Record server := mk_server {
  srv_cfg : conf;
  srv_next_worker : Z;
  srv_workers : list (world * list (Z * Z)) }.

Section Server.
Context `{Packer} `{Resp.Strtod} `{HttpParser}.

(** [server_new], behind [conf_read]: [answers] is what each worker's connections and
    allocations will meet. *)
Definition server_new (cfg : conf) (answers : nat -> list connect_result * list bool) : server :=
  mk_server cfg 0
    (map (fun i => (worker_new cfg (answers i).1 (answers i).2, []))
       (seq 0 (Z.to_nat (cfg_http_threads cfg)))).

(** [worker_main] of every worker, up to its loop. *)
Fixpoint start_workers (l : list (world * list (Z * Z))) : option (list (world * list (Z * Z))) :=
  match l with
  | [] => Some []
  | (w, link) :: rest =>
      match worker_pool_connect w with
      | Ok _ w' => cons (w', link) <$> start_workers rest
      | Fault _ => None
      end
  end.

Definition server_start (s : server) : option server :=
  mk_server (srv_cfg s) (srv_next_worker s) <$> start_workers (srv_workers s).

(** [worker_add_client]. *)
Definition worker_add_client (c : Z * Z) (l : world * list (Z * Z)) : world * list (Z * Z) := (l.1, l.2 ++ [c]).

(** [server_can_accept]; [client_fd] is what [accept] returns. A server without
    workers reads outside its array. *)
Definition server_can_accept (client_fd addr : Z) (s : server) : option server :=
  match srv_workers s !! Z.to_nat (srv_next_worker s) with
  | None => None
  | Some w =>
      if 0 <? client_fd then
        Some (mk_server (srv_cfg s) (Z.rem (srv_next_worker s + 1) (cfg_http_threads (srv_cfg s)))
                (<[Z.to_nat (srv_next_worker s) := worker_add_client (client_fd, addr) w]> (srv_workers s)))
      else Some s
  end.

Inductive server_input :=
| Accept (client_fd addr : Z)
| Deliver (i : nat)
| Work (i : nat) (x : input).

(** An input of the event loop of a worker: the new clients come from the pipe. *)
Definition worker_step (x : input) (l : world * list (Z * Z)) : option (world * list (Z * Z)) :=
  match x with
  | NewClient _ _ => Some l
  | _ => match dispatch x l.1 with Ok _ w' => Some (w', l.2) | Fault _ => None end
  end.

Definition worker_deliver (l : world * list (Z * Z)) : option (world * list (Z * Z)) :=
  match l.2 with
  | [] => Some l
  | (fd, addr) :: link => match dispatch (NewClient fd addr) l.1 with Ok _ w' => Some (w', link) | Fault _ => None end
  end.

Definition at_worker (i : nat) (f : world * list (Z * Z) -> option (world * list (Z * Z))) (s : server)
  : option server :=
  match srv_workers s !! i with
  | None => Some s
  | Some l => l' ← f l; Some (mk_server (srv_cfg s) (srv_next_worker s) (<[i := l']> (srv_workers s)))
  end.

(** [None] is the end of the process. *)
Definition server_step (x : server_input) (s : server) : option server :=
  match x with
  | Accept fd addr => server_can_accept fd addr s
  | Deliver i => at_worker i worker_deliver s
  | Work i x => at_worker i (worker_step x) s
  end.

Fixpoint server_run (l : list server_input) (s : server) : option server :=
  match l with
  | [] => Some s
  | x :: rest => s ← server_step x s; server_run rest s
  end.

End Server.

(** ** The share of a worker *)

(** The clients of an execution, in the order they were accepted. *)
Definition accepted (l : list server_input) : list (Z * Z) :=
  omap (fun x => match x with Accept fd addr => if 0 <? fd then Some (fd, addr) else None | _ => None end) l.

(** Every [k]-th client, from the [i]-th on; [j] counts them. *)
Fixpoint deal (k i j : nat) (l : list (Z * Z)) : list (Z * Z) :=
  match l with
  | [] => []
  | c :: rest => (if (j mod k =? i)%nat then [c] else []) ++ deal k i (S j) rest
  end.

Definition new_clients (l : list input) : list (Z * Z) :=
  omap (fun x => match x with NewClient fd addr => Some (fd, addr) | _ => None end) l.

Lemma deal_app k i j l1 l2 : deal k i j (l1 ++ l2) = deal k i j l1 ++ deal k i (j + length l1) l2.
Proof.
  revert j. induction l1 as [|c l1 IH]; intros j; cbn [deal app length]; [by rewrite Nat.add_0_r|].
  rewrite IH, <-app_assoc. by replace (S j + length l1)%nat with (j + S (length l1))%nat by lia.
Qed.

Lemma length_deal k i l : (i < k)%nat -> length (deal k i 0 l) = ((length l + k - 1 - i) / k)%nat.
Proof.
  intros Hi. induction l as [|c l IH] using rev_ind; [by cbn; rewrite Nat.div_small by lia|].
  rewrite deal_app, !length_app, IH. cbn [deal length app Nat.add]. rewrite app_nil_r.
  replace (length l + 1 + k - 1 - i)%nat with (S (length l + k - 1 - i)) by lia.
  pose proof (Nat.div_mod_eq (length l) k) as Hd. pose proof (Nat.mod_upper_bound (length l) k ltac:(lia)) as Hr.
  set (q := (length l / k)%nat) in *. set (r := (length l mod k)%nat) in *. rewrite Hd.
  destruct (Nat.eqb_spec r i) as [E|E]; cbn [length]; [|destruct (Nat.lt_ge_cases r i)].
  - rewrite <-(Nat.div_unique (S _) k (S q) 0), <-(Nat.div_unique _ k q (k - 1)) by lia. lia.
  - rewrite <-(Nat.div_unique (S _) k q (r + k - i)), <-(Nat.div_unique _ k q (r + k - 1 - i)) by lia. lia.
  - rewrite <-(Nat.div_unique (S _) k (S q) (r - i)), <-(Nat.div_unique _ k (S q) (r - 1 - i)) by lia. lia.
Qed.

(** ** The invariant of an execution *)

Section Run.
Context `{Packer} `{Resp.Strtod} `{HttpParser}.
Context (cfg : conf) (ws : list world).

Let k := length ws.

(** Worker [i], started as [w], has handled inputs of which the new clients are the
    first of its share, and the rest of its share is in its pipe. *)
Definition serves (acc : list (Z * Z)) (i : nat) (w : world) (l : world * list (Z * Z)) : Prop :=
  exists inputs, dispatch_all inputs w = Ok () l.1 /\ new_clients inputs ++ l.2 = deal k i 0 acc.

Record dealt (acc : list (Z * Z)) (s : server) : Prop := {
  d_cfg : srv_cfg s = cfg;
  d_next : srv_next_worker s = Z.of_nat (length acc mod k);
  d_workers : length (srv_workers s) = k;
  d_serves : forall i w l, ws !! i = Some w -> srv_workers s !! i = Some l -> serves acc i w l }.

Lemma dispatch_all_snoc l x (w w1 w2 : world) :
  dispatch_all l w = Ok () w1 -> dispatch x w1 = Ok () w2 -> dispatch_all (l ++ [x]) w = Ok () w2.
Proof using.
  revert w. induction l as [|y l IH]; intros w; cbn [dispatch_all app].
  - intros [= ->] ->. done.
  - destruct (dispatch y w) as [[] w'|]; [|done]. intros E1 E2. by apply IH.
Qed.

Lemma deal_snoc i acc c :
  deal k i 0 (acc ++ [c]) = deal k i 0 acc ++ (if (length acc mod k =? i)%nat then [c] else []).
Proof using. rewrite deal_app. cbn [deal Nat.add]. by rewrite app_nil_r. Qed.

Lemma at_worker_dealt acc i f s s' :
  dealt acc s -> at_worker i f s = Some s' ->
  (forall w l l', ws !! i = Some w -> serves acc i w l -> f l = Some l' -> serves acc i w l') -> dealt acc s'.
Proof using.
  intros [H1' H2 H3 H4] E Hf. unfold at_worker in E.
  destruct (srv_workers s !! i) as [l|] eqn:El; [|by injection E as <-].
  destruct (f l) as [l'|] eqn:Ef; [|done]. injection E as <-. split; cbn; try done.
  - by rewrite length_insert.
  - intros j w m Hw Hm. apply list_lookup_insert_Some in Hm as [(-> & -> & _)|[_ Hm]]; [|by eapply H4].
    eapply Hf; [done|by eapply H4|done].
Qed.

Lemma worker_deliver_serves acc i w l l' :
  serves acc i w l -> worker_deliver l = Some l' -> serves acc i w l'.
Proof using.
  intros (inputs & Hin & Hd). unfold worker_deliver. destruct l as [v [|[fd addr] link]]; cbn in *.
  - intros [= <-]. by exists inputs.
  - destruct (worker_on_new_client fd addr v) as [[] v'|] eqn:E; [|done]. intros [= <-].
    exists (inputs ++ [NewClient fd addr]). split; [by eapply dispatch_all_snoc|]. cbn.
    unfold new_clients in *. rewrite omap_app, <-app_assoc. done.
Qed.

Lemma worker_step_serves acc i w x l l' :
  serves acc i w l -> worker_step x l = Some l' -> serves acc i w l'.
Proof using.
  intros (inputs & Hin & Hd) E.
  assert (new_clients [x] = [] \/ l' = l) as [Hx| ->]; [|destruct (dispatch x l.1) as [[] v|] eqn:Ex|by exists inputs].
  { destruct x; auto. right. by injection E as <-. }
  - exists (inputs ++ [x]). assert (l' = (v, l.2)) as -> by (destruct x; try discriminate Hx; unfold worker_step in E; rewrite Ex in E; by injection E as <-).
    split; [by eapply dispatch_all_snoc|]. unfold new_clients in *. by rewrite omap_app, Hx, app_nil_r.
  - by destruct x; try discriminate Hx; unfold worker_step in E; rewrite Ex in E.
Qed.

Lemma accept_dealt acc fd addr s s' :
  cfg_http_threads cfg = Z.of_nat k -> dealt acc s -> server_can_accept fd addr s = Some s' ->
  dealt (acc ++ accepted [Accept fd addr]) s'.
Proof using.
  intros Hk Hs. pose proof Hs as [H1' H2 H3 H4]. unfold server_can_accept, accepted. cbn [omap list_omap].
  destruct (srv_workers s !! Z.to_nat (srv_next_worker s)) as [l|] eqn:El; [|done].
  destruct (0 <? fd); [|intros [= <-]; by rewrite app_nil_r]. intros [= <-].
  assert (k <> 0)%nat as Hk0 by (intros E; rewrite E in H3; by destruct (srv_workers s)).
  rewrite H2, Nat2Z.id in El. split; cbn.
  - done.
  - rewrite H1', H2, Hk, length_app. cbn [length]. rewrite <-(Nat2Z.inj_add _ 1), Z.rem_mod_nonneg, <-Nat2Z.inj_mod by lia.
    by rewrite Nat.Div0.add_mod_idemp_l.
  - by rewrite length_insert.
  - intros i w m Hw Hm. rewrite H2, Nat2Z.id in Hm. apply list_lookup_insert_Some in Hm as [(<- & <- & _)|[Hne Hm]].
    + destruct (H4 _ _ _ Hw El) as (inputs & ? & Hd). exists inputs. split; [done|]. cbn.
      rewrite deal_snoc, Nat.eqb_refl, <-Hd. by rewrite app_assoc.
    + destruct (H4 _ _ _ Hw Hm) as (inputs & ? & Hd). exists inputs. split; [done|].
      rewrite deal_snoc, (proj2 (Nat.eqb_neq _ _)), app_nil_r by done. done.
Qed.

Lemma run_dealt inputs acc s s' :
  cfg_http_threads cfg = Z.of_nat k -> dealt acc s -> server_run inputs s = Some s' ->
  dealt (acc ++ accepted inputs) s'.
Proof using.
  intros Hk. revert acc s. induction inputs as [|x inputs IH]; intros acc s Hs; cbn [server_run].
  { intros [= <-]. by rewrite app_nil_r. }
  destruct (server_step x s) as [s1|] eqn:E; [|done]. cbn [mbind option_bind].
  assert (accepted (x :: inputs) = accepted [x] ++ accepted inputs) as ->
    by (unfold accepted; cbn; by destruct x; repeat case_match).
  rewrite app_assoc. apply IH. destruct x as [fd addr|i|i x]; cbn in E.
  - by eapply accept_dealt.
  - rewrite app_nil_r. eapply at_worker_dealt; [done..|]. intros w l l' _. apply worker_deliver_serves.
  - rewrite app_nil_r. eapply at_worker_dealt; [done..|]. intros w l l' _. apply worker_step_serves.
Qed.

End Run.

Section Properties.
Context `{Packer} `{Resp.Strtod} `{HttpParser}.

Lemma start_workers_spec l l' :
  start_workers l = Some l' ->
  Forall2 (fun a b => worker_pool_connect a.1 = Ok () b.1 /\ b.2 = a.2) l l'.
Proof using.
  revert l'. induction l as [|[w link] l IH]; intros l'; cbn [start_workers]; [by intros [= <-]|].
  destruct (worker_pool_connect w) as [[] w'|] eqn:E; [|done].
  destruct (start_workers l) as [r|]; [|done]. intros [= <-]. constructor; [done|]. by apply IH.
Qed.

(** A server that has started has dealt nothing yet. *)
Lemma start_dealt cfg answers s :
  server_start (server_new cfg answers) = Some s ->
  dealt cfg (srv_workers s).*1 [] s /\ length (srv_workers s) = Z.to_nat (cfg_http_threads cfg) /\
  Forall (reachable cfg) (srv_workers s).*1.
Proof using.
  unfold server_start, server_new. cbn [srv_workers srv_cfg srv_next_worker].
  destruct (start_workers _) as [l|] eqn:E; [|done]. intros [= <-]. cbn [srv_workers].
  apply start_workers_spec in E. pose proof (Forall2_length _ _ _ E) as Hlen. rewrite length_map, length_seq in Hlen.
  split; [|split; [done|]].
  - split; cbn; [done| |by rewrite length_fmap|].
    + by rewrite Nat.Div0.mod_0_l.
    + intros i w m Hw Hm. rewrite list_lookup_fmap, Hm in Hw. injection Hw as <-. exists []. split; [done|].
      destruct (Forall2_lookup_r _ _ _ _ _ E Hm) as (a & Ha & _ & ->).
      rewrite list_lookup_fmap in Ha. by destruct (seq 0 _ !! i); simplify_eq/=.
  - apply Forall_fmap, Forall_lookup. intros i m Hm. cbn.
    destruct (Forall2_lookup_r _ _ _ _ _ E Hm) as (a & Ha & Hc & _).
    rewrite list_lookup_fmap in Ha. destruct (seq 0 _ !! i); simplify_eq/=. by eapply reach_start.
Qed.

(** C15: the server deals its clients to the workers evenly and loses none. However the
    threads interleave, every worker is in a state of the worker alone, reached from its
    own start with the clients that the server gave it; these, followed by the ones
    still in its pipe, are every [k]-th client accepted, in order; the shares of two
    workers differ by at most one client; and the server can always accept another. *)
Theorem server_deals cfg answers s0 inputs s :
  let k := Z.to_nat (cfg_http_threads cfg) in
  1 <= cfg_http_threads cfg ->
  server_start (server_new cfg answers) = Some s0 -> server_run inputs s0 = Some s ->
  length (srv_workers s) = k /\
  (forall i w link, srv_workers s !! i = Some (w, link) ->
    reachable cfg w /\
    (exists w0 l, (srv_workers s0).*1 !! i = Some w0 /\ dispatch_all l w0 = Ok () w /\
       new_clients l ++ link = deal k i 0 (accepted inputs)) /\
    (forall j, (j < k)%nat ->
       (length (deal k i 0 (accepted inputs)) <= length (deal k j 0 (accepted inputs)) + 1)%nat)) /\
  (forall fd addr, is_Some (server_can_accept fd addr s)).
Proof using.
  intros k Hthreads Hs0 Hs. destruct (start_dealt cfg answers s0 Hs0) as (Hd & Hlen & Hreach). fold k in Hlen.
  assert (length (srv_workers s0).*1 = k) as Hk by (by rewrite length_fmap).
  apply (run_dealt cfg (srv_workers s0).*1 inputs [] s0 s) in Hs; [|lia|done]. cbn [app] in Hs.
  destruct Hs as [_ Hn Hw Hsv]. rewrite Hk in Hn, Hw. split; [done|]. split.
  - intros i w link Hi. assert (i < k)%nat as Hik by (rewrite <-Hw; by eapply lookup_lt_Some).
    destruct (lookup_lt_is_Some_2 (srv_workers s0).*1 i ltac:(lia)) as [w0 Hw0].
    destruct (Hsv i w0 (w, link) Hw0 Hi) as (l & Hl & Hdeal). rewrite Hk in Hdeal. cbn [fst snd] in *. split; [|split].
    + eapply dispatch_all_reachable; [|exact Hl]. rewrite Forall_lookup in Hreach. by eapply Hreach.
    + eauto.
    + intros j Hj. rewrite !length_deal by done. set (n := length (accepted inputs)).
      etrans; [apply (Nat.Div0.div_le_mono _ (n + k - 1 - j + 1 * k)); lia|]. by rewrite Nat.div_add by lia.
  - intros fd addr. unfold server_can_accept. rewrite Hn, Nat2Z.id.
    destruct (lookup_lt_is_Some_2 (srv_workers s) (length (accepted inputs) mod k)) as [l ->].
    { rewrite Hw. apply Nat.mod_upper_bound. lia. }
    destruct (0 <? fd); eauto.
Qed.

End Properties.

Definition two_workers : conf := set_cfg_http_threads 2 websocket_conf.

Definition arrivals : list server_input := [Accept 7 0; Accept 8 0; Deliver 0; Accept 9 0; Accept (-1) 0; Deliver 1].

Lemma server_deals_witness :
  let P : Packer := fun _ => [] in
  let S : Resp.Strtod := fun _ => false in
  let H : HttpParser := example_parser in
  exists s, server_start (server_new two_workers (fun _ => ([], []))) ≫= server_run arrivals = Some s /\
    exists w, srv_workers s !! 0%nat = Some (w, [(9, 0)]) /\ reachable two_workers w.
Proof.
  intros P S H. destruct (server_start (server_new two_workers (fun _ => ([], [])))) as [s0|] eqn:E0; [|by vm_compute in E0].
  cbn [mbind option_bind]. destruct (server_run arrivals s0) as [s|] eqn:E.
  - exists s. split; [done|].
    destruct (server_deals two_workers (fun _ => ([], [])) s0 arrivals s ltac:(done) E0 E) as (_ & Hw & _).
    vm_compute in E0. injection E0 as <-. vm_compute in E. injection E as <-.
    eexists. split; [reflexivity|]. by eapply (Hw 0%nat).
  - vm_compute in E0. injection E0 as <-. by vm_compute in E.
Defined.

End Server.
